(* ===== verification/_CoqProject ===== *)
-Q . S2P
Prelude.v
Errors.v
Utf8.v
GoJson.v
JsonFacts.v
Canonical.v
CanonicalProps.v
RawFacts.v
GoTime.v
Base64.v
Sha256.v
Crypto.v
Signed.v
Identity.v
Trust.v
Session.v
SessionProps.v
Control.v
Envelope.v
Provisioning.v
GoStrings.v
Config.v
Recovery.v
Descriptor.v
AuditHash.v
Storage.v
Payload.v
Logging.v
Sorting.v
Queue.v
Replay.v
Uuid.v
Keyring.v
Sql.v
Repository.v
RepositoryProps.v
Delivery.v
TrustStore.v
NonceStore.v
Http.v
TrustServer.v
TrustServerProps.v
RelayServer.v
RelaySteps.v
RelayServerProps.v
Runner.v
Conformance.v
ConformanceProps.v
ConformanceVerdict.v
ConformanceReport.v
Cli.v
CliProps.v
Regexp.v
Ci.v
CiProps.v
CiMain.v
Startup.v
Simulator.v
