(* ===== verification/Prelude.v ===== *)
(** * ISCP: a verification development

    ISCP is a Go implementation of a protocol by which devices that trust the
    same root talk to each other through a relay that cannot read what they
    say.  This library models the protocol packages ([src/pkg/iscp]), the
    server packages ([src/pkg/server]), the two reference services
    ([src/services]), the conformance runner ([src/conformance]) and the tools
    ([src/tools]), and proves what they promise.

    ** The program and how its parts interact

    - A device has an identity key ([identity]) and proves that it holds it by
      signing a challenge (a device proof).
    - A trust root registers devices, authorizes them under a permission policy
      and signs grants ([trust]); it publishes a feed of revocations.
    - A relay binds devices to access and refresh credentials against a proof
      or a pairing ticket ([provisioning]), accepts envelopes addressed to other
      devices, keeps them in a bounded queue or a message table and hands them
      out over a WebSocket.
    - Two devices run a handshake of signed hellos and confirmed ready messages
      ([session]) and then exchange encrypted envelopes ([envelope]).
    - Everything that is signed, hashed or bound as additional data goes through
      one canonical JSON form ([canonical]).
    - The conformance runner drives all of these on fixtures and decides whether
      a release may go out; the command line tool [iscp] runs it and judges its
      report, and [iscp-ci] checks schemas, routes, requirements and the
      database of a checkout.

    ** Files

    Foundations: what the source uses of Go and its standard library.
    - [Prelude] bytes, strings, machine integers, generic lemmas and tactics;
    - [Errors] [pkg/iscp/errors] and the result monad: [(T, error)] is
      [result T];
    - [Utf8], [GoStrings], [GoTime], [Base64], [Sha256] the parts of
      [unicode/utf8], [strings], [time], [encoding/base64], [crypto/sha256] and
      [crypto/hmac] that are called, all executable;
    - [GoJson], [JsonFacts] [encoding/json]: encoder, literal scanner and the
      token reader with its state machine, and that the scanner reads back what
      the encoder wrote;
    - [RawFacts] that what [encoding/json] compacts of its own output is that
      output, so raw members read back;
    - [Regexp] the regular expressions the checks use, as a backtracking
      matcher, and the rest of [strings] and [time] they need;
    - [Sorting] [sort.Slice] with its contract;
    - [Sql] the statements of [pkg/server/repository/domain.go] on typed tables.

    Protocol packages ([src/pkg/iscp/<name>/<name>.go] unless said otherwise).
    - [Canonical], [CanonicalProps]; [Crypto]; [Identity]; [Trust];
      [Session], [SessionProps]; [Control] ([session/control.go]); [Envelope];
      [Provisioning]; [Config]; [Recovery]; [Descriptor]; [Storage];
      [Payload] (also [hotsession]); [Logging] ([logging/redact.go]).
    - [Signed] is the interface between the structs that carry a signature and
      the code that signs and checks them; proofs, grants, hellos, ready and
      control messages, descriptors, tickets and bundles are its instances.

    Server packages ([src/pkg/server]).
    - [Queue] ([queue]), [Replay] ([replay], [ratelimit]), [Uuid]
      ([postgres/uuid.go]), [Keyring] ([keyring], [policy]), [Repository]
      ([repository], [cleanup]) with its theorems in [RepositoryProps],
      [Delivery] (messages) and [TrustStore] (trust root tables), [NonceStore]
      (one specification of proof nonces, three stores that refine it), [Http]
      ([httpx] and the request helpers of the services), [AuditHash] ([audit]).

    Services ([src/services]).
    - [TrustServer], [TrustServerProps]: the trust root's [server.go], every
      handler, with and without a database;
    - [RelayServer]: the relay's [server.go], every handler, the WebSocket
      conversation, with and without a database; [RelaySteps]: the writes of the
      handlers as a step relation that every request is shown to follow;
      [RelayServerProps]: what holds of it;
    - [Startup]: [pkg/server/postgres/migrate.go] and the two mains
      ([cmd/relayd], [cmd/trustd]), up to the listener.

    Tools.
    - [Runner]: the machine on which cases and commands run (clock, randomness,
      network, a result that may be an error, a skip or a panic);
      [Conformance]: [conformance/runner.go] and [runner_v02.go], every case and
      verdict; [ConformanceReport]: the report's text; [ConformanceProps]: each
      required case passes; [ConformanceVerdict]: the run as a whole;
    - [Cli], [CliProps]: [tools/iscp-cli], every command;
    - [Ci], [CiProps]: [tools/iscp-ci], every check; [CiMain]: its [main] and the
      search for the repository;
    - [Simulator]: [examples/phone-watch-simulator].

    ** How the code is modelled

    Fallible functions are in the [result] monad, repository methods in [Q]
    (tables, and a stream that says which statements fail), handlers in [H]
    (server state, tables, clock, randomness; writing a response ends the
    handler), cases and commands in [M] (the machine above).  A function that changes an object it is given returns the new
    object beside its result, also when it fails.  Go strings are byte strings,
    [int64] and [uint64] are integers with their range tests or wrap-around
    written out, maps are [gmap]s, maps whose order is unobservable in the JSON
    model are association lists, slices filtered in place are swept over their
    shared backing array.

    Code outside the repository is a parameter, a class with its laws and an
    executable instance that shows the laws can hold:
    - [CryptoOps]/[CryptoLaws] ([ToyCrypto]): Ed25519, X25519, HKDF and
      ChaCha20-Poly1305, whose laws are lengths, totality, that what is signed
      or sealed is accepted, that agreement commutes, and that a ciphertext
      which opens is the sealing of what it opens to; no theorem assumes that
      signatures cannot be forged: the soundness theorems say which signature or
      tag was checked over which bytes, and that those bytes determine the
      object;
    - [Postgres]/[PostgresLaws] ([TruncatingServer]): rounding of timestamps,
      normal form of JSON columns, order of rows;
    - [MapRange]/[MapRangeLaws], [SortSlice]/[SortLaws]: iteration over a map,
      [sort.Slice];
    - [Decode], [UnmarshalInto]: reflection-driven decoding of a request body
      into a struct; [Url], [WebSocket], [Peer]: [net/url], the upgrade, and the
      client at the other end of a connection;
    - [HttpClient], [Env], [Os], [RepoFiles], [Pool], [EmbedFS], [Migrates],
      [Connects]: the network, the environment, the file system, the database
      pool and what a migration's text does;
    - [AeadBinds] is the one law beyond the others, for the conformance cases
      that expect a refusal: a ciphertext sealed under one key and additional
      data does not open under others;
    - the clock and the source of randomness are streams; every reading takes
      the next element, so the readings of one handler may differ.

    ** What the theorems show

    - Handshake and channel ([SessionProps], [Envelope], [Control]): an honest
      handshake completes and both ends derive mirrored keys; a hello or ready
      message is accepted only with the peer's signature over all its members
      and this transcript; nonces never repeat below the counter's bound; of the
      copies of an envelope the first is accepted and every other refused; what
      decrypts was sealed under the receiving key with this header.
    - Signed objects ([Identity], [Trust], [Descriptor], [Recovery],
      [Provisioning], [Signed]): what is signed verifies, and what verifies
      carries a signature of the key it names over every member and meets every
      condition of its check;
      tickets are consumed exactly as often as they allow.
    - Canonical JSON ([CanonicalProps]): the parser answers on every input, the
      canonical text reads back as the sorted value, is blind to member order,
      and the signature input binds type and members.
    - Queues, stores, limits ([Queue], [Replay], [NonceStore], [Delivery],
      [RepositoryProps], [TrustStore]): the queue stays within its bounds and
      delivers by priority; the rate limiter is exact; all nonce stores refine
      one specification; claims are exclusive under their lease and repeated
      claims drain the table; the tables keep their constraints under any
      sequence of calls with statements failing anywhere.
    - Trust root ([TrustServerProps]): a grant the service issues verifies; the
      feed is read completely page by page; one signing key is active; a revoked
      device is never authorized again.
    - Relay ([RelayServerProps]): the state invariant over every request
      sequence; a connection serves the device whose identity verified the
      proof; an accepted envelope names its authenticated sender and reaches the
      recipient's next connection; revoked devices never connect; refresh
      rotates credentials; registration in production needs a signed ticket; the
      relay's ticket counts refine those of the provisioning package.  Where a
      theorem is about the relay without a database its statement says so.

    - Start-up ([Startup]): migrations run in name order, each as a whole; a
      service listens only when its configuration suits its profile and its
      database is migrated.
    - Conformance ([ConformanceVerdict]): with enough randomness every required
      case passes, so [ValidateP0] accepts the report; the release decision of a
      report is the one [ValidateRelease] takes.
    - Audit log ([AuditHash]): two logs whose chains end in the same hash are the
      same log, or two of their entries collide under SHA-256.
    - Tools ([CliProps], [CiProps], [Simulator]): reports stay under
      [conformance/] and are judged later as they were when written; the demos
      deliver their payload; a check that passes shows what it is for, and the
      database check passes on the repositories.

    Some [Example]s record behaviour that departs from what the code or its
    documents intend (for instance [Envelope.Decrypt_forgery_blocks_genuine],
    [TrustServerProps.revoked_grant_still_valid],
    [RelayServerProps.refresh_race]); each runs the model on a concrete input.

    ** Bounds and fuel

    The JSON reader recurses on fuel: [parse_fuel] is twice the input's length
    plus two, since two nested calls of [parseValue], [parseObject] and
    [parseArray] consume at least one byte, and [scan_fuel] is one more than
    twice the length for the same reason.  [CanonicalProps.ParseStrict_total]
    shows that the parser never runs out.  The command line tool calls itself
    once, through the conformance runner, whose commands do not run it again:
    [Cli.run] has fuel for the nesting and [CliProps.run_fuel] shows that more
    changes nothing.  Matching a regular expression and searching for the root of
    a checkout are bounded by the length of the text and of the path.  All other
    loops follow their data.  The services' page sizes, batch sizes and time
    windows are the constants of the source.

    ** Not modelled

    - The HTTP listener, the WebSocket transport and the PostgreSQL server
      themselves, and the deadlines of contexts and connections.
    - Reflection-driven decoding of JSON into structs ([Decode] above).
    - Handlers run one after another.  The services guard each access with a
      mutex rather than each request, so handlers can interleave; this is
      modelled where it matters, for the two halves of a refresh
      ([RelayServerProps.refresh_race]).
    - Timing, including the constant-time comparison of tokens, and failing
      file operations of the key stores.
*)
From Stdlib Require Import ZArith Lia Strings.Byte Ascii.
From stdpp Require Import sorting numbers gmap strings base list.

(** ** Bytes and Go strings

    A Go [string] is a Rocq [string] (a sequence of 8-bit characters); a Go
    [[]byte] is a [list byte].  The conversions [[]byte(s)] and [string(b)]
    copy the bytes unchanged. *)

Abbreviation bytes := (list byte).

Definition b2z (b : byte) : Z := Z.of_N (Byte.to_N b).

Definition z2b (z : Z) : byte :=
  match Byte.of_N (Z.to_N (z mod 256)) with
  | Some b => b
  | None => x00
  end.

Definition go_bytes (s : string) : bytes := String.list_byte_of_string s.

Definition go_string (b : bytes) : string := String.string_of_list_byte b.

#[export] Instance byte_eq_decision : EqDecision byte := Byte.byte_eq_dec.

(** ** Machine integers *)

Definition wrap_i64 (z : Z) : Z := (z + 2 ^ 63) mod 2 ^ 64 - 2 ^ 63.

Definition wrap_u64 (z : Z) : Z := z mod 2 ^ 64.

Definition in_i64 (z : Z) : bool := (- 2 ^ 63 <=? z)%Z && (z <? 2 ^ 63)%Z.

Definition in_u64 (z : Z) : bool := (0 <=? z)%Z && (z <? 2 ^ 64)%Z.

(** [lia] with division and remainder by constants. *)
Ltac divmod_lia := Z.to_euclidean_division_equations; lia.

Ltac bool_prop :=
  repeat match goal with
  | H : _ && _ = true |- _ => apply andb_true_iff in H as [? ?]
  | H : _ || _ = false |- _ => apply orb_false_iff in H as [? ?]
  | H : negb _ = false |- _ => apply negb_false_iff in H
  | H : negb _ = true |- _ => apply negb_true_iff in H
  | H : bool_decide _ = true |- _ => apply bool_decide_eq_true in H
  | H : bool_decide _ = false |- _ => apply bool_decide_eq_false in H
  end.

(** ** Lemmas on bytes and strings *)

Lemma b2z_range b : (0 <= b2z b < 256)%Z.
Proof. unfold b2z. pose proof (Byte.to_N_bounded b). lia. Qed.

Lemma b2z_inj b c : b2z b = b2z c -> b = c.
Proof.
  unfold b2z. intros H%N2Z.inj.
  apply (f_equal Byte.of_N) in H. rewrite !Byte.of_to_N in H. congruence.
Qed.

Lemma b2z_z2b z : (0 <= z < 256)%Z -> b2z (z2b z) = z.
Proof.
  intros Hz. unfold b2z, z2b. rewrite Z.mod_small by lia.
  destruct (Byte.of_N (Z.to_N z)) eqn:E.
  - apply Byte.to_of_N in E. rewrite E. lia.
  - apply Byte.of_N_None_iff in E. lia.
Qed.

Lemma z2b_b2z b : z2b (b2z b) = b.
Proof. apply b2z_inj. rewrite b2z_z2b; [done|apply b2z_range]. Qed.

Lemma z2b_eq z b : z = b2z b -> z2b z = b.
Proof. intros ->. apply z2b_b2z. Qed.

Lemma go_string_bytes s : go_string (go_bytes s) = s.
Proof. apply String.string_of_list_byte_of_string. Qed.

Lemma go_bytes_string b : go_bytes (go_string b) = b.
Proof. apply String.list_byte_of_string_of_list_byte. Qed.

#[export] Instance go_bytes_inj : Inj (=) (=) go_bytes.
Proof. intros s t H. by rewrite <- (go_string_bytes s), H, go_string_bytes. Qed.

#[export] Instance go_string_inj : Inj (=) (=) go_string.
Proof. intros s t H. by rewrite <- (go_bytes_string s), H, go_bytes_string. Qed.

Lemma go_bytes_app s t : go_bytes (s +:+ t) = go_bytes s ++ go_bytes t.
Proof.
  unfold go_bytes, String.list_byte_of_string.
  induction s as [|a s IH]; [done|]. simpl. by f_equal.
Qed.

Lemma wrap_i64_id z : in_i64 z = true -> wrap_i64 z = z.
Proof. unfold in_i64, wrap_i64. intros. rewrite Z.mod_small; lia. Qed.

Lemma wrap_i64_range z : in_i64 (wrap_i64 z) = true.
Proof.
  unfold in_i64, wrap_i64.
  pose proof (Z.mod_pos_bound (z + 2 ^ 63) (2 ^ 64)). lia.
Qed.

Lemma wrap_u64_id z : in_u64 z = true -> wrap_u64 z = z.
Proof. unfold in_u64, wrap_u64. intros. rewrite Z.mod_small; lia. Qed.

(** ** Lemmas on lists *)

Lemma Forall_mp2 {A} (P Q R : A -> Prop) l :
  Forall P l -> Forall Q l -> (forall x, P x -> Q x -> R x) -> Forall R l.
Proof. intros HP HQ H. rewrite Forall_forall in *. eauto. Qed.
