(* ===== verification/Errors.v ===== *)
(** * Errors: [pkg/iscp/errors/errors.go] and the result monad

    The error values of the program and the monad in which every fallible
    function of the model lives.  A Go function returning [(T, error)] is a
    function into [result T]; one returning only [error] is a function into
    [result unit]. *)
From stdpp Require Import strings base list.
From S2P Require Import Prelude.

(** ** Error values

    [error] values of the program: [iscperrors.ISCPError] (code, message,
    retryable flag, wrapped cause), the sentinel [pgx.ErrNoRows], the
    database's errors with their SQLSTATE code, and every other error value,
    which the program only propagates. *)

Inductive Code :=
| CodeCanonicalInvalid
| CodeSchemaInvalid
| CodeSignatureInvalid
| CodeKeyInvalid
| CodeTrustInvalid
| CodeSessionInvalid
| CodeEnvelopeInvalid
| CodeReplayDetected
| CodeAccessInvalid
| CodeProvisionInvalid
| CodeConfigInvalid
| CodeStorageInvalid.

Inductive error :=
| ISCPError (code : Code) (message : string) (retryable : bool) (cause : option error)
| ErrNoRows
| PgError (sqlstate : string)
| PlainError (what : string).

Inductive result (A : Type) :=
| Ok (a : A)
| Err (e : error).
Arguments Ok {A} a.
Arguments Err {A} e.

#[export] Instance result_ret : MRet result := fun A a => Ok a.

#[export] Instance result_bind : MBind result := fun A B f m =>
  match m with
  | Ok a => f a
  | Err e => Err e
  end.

#[export] Instance result_fmap : FMap result := fun A B f m =>
  match m with
  | Ok a => Ok (f a)
  | Err e => Err e
  end.

Definition of_option {A} (e : error) (o : option A) : result A :=
  match o with
  | Some a => Ok a
  | None => Err e
  end.

(** [if cond { return err }]: the guard every validation step of the code is. *)
Definition reject_if (b : bool) (e : error) : result unit :=
  if b then Err e else Ok tt.

Definition is_ok {A} (r : result A) : bool :=
  match r with Ok _ => true | Err _ => false end.

(** ** [errors.go] *)

Definition code_string (c : Code) : string :=
  match c with
  | CodeCanonicalInvalid => "ISCPCAN001"
  | CodeSchemaInvalid => "ISCPCAN002"
  | CodeSignatureInvalid => "ISCPSIG001"
  | CodeKeyInvalid => "ISCPKEY001"
  | CodeTrustInvalid => "ISCPTRUST001"
  | CodeSessionInvalid => "ISCPSESSION001"
  | CodeEnvelopeInvalid => "ISCPENV001"
  | CodeReplayDetected => "ISCPENV002"
  | CodeAccessInvalid => "ISCPACCESS001"
  | CodeProvisionInvalid => "ISCPPROV001"
  | CodeConfigInvalid => "ISCPCFG001"
  | CodeStorageInvalid => "ISCPDB001"
  end.

Definition New (c : Code) (message : string) : error := ISCPError c message false None.

Definition Wrap (c : Code) (message : string) (err : error) : error :=
  ISCPError c message false (Some err).

Definition Retryable (c : Code) (message : string) : error := ISCPError c message true None.

(** [ISCPError.Error]; the text of a foreign error is its own. *)
Fixpoint Error (e : error) : string :=
  match e with
  | ISCPError c m _ None => code_string c +:+ ": " +:+ m
  | ISCPError c m _ (Some cause) => code_string c +:+ ": " +:+ m +:+ ": " +:+ Error cause
  | ErrNoRows => "no rows in result set"
  | PgError c => "SQLSTATE " +:+ c
  | PlainError w => w
  end.

Definition Unwrap (e : error) : option error :=
  match e with
  | ISCPError _ _ _ cause => cause
  | _ => None
  end.

(** [errors.As(err, &pgErr)]: the database error in the chain of causes. *)
Fixpoint as_pg_error (e : error) : option string :=
  match e with
  | ISCPError _ _ _ (Some cause) => as_pg_error cause
  | PgError c => Some c
  | _ => None
  end.

(** The code a caller sees, [None] for a foreign error. *)
Definition error_code (e : error) : option Code :=
  match e with
  | ISCPError c _ _ _ => Some c
  | _ => None
  end.

(** ** Lemmas on results *)

#[export] Instance Ok_inj {A} : Inj (=) (=) (@Ok A).
Proof. by intros x y [= ->]. Qed.

Lemma bind_Ok {A B} (m : result A) (f : A -> result B) b :
  m ≫= f = Ok b <-> exists a, m = Ok a /\ f a = Ok b.
Proof. destruct m; simpl; naive_solver. Qed.

Lemma reject_if_Ok b e u : reject_if b e = Ok u <-> b = false.
Proof. destruct b, u; simpl; naive_solver. Qed.

(** A guard and what follows it. *)
Lemma guard_Ok {B} b e (k : unit -> result B) u :
  reject_if b e ≫= k = Ok u <-> b = false /\ k tt = Ok u.
Proof. destruct b; simpl; naive_solver. Qed.

Lemma of_option_Ok {A} e (o : option A) a : of_option e o = Ok a <-> o = Some a.
Proof. destruct o; simpl; naive_solver. Qed.

Lemma is_ok_true {A} (r : result A) : is_ok r = true <-> exists a, r = Ok a.
Proof. destruct r; naive_solver. Qed.

(** Opens every monadic step of a hypothesis [computation = Ok _]. *)
Ltac inv_ok :=
  repeat match goal with
  | H : _ ≫= _ = Ok _ |- _ =>
      let a := fresh "v" in let H1 := fresh "E" in let H2 := fresh "E" in
      apply bind_Ok in H as (a & H1 & H2); cbv beta in H2
  | H : reject_if _ _ = Ok _ |- _ => apply reject_if_Ok in H
  | H : of_option _ _ = Ok _ |- _ => apply of_option_Ok in H
  | H : Ok _ = Ok _ |- _ => injection H as H; subst
  | H : Err _ = Ok _ |- _ => discriminate H
  | H : mret _ = Ok _ |- _ => unfold mret, result_ret in H
  | H : (if ?b then _ else Err _) = Ok _ |- _ => destruct b eqn:?; [|discriminate H]
  | H : (if ?b then Err _ else _) = Ok _ |- _ => destruct b eqn:?; [discriminate H|]
  end.


(** Performs the steps of a computation whose operands are results. *)
Ltac run := cbn [mbind result_bind reject_if of_option fmap result_fmap negb andb orb].
