(* ===== verification/Utf8.v ===== *)
(** * UTF-8: the parts of Go's [unicode/utf8] that [encoding/json] and
    [strings] rely on.

    [decode_rune] and [encode_rune] follow [utf8.DecodeRune] and
    [utf8.EncodeRune]: an ill-formed prefix decodes to [RuneError] with width
    one, a rune outside the Unicode scalar range encodes as [RuneError]. *)
From Stdlib Require Import ZArith Lia Strings.Byte Wf_nat.
From stdpp Require Import numbers strings base list.
From S2P Require Import Prelude.
Open Scope Z_scope.

Definition RuneError : Z := 65533.

(** The width a lead byte announces and the accepted range of the second byte
    (the [first] and [acceptRanges] tables); [None] for a byte that cannot lead
    a multi-byte sequence. *)
Definition lead_info (p0 : Z) : option (nat * Z * Z) :=
  if p0 <? 194 then None
  else if p0 <=? 223 then Some (2%nat, 128, 191)
  else if p0 =? 224 then Some (3%nat, 160, 191)
  else if p0 =? 237 then Some (3%nat, 128, 159)
  else if p0 <=? 239 then Some (3%nat, 128, 191)
  else if p0 =? 240 then Some (4%nat, 144, 191)
  else if p0 <=? 243 then Some (4%nat, 128, 191)
  else if p0 =? 244 then Some (4%nat, 128, 143)
  else None.

Definition in_range (lo hi : Z) (b : byte) : bool := (lo <=? b2z b) && (b2z b <=? hi).

Definition is_cont (b : byte) : bool := in_range 128 191 b.

(** [utf8.DecodeRune]: the rune and its width in bytes. *)
Definition decode_rune (s : bytes) : Z * nat :=
  match s with
  | [] => (RuneError, 0%nat)
  | p0 :: s1 =>
      if b2z p0 <? 128 then (b2z p0, 1%nat)
      else match lead_info (b2z p0), s1 with
      | Some (2%nat, lo, hi), b1 :: _ =>
          if in_range lo hi b1
          then ((b2z p0 - 192) * 64 + (b2z b1 - 128), 2%nat)
          else (RuneError, 1%nat)
      | Some (3%nat, lo, hi), b1 :: b2 :: _ =>
          if in_range lo hi b1 && is_cont b2
          then ((b2z p0 - 224) * 4096 + (b2z b1 - 128) * 64 + (b2z b2 - 128), 3%nat)
          else (RuneError, 1%nat)
      | Some (4%nat, lo, hi), b1 :: b2 :: b3 :: _ =>
          if in_range lo hi b1 && is_cont b2 && is_cont b3
          then ((b2z p0 - 240) * 262144 + (b2z b1 - 128) * 4096
                + (b2z b2 - 128) * 64 + (b2z b3 - 128), 4%nat)
          else (RuneError, 1%nat)
      | _, _ => (RuneError, 1%nat)
      end
  end.

(** [utf8.EncodeRune]. *)
Definition encode_rune (r : Z) : bytes :=
  if (0 <=? r) && (r <=? 127) then [z2b r]
  else if (0 <=? r) && (r <=? 2047) then [z2b (192 + r / 64); z2b (128 + r mod 64)]
  else if (0 <=? r) && (r <=? 65535) && negb ((55296 <=? r) && (r <=? 57343)) then
    [z2b (224 + r / 4096); z2b (128 + (r / 64) mod 64); z2b (128 + r mod 64)]
  else if (0 <=? r) && (65535 <? r) && (r <=? 1114111) then
    [z2b (240 + r / 262144); z2b (128 + (r / 4096) mod 64);
     z2b (128 + (r / 64) mod 64); z2b (128 + r mod 64)]
  else [xef; xbf; xbd].

(** [for i, r := range s]: the runes of [s] with the bytes each was read
    from.  [n] bounds the number of iterations; the length of the input is
    always enough ([runes_step]). *)
Fixpoint runes_go (n : nat) (s : bytes) : list (Z * bytes) :=
  match n, s with
  | S n, _ :: _ =>
      let d := decode_rune s in
      (d.1, take d.2 s) :: runes_go n (drop d.2 s)
  | _, _ => []
  end.

Definition runes (s : bytes) : list (Z * bytes) := runes_go (length s) s.

(** [r == utf8.RuneError && size == 1]: an ill-formed byte. *)
Definition bad_rune (p : Z * bytes) : bool :=
  (p.1 =? RuneError) && (length p.2 =? 1)%nat.

(** [utf8.Valid], and the replacement of every ill-formed byte by U+FFFD. *)
Definition valid_utf8 (s : bytes) : bool := forallb (fun p => negb (bad_rune p)) (runes s).

Definition sanitize (s : bytes) : bytes := flat_map (fun p => encode_rune p.1) (runes s).

(** ** Properties *)

Lemma lead_info_cases p0 w lo hi :
  lead_info p0 = Some (w, lo, hi) ->
  (w = 2%nat /\ 194 <= p0 <= 223 /\ lo = 128 /\ hi = 191) \/
  (w = 3%nat /\ (p0 = 224 /\ lo = 160 /\ hi = 191 \/ p0 = 237 /\ lo = 128 /\ hi = 159 \/
                 225 <= p0 <= 239 /\ p0 <> 237 /\ lo = 128 /\ hi = 191)) \/
  (w = 4%nat /\ (p0 = 240 /\ lo = 144 /\ hi = 191 \/ 241 <= p0 <= 243 /\ lo = 128 /\ hi = 191 \/
                 p0 = 244 /\ lo = 128 /\ hi = 143)).
Proof. unfold lead_info. repeat case_match; intros; simplify_eq; lia. Qed.

(** The result of a decoding step, by width: either an ASCII byte, or an error
    of width one, or a well-formed sequence whose bytes are the encoding of the
    rune and which decodes in the same way in front of any other suffix. *)
Inductive decode_case (s : bytes) : Z -> nat -> Prop :=
| dc_nil : s = [] -> decode_case s RuneError 0
| dc_ascii b t : s = b :: t -> b2z b < 128 -> decode_case s (b2z b) 1
| dc_bad b t : s = b :: t -> 128 <= b2z b -> decode_case s RuneError 1
| dc_multi r w m t : s = m ++ t -> length m = w -> (2 <= w <= 4)%nat ->
    Forall (fun b => 128 <= b2z b) m -> encode_rune r = m ->
    128 <= r -> (forall t', decode_rune (m ++ t') = (r, w)) -> decode_case s r w.

Lemma decode_rune_cases s : decode_case s (decode_rune s).1 (decode_rune s).2.
Proof.
  destruct s as [|p0 s1]; [by constructor|].
  unfold decode_rune. destruct (Z.ltb_spec (b2z p0) 128) as [Hlt|Hge].
  { by econstructor. }
  destruct (lead_info (b2z p0)) as [[[w lo] hi]|] eqn:E; [|by econstructor].
  pose proof (b2z_range p0).
  destruct (lead_info_cases _ _ _ _ E) as [(->&Hr)|[(->&Hr)|(->&Hr)]].
  - destruct s1 as [|b1 t]; [by econstructor|].
    destruct (in_range lo hi b1) eqn:R; [|by econstructor]. simpl.
    unfold in_range in R.
    eapply (dc_multi _ _ _ [p0; b1] t); [done|done|lia| | |lia|].
    + repeat constructor; lia.
    + unfold encode_rune. rewrite andb_false_intro2 by lia.
      rewrite (proj2 (andb_true_iff _ _)) by lia.
      f_equal; [|f_equal]; apply z2b_eq; divmod_lia.
    + intros t'. simpl. rewrite (proj2 (Z.ltb_ge _ _)) by done. rewrite E.
      unfold in_range. by rewrite R.
  - destruct s1 as [|b1 [|b2 t]]; [by econstructor..|].
    destruct (in_range lo hi b1 && is_cont b2) eqn:R; [|by econstructor]. simpl.
    pose proof R as R'. unfold in_range, is_cont, in_range in R.
    eapply (dc_multi _ _ _ [p0; b1; b2] t); [done|done|lia| | |lia|].
    + repeat constructor; lia.
    + unfold encode_rune. rewrite andb_false_intro2 by lia.
      rewrite andb_false_intro2 by lia.
      rewrite (proj2 (andb_true_iff _ _)) by lia.
      f_equal; [|f_equal; [|f_equal]]; apply z2b_eq; divmod_lia.
    + intros t'. simpl. rewrite (proj2 (Z.ltb_ge _ _)) by done. by rewrite E, R'.
  - destruct s1 as [|b1 [|b2 [|b3 t]]]; [by econstructor..|].
    destruct (in_range lo hi b1 && is_cont b2 && is_cont b3) eqn:R; [|by econstructor]. simpl.
    pose proof R as R'. unfold in_range, is_cont, in_range in R.
    eapply (dc_multi _ _ _ [p0; b1; b2; b3] t); [done|done|lia| | |lia|].
    + repeat constructor; lia.
    + unfold encode_rune. do 2 rewrite andb_false_intro2 by lia.
      rewrite (andb_false_intro1 (_ && _)) by lia.
      rewrite (proj2 (andb_true_iff _ _)) by lia.
      f_equal; [|f_equal; [|f_equal; [|f_equal]]]; apply z2b_eq; divmod_lia.
    + intros t'. simpl. rewrite (proj2 (Z.ltb_ge _ _)) by done. by rewrite E, R'.
Qed.

Lemma decode_rune_width s : s <> [] -> (1 <= (decode_rune s).2 <= length s)%nat.
Proof.
  intros Hs. destruct (decode_rune_cases s); subst; simpl; try done; try lia.
  rewrite length_app. lia.
Qed.

Lemma runes_go_enough n s : (length s <= n)%nat -> runes_go n s = runes s.
Proof.
  unfold runes. revert s. induction n as [n IH] using lt_wf_ind; intros s Hn.
  destruct s as [|b t]; [by destruct n|].
  destruct n as [|n]; [simpl in Hn; lia|].
  pose proof (decode_rune_width (b :: t) ltac:(done)) as Hw.
  set (w := (decode_rune (b :: t)).2) in *.
  change (length (b :: t)) with (S (length t)). cbn [runes_go]. fold w. f_equal.
  assert (length (drop w (b :: t)) <= length t)%nat.
  { rewrite length_drop. simpl in *. lia. }
  simpl in Hn. rewrite (IH n) by lia.
  destruct (decide (n = length t)) as [->|]; [by rewrite (IH (length t)) by lia|].
  by rewrite (IH (length t)) by lia.
Qed.

Lemma runes_step s :
  s <> [] ->
  runes s = ((decode_rune s).1, take (decode_rune s).2 s) :: runes (drop (decode_rune s).2 s).
Proof.
  intros Hs. pose proof (decode_rune_width s Hs) as Hw.
  destruct s as [|b t]; [done|]. unfold runes at 1.
  change (length (b :: t)) with (S (length t)). cbn [runes_go]. f_equal.
  apply runes_go_enough. rewrite length_drop. simpl in *. lia.
Qed.

(** A multi-byte sequence [m] that decodes to [r] whatever follows it. *)
Record rune_seq (r : Z) (m : bytes) : Prop := {
  rs_len : (2 <= length m <= 4)%nat;
  rs_high : Forall (fun b => 128 <= b2z b) m;
  rs_enc : encode_rune r = m;
  rs_big : 128 <= r;
  rs_dec : forall t, decode_rune (m ++ t) = (r, length m)
}.

(** Induction along the runes of a byte string. *)
Lemma rune_ind (P : bytes -> Prop) :
  P [] ->
  (forall b t, b2z b < 128 -> runes (b :: t) = (b2z b, [b]) :: runes t -> P t -> P (b :: t)) ->
  (forall b t, 128 <= b2z b -> decode_rune (b :: t) = (RuneError, 1%nat) ->
     runes (b :: t) = (RuneError, [b]) :: runes t -> P t -> P (b :: t)) ->
  (forall r m t, rune_seq r m -> runes (m ++ t) = (r, m) :: runes t -> P t -> P (m ++ t)) ->
  forall s, P s.
Proof.
  intros Hnil Hasc Hbad Hmul s.
  induction s as [s IH] using (induction_ltof1 _ length); unfold ltof in IH.
  destruct (decide (s = [])) as [->|Hs]; [done|].
  pose proof (runes_step s Hs) as Hst. pose proof (decode_rune_cases s) as Hc.
  destruct (decode_rune s) as [r0 w0] eqn:D. simpl in Hc, Hst.
  destruct Hc as [?|b t -> Hb|b t -> Hb|r w m t -> Hl Hw Hf He Hr Hd]; [done|..].
  - apply Hasc; [done|exact Hst|]. apply IH. simpl; lia.
  - apply Hbad; [done|done|exact Hst|]. apply IH. simpl; lia.
  - assert (rune_seq r m) by (split; [lia|done..|intros; rewrite Hd; congruence]).
    apply Hmul with r; [done| |].
    + rewrite Hst. subst w. by rewrite take_app_length, drop_app_length.
    + apply IH. rewrite length_app. lia.
Qed.

Lemma runes_concat s : concat (snd <$> runes s) = s.
Proof.
  induction s using rune_ind; [done|..];
    match goal with E : runes _ = _ |- _ => rewrite E end; simpl; by f_equal.
Qed.

Lemma bad_rune_ascii b : b2z b < 128 -> bad_rune (b2z b, [b]) = false.
Proof. intros. apply andb_false_intro1, Z.eqb_neq. cbn [fst]. unfold RuneError. lia. Qed.

Lemma bad_rune_multi r m : rune_seq r m -> bad_rune (r, m) = false.
Proof. intros [Hl _ _ _ _]. apply andb_false_intro2, Nat.eqb_neq. cbn [snd]. lia. Qed.

Lemma encode_ascii b : b2z b < 128 -> encode_rune (b2z b) = [b].
Proof.
  intros. pose proof (b2z_range b). unfold encode_rune.
  rewrite (proj2 (andb_true_iff _ _)) by lia. by rewrite z2b_b2z.
Qed.

(** Well-formed text is left alone by the replacement of ill-formed bytes. *)
Lemma sanitize_valid s : valid_utf8 s = true -> sanitize s = s.
Proof.
  unfold valid_utf8, sanitize.
  induction s as [|b t Hb E IH|b t Hb D E IH|r m t Hs E IH] using rune_ind; [done|..];
    rewrite E; cbn [forallb flat_map fst]; intros [Hn Hv]%andb_true_iff; rewrite (IH Hv).
  - by rewrite encode_ascii.
  - done.
  - by rewrite (rs_enc _ _ Hs).
Qed.

Lemma runes_ascii b t : b2z b < 128 -> runes (b :: t) = (b2z b, [b]) :: runes t.
Proof.
  intros H. rewrite runes_step by done. unfold decode_rune.
  by rewrite (proj2 (Z.ltb_lt _ _)).
Qed.

Lemma runes_seq r m t : rune_seq r m -> runes (m ++ t) = (r, m) :: runes t.
Proof.
  intros H. pose proof (rs_len _ _ H). rewrite runes_step by (destruct m; simpl in *; [lia|done]).
  rewrite (rs_dec _ _ H). simpl. by rewrite take_app_length, drop_app_length.
Qed.

Lemma rune_seq_error : rune_seq RuneError [xef; xbf; xbd].
Proof. split; [simpl; lia|repeat constructor; vm_compute; done|done|vm_compute; done|done]. Qed.

(** The replacement yields well-formed text. *)
Lemma valid_sanitize s : valid_utf8 (sanitize s) = true.
Proof.
  unfold valid_utf8, sanitize.
  induction s as [|b t Hb E IH|b t Hb D E IH|r m t Hs E IH] using rune_ind; [done|..];
    rewrite E; cbn [flat_map fst].
  - rewrite encode_ascii by done. cbn [app]. rewrite runes_ascii by done.
    cbn [forallb]. by rewrite bad_rune_ascii.
  - change (encode_rune RuneError) with [xef; xbf; xbd].
    rewrite (runes_seq _ _ _ rune_seq_error). cbn [forallb]. by rewrite IH.
  - rewrite (rs_enc _ _ Hs), (runes_seq _ _ _ Hs). cbn [forallb].
    by rewrite (bad_rune_multi _ _ Hs), IH.
Qed.

(** ** Encoded runes are well-formed *)

Lemma lead_info_2 p : 194 <= p <= 223 -> lead_info p = Some (2%nat, 128, 191).
Proof. unfold lead_info. intros. repeat case_match; lia || done. Qed.

Lemma lead_info_3 p lo hi :
  p = 224 /\ lo = 160 /\ hi = 191 \/ p = 237 /\ lo = 128 /\ hi = 159 \/
  225 <= p <= 239 /\ p <> 237 /\ lo = 128 /\ hi = 191 ->
  lead_info p = Some (3%nat, lo, hi).
Proof. unfold lead_info. intros. repeat case_match; try (f_equal; f_equal; [f_equal|]); lia. Qed.

Lemma lead_info_4 p lo hi :
  p = 240 /\ lo = 144 /\ hi = 191 \/ 241 <= p <= 243 /\ lo = 128 /\ hi = 191 \/
  p = 244 /\ lo = 128 /\ hi = 143 ->
  lead_info p = Some (4%nat, lo, hi).
Proof. unfold lead_info. intros. repeat case_match; try (f_equal; f_equal; [f_equal|]); lia. Qed.

Lemma rune_seq_2 r : 128 <= r <= 2047 -> rune_seq r [z2b (192 + r / 64); z2b (128 + r mod 64)].
Proof.
  intros Hr. split; [simpl; lia| | |lia|].
  - repeat constructor; rewrite b2z_z2b; divmod_lia.
  - unfold encode_rune. rewrite andb_false_intro2 by lia.
    by rewrite (proj2 (andb_true_iff _ _)) by lia.
  - intros t. simpl. rewrite !b2z_z2b by divmod_lia.
    rewrite (proj2 (Z.ltb_ge _ _)) by divmod_lia. rewrite lead_info_2 by divmod_lia.
    unfold in_range. rewrite !b2z_z2b by divmod_lia.
    rewrite (proj2 (andb_true_iff _ _)) by divmod_lia. f_equal. divmod_lia.
Qed.

Lemma rune_seq_3 r : 2048 <= r <= 65535 -> ~ (55296 <= r <= 57343) ->
  rune_seq r [z2b (224 + r / 4096); z2b (128 + (r / 64) mod 64); z2b (128 + r mod 64)].
Proof.
  intros Hr Hs. split; [simpl; lia| | |lia|].
  - repeat constructor; rewrite b2z_z2b; divmod_lia.
  - unfold encode_rune. do 2 rewrite andb_false_intro2 by lia.
    by rewrite (proj2 (andb_true_iff _ _)) by lia.
  - intros t. simpl. rewrite !b2z_z2b by divmod_lia.
    rewrite (proj2 (Z.ltb_ge _ _)) by divmod_lia.
    assert (exists lo hi, lead_info (224 + r / 4096) = Some (3%nat, lo, hi) /\
      lo <= 128 + (r / 64) mod 64 <= hi) as (lo & hi & -> & Hlo).
    { destruct (decide (r / 4096 = 0)); [exists 160, 191|destruct (decide (r / 4096 = 13));
        [exists 128, 159|exists 128, 191]]; (split; [apply lead_info_3|]); divmod_lia. }
    unfold is_cont, in_range. rewrite !b2z_z2b by divmod_lia.
    rewrite (proj2 (andb_true_iff _ _)) by (split; divmod_lia). f_equal. divmod_lia.
Qed.

Lemma rune_seq_4 r : 65536 <= r <= 1114111 ->
  rune_seq r [z2b (240 + r / 262144); z2b (128 + (r / 4096) mod 64);
              z2b (128 + (r / 64) mod 64); z2b (128 + r mod 64)].
Proof.
  intros Hr. split; [simpl; lia| | |lia|].
  - repeat constructor; rewrite b2z_z2b; divmod_lia.
  - unfold encode_rune. do 2 rewrite andb_false_intro2 by lia.
    rewrite (andb_false_intro1 (_ && _)) by lia.
    by rewrite (proj2 (andb_true_iff _ _)) by lia.
  - intros t. simpl. rewrite !b2z_z2b by divmod_lia.
    rewrite (proj2 (Z.ltb_ge _ _)) by divmod_lia.
    assert (exists lo hi, lead_info (240 + r / 262144) = Some (4%nat, lo, hi) /\
      lo <= 128 + (r / 4096) mod 64 <= hi) as (lo & hi & -> & Hlo).
    { destruct (decide (r / 262144 = 0)); [exists 144, 191|destruct (decide (r / 262144 = 4));
        [exists 128, 143|exists 128, 191]]; (split; [apply lead_info_4|]); divmod_lia. }
    unfold is_cont, in_range. rewrite !b2z_z2b by divmod_lia.
    rewrite (proj2 (andb_true_iff _ _)) by (split; [apply andb_true_iff; split|]; divmod_lia).
    f_equal. divmod_lia.
Qed.

Lemma encode_rune_shape r :
  (exists b, encode_rune r = [b] /\ b2z b < 128) \/ exists r', rune_seq r' (encode_rune r).
Proof.
  destruct (decide (0 <= r <= 127)).
  { left. exists (z2b r). unfold encode_rune.
    rewrite (proj2 (andb_true_iff _ _)) by lia. split; [done|]. rewrite b2z_z2b; lia. }
  right. destruct (decide (128 <= r <= 2047)).
  { exists r. pose proof (rune_seq_2 r ltac:(lia)) as H. by rewrite (rs_enc _ _ H). }
  destruct (decide (2048 <= r <= 65535 /\ ~ (55296 <= r <= 57343))).
  { exists r. pose proof (rune_seq_3 r ltac:(lia) ltac:(lia)) as H. by rewrite (rs_enc _ _ H). }
  destruct (decide (65536 <= r <= 1114111)).
  { exists r. pose proof (rune_seq_4 r ltac:(lia)) as H. by rewrite (rs_enc _ _ H). }
  exists RuneError. assert (encode_rune r = [xef; xbf; xbd]) as ->; [|apply rune_seq_error].
  unfold encode_rune. repeat case_match; try done; lia.
Qed.

Lemma valid_encode_app r t : valid_utf8 (encode_rune r ++ t) = valid_utf8 t.
Proof.
  unfold valid_utf8. destruct (encode_rune_shape r) as [(b & -> & Hb)|[r' Hr]].
  - cbn [app]. rewrite runes_ascii by done. cbn [forallb]. by rewrite bad_rune_ascii.
  - rewrite (runes_seq _ _ _ Hr). cbn [forallb]. by rewrite (bad_rune_multi _ _ Hr).
Qed.

Lemma valid_ascii_app b t : b2z b < 128 -> valid_utf8 (b :: t) = valid_utf8 t.
Proof. intros H. rewrite <- (valid_encode_app (b2z b) t). by rewrite encode_ascii. Qed.

(** Plain ASCII text. *)
Abbreviation ascii_text := (Forall (fun b => b2z b < 128)).

Lemma ascii_valid s : ascii_text s -> valid_utf8 s = true.
Proof. induction 1 as [|b s Hb _ IH]; [done|]. by rewrite valid_ascii_app. Qed.
