(* ===== verification/GoJson.v ===== *)
(** * encoding/json: the parts of Go's JSON package the program uses

    - [Value], the dynamic values [map[string]any], [[]any], [string], [int64],
      [bool], [nil] the program exchanges with the package ([JRaw] is a value of
      any other type: [json.RawMessage] when encoding, an unsupported type for
      [writeCanonical]);
    - [quote]/[encode], the encoder of [json.Marshal] (HTML-safe escaping);
    - the literal scanner and [unquote];
    - [Decoder], the token reader ([Token], [More], [Decode]) with its
      [tokenState] machine. *)
From Stdlib Require Import ZArith Lia Strings.Byte.
From stdpp Require Import numbers strings base list.
From S2P Require Import Prelude Errors Utf8.
Open Scope Z_scope.

Inductive Value :=
| JNull
| JBool (b : bool)
| JInt (z : Z)
| JStr (s : string)
| JArr (l : list Value)
| JObj (l : list (string * Value))
| JRaw (text : bytes).

(** ** Decimal integers: [strconv.FormatInt] and [strconv.ParseInt], base 10 *)

Definition digit (z : Z) : byte := z2b (48 + z).

Fixpoint format_uint_go (n : nat) (z : Z) : bytes :=
  match n with
  | O => [digit (z mod 10)]
  | S n => if z <? 10 then [digit z] else format_uint_go n (z / 10) ++ [digit (z mod 10)]
  end.

Definition format_uint (z : Z) : bytes := format_uint_go (Z.to_nat (Z.log2 z)) z.

Definition format_int (z : Z) : bytes :=
  if z <? 0 then "-"%byte :: format_uint (- z) else format_uint z.

Definition is_digit (b : byte) : bool := in_range 48 57 b.

Definition parse_uint (s : bytes) : Z := foldl (fun acc b => acc * 10 + (b2z b - 48)) 0 s.

Definition err_syntax : error := PlainError "strconv: parsing: invalid syntax".
Definition err_range : error := PlainError "strconv: parsing: value out of range".

(** [strconv.ParseInt(s, 10, 64)]. *)
Definition ParseInt (s : bytes) : result Z :=
  let '(neg, d) :=
    match s with
    | "-"%byte :: d => (true, d)
    | "+"%byte :: d => (false, d)
    | _ => (false, s)
    end in
  if (length d =? 0)%nat || negb (forallb is_digit d) then Err err_syntax
  else
    let z := if neg : bool then - parse_uint d else parse_uint d in
    if in_i64 z then Ok z else Err err_range.

(** ** The encoder *)

Definition hex_digit (z : Z) : byte := if z <? 10 then z2b (48 + z) else z2b (87 + z).

(** [htmlSafeSet]. *)
Definition html_safe (b : byte) : bool :=
  (32 <=? b2z b) && (b2z b <? 128) &&
  negb (bool_decide (b = x22) || bool_decide (b = x5c) || bool_decide (b = x3c) ||
        bool_decide (b = x3e) || bool_decide (b = x26)).

Definition quote_ascii (b : byte) : bytes :=
  if html_safe b then [b]
  else match b with
  | x5c | x22 => [x5c; b]
  | x08 => [x5c; "b"%byte]
  | x0c => [x5c; "f"%byte]
  | x0a => [x5c; "n"%byte]
  | x0d => [x5c; "r"%byte]
  | x09 => [x5c; "t"%byte]
  | _ => [x5c; "u"%byte; "0"%byte; "0"%byte; hex_digit (b2z b / 16); hex_digit (b2z b mod 16)]
  end.

Definition quote_rune (p : Z * bytes) : bytes :=
  if bad_rune p then go_bytes "\ufffd"
  else if p.1 <? 128 then flat_map quote_ascii p.2
  else if p.1 =? 8232 then go_bytes "\u2028"
  else if p.1 =? 8233 then go_bytes "\u2029"
  else p.2.

Definition quote_body (s : bytes) : bytes := flat_map quote_rune (runes s).

(** [json.Marshal] of a Go string. *)
Definition quote (s : string) : bytes := x22 :: quote_body (go_bytes s) ++ [x22].

Fixpoint join (sep : bytes) (l : list bytes) : bytes :=
  match l with
  | [] => []
  | [x] => x
  | x :: l => x ++ sep ++ join sep l
  end.

(** The encoder of [json.Marshal]: object members in the order the encoder
    meets them (struct field order). *)
Fixpoint encode (v : Value) : bytes :=
  match v with
  | JNull => go_bytes "null"
  | JBool true => go_bytes "true"
  | JBool false => go_bytes "false"
  | JInt z => format_int z
  | JStr s => quote s
  | JArr l => "["%byte :: join [","%byte] (map encode l) ++ ["]"%byte]
  | JObj l =>
      "{"%byte
        :: join [","%byte]
             (map (fun p => match p with (k, x) => quote k ++ ":"%byte :: encode x end) l)
        ++ ["}"%byte]
  | JRaw t => t
  end.

(** ** The scanner *)

Definition is_space (b : byte) : bool :=
  bool_decide (b = x20) || bool_decide (b = x09) || bool_decide (b = x0d) || bool_decide (b = x0a).

Fixpoint skip_ws (s : bytes) : bytes :=
  match s with
  | c :: r => if is_space c then skip_ws r else s
  | [] => []
  end.

Definition hex_val (b : byte) : option Z :=
  let z := b2z b in
  if (48 <=? z) && (z <=? 57) then Some (z - 48)
  else if (97 <=? z) && (z <=? 102) then Some (z - 87)
  else if (65 <=? z) && (z <=? 70) then Some (z - 55)
  else None.

Definition is_hex (b : byte) : bool := bool_decide (is_Some (hex_val b)).

Definition simple_escape (b : byte) : option byte :=
  match b with
  | x22 | x5c | x2f => Some b
  | "b"%byte => Some x08
  | "f"%byte => Some x0c
  | "n"%byte => Some x0a
  | "r"%byte => Some x0d
  | "t"%byte => Some x09
  | _ => None
  end.

Definition cons_fst (p : bytes) (o : option (bytes * bytes)) : option (bytes * bytes) :=
  match o with
  | Some (body, rest) => Some (p ++ body, rest)
  | None => None
  end.

(** The string states of the scanner: the raw text of a literal up to its
    closing quote, and what follows it. *)
Fixpoint scan_string (s : bytes) : option (bytes * bytes) :=
  match s with
  | [] => None
  | x22 :: r => Some ([], r)
  | x5c :: e :: r =>
      if bool_decide (is_Some (simple_escape e)) then cons_fst [x5c; e] (scan_string r)
      else match e, r with
      | "u"%byte, a :: b :: c :: d :: r' =>
          if is_hex a && is_hex b && is_hex c && is_hex d
          then cons_fst [x5c; e; a; b; c; d] (scan_string r')
          else None
      | _, _ => None
      end
  | c :: r => if b2z c <? 32 then None else cons_fst [c] (scan_string r)
  end.

(** [getu4]: the code unit of a leading [\uXXXX]. *)
Definition getu4 (s : bytes) : option Z :=
  match s with
  | x5c :: "u"%byte :: a :: b :: c :: d :: _ =>
      a ← hex_val a; b ← hex_val b; c ← hex_val c; d ← hex_val d;
      Some (a * 4096 + b * 256 + c * 16 + d)
  | _ => None
  end.

Definition is_surrogate (r : Z) : bool := (55296 <=? r) && (r <? 57344).

(** [utf16.DecodeRune], [None] for an invalid pair. *)
Definition decode_pair (r1 r2 : Z) : option Z :=
  if (55296 <=? r1) && (r1 <? 56320) && (56320 <=? r2) && (r2 <? 57344)
  then Some ((r1 - 55296) * 1024 + (r2 - 56320) + 65536)
  else None.

(** One step of [unquote]: the bytes produced and the number of bytes read. *)
Definition unquote_step (s : bytes) : option (bytes * nat) :=
  match s with
  | [] => None
  | x5c :: e :: _ =>
      match e with
      | "u"%byte =>
          rr ← getu4 s;
          if is_surrogate rr then
            match (r1 ← getu4 (drop 6 s); decode_pair rr r1) with
            | Some r => Some (encode_rune r, 12%nat)
            | None => Some (encode_rune RuneError, 6%nat)
            end
          else Some (encode_rune rr, 6%nat)
      | x27 => Some ([x27], 2%nat)
      | _ => c ← simple_escape e; Some ([c], 2%nat)
      end
  | c :: _ =>
      if bool_decide (c = x5c) || bool_decide (c = x22) || (b2z c <? 32) then None
      else if b2z c <? 128 then Some ([c], 1%nat)
      else let d := decode_rune s in Some (encode_rune d.1, d.2)
  end.

(** [unquote] of the text between the quotes of a literal; [n] bounds the
    number of steps, the length of the text is enough. *)
Fixpoint unquote_go (n : nat) (s : bytes) : option bytes :=
  match s, n with
  | [], _ => Some []
  | _, O => None
  | _, S n =>
      '(out, k) ← unquote_step s;
      t ← unquote_go n (drop k s);
      Some (out ++ t)
  end.

Definition unquote (s : bytes) : option bytes := unquote_go (length s) s.

Fixpoint span_digits (s : bytes) : bytes * bytes :=
  match s with
  | c :: r => if is_digit c then let '(d, r') := span_digits r in (c :: d, r') else ([], s)
  | [] => ([], [])
  end.

Definition scan_int (s : bytes) : option (bytes * bytes) :=
  match s with
  | "0"%byte :: r => Some (["0"%byte], r)
  | c :: _ => if is_digit c then Some (span_digits s) else None
  | [] => None
  end.

Definition scan_frac (s : bytes) : option (bytes * bytes) :=
  match s with
  | "."%byte :: r =>
      match span_digits r with
      | ([], _) => None
      | (d, r') => Some ("."%byte :: d, r')
      end
  | _ => Some ([], s)
  end.

Definition scan_exp (s : bytes) : option (bytes * bytes) :=
  match s with
  | ("e"%byte | "E"%byte) as c :: r =>
      let '(sign, r1) :=
        match r with
        | ("+"%byte | "-"%byte) as g :: r1 => ([g], r1)
        | _ => ([], r)
        end in
      match span_digits r1 with
      | ([], _) => None
      | (d, r') => Some (c :: sign ++ d, r')
      end
  | _ => Some ([], s)
  end.

(** The number states of the scanner: the longest number literal. *)
Definition scan_number (s : bytes) : option (bytes * bytes) :=
  let '(sign, s1) := match s with "-"%byte :: r => (["-"%byte], r) | _ => ([], s) end in
  '(i, s2) ← scan_int s1;
  '(f, s3) ← scan_frac s2;
  '(x, s4) ← scan_exp s3;
  Some (sign ++ i ++ f ++ x, s4).

Fixpoint strip_prefix (p s : bytes) : option bytes :=
  match p, s with
  | [], _ => Some s
  | a :: p, b :: s => if bool_decide (a = b) then strip_prefix p s else None
  | _, [] => None
  end.

(** ** Whole values: the scanner of [Decode], compacting as [json.Marshal]
    does with a [json.RawMessage] *)

Definition maxNestingDepth : Z := 10000.

(** [appendCompact] on the inside of a string literal. *)
Fixpoint compact_body (s : bytes) : bytes :=
  match s with
  | xe2 :: x80 :: xa8 :: r => go_bytes "\u2028" ++ compact_body r
  | xe2 :: x80 :: xa9 :: r => go_bytes "\u2029" ++ compact_body r
  | x3c :: r => go_bytes "\u003c" ++ compact_body r
  | x3e :: r => go_bytes "\u003e" ++ compact_body r
  | x26 :: r => go_bytes "\u0026" ++ compact_body r
  | c :: r => c :: compact_body r
  | [] => []
  end.

Definition compact_string (p : bytes * bytes) : bytes * bytes :=
  (x22 :: compact_body p.1 ++ [x22], p.2).

Fixpoint scan_value (n : nat) (depth : Z) (s : bytes) : option (bytes * bytes) :=
  match n with
  | O => None
  | S n =>
      match skip_ws s with
      | "["%byte :: r =>
          if maxNestingDepth <? depth + 1 then None
          else match skip_ws r with
          | "]"%byte :: r' => Some (go_bytes "[]", r')
          | _ => cons_fst ["["%byte] (scan_elems n (depth + 1) r)
          end
      | "{"%byte :: r =>
          if maxNestingDepth <? depth + 1 then None
          else match skip_ws r with
          | "}"%byte :: r' => Some (go_bytes "{}", r')
          | _ => cons_fst ["{"%byte] (scan_members n (depth + 1) r)
          end
      | x22 :: r => compact_string <$> scan_string r
      | ("t"%byte :: _) as s' => (fun r => (go_bytes "true", r)) <$> strip_prefix (go_bytes "true") s'
      | ("f"%byte :: _) as s' => (fun r => (go_bytes "false", r)) <$> strip_prefix (go_bytes "false") s'
      | ("n"%byte :: _) as s' => (fun r => (go_bytes "null", r)) <$> strip_prefix (go_bytes "null") s'
      | s' => scan_number s'
      end
  end
with scan_elems (n : nat) (depth : Z) (s : bytes) : option (bytes * bytes) :=
  match n with
  | O => None
  | S n =>
      '(v, r) ← scan_value n depth s;
      match skip_ws r with
      | ","%byte :: r' => cons_fst (v ++ [","%byte]) (scan_elems n depth r')
      | "]"%byte :: r' => Some (v ++ ["]"%byte], r')
      | _ => None
      end
  end
with scan_members (n : nat) (depth : Z) (s : bytes) : option (bytes * bytes) :=
  match n with
  | O => None
  | S n =>
      match skip_ws s with
      | x22 :: r =>
          '(k, r1) ← compact_string <$> scan_string r;
          match skip_ws r1 with
          | ":"%byte :: r2 =>
              '(v, r3) ← scan_value n depth r2;
              match skip_ws r3 with
              | ","%byte :: r4 => cons_fst (k ++ ":"%byte :: v ++ [","%byte]) (scan_members n depth r4)
              | "}"%byte :: r4 => Some (k ++ ":"%byte :: v ++ ["}"%byte], r4)
              | _ => None
              end
          | _ => None
          end
      | _ => None
      end
  end.

Definition scan_fuel (s : bytes) : nat := S (2 * length s).

(** [json.Marshal] of a [json.RawMessage]: [nil] is [null], anything else must
    be one JSON value and is compacted. *)
Definition err_json : error := PlainError "json: invalid character or unexpected end of input".

Definition marshal_raw (raw : option bytes) : result bytes :=
  match raw with
  | None => Ok (go_bytes "null")
  | Some b =>
      match scan_value (scan_fuel b) 0 b with
      | Some (out, rest) => if bool_decide (skip_ws rest = []) then Ok out else Err err_json
      | None => Err err_json
      end
  end.

(** ** The token reader *)

Inductive token :=
| TDelim (c : byte)
| TStr (s : string)
| TNum (lit : bytes)
| TBool (b : bool)
| TNull.

Inductive tokenState :=
| tokenTopValue
| tokenArrayStart
| tokenArrayValue
| tokenArrayComma
| tokenObjectStart
| tokenObjectKey
| tokenObjectColon
| tokenObjectValue
| tokenObjectComma.

#[export] Instance tokenState_eq_dec : EqDecision tokenState.
Proof. solve_decision. Defined.

Record Decoder := mkDecoder {
  dec_in : bytes;
  dec_state : tokenState;
  dec_stack : list tokenState
}.

Definition NewDecoder (input : bytes) : Decoder := mkDecoder input tokenTopValue [].

Definition tokenValueAllowed (st : tokenState) : bool :=
  match st with
  | tokenTopValue | tokenArrayStart | tokenArrayValue | tokenObjectValue => true
  | _ => false
  end.

Definition tokenValueEnd (st : tokenState) : tokenState :=
  match st with
  | tokenArrayStart | tokenArrayValue => tokenArrayComma
  | tokenObjectValue => tokenObjectComma
  | st => st
  end.

(** A scalar read by [Decode] into an [any] under [UseNumber]. *)
Definition decode_scalar (s : bytes) : option (token * bytes) :=
  match s with
  | x22 :: r =>
      '(body, rest) ← scan_string r;
      str ← unquote body;
      Some (TStr (go_string str), rest)
  | "t"%byte :: _ => (fun r => (TBool true, r)) <$> strip_prefix (go_bytes "true") s
  | "f"%byte :: _ => (fun r => (TBool false, r)) <$> strip_prefix (go_bytes "false") s
  | "n"%byte :: _ => (fun r => (TNull, r)) <$> strip_prefix (go_bytes "null") s
  | _ => '(lit, rest) ← scan_number s; Some (TNum lit, rest)
  end.

Definition pop_stack (dec : Decoder) (rest : bytes) : Decoder :=
  match dec_stack dec with
  | st :: stack => mkDecoder rest (tokenValueEnd st) stack
  | [] => mkDecoder rest (tokenValueEnd (dec_state dec)) []
  end.

Definition err_token : error := PlainError "json: invalid token".
Definition err_eof : error := PlainError "EOF".

(** [Decoder.Token].  The loop consumes a separator per iteration, so the
    length of the input bounds it. *)
Fixpoint Token_go (n : nat) (dec : Decoder) : result (token * Decoder) :=
  match n with
  | O => Err err_eof
  | S n =>
      let st := dec_state dec in
      match skip_ws (dec_in dec) with
      | [] => Err err_eof
      | "["%byte :: r =>
          if tokenValueAllowed st
          then Ok (TDelim "["%byte, mkDecoder r tokenArrayStart (st :: dec_stack dec))
          else Err err_token
      | "]"%byte :: r =>
          if bool_decide (st = tokenArrayStart) || bool_decide (st = tokenArrayComma)
          then Ok (TDelim "]"%byte, pop_stack dec r)
          else Err err_token
      | "{"%byte :: r =>
          if tokenValueAllowed st
          then Ok (TDelim "{"%byte, mkDecoder r tokenObjectStart (st :: dec_stack dec))
          else Err err_token
      | "}"%byte :: r =>
          if bool_decide (st = tokenObjectStart) || bool_decide (st = tokenObjectComma)
          then Ok (TDelim "}"%byte, pop_stack dec r)
          else Err err_token
      | ":"%byte :: r =>
          if bool_decide (st = tokenObjectColon)
          then Token_go n (mkDecoder r tokenObjectValue (dec_stack dec))
          else Err err_token
      | ","%byte :: r =>
          match st with
          | tokenArrayComma => Token_go n (mkDecoder r tokenArrayValue (dec_stack dec))
          | tokenObjectComma => Token_go n (mkDecoder r tokenObjectKey (dec_stack dec))
          | _ => Err err_token
          end
      | (c :: _) as s =>
          if bool_decide (c = x22) &&
             (bool_decide (st = tokenObjectStart) || bool_decide (st = tokenObjectKey))
          then
            '(tok, r) ← of_option err_json (decode_scalar s);
            Ok (tok, mkDecoder r tokenObjectColon (dec_stack dec))
          else if tokenValueAllowed st then
            '(tok, r) ← of_option err_json (decode_scalar s);
            Ok (tok, mkDecoder r (tokenValueEnd st) (dec_stack dec))
          else Err err_token
      end
  end.

Definition Token (dec : Decoder) : result (token * Decoder) :=
  Token_go (S (length (dec_in dec))) dec.

(** [Decoder.More]. *)
Definition More (dec : Decoder) : bool :=
  match skip_ws (dec_in dec) with
  | [] => false
  | c :: _ => negb (bool_decide (c = "]"%byte) || bool_decide (c = "}"%byte))
  end.

(** [Decoder.Decode] into an [any] at the top level: whether a value was read. *)
Definition Decode_any (dec : Decoder) : result Decoder :=
  '(_, r) ← of_option err_json (scan_value (scan_fuel (dec_in dec)) 0 (dec_in dec));
  Ok (mkDecoder r (dec_state dec) (dec_stack dec)).

(** ** Decoding into structs

    Reflection decides how; a parameter per type. *)

(** Decoding JSON text into a Go value of the type: [json.NewDecoder(...).Decode] on a
    zero value. *)
Class Decode (A : Type) := { decode : bytes -> result A }.

(** [json.Unmarshal] into a value that may already hold something. *)
Class UnmarshalInto (A : Type) := { unmarshal_into : A -> bytes -> result A }.
