(* ===== verification/JsonFacts.v ===== *)
(** * Facts about the JSON encoder, scanner and token reader of [GoJson]:
    the scanner reads back exactly what the encoder wrote, whatever follows. *)
From Stdlib Require Import ZArith Lia Strings.Byte Wf_nat.
From stdpp Require Import numbers strings base list.
From S2P Require Import Prelude Errors Utf8 GoJson.
Open Scope Z_scope.

(** Exhaustive case analysis over a byte. *)
Ltac by_bytes b := destruct b; first [reflexivity | discriminate | done].

(** ** Decimal integers *)

Lemma digit_val z : 0 <= z <= 9 -> b2z (digit z) = 48 + z.
Proof. intros. unfold digit. rewrite b2z_z2b; lia. Qed.

Lemma is_digit_digit z : 0 <= z <= 9 -> is_digit (digit z) = true.
Proof. intros. unfold is_digit, in_range. rewrite digit_val; lia. Qed.

Lemma parse_uint_snoc s b : parse_uint (s ++ [b]) = parse_uint s * 10 + (b2z b - 48).
Proof. unfold parse_uint. by rewrite foldl_app. Qed.

Lemma log2_div10 z : 10 <= z -> (Z.to_nat (Z.log2 (z / 10)) < Z.to_nat (Z.log2 z))%nat.
Proof.
  intros Hz.
  assert (1 <= z / 10) by divmod_lia.
  assert (2 * (z / 10) <= z) by divmod_lia.
  pose proof (Z.log2_double (z / 10) ltac:(lia)).
  pose proof (Z.log2_le_mono (2 * (z / 10)) z ltac:(lia)).
  pose proof (Z.log2_nonneg (z / 10)). lia.
Qed.

(** What the decimal text of a natural number looks like. *)
Record decimal (s : bytes) (z : Z) : Prop := {
  dec_digits : forallb is_digit s = true;
  dec_nonempty : s <> [];
  dec_value : parse_uint s = z;
  dec_lead : z = 0 -> s = [x30];
  dec_head : 0 < z -> exists c t, s = c :: t /\ c <> x30
}.

Lemma format_uint_go_decimal n z :
  0 <= z -> (Z.to_nat (Z.log2 z) <= n)%nat -> decimal (format_uint_go n z) z.
Proof.
  revert z. induction n as [|n IH]; intros z Hz Hn; cbn [format_uint_go].
  - assert (z < 2).
    { destruct (Z_lt_le_dec z 2); [done|]. pose proof (Z.log2_pos z). lia. }
    assert (z = 0 \/ z = 1) as [-> | ->] by lia; (split; try done); intros; try lia;
      eexists _, _; split; try done; done.
  - destruct (Z.ltb_spec z 10) as [Hlt|Hge].
    + assert (is_digit (digit z) = true) by (apply is_digit_digit; lia).
      split; [by simpl; rewrite H|done| | |].
      * unfold parse_uint. simpl. rewrite digit_val; lia.
      * by intros ->.
      * intros. eexists _, _. split; [done|]. intros E%(f_equal b2z).
        rewrite digit_val in E by lia. vm_compute (b2z x30) in E. lia.
    + pose proof (log2_div10 z Hge).
      destruct (IH (z / 10)) as [D1 D2 D3 _ D5]; [divmod_lia|lia|].
      assert (0 <= z mod 10 <= 9) by divmod_lia.
      split; [| | |lia|].
      * rewrite forallb_app, D1. simpl. by rewrite is_digit_digit.
      * by intros [? ?]%app_eq_nil.
      * rewrite parse_uint_snoc, D3, digit_val by done. divmod_lia.
      * intros _. destruct D5 as (c & t & -> & Hc); [divmod_lia|].
        by exists c, (t ++ [digit (z mod 10)]).
Qed.

Lemma format_uint_decimal z : 0 <= z -> decimal (format_uint z) z.
Proof. intros. by apply format_uint_go_decimal. Qed.

(** A literal ends where no digit, point or exponent follows. *)
Definition num_end (s : bytes) : bool :=
  match s with
  | [] => true
  | c :: _ => negb (is_digit c || bool_decide (c = x2e) || bool_decide (c = x65) || bool_decide (c = x45))
  end.

Lemma span_digits_app d s : forallb is_digit d = true -> num_end s = true -> span_digits (d ++ s) = (d, s).
Proof.
  intros Hd Hs. induction d as [|c d IH].
  - destruct s as [|c s]; [done|]. simpl in *. destruct (is_digit c); [done|done].
  - simpl in *. apply andb_true_iff in Hd as [-> Hd]. by rewrite IH.
Qed.

Lemma scan_frac_end s : num_end s = true -> scan_frac s = Some ([], s).
Proof. destruct s as [|c s]; [done|]. by_bytes c. Qed.

Lemma scan_exp_end s : num_end s = true -> scan_exp s = Some ([], s).
Proof. destruct s as [|c s]; [done|]. by_bytes c. Qed.

Lemma scan_int_decimal d z s :
  decimal d z -> 0 <= z -> num_end s = true -> scan_int (d ++ s) = Some (d, s).
Proof.
  intros [D1 D2 D3 D4 D5] Hz Hs. destruct (decide (z = 0)) as [->|].
  - by rewrite D4.
  - destruct D5 as (c & t & -> & Hc); [lia|].
    pose proof D1 as D1'. simpl in D1. apply andb_true_iff in D1 as [Dc _].
    rewrite <- (span_digits_app _ _ D1' Hs). simpl.
    destruct c; try done.
Qed.

Lemma scan_number_format z s :
  num_end s = true -> scan_number (format_int z ++ s) = Some (format_int z, s).
Proof.
  intros Hs. unfold format_int. destruct (Z.ltb_spec z 0) as [Hz|Hz].
  - unfold scan_number. cbn [app].
    rewrite (scan_int_decimal _ (- z)) by (done || lia || (apply format_uint_decimal; lia)).
    cbn. rewrite scan_frac_end by done. cbn. rewrite scan_exp_end by done. cbn.
    by rewrite app_nil_r.
  - assert (scan_number (format_uint z ++ s) =
      ('(i, s2) ← scan_int (format_uint z ++ s); '(f, s3) ← scan_frac s2;
       '(x, s4) ← scan_exp s3; Some (i ++ f ++ x, s4))) as ->.
    { destruct (format_uint_decimal z Hz) as [D1 D2 _ _ _].
      destruct (format_uint z) as [|c t]; [done|]. simpl in D1.
      apply andb_true_iff in D1 as [Dc _]. unfold scan_number. by_bytes c. }
    rewrite (scan_int_decimal _ z) by (done || lia || (apply format_uint_decimal; lia)).
    cbn. rewrite scan_frac_end by done. cbn. rewrite scan_exp_end by done. cbn.
    by rewrite app_nil_r.
Qed.

Lemma digits_no_sign s c t : forallb is_digit s = true -> s = c :: t -> c <> x2d /\ c <> x2b.
Proof. intros H ->. simpl in H. apply andb_true_iff in H as [H _]. split; by intros ->. Qed.

Lemma ParseInt_format z : in_i64 z = true -> ParseInt (format_int z) = Ok z.
Proof.
  intros Hz. unfold format_int. destruct (Z.ltb_spec z 0) as [Hneg|Hpos].
  - destruct (format_uint_decimal (- z)) as [D1 D2 D3 _ _]; [lia|].
    unfold ParseInt. rewrite D1, D3. destruct (format_uint (- z)) eqn:E; [done|]. simpl.
    by rewrite Z.opp_involutive, Hz.
  - destruct (format_uint_decimal z) as [D1 D2 D3 _ _]; [lia|].
    destruct (format_uint z) as [|c t] eqn:E; [done|].
    destruct (digits_no_sign _ c t D1 eq_refl) as [Hc1 Hc2].
    assert (ParseInt (c :: t) = if in_i64 (parse_uint (c :: t)) then Ok (parse_uint (c :: t)) else Err err_range) as ->.
    { unfold ParseInt. rewrite <- D1. destruct c; try done; rewrite D1; done. }
    by rewrite D3, Hz.
Qed.

(** ** String literals *)

Lemma scan_string_ascii b r :
  b2z b < 128 -> scan_string (quote_ascii b ++ r) = cons_fst (quote_ascii b) (scan_string r).
Proof. intros H. destruct b; first [reflexivity|vm_compute in H; done]. Qed.

Lemma scan_string_high b r :
  128 <= b2z b -> scan_string (b :: r) = cons_fst [b] (scan_string r).
Proof. intros H. destruct b; first [reflexivity|vm_compute in H; done]. Qed.

Lemma scan_string_highs m r :
  Forall (fun b => 128 <= b2z b) m -> scan_string (m ++ r) = cons_fst m (scan_string r).
Proof.
  induction 1 as [|b m Hb _ IH]; cbn [app].
  - destruct (scan_string r) as [[]|]; done.
  - rewrite scan_string_high, IH by done. destruct (scan_string r) as [[]|]; done.
Qed.

Lemma quote_rune_ascii b : b2z b < 128 -> quote_rune (b2z b, [b]) = quote_ascii b.
Proof.
  intros. unfold quote_rune. rewrite bad_rune_ascii by done. cbn [fst snd].
  rewrite (proj2 (Z.ltb_lt _ _)) by done. simpl. by rewrite app_nil_r.
Qed.

Lemma quote_rune_multi r m :
  rune_seq r m ->
  r = 8232 /\ quote_rune (r, m) = go_bytes "\u2028" \/
  r = 8233 /\ quote_rune (r, m) = go_bytes "\u2029" \/
  quote_rune (r, m) = m.
Proof.
  intros Hs. unfold quote_rune. rewrite (bad_rune_multi _ _ Hs). cbn [fst snd].
  rewrite (proj2 (Z.ltb_ge _ _)) by apply (rs_big _ _ Hs).
  destruct (Z.eqb_spec r 8232); [by left|].
  destruct (Z.eqb_spec r 8233); [by right; left|by right; right].
Qed.

Lemma scan_quote_body s r : scan_string (quote_body s ++ x22 :: r) = Some (quote_body s, r).
Proof.
  unfold quote_body.
  induction s as [|b t Hb E IH|b t Hb D E IH|c m t Hs E IH] using rune_ind; [done|..];
    rewrite E; cbn [flat_map]; rewrite <- app_assoc.
  - rewrite quote_rune_ascii, scan_string_ascii, IH by done. done.
  - change (quote_rune (RuneError, [b])) with (go_bytes "\ufffd").
    change (scan_string (go_bytes "\ufffd" ++ flat_map quote_rune (runes t) ++ x22 :: r))
      with (cons_fst (go_bytes "\ufffd") (scan_string (flat_map quote_rune (runes t) ++ x22 :: r))).
    by rewrite IH.
  - destruct (quote_rune_multi _ _ Hs) as [[_ ->]|[[_ ->]| ->]].
    + change (scan_string (go_bytes "\u2028" ++ flat_map quote_rune (runes t) ++ x22 :: r))
        with (cons_fst (go_bytes "\u2028") (scan_string (flat_map quote_rune (runes t) ++ x22 :: r))).
      by rewrite IH.
    + change (scan_string (go_bytes "\u2029" ++ flat_map quote_rune (runes t) ++ x22 :: r))
        with (cons_fst (go_bytes "\u2029") (scan_string (flat_map quote_rune (runes t) ++ x22 :: r))).
      by rewrite IH.
    + by rewrite scan_string_highs, IH by apply (rs_high _ _ Hs).
Qed.

Lemma unquote_step_high b t :
  128 <= b2z b ->
  unquote_step (b :: t) = Some (encode_rune (decode_rune (b :: t)).1, (decode_rune (b :: t)).2).
Proof. intros H. destruct b; first [vm_compute in H; done|reflexivity]. Qed.

Lemma unquote_step_pos s out k : unquote_step s = Some (out, k) -> (1 <= k)%nat.
Proof.
  destruct s as [|c s]; [done|]. intros E.
  pose proof (decode_rune_width (c :: s) ltac:(done)) as Hw.
  destruct (Z_lt_le_dec (b2z c) 128) as [Hlt|Hge].
  - assert (forall o n, Some (o, n) = Some (out, k) -> (1 <= n)%nat -> (1 <= k)%nat) as Hk by (clear; intros ? ? [= _ <-] ?; assumption).
    destruct (decide (c = x5c)) as [->|Hc].
    + destruct s as [|e s]; [done|]. unfold unquote_step, mbind, option_bind in E.
      destruct (decide (e = "u"%byte)) as [->|].
      * repeat case_match; try done; apply (Hk _ _ E); lia.
      * destruct e; try done; apply (Hk _ _ E); lia.
    + destruct c; try done; apply (Hk _ _ E); lia.
  - rewrite unquote_step_high in E by done. injection E as _ E. rewrite <- E. exact (proj1 Hw).
Qed.

Lemma unquote_go_enough n s : (length s <= n)%nat -> unquote_go n s = unquote s.
Proof.
  unfold unquote. revert s. induction n as [n IH] using lt_wf_ind; intros s Hn.
  destruct s as [|c s]; [by destruct n|].
  destruct n as [|n]; [simpl in Hn; lia|].
  change (length (c :: s)) with (S (length s)). cbn [unquote_go].
  destruct (unquote_step (c :: s)) as [[out k]|] eqn:E; [|done]. cbn.
  pose proof (unquote_step_pos _ _ _ E).
  assert (length (drop k (c :: s)) <= length s)%nat by (rewrite length_drop; simpl in *; lia).
  simpl in Hn. rewrite (IH n) by lia.
  destruct (decide (n = length s)) as [->|]; [by rewrite (IH (length s)) by lia|].
  by rewrite (IH (length s)) by lia.
Qed.

Lemma unquote_step_app p t out :
  p <> [] -> unquote_step (p ++ t) = Some (out, length p) ->
  unquote (p ++ t) = (fun u => out ++ u) <$> unquote t.
Proof.
  intros Hp Hst. unfold unquote at 1.
  destruct p as [|c p]; [done|]. rewrite length_app. cbn [length Nat.add].
  cbn [unquote_go app]. cbn [app] in Hst. rewrite Hst. cbn.
  rewrite drop_app_length, unquote_go_enough by lia. by destruct (unquote t).
Qed.

Lemma unquote_step_ascii b t :
  b2z b < 128 -> unquote_step (quote_ascii b ++ t) = Some ([b], length (quote_ascii b)).
Proof. intros H. destruct b; first [reflexivity|vm_compute in H; done]. Qed.

Lemma unquote_quote_body s : unquote (quote_body s) = Some (sanitize s).
Proof.
  unfold quote_body, sanitize.
  induction s as [|b t Hb E IH|b t Hb D E IH|c m t Hs E IH] using rune_ind; [done|..];
    rewrite E; cbn [flat_map fst].
  - rewrite quote_rune_ascii, encode_ascii by done.
    rewrite (unquote_step_app _ _ [b]), IH; [done|by destruct b|by apply unquote_step_ascii].
  - change (quote_rune (RuneError, [b])) with (go_bytes "\ufffd").
    by rewrite (unquote_step_app _ _ (encode_rune RuneError)), IH.
  - destruct (quote_rune_multi _ _ Hs) as [[-> ->]|[[-> ->]| ->]];
      [by rewrite (unquote_step_app _ _ (encode_rune 8232)), IH
      |by rewrite (unquote_step_app _ _ (encode_rune 8233)), IH|].
    pose proof (rs_len _ _ Hs).
    rewrite (unquote_step_app _ _ (encode_rune c)), IH; [done|intros ->; simpl in *; lia|].
    destruct m as [|b m]; [simpl in *; lia|].
    pose proof (Forall_inv (rs_high _ _ Hs)) as Hb.
    cbn [app]. rewrite unquote_step_high by done.
    rewrite app_comm_cons. by rewrite (rs_dec _ _ Hs).
Qed.

(** A literal written by [quote] is read back as the sanitised string. *)
Lemma decode_scalar_quote s r :
  decode_scalar (quote s ++ r) = Some (TStr (go_string (sanitize (go_bytes s))), r).
Proof.
  unfold quote. cbn [app]. rewrite <- app_assoc. cbn [app decode_scalar].
  rewrite scan_quote_body. cbn. by rewrite unquote_quote_body.
Qed.

(** ** The token reader *)

Lemma skip_ws_length s : (length (skip_ws s) <= length s)%nat.
Proof. induction s as [|c s IH]; simpl; [done|]. case_match; simpl; lia. Qed.

Lemma Token_go_enough n dec : (length (dec_in dec) < n)%nat -> Token_go n dec = Token dec.
Proof.
  unfold Token. revert dec. induction n as [n IH] using lt_wf_ind; intros dec Hn.
  destruct n as [|n]; [lia|].
  pose proof (skip_ws_length (dec_in dec)) as Hl.
  cbn [Token_go]. destruct (skip_ws (dec_in dec)) as [|c r]; [done|]. simpl in Hl.
  assert (forall st stack, Token_go n (mkDecoder r st stack)
          = Token_go (length (dec_in dec)) (mkDecoder r st stack)) as Hr.
  { intros st stack.
    rewrite (IH n) by (simpl; lia).
    destruct (decide (n = length (dec_in dec))) as [->|].
    - by rewrite (IH (length (dec_in dec))) by (simpl; lia).
    - by rewrite (IH (length (dec_in dec))) by (simpl; lia). }
  destruct c; try reflexivity.
  - destruct (dec_state dec); try reflexivity; apply Hr.
  - case_match; [apply Hr|reflexivity].
Qed.

Lemma Token_colon r stack :
  Token (mkDecoder (":"%byte :: r) tokenObjectColon stack) = Token (mkDecoder r tokenObjectValue stack).
Proof.
  transitivity (Token_go (S (length r)) (mkDecoder r tokenObjectValue stack)); [done|].
  apply Token_go_enough. simpl. lia.
Qed.

Lemma Token_array_comma r stack :
  Token (mkDecoder (","%byte :: r) tokenArrayComma stack) = Token (mkDecoder r tokenArrayValue stack).
Proof.
  transitivity (Token_go (S (length r)) (mkDecoder r tokenArrayValue stack)); [done|].
  apply Token_go_enough. simpl. lia.
Qed.

Lemma Token_object_comma r stack :
  Token (mkDecoder (","%byte :: r) tokenObjectComma stack) = Token (mkDecoder r tokenObjectKey stack).
Proof.
  transitivity (Token_go (S (length r)) (mkDecoder r tokenObjectKey stack)); [done|].
  apply Token_go_enough. simpl. lia.
Qed.

(** The bytes a scalar can start with, as far as the token reader can tell. *)
Definition scalar_start (c : byte) : bool :=
  negb (is_space c || bool_decide (c = "["%byte) || bool_decide (c = "]"%byte) ||
        bool_decide (c = "{"%byte) || bool_decide (c = "}"%byte) ||
        bool_decide (c = ":"%byte) || bool_decide (c = ","%byte)).

Lemma Token_scalar c r st stack tok rest :
  scalar_start c = true -> tokenValueAllowed st = true ->
  decode_scalar (c :: r) = Some (tok, rest) ->
  Token (mkDecoder (c :: r) st stack) = Ok (tok, mkDecoder rest (tokenValueEnd st) stack).
Proof.
  intros Hc Hst Hd. unfold Token. cbn [dec_in length Token_go dec_state dec_stack].
  assert (skip_ws (c :: r) = c :: r) as -> by (by_bytes c).
  assert (bool_decide (c = x22) &&
    (bool_decide (st = tokenObjectStart) || bool_decide (st = tokenObjectKey)) = false) as Hk.
  { apply andb_false_intro2. by destruct st. }
  transitivity ('(tok, r) ← of_option err_json (decode_scalar (c :: r));
    Ok (tok, mkDecoder r (tokenValueEnd st) stack)); [|by rewrite Hd].
  destruct c; first [discriminate Hc|rewrite Hk, Hst; reflexivity].
Qed.

Lemma Token_key s r st stack :
  st = tokenObjectStart \/ st = tokenObjectKey ->
  Token (mkDecoder (quote s ++ r) st stack)
  = Ok (TStr (go_string (sanitize (go_bytes s))), mkDecoder r tokenObjectColon stack).
Proof.
  intros Hst. pose proof (decode_scalar_quote s r) as Hd. unfold quote in *. cbn [app] in *.
  unfold Token. cbn [dec_in length Token_go dec_state dec_stack].
  change (skip_ws (x22 :: ?t)) with (x22 :: t). cbn match.
  destruct Hst as [-> | ->]; cbn match; by rewrite Hd.
Qed.

Lemma Token_open_array r st stack :
  tokenValueAllowed st = true ->
  Token (mkDecoder ("["%byte :: r) st stack)
  = Ok (TDelim "["%byte, mkDecoder r tokenArrayStart (st :: stack)).
Proof. intros H. unfold Token. cbn. by rewrite H. Qed.

Lemma Token_open_object r st stack :
  tokenValueAllowed st = true ->
  Token (mkDecoder ("{"%byte :: r) st stack)
  = Ok (TDelim "{"%byte, mkDecoder r tokenObjectStart (st :: stack)).
Proof. intros H. unfold Token. cbn. by rewrite H. Qed.

Lemma Token_close_array r st st' stack :
  st = tokenArrayStart \/ st = tokenArrayComma ->
  Token (mkDecoder ("]"%byte :: r) st (st' :: stack))
  = Ok (TDelim "]"%byte, mkDecoder r (tokenValueEnd st') stack).
Proof. by intros [-> | ->]. Qed.

Lemma Token_close_object r st st' stack :
  st = tokenObjectStart \/ st = tokenObjectComma ->
  Token (mkDecoder ("}"%byte :: r) st (st' :: stack))
  = Ok (TDelim "}"%byte, mkDecoder r (tokenValueEnd st') stack).
Proof. by intros [-> | ->]. Qed.

(** ** The token reader consumes input *)

Lemma scan_string_length s : forall body r, scan_string s = Some (body, r) -> (length r < length s)%nat.
Proof.
  induction s as [s IH] using (induction_ltof1 _ length); unfold ltof in IH. intros body r.
  destruct s as [|c s]; [done|].
  destruct (decide (c = x22)) as [->|H1]; [intros [= _ <-]; simpl; lia|].
  destruct (decide (c = x5c)) as [->|H2].
  - destruct s as [|e s]; [done|]. cbn [scan_string]. case_bool_decide.
    + destruct (scan_string s) as [[b r']|] eqn:E; [|done]. intros [= _ <-].
      apply IH in E; simpl in *; lia.
    + destruct (decide (e = "u"%byte)) as [->|He]; [|destruct e; done].
      destruct s as [|a [|b [|c [|d s]]]]; try done. case_match; [|done].
      destruct (scan_string s) as [[b' r']|] eqn:E; [|done]. intros [= _ <-].
      apply IH in E; simpl in *; lia.
  - assert (scan_string (c :: s) = if b2z c <? 32 then None else cons_fst [c] (scan_string s)) as ->.
    { destruct c; done. }
    case_match; [done|]. destruct (scan_string s) as [[b' r']|] eqn:E; [|done]. intros [= _ <-].
    apply IH in E; simpl in *; lia.
Qed.

Lemma span_digits_length s : (length (span_digits s).2 <= length s)%nat.
Proof.
  induction s as [|c s IH]; simpl; [done|]. destruct (is_digit c); [|simpl; lia].
  destruct (span_digits s). simpl in *. lia.
Qed.

Lemma scan_int_length s i r : scan_int s = Some (i, r) -> (length r < length s)%nat.
Proof.
  destruct s as [|c s]; [done|]. destruct (decide (c = x30)) as [->|Hc].
  - intros [= _ <-]. simpl. lia.
  - assert (scan_int (c :: s) = if is_digit c then Some (span_digits (c :: s)) else None) as ->
      by (by destruct c).
    destruct (is_digit c) eqn:Hd; [|done]. simpl. rewrite Hd.
    pose proof (span_digits_length s). destruct (span_digits s). intros [= _ <-]. simpl in *. lia.
Qed.

Lemma scan_frac_length s f r : scan_frac s = Some (f, r) -> (length r <= length s)%nat.
Proof.
  destruct s as [|c s]; [by intros [= _ <-]|]. pose proof (span_digits_length s) as Hl.
  destruct (decide (c = x2e)) as [->|Hc].
  - simpl. destruct (span_digits s) as [[|d ds] r']; [done|]. intros [= _ <-]. simpl in *. lia.
  - assert (scan_frac (c :: s) = Some ([], c :: s)) as -> by (by destruct c). by intros [= _ <-].
Qed.

Lemma scan_exp_length s f r : scan_exp s = Some (f, r) -> (length r <= length s)%nat.
Proof.
  destruct s as [|c s]; [by intros [= _ <-]|].
  destruct (decide (c = x65 \/ c = x45)) as [Hc|Hc].
  - assert (exists sign r1, scan_exp (c :: s) = match span_digits r1 with
      | ([], _) => None | (d, r') => Some (c :: sign ++ d, r') end /\ (length r1 <= length s)%nat)
      as (sign & r1 & -> & Hr1).
    { destruct s as [|g s]; [by exists [], []; destruct Hc as [-> | ->]|].
      destruct (decide (g = x2b \/ g = x2d)) as [Hg|Hg].
      - exists [g], s. split; [|simpl; lia]. destruct Hc as [-> | ->], Hg as [-> | ->]; done.
      - exists [], (g :: s). split; [|done]. destruct Hc as [-> | ->]; destruct g; try done;
          exfalso; apply Hg; auto. }
    pose proof (span_digits_length r1) as Hl.
    destruct (span_digits r1) as [[|d ds] r']; [done|]. intros [= _ <-]. simpl in *. lia.
  - assert (scan_exp (c :: s) = Some ([], c :: s)) as ->; [|by intros [= _ <-]].
    destruct c; try done; exfalso; apply Hc; auto.
Qed.

Lemma scan_number_length s l r : scan_number s = Some (l, r) -> (length r < length s)%nat.
Proof.
  unfold scan_number. intros E.
  assert (exists sign s1, (match s with "-"%byte :: r => (["-"%byte], r) | _ => ([], s) end) = (sign, s1)
    /\ (length s1 <= length s)%nat) as (sign & s1 & Hs & Hl).
  { destruct s as [|c s]; [by exists [], []|]. destruct (decide (c = x2d)) as [->|].
    - exists [x2d], s. split; [done|simpl; lia].
    - exists [], (c :: s). split; [by destruct c|done]. }
  rewrite Hs in E. unfold mbind, option_bind in E.
  destruct (scan_int s1) as [[i s2]|] eqn:E1; [|done].
  destruct (scan_frac s2) as [[f s3]|] eqn:E2; [|done].
  destruct (scan_exp s3) as [[x s4]|] eqn:E3; [|done]. injection E as _ <-.
  apply scan_int_length in E1. apply scan_frac_length in E2. apply scan_exp_length in E3. lia.
Qed.

Lemma strip_prefix_length p s r : strip_prefix p s = Some r -> length s = (length p + length r)%nat.
Proof.
  revert s. induction p as [|a p IH]; intros s; simpl; [by intros [= <-]|].
  destruct s as [|b s]; [done|]. case_bool_decide; [|done]. intros E%IH. simpl. lia.
Qed.

(** [decode_scalar] by the first byte. *)
Inductive scalar_case (s : bytes) : token -> bytes -> Prop :=
| sc_string body str r : decode_scalar s = Some (TStr (go_string str), r) ->
    (length r < length s)%nat -> unquote body = Some str -> scalar_case s (TStr (go_string str)) r
| sc_number l r : scan_number s = Some (l, r) -> scalar_case s (TNum l) r
| sc_bool b r : (length r < length s)%nat -> scalar_case s (TBool b) r
| sc_null r : (length r < length s)%nat -> scalar_case s TNull r.

Lemma decode_scalar_cases s tok r : decode_scalar s = Some (tok, r) -> scalar_case s tok r.
Proof.
  destruct s as [|c s]; [done|].
  destruct (decide (c = x22)) as [->|H1].
  { intros E. pose proof E as E'. cbn [decode_scalar] in E. unfold mbind, option_bind in E.
    destruct (scan_string s) as [[body rest]|] eqn:E1; [|done].
    destruct (unquote body) as [str|] eqn:E2; [|done]. injection E as <- <-.
    apply scan_string_length in E1. econstructor; [done|simpl; lia|done]. }
  destruct (decide (c = "t"%byte)) as [->|H2].
  { cbn [decode_scalar]. destruct (strip_prefix _ _) as [r'|] eqn:E; [|done]. intros [= <- <-].
    apply strip_prefix_length in E. constructor. rewrite E. change (length (go_bytes "true")) with 4%nat. lia. }
  destruct (decide (c = "f"%byte)) as [->|H3].
  { cbn [decode_scalar]. destruct (strip_prefix _ _) as [r'|] eqn:E; [|done]. intros [= <- <-].
    apply strip_prefix_length in E. constructor. rewrite E. change (length (go_bytes "false")) with 5%nat. lia. }
  destruct (decide (c = "n"%byte)) as [->|H4].
  { cbn [decode_scalar]. destruct (strip_prefix _ _) as [r'|] eqn:E; [|done]. intros [= <- <-].
    apply strip_prefix_length in E. constructor. rewrite E. change (length (go_bytes "null")) with 4%nat. lia. }
  assert (decode_scalar (c :: s) = '(lit, rest) ← scan_number (c :: s); Some (TNum lit, rest)) as ->.
  { destruct c; first [contradiction|reflexivity]. }
  destruct (scan_number (c :: s)) as [[l r']|] eqn:E; [|done]. intros [= <- <-]. by constructor.
Qed.

Lemma decode_scalar_length s tok r : decode_scalar s = Some (tok, r) -> (length r < length s)%nat.
Proof. intros E%decode_scalar_cases. destruct E as [| ? ? ?%scan_number_length | |]; done. Qed.

(** What a successful [Token] returns: a delimiter, or a scalar of the input. *)
Lemma Token_Ok n : forall dec tok dec', Token_go n dec = Ok (tok, dec') ->
  (length (dec_in dec') < length (dec_in dec))%nat /\
  ((exists c, tok = TDelim c) \/ exists s, decode_scalar s = Some (tok, dec_in dec')).
Proof.
  induction n as [|n IH]; intros dec tok dec' E; [done|]. cbn [Token_go] in E.
  pose proof (skip_ws_length (dec_in dec)) as Hl.
  destruct (skip_ws (dec_in dec)) as [|c r]; [done|]. cbn [length] in Hl.
  assert (forall st stack, Token_go n (mkDecoder r st stack) = Ok (tok, dec') ->
    (length (dec_in dec') < length (dec_in dec))%nat /\
    ((exists c, tok = TDelim c) \/ exists s, decode_scalar s = Some (tok, dec_in dec'))) as Hrec.
  { intros st stack H%IH. cbn [dec_in] in H. destruct H. split; [lia|done]. }
  assert (forall st stack, ('(tok, r) ← of_option err_json (decode_scalar (c :: r)); Ok (tok, mkDecoder r st stack)) = Ok (tok, dec') ->
    (length (dec_in dec') < length (dec_in dec))%nat /\
    ((exists c, tok = TDelim c) \/ exists s, decode_scalar s = Some (tok, dec_in dec'))) as Hsc.
  { intros st stack H. destruct (decode_scalar (c :: r)) as [[t0 r0]|] eqn:Ed; [|done].
    cbn in H. injection H as <- <-. pose proof (decode_scalar_length _ _ _ Ed) as Hlt. cbn [length] in Hlt.
    cbn [dec_in]. split; [lia|]. right. eauto. }
  assert (forall d, dec_in dec' = r -> tok = TDelim d -> (length (dec_in dec') < length (dec_in dec))%nat /\
    ((exists c, tok = TDelim c) \/ exists s, decode_scalar s = Some (tok, dec_in dec'))) as Hdel.
  { intros d -> ->. split; [lia|]. left. eauto. }
  assert (dec_in (pop_stack dec r) = r) as Hpop by (unfold pop_stack; by destruct (dec_stack dec)).
  revert E. generalize (dec_state dec) as st. intros st E.
  destruct (decide (c = "["%byte)) as [->|N1];
    [case_match; [|done]; injection E as <- <-; eapply Hdel; done|].
  destruct (decide (c = "]"%byte)) as [->|N2];
    [case_match; [|done]; injection E as <- <-; eapply Hdel; done|].
  destruct (decide (c = "{"%byte)) as [->|N3];
    [case_match; [|done]; injection E as <- <-; eapply Hdel; done|].
  destruct (decide (c = "}"%byte)) as [->|N4];
    [case_match; [|done]; injection E as <- <-; eapply Hdel; done|].
  destruct (decide (c = ":"%byte)) as [->|N5]; [case_match; [|done]; by eapply Hrec|].
  destruct (decide (c = ","%byte)) as [->|N6]; [destruct st; try done; by eapply Hrec|].
  assert (exists st' stack, ('(tok, r) ← of_option err_json (decode_scalar (c :: r)); Ok (tok, mkDecoder r st' stack)) = Ok (tok, dec'))
    as (st' & stack & E'); [|by eapply Hsc].
  destruct (bool_decide (c = x22) && (bool_decide (st = tokenObjectStart) || bool_decide (st = tokenObjectKey))) eqn:Hk.
  - exists tokenObjectColon, (dec_stack dec). rewrite <- E. clear -N1 N2 N3 N4 N5 N6 Hk.
    destruct c; first [contradiction|discriminate Hk|reflexivity].
  - destruct (tokenValueAllowed st) eqn:Ha.
    + exists (tokenValueEnd st), (dec_stack dec). rewrite <- E. clear -N1 N2 N3 N4 N5 N6.
      destruct c; first [contradiction|reflexivity].
    + exfalso. clear -E N1 N2 N3 N4 N5 N6. destruct c; first [contradiction|discriminate E].
Qed.

(** ** Decoded strings are well-formed UTF-8 *)

Lemma simple_escape_ascii e c : simple_escape e = Some c -> b2z c < 128.
Proof. destruct e; try done; by intros [= <-]. Qed.

Lemma unquote_step_valid s out k :
  unquote_step s = Some (out, k) -> forall t, valid_utf8 (out ++ t) = valid_utf8 t.
Proof.
  destruct s as [|c s]; [done|]. intros E t.
  destruct (Z_lt_le_dec (b2z c) 128) as [Hlt|Hge].
  - destruct (decide (c = x5c)) as [->|Hc].
    + destruct s as [|e s]; [done|]. unfold unquote_step, mbind, option_bind in E.
      destruct (decide (e = "u"%byte)) as [->|].
      * destruct (getu4 _); [|done].
        repeat case_match; try done; injection E as <- _; apply valid_encode_app.
      * destruct (decide (e = x27)) as [->|]; [injection E as <- _; by apply valid_ascii_app|].
        assert (exists c, simple_escape e = Some c /\ out = [c]) as (c & Hc & ->).
        { destruct e; try done; eexists; (split; [reflexivity|]); by injection E as <- _. }
        by apply valid_ascii_app, (simple_escape_ascii e).
    + assert (out = [c]) as -> by (destruct c; try done; by injection E as <- _).
      by apply valid_ascii_app.
  - rewrite unquote_step_high in E by done. injection E as <- _. apply valid_encode_app.
Qed.

Lemma unquote_valid s out : unquote s = Some out -> valid_utf8 out = true.
Proof.
  unfold unquote. generalize (length s) as n. intros n. revert s out.
  induction n as [|n IH]; intros [|c s] out; try done; try by intros [= <-].
  cbn [unquote_go]. destruct (unquote_step (c :: s)) as [[o k]|] eqn:E; [|done]. cbn [mbind option_bind].
  destruct (unquote_go n _) as [u|] eqn:Eu; [|done]. intros [= <-].
  rewrite (unquote_step_valid _ _ _ E). by apply IH in Eu.
Qed.
