(* ===== verification/Canonical.v ===== *)
(** * Canonical JSON: [pkg/iscp/canonical/canonical.go]

    [ParseStrict], [Marshal], [MarshalValue], [SignatureInput] and
    [RejectUnknownTopLevel] as the package defines them over the token reader
    of [encoding/json].  A Go map is the association list of its entries in
    insertion order; its iteration order never matters to the code. *)
From Stdlib Require Import ZArith Lia Strings.Byte.
From stdpp Require Import sorting numbers gmap strings base list.
From S2P Require Import Prelude Errors Utf8 GoJson JsonFacts.
Open Scope Z_scope.

Definition signaturePrefix : bytes := go_bytes "ISCP-V2-SIGNATURE" ++ [x00].

(** [v[k]] on a Go map. *)
Fixpoint assoc {A} (k : string) (l : list (string * A)) : option A :=
  match l with
  | [] => None
  | (k', a) :: l => if bool_decide (k = k') then Some a else assoc k l
  end.

Definition err_fuel : error := PlainError "parse fuel exhausted".

(** The [json.Number] case of [parseValue]. *)
Definition parse_number (s : bytes) : result Value :=
  _ ← reject_if (existsb (fun c => bool_decide (c = x2e) || bool_decide (c = x65) || bool_decide (c = x45)) s)
        (PlainError "float values are not allowed");
  _ ← reject_if ((1 <? length s)%nat && bool_decide (head s = Some x30))
        (PlainError "leading zero integer is not allowed");
  _ ← reject_if (bool_decide (take 2 s = [x2d; x30]))
        (PlainError "negative leading zero integer is not allowed");
  i ← ParseInt s;
  Ok (JInt i).

(** [parseValue] and its two loops.  [n] bounds the number of nested calls;
    [parse_fuel] of the input is always enough ([parseValue_total]). *)
Fixpoint parseValue (n : nat) (dec : Decoder) : result (Value * Decoder) :=
  match n with
  | O => Err err_fuel
  | S n =>
      '(tok, dec) ← Token dec;
      match tok with
      | TDelim c =>
          if bool_decide (c = "{"%byte) then parseObject n [] dec
          else if bool_decide (c = "["%byte) then parseArray n [] dec
          else Err (PlainError "unexpected delimiter")
      | TNum s => i ← parse_number s; Ok (i, dec)
      | TStr s => Ok (JStr s, dec)
      | TBool b => Ok (JBool b, dec)
      | TNull => Ok (JNull, dec)
      end
  end
with parseObject (n : nat) (obj : list (string * Value)) (dec : Decoder) : result (Value * Decoder) :=
  match n with
  | O => Err err_fuel
  | S n =>
      if More dec then
        '(keyTok, dec) ← Token dec;
        match keyTok with
        | TStr key =>
            if bool_decide (is_Some (assoc key obj))
            then Err (PlainError ("duplicate object field " +:+ key))
            else
              '(value, dec) ← parseValue n dec;
              parseObject n (obj ++ [(key, value)]) dec
        | _ => Err (PlainError "object key is not string")
        end
      else
        '(tok_end, dec) ← Token dec;
        match tok_end with
        | TDelim "}"%byte => Ok (JObj obj, dec)
        | _ => Err (PlainError "object not closed")
        end
  end
with parseArray (n : nat) (arr : list Value) (dec : Decoder) : result (Value * Decoder) :=
  match n with
  | O => Err err_fuel
  | S n =>
      if More dec then
        '(value, dec) ← parseValue n dec;
        parseArray n (arr ++ [value]) dec
      else
        '(tok_end, dec) ← Token dec;
        match tok_end with
        | TDelim "]"%byte => Ok (JArr arr, dec)
        | _ => Err (PlainError "array not closed")
        end
  end.

Definition parse_fuel (input : bytes) : nat := (2 * length input + 2)%nat.

Definition ParseStrict (input : bytes) : result Value :=
  let dec := NewDecoder input in
  match parseValue (parse_fuel input) dec with
  | Err err => Err (Wrap CodeCanonicalInvalid "invalid canonical json input" err)
  | Ok (value, dec) =>
      if More dec then Err (New CodeCanonicalInvalid "unexpected trailing json value")
      else match Decode_any dec with
      | Ok _ => Err (New CodeCanonicalInvalid "unexpected trailing json value")
      | Err _ => Ok value
      end
  end.

(** [writeCanonical], as the text appended to the buffer.  The members of a map
    are rendered in the order of the sorted keys. *)
Fixpoint write_items (first : bool) (items : list (result bytes)) : result bytes :=
  match items with
  | [] => Ok []
  | item :: items =>
      x ← item;
      rest ← write_items false items;
      Ok ((if first then [] else [","%byte]) ++ x ++ rest)
  end.

Definition write_member (fields : list (string * result bytes)) (k : string) : result bytes :=
  x ← default (Ok (go_bytes "null")) (assoc k fields);
  Ok (quote k ++ ":"%byte :: x).

Fixpoint writeCanonical (v : Value) : result bytes :=
  match v with
  | JNull => Ok (go_bytes "null")
  | JBool b => Ok (go_bytes (if b then "true" else "false"))
  | JStr s => Ok (quote s)
  | JInt z => Ok (format_int z)
  | JObj l =>
      let fields := map (fun p => match p with (k, x) => (k, writeCanonical x) end) l in
      let keys := merge_sort String.le (map fst l) in
      body ← write_items true (map (write_member fields) keys);
      Ok ("{"%byte :: body ++ ["}"%byte])
  | JArr l =>
      body ← write_items true (map writeCanonical l);
      Ok ("["%byte :: body ++ ["]"%byte])
  | JRaw _ => Err (New CodeCanonicalInvalid "unsupported canonical type")
  end.

Definition MarshalValue (v : Value) : result bytes := writeCanonical v.

Definition Marshal (input : bytes) : result bytes :=
  value ← ParseStrict input;
  writeCanonical value.

(** [delete(obj, k)]. *)
Definition delete_field {A} (k : string) (l : list (string * A)) : list (string * A) :=
  filter (fun p => p.1 <> k) l.

Definition SignatureInput (objectType : string) (input : bytes) : result bytes :=
  value ← ParseStrict input;
  match value with
  | JObj obj =>
      canon ← MarshalValue (JObj (delete_field "signature" obj));
      Ok (signaturePrefix ++ go_bytes objectType ++ [x00] ++ canon)
  | _ => Err (New CodeCanonicalInvalid "signed object must be a json object")
  end.

(** The loop over the map stops at some unknown key; which one depends on the
    iteration order, so the first in insertion order stands for it. *)
Definition RejectUnknownTopLevel (input : bytes) (allowed : gset string) : result unit :=
  value ← ParseStrict input;
  match value with
  | JObj obj =>
      match list_find (fun p => p.1 ∉ allowed) obj with
      | Some (_, (key, _)) =>
          Err (New CodeCanonicalInvalid ("unknown top-level field: " +:+ key))
      | None => Ok tt
      end
  | _ => Err (New CodeCanonicalInvalid "top-level value must be an object")
  end.

(** JSON text with [']s for quotation marks, for examples. *)
Definition js (s : string) : bytes :=
  map (fun b => if bool_decide (b = x27) then x22 else b) (go_bytes s).

Example canonical_order :
  Marshal (js "{ 'b' : [1, -20 ,true], 'a':{'z':null,'y':'<\u00e9'} }")
  = Ok (js "{'a':{'y':'\u003cé','z':null},'b':[1,-20,true]}").
Proof. vm_compute. reflexivity. Qed.

(** ** Well-formed values *)

Definition clean_str (s : string) : string := go_string (sanitize (go_bytes s)).

(** What a round trip through text does to a value: ill-formed UTF-8 in
    strings and member names is replaced. *)
Fixpoint clean (v : Value) : Value :=
  match v with
  | JStr s => JStr (clean_str s)
  | JArr l => JArr (map clean l)
  | JObj l => JObj (map (fun p => match p with (k, x) => (clean_str k, clean x) end) l)
  | v => v
  end.

(** A value whose text [ParseStrict] accepts: 64-bit integers and member names
    that stay distinct. *)
Fixpoint parseable (v : Value) : bool :=
  match v with
  | JInt z => in_i64 z
  | JArr l => forallb parseable l
  | JObj l =>
      bool_decide (NoDup (map (fun p => clean_str p.1) l)) &&
      forallb (fun p => match p with (_, x) => parseable x end) l
  | JRaw _ => false
  | _ => true
  end.

(** A value [ParseStrict] can return. *)
Fixpoint wf_value (v : Value) : bool :=
  match v with
  | JInt z => in_i64 z
  | JStr s => valid_utf8 (go_bytes s)
  | JArr l => forallb wf_value l
  | JObj l =>
      bool_decide (NoDup (map fst l)) &&
      forallb (fun p => match p with (k, x) => valid_utf8 (go_bytes k) && wf_value x end) l
  | JRaw _ => false
  | _ => true
  end.

Definition key_le (p q : string * Value) : Prop := (p.1 ≤ q.1)%string.

#[export] Instance key_le_dec : RelDecision key_le.
Proof. intros p q. apply String.le_dec. Defined.

(** The canonical member order, at every level. *)
Fixpoint sort_value (v : Value) : Value :=
  match v with
  | JArr l => JArr (map sort_value l)
  | JObj l => JObj (merge_sort key_le (map (fun p => match p with (k, x) => (k, sort_value x) end) l))
  | v => v
  end.

(** Induction on values with hypotheses for the members. *)
Lemma Value_nested_ind (P : Value -> Prop) :
  P JNull -> (forall b, P (JBool b)) -> (forall z, P (JInt z)) -> (forall s, P (JStr s)) ->
  (forall l, Forall P l -> P (JArr l)) ->
  (forall l, Forall (fun p => P p.2) l -> P (JObj l)) ->
  (forall t, P (JRaw t)) ->
  forall v, P v.
Proof.
  intros H1 H2 H3 H4 H5 H6 H7. fix IH 1. intros [|b|z|s|l|l|t];
    [apply H1|apply H2|apply H3|apply H4|apply H5|apply H6|apply H7].
  - induction l as [|x l IHl]; constructor; [apply IH|apply IHl].
  - induction l as [|[k x] l IHl]; constructor; [apply IH|apply IHl].
Qed.

(** ** Reading back encoded text *)

Inductive ready : tokenState -> bytes -> tokenState -> Prop :=
| ready_now st : tokenValueAllowed st = true -> ready st [] st
| ready_colon : ready tokenObjectColon [":"%byte] tokenObjectValue
| ready_comma : ready tokenArrayComma [","%byte] tokenArrayValue.

Lemma Token_ready st sep st' s stack :
  ready st sep st' -> Token (mkDecoder (sep ++ s) st stack) = Token (mkDecoder s st' stack).
Proof. destruct 1; [done|apply Token_colon|apply Token_array_comma]. Qed.

Lemma ready_allowed st sep st' : ready st sep st' -> tokenValueAllowed st' = true.
Proof. by destruct 1. Qed.

Fixpoint cost (v : Value) : nat :=
  match v with
  | JArr l => 2 + sum_list (map (fun x => S (cost x)) l)
  | JObj l => 2 + sum_list (map (fun p => match p with (_, x) => S (cost x) end) l)
  | _ => 1
  end.

Lemma join_cons sep x l : join sep (x :: l) = x ++ flat_map (fun y => sep ++ y) l.
Proof.
  revert x. induction l as [|y l IH]; intros x; simpl; [by rewrite app_nil_r|].
  rewrite <- app_assoc. f_equal. f_equal. apply IH.
Qed.

Lemma quote_nonempty s : exists t, quote s = x22 :: t.
Proof. eexists. reflexivity. Qed.

Definition starts_value (s : bytes) : bool :=
  match s with
  | c :: _ => negb (is_space c || bool_decide (c = "]"%byte) || bool_decide (c = "}"%byte))
  | [] => false
  end.

Lemma More_starts s st stack : starts_value s = true -> More (mkDecoder s st stack) = true.
Proof. destruct s as [|c s]; [done|]. unfold More. simpl. by_bytes c. Qed.

Lemma starts_value_app s t : starts_value s = true -> starts_value (s ++ t) = true.
Proof. by destruct s. Qed.

Lemma digit_start c t : is_digit c = true -> starts_value (c :: t) = true.
Proof. by_bytes c. Qed.

Lemma format_int_start z : starts_value (format_int z) = true.
Proof.
  unfold format_int. destruct (Z.ltb_spec z 0) as [|Hz]; [done|].
  destruct (format_uint_decimal z Hz) as [D1 D2 _ _ _].
  destruct (format_uint z) as [|c t]; [done|]. simpl in D1.
  apply andb_true_iff in D1 as [D1 _]. by apply digit_start.
Qed.

Lemma encode_start v : parseable v = true -> starts_value (encode v) = true.
Proof. destruct v as [|[]|z| | | |]; try done. intros _. apply format_int_start. Qed.

Lemma encode_length v : parseable v = true -> (1 <= length (encode v))%nat.
Proof. intros H%encode_start. destruct (encode v); simpl; [done|lia]. Qed.

Lemma flat_map_length {A} (f : A -> bytes) l :
  length (flat_map f l) = sum_list (map (fun x => length (f x)) l).
Proof. induction l as [|x l IH]; simpl; [done|]. by rewrite length_app, IH. Qed.

Lemma join_length sep l : (sum_list (map length l) <= length (join sep l))%nat.
Proof.
  destruct l as [|x l]; [done|]. rewrite join_cons, length_app, flat_map_length. simpl.
  induction l as [|y l IH]; simpl; [lia|]. rewrite length_app. lia.
Qed.

Lemma cost_encode v : parseable v = true -> (cost v < 2 * length (encode v))%nat.
Proof.
  induction v as [|b|z|s|l IH|l IH|t] using Value_nested_ind; intros Hp;
    try (pose proof (encode_length _ Hp); simpl cost; lia).
  - cbn [cost encode]. rewrite length_cons, length_app. simpl length.
    pose proof (join_length [","%byte] (map encode l)) as Hj. rewrite map_map in Hj.
    assert (sum_list (map (fun x => S (cost x)) l) <= 2 * sum_list (map (fun x => length (encode x)) l))%nat.
    { simpl in Hp. clear Hj. induction IH as [|x l Hx _ IHl]; simpl in *; [lia|].
      apply andb_true_iff in Hp as [Hp1 Hp2]. specialize (Hx Hp1). specialize (IHl Hp2). lia. }
    lia.
  - cbn [cost encode]. rewrite length_cons, length_app. simpl length.
    match goal with |- context [join _ (map ?f l)] => pose proof (join_length [","%byte] (map f l)) as Hj end.
    rewrite map_map in Hj. simpl in Hp. apply andb_true_iff in Hp as [_ Hp].
    match type of Hj with (sum_list ?B <= _)%nat =>
      assert (sum_list (map (fun p : string * Value => match p with (_, x) => S (cost x) end) l) <= 2 * sum_list B)%nat
    end.
    { clear Hj. induction IH as [|[k x] l Hx _ IHl]; simpl in *; [lia|].
      apply andb_true_iff in Hp as [Hp1 Hp2]. specialize (Hx Hp1). specialize (IHl Hp2).
      rewrite length_app, length_cons. lia. }
    lia.
Qed.

(** Reading [encode v] back, in any state that accepts a value. *)
Definition reads_back (v : Value) : Prop :=
  forall n st sep st' stack rest,
    (cost v <= n)%nat -> ready st sep st' -> num_end rest = true ->
    parseValue n (mkDecoder (sep ++ encode v ++ rest) st stack)
    = Ok (clean v, mkDecoder rest (tokenValueEnd st') stack).

Definition scalar_result (tok : token) : result Value :=
  match tok with
  | TNum s => parse_number s
  | TStr s => Ok (JStr s)
  | TBool b => Ok (JBool b)
  | TNull => Ok JNull
  | TDelim _ => Err err_token
  end.

Lemma reads_back_scalar v tok c t :
  encode v = c :: t -> scalar_start c = true -> cost v = 1%nat ->
  (forall rest, num_end rest = true -> decode_scalar (encode v ++ rest) = Some (tok, rest)) ->
  scalar_result tok = Ok (clean v) ->
  reads_back v.
Proof.
  intros He Hc Hcost Hd Hv n st sep st' stack rest Hn Hr Hend.
  destruct n as [|n]; [lia|]. cbn [parseValue]. rewrite (Token_ready _ _ _ _ _ Hr).
  specialize (Hd rest Hend). rewrite He in *. cbn [app] in *.
  rewrite (Token_scalar _ _ _ _ _ _ Hc (ready_allowed _ _ _ Hr) Hd).
  clear -Hv. destruct tok; cbn [mbind result_bind scalar_result] in *;
    first [discriminate Hv | rewrite Hv; reflexivity | injection Hv as <-; reflexivity].
Qed.

Lemma parse_number_format z : in_i64 z = true -> parse_number (format_int z) = Ok (JInt z).
Proof.
  intros Hz. unfold parse_number. rewrite (ParseInt_format z Hz).
  assert (forall s, forallb is_digit s = true ->
    existsb (fun c => bool_decide (c = x2e) || bool_decide (c = x65) || bool_decide (c = x45)) s = false) as Hex.
  { intros s. induction s as [|c s IH]; [done|]. simpl. intros [Hc Hs]%andb_true_iff.
    rewrite (IH Hs). revert Hc. by_bytes c. }
  unfold format_int. destruct (Z.ltb_spec z 0) as [Hneg|Hpos].
  - destruct (format_uint_decimal (- z)) as [D1 D2 _ _ D5]; [lia|].
    destruct D5 as (c & t & E & Hc); [lia|]. rewrite E in *.
    change (existsb ?f (x2d :: ?l)) with (existsb f l). rewrite (Hex _ D1). cbn.
    rewrite bool_decide_eq_false_2; [done|]. intros [= ?]. by destruct t.
  - destruct (format_uint_decimal z) as [D1 D2 _ D4 D5]; [lia|]. rewrite (Hex _ D1). cbn.
    destruct (decide (z = 0)) as [->|]; [done|].
    destruct D5 as (c & t & E & Hc); [lia|]. rewrite E in *.
    rewrite (bool_decide_eq_false_2 (head (c :: t) = Some x30)) by (simpl; congruence).
    rewrite andb_false_r. cbn. rewrite bool_decide_eq_false_2; [done|].
    simpl in D1. apply andb_true_iff in D1 as [D1 _]. intros [= -> ?]. done.
Qed.

Lemma reads_back_int z : in_i64 z = true -> reads_back (JInt z).
Proof.
  intros Hz. pose proof (format_int_start z) as Hs.
  destruct (format_int z) as [|c t] eqn:E; [done|].
  assert (c = x2d \/ is_digit c = true) as Hc.
  { revert E. unfold format_int. destruct (Z.ltb_spec z 0) as [|Hp]; [intros [= <-]; by left|].
    destruct (format_uint_decimal z Hp) as [D1 _ _ _ _]. intros E. rewrite E in D1.
    simpl in D1. apply andb_true_iff in D1 as [D1 _]. by right. }
  apply reads_back_scalar with (TNum (format_int z)) c t.
  - done.
  - destruct Hc as [->|Hc]; [done|]. revert Hc. by_bytes c.
  - done.
  - intros rest Hend. pose proof (scan_number_format z rest Hend) as Hn.
    cbn [encode]. rewrite E in *. cbn [app] in *.
    transitivity ('(lit, r) ← scan_number (c :: t ++ rest); Some (TNum lit, r)); [|by rewrite Hn].
    destruct Hc as [->|Hc]; [done|]. by_bytes c.
  - by apply parse_number_format.
Qed.

Lemma reads_back_str s : reads_back (JStr s).
Proof.
  destruct (quote_nonempty s) as [t Ht].
  apply reads_back_scalar with (TStr (clean_str s)) x22 t; [done..| |done].
  intros rest _. apply decode_scalar_quote.
Qed.

(** The loop of [parseArray] after the first element. *)
Lemma parseArray_tail l : Forall reads_back l -> forall n acc st' stack rest,
  (S (sum_list (map (fun x => S (cost x)) l)) <= n)%nat ->
  parseArray n acc (mkDecoder (flat_map (fun y => ","%byte :: y) (map encode l) ++ "]"%byte :: rest)
                      tokenArrayComma (st' :: stack))
  = Ok (JArr (acc ++ map clean l), mkDecoder rest (tokenValueEnd st') stack).
Proof.
  induction 1 as [|x l Hx _ IH]; intros n acc st' stack rest Hn.
  - destruct n as [|n]; [lia|]. simpl. rewrite app_nil_r. done.
  - destruct n as [|n]; [simpl in Hn; lia|]. cbn [map flat_map]. rewrite <- app_assoc.
    cbn [app parseArray]. rewrite More_starts by done. simpl in Hn.
    rewrite app_comm_cons.
    change (","%byte :: encode x) with ([","%byte] ++ encode x). rewrite <- app_assoc.
    rewrite (Hx n tokenArrayComma [","%byte] tokenArrayValue); [..|by destruct l]; [|lia|constructor].
    cbn. rewrite IH by lia. by rewrite <- app_assoc.
Qed.

Lemma reads_back_arr l : Forall reads_back l -> Forall (fun v => parseable v = true) l -> reads_back (JArr l).
Proof.
  intros Hl Hp n st sep st' stack rest Hn Hr Hend.
  destruct n as [|[|n]]; [simpl in Hn; lia..|].
  cbn [parseValue encode]. rewrite (Token_ready _ _ _ _ _ Hr).
  cbn [app]. rewrite Token_open_array by apply (ready_allowed _ _ _ Hr). cbn [mbind result_bind].
  rewrite bool_decide_eq_false_2, bool_decide_eq_true_2 by done.
  destruct Hl as [|x l Hx Hl]; [done|].
  apply Forall_cons_1 in Hp as [Hpx _]. cbn [map]. rewrite join_cons, <- !app_assoc.
  cbn [parseArray]. rewrite More_starts by by apply starts_value_app, encode_start.
  simpl in Hn.
  pose proof (Hx n tokenArrayStart [] tokenArrayStart (st' :: stack)
    (flat_map (fun y => [","%byte] ++ y) (map encode l) ++ ["]"%byte] ++ rest)) as Hx'.
  cbn [app] in Hx'. cbn [app]. rewrite Hx'; [..|by destruct l]; [|lia|by constructor].
  cbn. rewrite parseArray_tail by (done || lia). done.
Qed.

Lemma assoc_None {A} k (l : list (string * A)) : assoc k l = None <-> k ∉ map fst l.
Proof.
  induction l as [|[k' a] l IH]; simpl; [set_solver|].
  case_bool_decide; rewrite ?elem_of_cons; naive_solver.
Qed.

Definition member_text (p : string * Value) : bytes := quote p.1 ++ ":"%byte :: encode p.2.

Definition clean_member (p : string * Value) : string * Value := (clean_str p.1, clean p.2).

(** One key of [parseObject], from its text to the value that follows. *)
Lemma parseObject_member n acc pre st st' stack k x rest :
  (forall t, Token (mkDecoder (pre ++ quote k ++ t) st (st' :: stack))
             = Ok (TStr (clean_str k), mkDecoder t tokenObjectColon (st' :: stack))) ->
  reads_back x -> (cost x <= n)%nat -> num_end rest = true ->
  clean_str k ∉ map fst acc ->
  starts_value (pre ++ quote k) = true ->
  parseObject (S n) acc (mkDecoder (pre ++ member_text (k, x) ++ rest) st (st' :: stack))
  = parseObject n (acc ++ [clean_member (k, x)]) (mkDecoder rest tokenObjectComma (st' :: stack)).
Proof.
  intros Htok Hx Hn Hend Hk Hs. unfold member_text. cbn [fst snd parseObject].
  rewrite More_starts by (rewrite <- (app_assoc (quote k)), app_assoc; by apply starts_value_app).
  rewrite <- (app_assoc (quote k)). rewrite Htok. cbn [mbind result_bind].
  rewrite (proj2 (assoc_None _ _) Hk). rewrite bool_decide_eq_false_2 by (by intros []).
  pose proof (Hx n tokenObjectColon [":"%byte] tokenObjectValue (st' :: stack) rest Hn
    ready_colon Hend) as Hp.
  cbn [app] in *. by rewrite Hp.
Qed.

Lemma parseObject_tail l : Forall (fun p => reads_back p.2) l -> forall n acc st' stack rest,
  (S (sum_list (map (fun p : string * Value => match p with (_, x) => S (cost x) end) l)) <= n)%nat ->
  NoDup (map fst acc ++ map (fun p => clean_str p.1) l) ->
  parseObject n acc (mkDecoder (flat_map (fun y => ","%byte :: y) (map member_text l) ++ "}"%byte :: rest)
                      tokenObjectComma (st' :: stack))
  = Ok (JObj (acc ++ map clean_member l), mkDecoder rest (tokenValueEnd st') stack).
Proof.
  induction 1 as [|[k x] l Hx _ IH]; intros n acc st' stack rest Hn Hd.
  - destruct n as [|n]; [lia|]. simpl. rewrite app_nil_r. done.
  - destruct n as [|n]; [simpl in Hn; lia|]. cbn [map flat_map]. simpl in Hn.
    change (","%byte :: member_text (k, x)) with ([","%byte] ++ member_text (k, x)).
    rewrite <- !app_assoc.
    rewrite parseObject_member; [|intros t; simpl; rewrite Token_object_comma; by apply Token_key; right
      |done|lia|by destruct l| |done].
    + rewrite IH; [by rewrite <- app_assoc|lia|].
      rewrite map_app. simpl in *. by rewrite <- app_assoc.
    + simpl in Hd. apply NoDup_app in Hd as (_ & Hd & _). intros Hin. apply (Hd _ Hin). left.
Qed.

Lemma reads_back_obj l :
  Forall (fun p => reads_back p.2) l -> NoDup (map (fun p => clean_str p.1) l) -> reads_back (JObj l).
Proof.
  intros Hl Hd n st sep st' stack rest Hn Hr Hend.
  destruct n as [|[|n]]; [simpl in Hn; lia..|].
  cbn [parseValue encode]. rewrite (Token_ready _ _ _ _ _ Hr).
  cbn [app]. rewrite Token_open_object by apply (ready_allowed _ _ _ Hr). cbn [mbind result_bind].
  rewrite bool_decide_eq_true_2 by done.
  assert (map (fun p : string * Value => match p with (k, x) => quote k ++ ":"%byte :: encode x end) l
    = map member_text l) as -> by (apply map_ext; by intros []).
  assert (clean (JObj l) = JObj (map clean_member l)) as ->.
  { simpl. f_equal. apply map_ext. by intros []. }
  destruct Hl as [|[k x] l Hx Hl]; [done|].
  cbn [map]. rewrite join_cons, <- !app_assoc. simpl in Hn.
  change (member_text (k, x) ++ ?t) with ([] ++ member_text (k, x) ++ t).
  rewrite parseObject_member; [|intros t; by apply Token_key; left|done|lia|by destruct l|simpl; set_solver|done].
  cbn [app]. by rewrite parseObject_tail by (done || lia).
Qed.

(** Every parseable value is read back from its text. *)
Lemma encode_reads_back v : parseable v = true -> reads_back v.
Proof.
  induction v as [|[]|z|s|l IH|l IH|t] using Value_nested_ind; intros Hp; try done.
  - by apply reads_back_scalar with TNull "n"%byte (go_bytes "ull").
  - by apply reads_back_scalar with (TBool true) "t"%byte (go_bytes "rue").
  - by apply reads_back_scalar with (TBool false) "f"%byte (go_bytes "alse").
  - by apply reads_back_int.
  - apply reads_back_str.
  - simpl in Hp. apply reads_back_arr.
    + induction IH as [|x l Hx _ IHl]; simpl in Hp; bool_prop; constructor; auto.
    + clear IH. induction l; simpl in Hp; bool_prop; constructor; auto.
  - simpl in Hp. bool_prop. apply reads_back_obj; [|done].
    clear H. induction IH as [|[k x] l Hx _ IHl]; simpl in *; bool_prop; constructor; auto.
Qed.

Lemma ParseStrict_encode v : parseable v = true -> ParseStrict (encode v) = Ok (clean v).
Proof.
  intros Hp. unfold ParseStrict, NewDecoder.
  pose proof (encode_reads_back v Hp (parse_fuel (encode v)) tokenTopValue [] tokenTopValue [] []) as Hr.
  cbn [app] in Hr. rewrite app_nil_r in Hr.
  rewrite Hr; [done| |by constructor|done].
  pose proof (cost_encode v Hp). unfold parse_fuel. lia.
Qed.
