(* ===== verification/CanonicalProps.v ===== *)
(** * Properties of canonical JSON

    [ParseStrict] always answers and returns well-formed values; the canonical
    text of a value is read back as that value with sorted members, so
    canonicalisation is idempotent, blind to member order and injective; the
    signature input separates object types and binds every member. *)
From Stdlib Require Import ZArith Lia Strings.Byte.
From stdpp Require Import sorting numbers gmap strings base list.
From S2P Require Import Prelude Errors Utf8 GoJson JsonFacts Canonical.
Open Scope Z_scope.

(** ** Values returned by the parser *)

Lemma Token_string dec s dec' : Token dec = Ok (TStr s, dec') -> valid_utf8 (go_bytes s) = true.
Proof.
  intros (_ & [[c Hc]|[s0 Hs]])%Token_Ok; [done|].
  apply decode_scalar_cases in Hs. inversion Hs as [body str r _ _ Hu E| | |].
  rewrite go_bytes_string. by apply unquote_valid in Hu.
Qed.

Lemma Token_shrinks dec tok dec' : Token dec = Ok (tok, dec') -> (length (dec_in dec') < length (dec_in dec))%nat.
Proof. by intros [? _]%Token_Ok. Qed.

Lemma ParseInt_cases s :
  (exists z, ParseInt s = Ok z /\ in_i64 z = true) \/ ParseInt s = Err err_syntax \/ ParseInt s = Err err_range.
Proof.
  unfold ParseInt. match goal with |- context [let '(_, _) := ?M in _] => generalize M end.
  intros [neg d]. destruct (_ || _); [auto|].
  destruct (in_i64 _) eqn:E; [|auto]. left. eauto.
Qed.

Lemma parse_number_int s v : parse_number s = Ok v -> exists z, v = JInt z /\ in_i64 z = true.
Proof.
  unfold parse_number. intros H. inv_ok. eexists. split; [done|].
  destruct (ParseInt_cases s) as [(z & Hz & ?)|[Hz|Hz]]; congruence.
Qed.

Lemma wf_obj_snoc l k v :
  wf_value (JObj l) = true -> assoc k l = None -> valid_utf8 (go_bytes k) = true -> wf_value v = true ->
  wf_value (JObj (l ++ [(k, v)])) = true.
Proof.
  simpl. intros H Hk Hv Hw. bool_prop. apply andb_true_iff. split.
  - apply bool_decide_eq_true. rewrite map_app. apply NoDup_app. simpl.
    split_and!; [done| |apply NoDup_singleton].
    intros x Hx ->%list_elem_of_singleton. by apply assoc_None in Hk.
  - rewrite forallb_app, H0. simpl. by rewrite Hv, Hw.
Qed.

Lemma wf_arr_snoc l v : wf_value (JArr l) = true -> wf_value v = true -> wf_value (JArr (l ++ [v])) = true.
Proof. simpl. intros Hl Hv. rewrite forallb_app, Hl. simpl. by rewrite Hv. Qed.

Lemma parse_Ok n :
  (forall dec v dec', parseValue n dec = Ok (v, dec') ->
     wf_value v = true /\ (length (dec_in dec') < length (dec_in dec))%nat) /\
  (forall obj dec v dec', wf_value (JObj obj) = true -> parseObject n obj dec = Ok (v, dec') ->
     wf_value v = true /\ (length (dec_in dec') < length (dec_in dec))%nat) /\
  (forall arr dec v dec', wf_value (JArr arr) = true -> parseArray n arr dec = Ok (v, dec') ->
     wf_value v = true /\ (length (dec_in dec') < length (dec_in dec))%nat).
Proof.
  induction n as [|n (IHv & IHo & IHa)]; [done|]. split_and!.
  - intros dec v dec' H. cbn [parseValue] in H.
    destruct (Token dec) as [[tok d]|] eqn:Et; [|done]. cbn [mbind result_bind] in H.
    pose proof (Token_shrinks _ _ _ Et). destruct tok as [c|s|lit|b|].
    + destruct (bool_decide (c = "{"%byte));
        [apply IHo in H as [? ?]; [split; [done|lia]|done]|].
      destruct (bool_decide (c = "["%byte));
        [apply IHa in H as [? ?]; [split; [done|lia]|done]|done].
    + injection H as <- <-. split; [|done]. by apply Token_string in Et.
    + destruct (parse_number lit) as [i|] eqn:En; [|done]. apply parse_number_int in En as (z & -> & Hz).
      cbn in H. by injection H as <- <-.
    + by injection H as <- <-.
    + by injection H as <- <-.
  - intros obj dec v dec' Hw H. cbn [parseObject] in H. destruct (More dec).
    + destruct (Token dec) as [[tok d]|] eqn:Et; [|done]. cbn [mbind result_bind] in H.
      destruct tok as [|key| | |]; try done. case_bool_decide as Hk; [done|].
      destruct (parseValue n d) as [[value d']|] eqn:Ev; [|done]. cbn [mbind result_bind] in H.
      pose proof (Token_shrinks _ _ _ Et). pose proof (Token_string _ _ _ Et).
      apply IHv in Ev as [Hv Hl]. apply IHo in H as [? ?]; [split; [done|lia]|].
      apply wf_obj_snoc; [done| |done|done]. by apply eq_None_not_Some.
    + destruct (Token dec) as [[tok d]|] eqn:Et; [|done]. cbn [mbind result_bind] in H.
      apply Token_shrinks in Et. repeat case_match; try done. by injection H as <- <-.
  - intros arr dec v dec' Hw H. cbn [parseArray] in H. destruct (More dec).
    + destruct (parseValue n dec) as [[value d']|] eqn:Ev; [|done]. cbn [mbind result_bind] in H.
      apply IHv in Ev as [Hv Hl]. apply IHa in H as [? ?]; [split; [done|lia]|]. by apply wf_arr_snoc.
    + destruct (Token dec) as [[tok d]|] eqn:Et; [|done]. cbn [mbind result_bind] in H.
      apply Token_shrinks in Et. repeat case_match; try done. by injection H as <- <-.
Qed.

Lemma ParseStrict_parsed input v :
  ParseStrict input = Ok v ->
  exists dec, parseValue (parse_fuel input) (NewDecoder input) = Ok (v, dec) /\ More dec = false.
Proof.
  unfold ParseStrict. intros H. repeat case_match; try done. injection H as <-. eauto.
Qed.

(** ** The fuel is always enough *)

Lemma Token_no_fuel n dec : Token_go n dec <> Err err_fuel.
Proof.
  revert dec. induction n as [|n IH]; intros dec; [done|]. cbn [Token_go].
  destruct (skip_ws (dec_in dec)) as [|c r]; [done|].
  assert (forall st stack, ('(tok, r) ← of_option err_json (decode_scalar (c :: r));
     Ok (tok, mkDecoder r st stack)) <> Err err_fuel) as Hsc.
  { intros st stack. by destruct (decode_scalar (c :: r)) as [[]|]. }
  destruct c; repeat case_match; first [discriminate|apply IH|apply Hsc].
Qed.

Lemma parse_number_no_fuel s : parse_number s <> Err err_fuel.
Proof.
  unfold parse_number, reject_if.
  destruct (existsb _ _); [done|]. cbn [mbind result_bind].
  destruct (_ && _); [done|]. cbn [mbind result_bind].
  case_bool_decide; [done|]. cbn [mbind result_bind].
  by destruct (ParseInt_cases s) as [(z & -> & _)|[-> | ->]].
Qed.

Lemma parse_no_fuel n :
  (forall dec, (2 * length (dec_in dec) < n)%nat -> parseValue n dec <> Err err_fuel) /\
  (forall obj dec, (2 * length (dec_in dec) + 1 < n)%nat -> parseObject n obj dec <> Err err_fuel) /\
  (forall arr dec, (2 * length (dec_in dec) + 1 < n)%nat -> parseArray n arr dec <> Err err_fuel).
Proof.
  induction n as [|n (IHv & IHo & IHa)]; [split_and!; intros; lia|].
  assert (forall A dec (k : token * Decoder -> result A),
    (forall tok d, (length (dec_in d) < length (dec_in dec))%nat -> k (tok, d) <> Err err_fuel) ->
    Token dec ≫= k <> Err err_fuel) as Htok.
  { intros A dec k Hk. destruct (Token dec) as [[tok d]|e] eqn:Et; cbn [mbind result_bind].
    - apply Hk. by apply Token_shrinks in Et.
    - intros [= ->]. by apply Token_no_fuel in Et. }
  assert (forall A dec (k : Value * Decoder -> result A), (2 * length (dec_in dec) < n)%nat ->
    (forall v d, (length (dec_in d) < length (dec_in dec))%nat -> k (v, d) <> Err err_fuel) ->
    parseValue n dec ≫= k <> Err err_fuel) as Hval.
  { intros A dec k Hn Hk. destruct (parseValue n dec) as [[v d]|e] eqn:Ev; cbn [mbind result_bind].
    - apply Hk. by apply (proj1 (parse_Ok n)) in Ev as [_ ?].
    - intros [= ->]. by apply (IHv _ Hn). }
  split_and!.
  - intros dec Hn. cbn [parseValue]. apply Htok. intros [c|s|lit|b|] d Hd; try done.
    + repeat case_match; [apply IHo; lia|apply IHa; lia|done].
    + pose proof (parse_number_no_fuel lit). destruct (parse_number lit); cbn; congruence.
  - intros obj dec Hn. cbn [parseObject]. destruct (More dec); apply Htok; intros tok d Hd;
      destruct tok; try done.
    + case_match; [done|]. apply Hval; [lia|]. intros v d' Hd'. apply IHo. lia.
    + destruct c; done.
  - intros arr dec Hn. cbn [parseArray]. destruct (More dec).
    + apply Hval; [lia|]. intros v d' Hd'. apply IHa. lia.
    + apply Htok. intros tok d Hd. destruct tok as [c| | | |]; try done. destruct c; done.
Qed.


Lemma ParseStrict_value_wf input v : ParseStrict input = Ok v -> wf_value v = true.
Proof.
  intros (dec & H & _)%ParseStrict_parsed. by apply (proj1 (parse_Ok _)) in H as [? _].
Qed.

(** Everything [ParseStrict] returns is well formed: integers fit 64 bits,
    strings and member names are valid UTF-8, and no object at any depth has
    two members of the same name. *)
Theorem ParseStrict_wf input v : ParseStrict input = Ok v -> wf_value v = true.
Proof. apply ParseStrict_value_wf. Qed.

Lemma ParseStrict_wf_witness :
  wf_value (JObj [("a", JInt 1); ("b", JArr [JNull; JStr "x"])]) = true.
Proof.
  apply (ParseStrict_wf (js "{'a':1, 'b':[null,'x']}")). vm_compute. reflexivity.
Defined.

(** ** The writer renders the sorted value *)

(** A value [writeCanonical] supports: no foreign type, and objects are maps. *)
Fixpoint plain (v : Value) : bool :=
  match v with
  | JArr l => forallb plain l
  | JObj l => bool_decide (NoDup (map fst l)) && forallb (fun p => match p with (_, x) => plain x end) l
  | JRaw _ => false
  | _ => true
  end.

Lemma forallb_Forall_iff {A} (f : A -> bool) l : forallb f l = true <-> Forall (fun x => f x = true) l.
Proof. rewrite forallb_forall, Forall_forall. by setoid_rewrite <- list_elem_of_In. Qed.

Lemma wf_plain v : wf_value v = true -> plain v = true.
Proof.
  induction v as [| | | |l IH|l IH|] using Value_nested_ind; try done; simpl; intros H.
  - induction IH as [|x l Hx _ IHl]; simpl in *; [done|]. bool_prop. by rewrite Hx, IHl.
  - bool_prop. apply andb_true_iff. split; [by apply bool_decide_eq_true|]. clear H.
    induction IH as [|[k x] l Hx _ IHl]; simpl in *; [done|]. bool_prop. by rewrite Hx, IHl.
Qed.

#[export] Instance key_le_total : Total key_le.
Proof. intros p q. apply String.le_total. Qed.

#[export] Instance key_le_trans : Transitive key_le.
Proof. intros p q r. unfold key_le. by apply PreOrder_Transitive. Qed.

Lemma Sorted_keys l : Sorted key_le l -> Sorted String.le (map fst l).
Proof.
  induction 1 as [|p l _ IH Hd]; simpl; constructor; [done|].
  destruct Hd; simpl; by constructor.
Qed.

Lemma sorted_keys_unique l l' :
  Sorted key_le l' -> l' ≡ₚ l -> map fst l' = merge_sort String.le (map fst l).
Proof.
  intros Hs Hp. apply (Sorted_unique String.le).
  - by apply Sorted_keys.
  - apply Sorted_merge_sort; apply _.
  - rewrite merge_sort_Permutation. by apply Permutation_map.
Qed.

Lemma assoc_elem {A} k (a : A) l : NoDup (map fst l) -> (k, a) ∈ l -> assoc k l = Some a.
Proof.
  induction l as [|[k' a'] l IH]; simpl; [by intros _ ?%not_elem_of_nil|].
  intros [Hk Hd]%NoDup_cons [[= -> ->]|Hin]%elem_of_cons.
  - by rewrite bool_decide_eq_true_2.
  - rewrite bool_decide_eq_false_2; [by apply IH|]. intros ->. apply Hk.
    by apply (list_elem_of_fmap_2 fst) in Hin.
Qed.

Lemma write_items_Ok first l :
  write_items first (map Ok l)
  = Ok (if first then join [","%byte] l else flat_map (fun x => [","%byte] ++ x) l).
Proof.
  revert first. induction l as [|x l IH]; intros first; [by destruct first|].
  cbn [map write_items mbind result_bind]. rewrite IH. cbn [mbind result_bind].
  destruct first; [|done]. rewrite join_cons. done.
Qed.

Definition sort_member (p : string * Value) : string * Value := (p.1, sort_value p.2).

Lemma sort_value_obj l : sort_value (JObj l) = JObj (merge_sort key_le (map sort_member l)).
Proof. simpl. do 2 f_equal. apply map_ext. by intros []. Qed.

Lemma encode_obj l : encode (JObj l) = "{"%byte :: join [","%byte] (map member_text l) ++ ["}"%byte].
Proof. simpl. do 3 f_equal. apply map_ext. by intros []. Qed.

(** The reference definition of the canonical form: sort, then encode. *)
Lemma write_encode v : plain v = true -> writeCanonical v = Ok (encode (sort_value v)).
Proof.
  induction v as [|b| | |l IH|l IH|] using Value_nested_ind; try done; intros Hp.
  - by destruct b.
  - cbn [writeCanonical sort_value encode].
    assert (map writeCanonical l = map Ok (map encode (map sort_value l))) as ->.
    { simpl in Hp. apply forallb_Forall_iff in Hp. rewrite !map_map.
      apply map_ext_in. intros x Hx%list_elem_of_In. rewrite Forall_forall in IH, Hp. auto. }
    by rewrite write_items_Ok.
  - rewrite sort_value_obj, encode_obj. cbn [writeCanonical].
    cbn [plain] in Hp. apply andb_true_iff in Hp as [Hd%bool_decide_eq_true Hp].
    set (srt := merge_sort key_le (map sort_member l)).
    assert (srt ≡ₚ map sort_member l) as Hperm by apply merge_sort_Permutation.
    assert (merge_sort String.le (map fst l) = map fst srt) as ->.
    { rewrite (sorted_keys_unique (map sort_member l) srt); [|apply Sorted_merge_sort; apply _|done].
      by rewrite map_map. }
    rewrite map_map.
    match goal with |- context [map (fun x => write_member ?f x.1) srt] =>
      assert (map (fun x => write_member f x.1) srt = map Ok (map member_text srt)) as -> end.
    { rewrite map_map. apply map_ext_in. intros [k x] Hin%list_elem_of_In. unfold write_member, member_text.
      cbn [fst snd]. rewrite Hperm in Hin. apply list_elem_of_fmap in Hin as ([k' y] & [= -> ->] & Hin).
      erewrite assoc_elem; [|by rewrite map_map; erewrite map_ext; [exact Hd|by intros []]
        |apply list_elem_of_fmap; by exists (k', y)].
      cbn [default]. apply forallb_Forall_iff in Hp. rewrite Forall_forall in IH, Hp.
      specialize (Hp _ Hin). pose proof (IH _ Hin Hp) as Hw. cbn [snd] in Hw. by rewrite Hw. }
    by rewrite write_items_Ok.
Qed.

(** ** Sorting members *)

Lemma wf_obj_iff l :
  wf_value (JObj l) = true <->
  NoDup (map fst l) /\ Forall (fun p => valid_utf8 (go_bytes p.1) = true /\ wf_value p.2 = true) l.
Proof.
  cbn [wf_value]. rewrite andb_true_iff, bool_decide_eq_true, forallb_Forall_iff.
  apply and_iff_compat_l, Forall_iff. intros [k x]. cbn. by rewrite andb_true_iff.
Qed.

Lemma wf_arr_iff l : wf_value (JArr l) = true <-> Forall (fun v => wf_value v = true) l.
Proof. apply forallb_Forall_iff. Qed.

Lemma map_fst_sort_member l : map fst (map sort_member l) = map fst l.
Proof. rewrite map_map. apply map_ext. by intros []. Qed.

Lemma wf_sort_value v : wf_value v = true -> wf_value (sort_value v) = true.
Proof.
  induction v as [| | | |l IH|l IH|] using Value_nested_ind; try done.
  - cbn [sort_value]. rewrite !wf_arr_iff, Forall_map. intros H.
    eapply Forall_mp2; [exact IH|exact H|]. naive_solver.
  - rewrite sort_value_obj, !wf_obj_iff, !merge_sort_Permutation. intros [Hd H].
    rewrite map_fst_sort_member. split; [done|]. rewrite Forall_map.
    eapply Forall_mp2; [exact IH|exact H|]. intros [k x]. naive_solver.
Qed.

Lemma clean_str_valid s : valid_utf8 (go_bytes s) = true -> clean_str s = s.
Proof. intros H. unfold clean_str. by rewrite sanitize_valid, go_string_bytes. Qed.

Lemma wf_clean v : wf_value v = true -> clean v = v.
Proof.
  induction v as [| | |s|l IH|l IH|] using Value_nested_ind; try done.
  - cbn. intros H. by rewrite clean_str_valid.
  - rewrite wf_arr_iff. intros H. cbn. f_equal. rewrite <- (map_id l) at 2.
    apply map_ext_in. intros x Hx%list_elem_of_In. rewrite Forall_forall in IH, H. auto.
  - rewrite wf_obj_iff. intros [_ H]. cbn. f_equal. rewrite <- (map_id l) at 2.
    apply map_ext_in. intros [k x] Hx%list_elem_of_In. rewrite Forall_forall in IH, H.
    destruct (H _ Hx) as [H1 H2]. pose proof (IH _ Hx H2) as E. cbn in *.
    by rewrite E, clean_str_valid.
Qed.

Lemma wf_parseable v : wf_value v = true -> parseable v = true.
Proof.
  induction v as [| | |s|l IH|l IH|] using Value_nested_ind; try done.
  - rewrite wf_arr_iff. cbn. rewrite forallb_Forall_iff. intros H.
    eapply Forall_mp2; [exact IH|exact H|]. naive_solver.
  - rewrite wf_obj_iff. cbn. rewrite andb_true_iff, bool_decide_eq_true, forallb_Forall_iff.
    intros [Hd H]. split.
    + erewrite map_ext_in; [exact Hd|]. intros [k x] Hx%list_elem_of_In.
      rewrite Forall_forall in H. apply clean_str_valid. by apply (H _ Hx).
    + eapply Forall_mp2; [exact IH|exact H|]. intros [k x]. naive_solver.
Qed.

Lemma sort_unique l l' :
  NoDup (map fst l) -> l ≡ₚ l' -> merge_sort key_le l = merge_sort key_le l'.
Proof.
  intros Hd Hp. apply (Sorted_unique_strong key_le); [|apply Sorted_merge_sort; apply _..|].
  - intros [k x] [k' y] Hx Hy H1 H2. rewrite merge_sort_Permutation in Hx.
    rewrite merge_sort_Permutation, <- Hp in Hy.
    assert (k = k') as <- by (apply (anti_symm String.le); [apply H1|apply H2]).
    apply (assoc_elem _ _ _ Hd) in Hx, Hy. congruence.
  - by rewrite !merge_sort_Permutation.
Qed.

Lemma sort_sorted l : NoDup (map fst l) -> Sorted key_le l -> merge_sort key_le l = l.
Proof.
  intros Hd Hs. apply (Sorted_unique_strong key_le); [|apply Sorted_merge_sort; apply _|done|].
  - intros [k x] [k' y] Hx Hy H1 H2. rewrite merge_sort_Permutation in Hx.
    assert (k = k') as <- by (apply (anti_symm String.le); [apply H1|apply H2]).
    apply (assoc_elem _ _ _ Hd) in Hx, Hy. congruence.
  - apply merge_sort_Permutation.
Qed.

Lemma Sorted_map_sort_member l : Sorted key_le l -> Sorted key_le (map sort_member l).
Proof.
  induction 1 as [|p l _ IH Hd]; simpl; constructor; [done|].
  destruct Hd; simpl; by constructor.
Qed.

Lemma sort_value_idem v : wf_value v = true -> sort_value (sort_value v) = sort_value v.
Proof.
  induction v as [| | |s|l IH|l IH|] using Value_nested_ind; try done.
  - rewrite wf_arr_iff. intros H. cbn. f_equal. rewrite map_map.
    apply map_ext_in. intros x Hx%list_elem_of_In. rewrite Forall_forall in IH, H. auto.
  - rewrite wf_obj_iff. intros [Hd H]. rewrite !sort_value_obj. f_equal.
    set (srt := merge_sort key_le (map sort_member l)).
    assert (srt ≡ₚ map sort_member l) as Hp by apply merge_sort_Permutation.
    assert (map sort_member srt = srt) as ->.
    { rewrite <- (map_id srt) at 2. apply map_ext_in. intros p Hin%list_elem_of_In.
      rewrite Hp in Hin. apply list_elem_of_fmap in Hin as ([k x] & -> & Hin).
      rewrite Forall_forall in IH, H. destruct (H _ Hin) as [_ Hw].
      pose proof (IH _ Hin Hw) as E. unfold sort_member. cbn in *. by rewrite E. }
    apply sort_sorted; [|apply Sorted_merge_sort; apply _].
    rewrite Hp, map_fst_sort_member. done.
Qed.

Lemma MarshalValue_parse v :
  wf_value v = true -> exists b, MarshalValue v = Ok b /\ ParseStrict b = Ok (sort_value v).
Proof.
  intros Hw. exists (encode (sort_value v)). split; [by apply write_encode, wf_plain|].
  pose proof (wf_sort_value v Hw) as Hs.
  rewrite ParseStrict_encode by by apply wf_parseable. by rewrite wf_clean.
Qed.

(** C24. Round trip: the canonical text of a well-formed value always exists,
    and [ParseStrict] reads it back as the same value with the members of
    every object in sorted order. *)
Theorem MarshalValue_roundtrip v :
  wf_value v = true ->
  exists b, MarshalValue v = Ok b /\ ParseStrict b = Ok (sort_value v).
Proof. apply MarshalValue_parse. Qed.

Lemma MarshalValue_roundtrip_witness :
  exists b, MarshalValue (JObj [("b", JInt 2); ("a", JStr "x")]) = Ok b /\
    ParseStrict b = Ok (JObj [("a", JStr "x"); ("b", JInt 2)]).
Proof.
  apply (MarshalValue_roundtrip (JObj [("b", JInt 2); ("a", JStr "x")])).
  vm_compute. reflexivity.
Defined.

Lemma Marshal_canonical input b : Marshal input = Ok b -> Marshal b = Ok b.
Proof.
  unfold Marshal at 1. intros H. inv_ok.
  pose proof (ParseStrict_value_wf _ _ E) as Hw.
  destruct (MarshalValue_parse v Hw) as (b' & Hm & Hp).
  unfold MarshalValue in Hm. assert (b' = b) as -> by congruence.
  unfold Marshal. rewrite Hp. cbn.
  rewrite write_encode in * by first [by apply wf_plain|by apply wf_plain, wf_sort_value].
  by rewrite sort_value_idem.
Qed.

(** Canonicalisation is idempotent: canonical text is its own canonical
    form, so re-canonicalising a stored object never changes its bytes. *)
Theorem Marshal_idempotent input b : Marshal input = Ok b -> Marshal b = Ok b.
Proof. apply Marshal_canonical. Qed.

Lemma Marshal_idempotent_witness :
  Marshal (js "{'a':true,'b':[1]}") = Ok (js "{'a':true,'b':[1]}").
Proof. apply (Marshal_idempotent (js "{ 'b' : [1] , 'a' : true }")). vm_compute. reflexivity. Defined.

(** ** Equal canonical text, equal values *)

(** Two dynamic values that differ only in the order of object members. *)
Inductive value_equiv : Value -> Value -> Prop :=
| ve_same v : value_equiv v v
| ve_arr l l' : Forall2 value_equiv l l' -> value_equiv (JArr l) (JArr l')
| ve_obj l m l' : l ≡ₚ m ->
    Forall2 (fun p q => p.1 = q.1 /\ value_equiv p.2 q.2) m l' -> value_equiv (JObj l) (JObj l').

Lemma sort_equiv v w : plain v = true -> value_equiv v w -> sort_value v = sort_value w.
Proof.
  revert w. induction v as [| | |s|l IH|l IH|] using Value_nested_ind; intros w Hp Hv;
    inversion Hv as [|? l' Hf|? m l' Hperm Hf]; subst; try done.
  - cbn. f_equal. cbn [plain] in Hp. apply forallb_Forall_iff in Hp. clear Hv.
    induction Hf as [|x y l l' Hxy _ IHf]; [done|]. cbn.
    apply Forall_cons in IH as [IHx IH]. apply Forall_cons in Hp as [Hpx Hp].
    f_equal; [by apply IHx|by apply IHf].
  - cbn [plain] in Hp. apply andb_true_iff in Hp as [Hd%bool_decide_eq_true Hp].
    apply forallb_Forall_iff in Hp. rewrite !sort_value_obj. f_equal.
    assert (map sort_member m = map sort_member l') as <-.
    { rewrite Hperm in IH, Hp. clear Hv Hperm Hd.
      induction Hf as [|[k x] [k' y] m l' [Hk Hxy] _ IHf]; [done|]. cbn in *.
      apply Forall_cons in IH as [IHx IH]. apply Forall_cons in Hp as [Hpx Hp]. subst k'.
      unfold sort_member at 1 3. cbn. f_equal; [f_equal; by apply IHx|by apply IHf]. }
    apply sort_unique; [by rewrite map_fst_sort_member|by apply Permutation_map].
Qed.

Lemma value_equiv_plain v w : plain v = true -> value_equiv v w -> plain w = true.
Proof.
  revert w. induction v as [| | |s|l IH|l IH|] using Value_nested_ind; intros w Hp Hv;
    inversion Hv as [|? l' Hf|? m l' Hperm Hf]; subst; try done.
  - cbn [plain] in *. apply forallb_Forall_iff in Hp. apply forallb_Forall_iff. clear Hv.
    induction Hf as [|x y l l' Hxy _ IHf]; [done|].
    apply Forall_cons in IH as [IHx IH]. apply Forall_cons in Hp as [Hpx Hp].
    constructor; [by apply IHx|by apply IHf].
  - cbn [plain] in *. apply andb_true_iff in Hp as [Hd%bool_decide_eq_true Hp].
    apply forallb_Forall_iff in Hp. rewrite andb_true_iff, bool_decide_eq_true, forallb_Forall_iff.
    rewrite Hperm in IH, Hp, Hd. clear Hv Hperm.
    assert (map fst l' = map fst m /\ Forall (fun p : string * Value => let '(_, x) := p in plain x = true) l')
      as [Hk Hl].
    { clear Hd. induction Hf as [|[k x] [k' y] m l' [Hk Hxy] _ IHf]; [done|]. cbn in *.
      apply Forall_cons in IH as [IHx IH]. apply Forall_cons in Hp as [Hpx Hp]. subst k'.
      destruct (IHf IH Hp) as [-> ?]. split; [done|]. constructor; [by apply IHx|done]. }
    rewrite Hk. split; [done|]. eapply Forall_impl; [exact Hl|]. by intros [].
Qed.

(** C26. The iteration order of Go maps cannot show: values that differ only in
    the order of object members, at any depth, have the same canonical text. *)
Theorem MarshalValue_order_blind v w :
  plain v = true -> value_equiv v w -> MarshalValue v = MarshalValue w.
Proof.
  intros Hp Hv. unfold MarshalValue. pose proof (value_equiv_plain v w Hp Hv).
  rewrite !write_encode by done. by rewrite (sort_equiv v w).
Qed.

Lemma MarshalValue_order_blind_witness :
  MarshalValue (JObj [("b", JInt 2); ("a", JNull)]) = MarshalValue (JObj [("a", JNull); ("b", JInt 2)]).
Proof.
  apply MarshalValue_order_blind; [vm_compute; reflexivity|].
  apply (ve_obj _ [("a", JNull); ("b", JInt 2)]); [apply Permutation_swap|].
  repeat constructor.
Defined.

Lemma MarshalValue_sort_inj v w b :
  wf_value v = true -> wf_value w = true -> MarshalValue v = Ok b -> MarshalValue w = Ok b ->
  sort_value v = sort_value w.
Proof.
  intros Hv Hw Ev Ew.
  destruct (MarshalValue_parse v Hv) as (b1 & E1 & P1).
  destruct (MarshalValue_parse w Hw) as (b2 & E2 & P2). congruence.
Qed.

(** The canonical form is injective: two well-formed values with the same
    canonical text are the same value up to member order. *)
Theorem MarshalValue_injective v w b :
  wf_value v = true -> wf_value w = true -> MarshalValue v = Ok b -> MarshalValue w = Ok b ->
  sort_value v = sort_value w.
Proof. apply MarshalValue_sort_inj. Qed.

Lemma MarshalValue_injective_witness :
  sort_value (JObj [("b", JInt 2); ("a", JNull)]) = sort_value (JObj [("a", JNull); ("b", JInt 2)]).
Proof.
  apply (MarshalValue_injective _ _ (js "{'a':null,'b':2}")); vm_compute; reflexivity.
Defined.

(** ** Signature inputs *)

Definition no_nul (s : string) : bool := negb (existsb (fun b => bool_decide (b = x00)) (go_bytes s)).

Lemma split_nul (a b x y : bytes) :
  existsb (fun c => bool_decide (c = x00)) a = false -> existsb (fun c => bool_decide (c = x00)) b = false ->
  a ++ [x00] ++ x = b ++ [x00] ++ y -> a = b /\ x = y.
Proof.
  revert b. induction a as [|c a IH]; intros [|d b]; cbn; intros Ha Hb E.
  - by injection E as <-.
  - injection E as <- _. done.
  - injection E as -> _. done.
  - injection E as <- E. apply orb_false_iff in Ha as [_ Ha], Hb as [_ Hb].
    by destruct (IH b Ha Hb E) as [-> ->].
Qed.

(** The object a signature covers. *)
Definition signed_part (obj : list (string * Value)) : Value := JObj (delete_field "signature" obj).

Lemma wf_delete_field k l : wf_value (JObj l) = true -> wf_value (JObj (delete_field k l)) = true.
Proof.
  rewrite !wf_obj_iff. intros [Hd H]. unfold delete_field. split.
  - eapply sublist_NoDup; [exact Hd|]. apply fmap_sublist, sublist_filter.
  - apply Forall_forall. intros x [_ Hx]%list_elem_of_filter. revert x Hx. by apply Forall_forall.
Qed.

Lemma SignatureInput_Ok t x o :
  SignatureInput t x = Ok o ->
  exists obj canon, ParseStrict x = Ok (JObj obj) /\ wf_value (signed_part obj) = true /\
    MarshalValue (signed_part obj) = Ok canon /\
    o = signaturePrefix ++ go_bytes t ++ [x00] ++ canon.
Proof.
  unfold SignatureInput. intros H. inv_ok. destruct v; try done. inv_ok.
  eexists l, _. split_and!; [done| |done|done].
  by apply wf_delete_field, ParseStrict_value_wf with x.
Qed.

Lemma SignatureInput_shared t1 t2 x1 x2 o :
  no_nul t1 = true -> no_nul t2 = true ->
  SignatureInput t1 x1 = Ok o -> SignatureInput t2 x2 = Ok o ->
  t1 = t2 /\ exists obj1 obj2,
    ParseStrict x1 = Ok (JObj obj1) /\ ParseStrict x2 = Ok (JObj obj2) /\
    wf_value (signed_part obj1) = true /\ wf_value (signed_part obj2) = true /\
    sort_value (signed_part obj1) = sort_value (signed_part obj2).
Proof.
  intros N1 N2 (obj1 & c1 & P1 & W1 & M1 & ->)%SignatureInput_Ok
    (obj2 & c2 & P2 & W2 & M2 & E)%SignatureInput_Ok.
  apply (inj (app _)) in E. unfold no_nul in *. bool_prop.
  apply split_nul in E as [E1%(inj go_bytes) <-]; [|done..].
  split; [done|]. exists obj1, obj2. split_and!; [done..|]. by apply MarshalValue_sort_inj with c1.
Qed.

(** C25. A signature input names one object type and one object: inputs built
    for NUL-free object types coincide only when the types agree and the signed
    objects are equal (up to member order), their "signature" members aside.  A
    signature made for one kind of object cannot be replayed for another. *)
Theorem SignatureInput_binds t1 t2 x1 x2 o :
  no_nul t1 = true -> no_nul t2 = true ->
  SignatureInput t1 x1 = Ok o -> SignatureInput t2 x2 = Ok o ->
  t1 = t2 /\ exists obj1 obj2,
    ParseStrict x1 = Ok (JObj obj1) /\ ParseStrict x2 = Ok (JObj obj2) /\
    sort_value (signed_part obj1) = sort_value (signed_part obj2).
Proof.
  intros N1 N2 H1 H2. destruct (SignatureInput_shared _ _ _ _ _ N1 N2 H1 H2) as (? & ? & ? & ? & ? & _ & _ & ?).
  eauto 10.
Qed.

Lemma SignatureInput_binds_witness :
  "iscp.t" = "iscp.t" /\ exists obj1 obj2,
    ParseStrict (js "{'b':1,'a':2,'signature':'x'}") = Ok (JObj obj1) /\
    ParseStrict (js "{'a':2,'b':1}") = Ok (JObj obj2) /\
    sort_value (signed_part obj1) = sort_value (signed_part obj2).
Proof.
  apply (SignatureInput_binds "iscp.t" "iscp.t" (js "{'b':1,'a':2,'signature':'x'}") (js "{'a':2,'b':1}")
    (signaturePrefix ++ go_bytes "iscp.t" ++ [x00] ++ js "{'a':2,'b':1}"));
    vm_compute; reflexivity.
Defined.

(** ** Acceptance of text after the value *)

(** [ParseStrict] accepts text after the top-level value when it starts with
    a closing bracket or brace: [More] reports no further element there, and the
    error of the [Decode] that should look for trailing data counts as its
    absence.  The stray text is silently dropped. *)
Theorem ParseStrict_trailing_accepted v c garbage :
  parseable v = true -> c = "]"%byte \/ c = "}"%byte ->
  ParseStrict (encode v ++ c :: garbage) = Ok (clean v).
Proof.
  intros Hp Hc. unfold ParseStrict, NewDecoder.
  pose proof (encode_reads_back v Hp (parse_fuel (encode v ++ c :: garbage)) tokenTopValue []
    tokenTopValue [] (c :: garbage)) as Hr.
  cbn [app] in Hr. rewrite Hr; [|..|by constructor|by destruct Hc as [-> | ->]].
  - by destruct Hc as [-> | ->].
  - pose proof (cost_encode v Hp). unfold parse_fuel. rewrite length_app. lia.
Qed.

Lemma ParseStrict_trailing_accepted_witness :
  ParseStrict (js "{'a':1}} not json") = Ok (JObj [("a", JInt 1)]).
Proof.
  apply (ParseStrict_trailing_accepted (JObj [("a", JInt 1)]) "}"%byte (go_bytes " not json"));
    [vm_compute; reflexivity|by right].
Defined.

(** [RejectUnknownTopLevel] accepts exactly the texts of objects whose
    member names are all allowed. *)
Theorem RejectUnknownTopLevel_spec input allowed :
  RejectUnknownTopLevel input allowed = Ok tt <->
  exists obj, ParseStrict input = Ok (JObj obj) /\ Forall (fun p => p.1 ∈ allowed) obj.
Proof.
  unfold RejectUnknownTopLevel. destruct (ParseStrict input) as [v|e]; cbn; [|naive_solver].
  destruct v; try naive_solver.
  destruct (list_find _ l) as [[i [k x]]|] eqn:E.
  - apply list_find_Some in E as (Hl & Hk & _). split; [done|].
    intros (obj & [= <-] & Hall). exfalso. apply Hk. cbn.
    apply list_elem_of_lookup_2 in Hl. rewrite Forall_forall in Hall. apply (Hall _ Hl).
  - apply list_find_None in E. split; [|done]. intros _. eexists. split; [done|].
    eapply Forall_impl; [exact E|]. intros p Hp. cbn in Hp. by destruct (decide (p.1 ∈ allowed)).
Qed.
