(* ===== verification/RawFacts.v ===== *)
(** * Raw JSON members

    A [json.RawMessage] that holds the text of an encoded value is marshalled
    unchanged, so that a struct with such a member has the text of the struct with
    the value itself in its place. *)
From Stdlib Require Import ZArith Lia Strings.Byte.
From stdpp Require Import sorting numbers gmap strings base list.
From S2P Require Import Prelude Errors Utf8 GoJson JsonFacts Canonical.
Open Scope Z_scope.

(** ** Strings *)

Definition escaped_byte (b : byte) : bool :=
  bool_decide (b = x3c) || bool_decide (b = x3e) || bool_decide (b = x26) || bool_decide (b = xe2).

Lemma compact_body_plain b r : escaped_byte b = false -> compact_body (b :: r) = b :: compact_body r.
Proof. by_bytes b. Qed.

Lemma compact_body_plains l r : forallb (fun b => negb (escaped_byte b)) l = true -> compact_body (l ++ r) = l ++ compact_body r.
Proof.
  induction l as [|b l IH]; [done|]. cbn [forallb app]. intros H. bool_prop.
  rewrite compact_body_plain by done. by rewrite IH.
Qed.

Lemma quote_ascii_plain b : b2z b < 128 -> forallb (fun b => negb (escaped_byte b)) (quote_ascii b) = true.
Proof. intros H. revert H. by_bytes b. Qed.

(** One step of [compact_body], with the rest left open. *)
Definition compact_step (f : bytes -> bytes) (s : bytes) : bytes :=
  match s with
  | xe2 :: x80 :: xa8 :: r => go_bytes "\u2028" ++ f r
  | xe2 :: x80 :: xa9 :: r => go_bytes "\u2029" ++ f r
  | x3c :: r => go_bytes "\u003c" ++ f r
  | x3e :: r => go_bytes "\u003e" ++ f r
  | x26 :: r => go_bytes "\u0026" ++ f r
  | c :: r => c :: f r
  | [] => []
  end.

Lemma compact_body_step s : compact_body s = compact_step compact_body s.
Proof. destruct s; reflexivity. Qed.

Lemma compact_body_e2 b c r :
  (b, c) <> (x80, xa8) -> (b, c) <> (x80, xa9) ->
  compact_body (xe2 :: b :: c :: r) = xe2 :: compact_body (b :: c :: r).
Proof.
  intros H1 H2. rewrite compact_body_step. generalize compact_body as f. intros f.
  destruct b; try exact eq_refl. destruct c; try exact eq_refl; [by destruct H1|by destruct H2].
Qed.

Lemma unescaped b : b2z b <> 60 -> b2z b <> 62 -> b2z b <> 38 -> b2z b <> 226 -> escaped_byte b = false.
Proof.
  intros H1 H2 H3 H4. unfold escaped_byte.
  rewrite !bool_decide_false; [done|intros ->; by vm_compute in *..].
Qed.

(** A rune that the encoder writes as it is, the compacter keeps. *)
Lemma rune_seq_compact r m t :
  rune_seq r m -> r <> 8232 -> r <> 8233 -> compact_body (m ++ t) = m ++ compact_body t.
Proof.
  intros Hs H1 H2. pose proof (rs_enc _ _ Hs) as He. pose proof (rs_big _ _ Hs) as Hb. pose proof (rs_high _ _ Hs) as Hh.
  destruct (decide (xe2 ∈ m)) as [Hin|Hin].
  2: { apply compact_body_plains. apply forallb_forall. intros b Hm. apply list_elem_of_In in Hm.
       rewrite Forall_forall in Hh. specialize (Hh b Hm). apply negb_true_iff, unescaped; try lia.
       intros E. apply Hin. by rewrite <- (b2z_inj b xe2 E). }
  assert (forall z, 0 <= z < 256 -> z <> 226 -> xe2 <> z2b z) as Hz.
  { intros z Hz Hne E. apply (f_equal b2z) in E. rewrite b2z_z2b in E by done. by apply Hne. }
  assert (forall z, 128 <= z < 192 -> escaped_byte (z2b z) = false) as Hc.
  { intros z Hzr. apply unescaped; rewrite b2z_z2b; lia. }
  unfold encode_rune in He. repeat case_match; subst m; rewrite ?elem_of_cons, elem_of_nil in Hin.
  - lia.
  - exfalso. destruct Hin as [Hin|[Hin|[]]]; revert Hin; apply Hz; divmod_lia.
  - assert (r / 4096 = 2) as Hr.
    { destruct Hin as [Hin|[Hin|[Hin|[]]]]; [|exfalso; revert Hin; apply Hz; divmod_lia..].
      destruct (decide (r / 4096 = 2)); [done|]. exfalso. revert Hin. apply Hz; divmod_lia. }
    rewrite Hr. change (z2b (224 + 2)) with xe2. cbn [app].
    rewrite compact_body_e2; [by rewrite !compact_body_plain by (apply Hc; divmod_lia)|..];
      intros [= Ea Eb]; apply (f_equal b2z) in Ea, Eb; rewrite b2z_z2b in Ea, Eb by divmod_lia;
      vm_compute (b2z x80) in Ea; vm_compute (b2z xa8) in Eb; vm_compute (b2z xa9) in Eb; divmod_lia.
  - exfalso. destruct Hin as [Hin|[Hin|[Hin|[Hin|[]]]]]; revert Hin; apply Hz; divmod_lia.
  - naive_solver.
Qed.

Lemma compact_quote_body s : compact_body (quote_body s) = quote_body s.
Proof.
  unfold quote_body.
  induction s as [|b t Hb E IH|b t Hb D E IH|r m t Hs E IH] using rune_ind; [done|..]; rewrite E; cbn [flat_map].
  - rewrite quote_rune_ascii, compact_body_plains, IH by auto using quote_ascii_plain. done.
  - rewrite compact_body_plains, IH; done.
  - unfold quote_rune at 1 3. rewrite (bad_rune_multi _ _ Hs). cbn [fst snd].
    rewrite (proj2 (Z.ltb_ge _ _)) by apply (rs_big _ _ Hs).
    destruct (Z.eqb_spec r 8232); [by rewrite compact_body_plains, IH|].
    destruct (Z.eqb_spec r 8233); [by rewrite compact_body_plains, IH|].
    by rewrite (rune_seq_compact r m _ Hs), IH.
Qed.

Lemma scan_quote s rest : compact_string <$> scan_string (quote_body (go_bytes s) ++ x22 :: rest) = Some (quote s, rest).
Proof. rewrite scan_quote_body. cbn. unfold compact_string. cbn [fst snd]. by rewrite compact_quote_body. Qed.

(** ** Values *)

Fixpoint depth (v : Value) : Z :=
  match v with
  | JArr l => 1 + foldr Z.max 0 (map depth l)
  | JObj l => 1 + foldr Z.max 0 (map (fun p => match p with (_, x) => depth x end) l)
  | _ => 0
  end.

(** [v] is scanned whole wherever it stands, with fuel for its cost. *)
Definition scans (v : Value) : Prop := forall n d rest,
  (cost v <= n)%nat -> d + depth v <= maxNestingDepth -> num_end rest = true ->
  scan_value n d (encode v ++ rest) = Some (encode v, rest).

Lemma skip_ws_start s : starts_value s = true -> skip_ws s = s.
Proof. destruct s as [|c s]; [done|]. cbn [skip_ws starts_value]. by_bytes c. Qed.

Lemma scan_value_number n d c t rest s r :
  (n > 0)%nat -> (c = x2d \/ is_digit c = true) -> s = c :: t -> scan_number (s ++ rest) = Some (s, r) ->
  scan_value n d (s ++ rest) = Some (s, r).
Proof.
  intros Hn Hc -> Hs. destruct n as [|n]; [lia|]. rewrite <- Hs. cbn [app].
  destruct Hc as [->|Hc]; [done|]. revert Hs. by_bytes c.
Qed.

Lemma scans_int z : in_i64 z = true -> scans (JInt z).
Proof.
  intros _ n d rest Hn _ Hend. cbn [encode]. cbn [cost] in Hn.
  destruct (format_int z) as [|c t] eqn:E; [by pose proof (format_int_start z) as Hs; rewrite E in Hs|].
  apply (scan_value_number n d c t); [lia| |done|rewrite <- E; by apply scan_number_format].
  revert E. unfold format_int. destruct (Z.ltb_spec z 0) as [|Hp]; [intros [= <-]; by left|].
  destruct (format_uint_decimal z Hp) as [D1 _ _ _ _]. intros E. rewrite E in D1.
  simpl in D1. apply andb_true_iff in D1 as [D1 _]. by right.
Qed.

Lemma scans_str s : scans (JStr s).
Proof.
  intros n d rest Hn _ _. destruct n as [|n]; [cbn in Hn; lia|]. cbn [encode]. unfold quote. cbn [app].
  rewrite <- app_assoc. cbn [app]. exact (scan_quote s rest).
Qed.

(** After the first of them, the elements of an array. *)
Definition tail_text (items : list bytes) : bytes := flat_map (fun y => ","%byte :: y) items.

Lemma join_tail x l : join [","%byte] (x :: l) = x ++ tail_text l.
Proof. apply join_cons. Qed.

Lemma tail_cons y items rest : tail_text (y :: items) ++ rest = ","%byte :: y ++ tail_text items ++ rest.
Proof. unfold tail_text. cbn. by rewrite <- app_assoc. Qed.

Lemma num_end_tail items c rest :
  c = "]"%byte \/ c = "}"%byte -> num_end (tail_text items ++ c :: rest) = true.
Proof. intros Hc. destruct items; [|done]. by destruct Hc as [-> | ->]. Qed.

Lemma scan_elems_ok l : Forall scans l -> forall x n d rest, scans x ->
  (S (cost x) + sum_list (map (fun x => S (cost x)) l) <= n)%nat ->
  Forall (fun v => d + depth v <= maxNestingDepth) (x :: l) ->
  scan_elems n d (encode x ++ tail_text (map encode l) ++ "]"%byte :: rest)
  = Some (encode x ++ tail_text (map encode l) ++ ["]"%byte], rest).
Proof.
  induction 1 as [|y l Hy _ IH]; intros x n d rest Hx Hn Hd; apply Forall_cons in Hd as [Hdx Hd];
    (destruct n as [|n]; [simpl in Hn; lia|]); cbn [scan_elems map]; cbn [map sum_list foldr] in Hn.
  - cbn [tail_text flat_map app]. rewrite Hx by (done || lia). cbn. done.
  - rewrite Hx by (done || lia || by apply (num_end_tail (encode y :: map encode l)); left).
    cbn [mbind option_bind]. rewrite !tail_cons. cbn [skip_ws is_space]. change (is_space ","%byte) with false. cbv iota.
    rewrite IH by (done || (simpl in Hn; lia)). cbn [cons_fst fmap option_fmap option_map]. by rewrite <- !app_assoc.
Qed.

Lemma max_bound {A} (f : A -> Z) l d m :
  d + (1 + foldr Z.max 0 (map f l)) <= m -> d + 1 <= m /\ Forall (fun x => d + 1 + f x <= m) l.
Proof.
  induction l as [|x l IH]; cbn; [intros; split; [lia|constructor]|].
  intros H. destruct IH as [H1 H2]; [lia|]. split; [lia|]. constructor; [lia|done].
Qed.

Lemma scan_open_arr n d r :
  starts_value r = true -> d + 1 <= maxNestingDepth ->
  scan_value (S n) d ("["%byte :: r) = cons_fst ["["%byte] (scan_elems n (d + 1) r).
Proof.
  intros Hs Hd. cbn [scan_value skip_ws]. change (is_space "["%byte) with false. cbv iota.
  rewrite (proj2 (Z.ltb_ge _ _)) by lia. rewrite (skip_ws_start r Hs). destruct r as [|c r]; [done|]. by_bytes c.
Qed.

Lemma scan_open_obj n d r :
  starts_value r = true -> d + 1 <= maxNestingDepth ->
  scan_value (S n) d ("{"%byte :: r) = cons_fst ["{"%byte] (scan_members n (d + 1) r).
Proof.
  intros Hs Hd. cbn [scan_value skip_ws]. change (is_space "{"%byte) with false. cbv iota.
  rewrite (proj2 (Z.ltb_ge _ _)) by lia. rewrite (skip_ws_start r Hs). destruct r as [|c r]; [done|]. by_bytes c.
Qed.

Lemma scans_arr l : Forall scans l -> Forall (fun v => parseable v = true) l -> scans (JArr l).
Proof.
  intros Hl Hp n d rest Hn Hd _. destruct n as [|n]; [simpl in Hn; lia|]. cbn [encode app].
  cbn [depth] in Hd. apply max_bound in Hd as [Hd Hds]. destruct Hl as [|x l Hx Hl].
  { cbn [map join app scan_value skip_ws]. change (is_space "["%byte) with false. cbv iota.
    by rewrite (proj2 (Z.ltb_ge _ _)) by lia. }
  apply Forall_cons in Hp as [Hpx _].
  cbn [map]. rewrite join_tail, <- !app_assoc. cbn [app].
  rewrite scan_open_arr by (done || by apply starts_value_app, encode_start).
  rewrite scan_elems_ok by (done || (simpl in Hn; lia)). reflexivity.
Qed.

(** A member of an object. *)
Definition member (p : string * Value) : bytes := match p with (k, x) => quote k ++ ":"%byte :: encode x end.

Lemma scan_members_ok l : Forall (fun p => scans p.2) l -> forall p n d rest, scans p.2 ->
  (S (cost p.2) + sum_list (map (fun p => match p with (_, x) => S (cost x) end) l) <= n)%nat ->
  Forall (fun p => d + depth p.2 <= maxNestingDepth) (p :: l) ->
  scan_members n d (member p ++ tail_text (map member l) ++ "}"%byte :: rest)
  = Some (member p ++ tail_text (map member l) ++ ["}"%byte], rest).
Proof.
  induction 1 as [|[k' y] l Hy _ IH]; intros [k x] n d rest Hx Hn Hd; apply Forall_cons in Hd as [Hdx Hd];
    (destruct n as [|n]; [simpl in Hn; lia|]); cbn [scan_members map]; cbn [snd map] in *;
    unfold member at 1; unfold quote; cbn [app skip_ws]; change (is_space x22) with false; cbv iota;
    rewrite <- !app_assoc; cbn [app]; rewrite scan_quote; cbn [mbind option_bind skip_ws];
    change (is_space ":"%byte) with false; cbv iota.
  - cbn [tail_text flat_map app]. rewrite Hx by (done || (simpl in Hn; lia)).
    cbn [mbind option_bind skip_ws]. change (is_space "}"%byte) with false. cbv iota. unfold member.
    by rewrite <- !app_assoc.
  - rewrite Hx by (done || (simpl in Hn; lia) || by apply (num_end_tail (member (k', y) :: map member l)); right).
    cbn [mbind option_bind]. rewrite !tail_cons. cbn [skip_ws]. change (is_space ","%byte) with false. cbv iota.
    rewrite (IH (k', y)) by (done || (simpl in Hn; simpl; lia)). cbn [cons_fst fmap option_fmap option_map].
    change (member (k, x)) with (quote k ++ ":"%byte :: encode x). rewrite <- !app_assoc. cbn [app]. by rewrite <- !app_assoc.
Qed.

Lemma scans_obj l : Forall (fun p => scans p.2) l -> scans (JObj l).
Proof.
  intros Hl n d rest Hn Hd _. destruct n as [|n]; [simpl in Hn; lia|]. cbn [encode app].
  cbn [depth] in Hd. apply max_bound in Hd as [Hd Hds]. destruct Hl as [|p l Hx Hl].
  { cbn [map join app scan_value skip_ws]. change (is_space "{"%byte) with false. cbv iota.
    by rewrite (proj2 (Z.ltb_ge _ _)) by lia. }
  change (map (fun p => match p with (k, x) => quote k ++ ":"%byte :: encode x end) (p :: l)) with (member p :: map member l).
  rewrite join_tail, <- !app_assoc. cbn [app].
  rewrite scan_open_obj by (done || by destruct p).
  rewrite scan_members_ok; [reflexivity|done|done| |].
  - destruct p. simpl in Hn |- *. lia.
  - eapply Forall_impl; [exact Hds|]. by intros [].
Qed.

Lemma encode_scans v : parseable v = true -> scans v.
Proof.
  induction v as [|[]|z|s|l IH|l IH|t] using Value_nested_ind; intros Hp;
    try (intros [|n] d rest Hn Hd Hend; [cbn in Hn; lia|reflexivity]).
  - by apply scans_int.
  - apply scans_str.
  - simpl in Hp. apply scans_arr.
    + induction IH as [|x l Hx _ IHl]; simpl in Hp; bool_prop; constructor; auto.
    + clear IH. induction l; simpl in Hp; bool_prop; constructor; auto.
  - simpl in Hp. apply andb_true_iff in Hp as [_ Hp]. apply scans_obj.
    induction IH as [|[k x] l Hx _ IHl]; simpl in Hp; bool_prop; constructor; auto.
  - done.
Qed.

(** The text of a value passes through a raw member unchanged. *)
Lemma marshal_raw_encode v :
  parseable v = true -> depth v <= maxNestingDepth -> marshal_raw (Some (encode v)) = Ok (encode v).
Proof.
  intros Hp Hd. unfold marshal_raw. pose proof (cost_encode v Hp) as Hc.
  pose proof (encode_scans v Hp (scan_fuel (encode v)) 0 []) as Hs. rewrite app_nil_r in Hs.
  rewrite Hs by (done || lia || (unfold scan_fuel; lia)). by rewrite bool_decide_true.
Qed.
