(* ===== verification/GoTime.v ===== *)
(** * time: Go's [time.Time] and [time.Duration] as the program uses them

    A [time.Time] is an instant together with the UTC offset of its location
    (the only thing of the location the program's output shows).  Instants are
    unbounded: Go's 64-bit seconds cover 292 billion years, and every time that
    enters the program as text lies in the years 0 to 9999. *)
From Stdlib Require Import ZArith Lia Strings.Byte.
From stdpp Require Import numbers strings base list.
From S2P Require Import Prelude Errors Utf8 GoJson JsonFacts.
Open Scope Z_scope.

Record Time := mkTime {
  ns : Z;      (** nanoseconds since January 1, year 1, 00:00:00 UTC *)
  offset : Z   (** seconds east of UTC *)
}.

#[export] Instance Time_eq_dec : EqDecision Time.
Proof. solve_decision. Defined.

(** The zero [time.Time]. *)
Definition zeroTime : Time := mkTime 0 0.

Definition IsZero (t : Time) : bool := ns t =? 0.
Definition UTC (t : Time) : Time := mkTime (ns t) 0.
Definition After (t u : Time) : bool := ns u <? ns t.
Definition Before (t u : Time) : bool := ns t <? ns u.
Definition TimeEqual (t u : Time) : bool := ns t =? ns u.

(** ** Durations: [int64] nanoseconds *)

Definition minDuration : Z := - 2 ^ 63.
Definition maxDuration : Z := 2 ^ 63 - 1.
Definition Second : Z := 1000000000.
Definition Minute : Z := 60 * Second.
Definition Hour : Z := 60 * Minute.

Definition Add (t : Time) (d : Z) : Time := mkTime (ns t + d) (offset t).

(** [t.Sub(u)] saturates. *)
Definition Sub (t u : Time) : Z := Z.max minDuration (Z.min maxDuration (ns t - ns u)).

(** [t.Truncate(time.Second)]. *)
Definition TruncateSecond (t : Time) : Time := mkTime (ns t - ns t mod Second) (offset t).

(** Seconds from year 1 to 1970. *)
Definition unixToInternal : Z := 62135596800.
Definition Unix (t : Time) : Z := ns t / Second - unixToInternal.
Definition UnixMilli (t : Time) : Z := ns t / 1000000 - unixToInternal * 1000.

(** ** Calendar *)

(** Days since January 1, year 1, to (year, month, day), counting years from
    March. *)
Definition civil (days : Z) : Z * Z * Z :=
  let z := days + 306 in
  let era := z / 146097 in
  let doe := z mod 146097 in
  let yoe := (doe - doe / 1460 + doe / 36524 - doe / 146096) / 365 in
  let doy := doe - (365 * yoe + yoe / 4 - yoe / 100) in
  let mp := (5 * doy + 2) / 153 in
  let d := doy - (153 * mp + 2) / 5 + 1 in
  let m := if mp <? 10 then mp + 3 else mp - 9 in
  (yoe + era * 400 + (if m <=? 2 then 1 else 0), m, d).

(** The inverse. *)
Definition days_from_civil (y m d : Z) : Z :=
  let y := if m <=? 2 then y - 1 else y in
  let era := y / 400 in
  let yoe := y mod 400 in
  let mp := (m + 9) mod 12 in
  let doy := (153 * mp + 2) / 5 + d - 1 in
  let doe := yoe * 365 + yoe / 4 - yoe / 100 + doy in
  era * 146097 + doe - 306.

(** ** Text: [time.RFC3339Nano] as [Time.MarshalJSON] writes it *)

(** [n] decimal digits of [z], zero padded. *)
Fixpoint pad (n : nat) (z : Z) : bytes :=
  match n with
  | O => []
  | S n => pad n (z / 10) ++ [digit (z mod 10)]
  end.

(** Drops trailing zeros. *)
Fixpoint trim_zeros (s : bytes) : bytes :=
  match s with
  | [] => []
  | c :: s => match trim_zeros s with
              | [] => if bool_decide (c = "0"%byte) then [] else [c]
              | t => c :: t
              end
  end.

Definition format_fraction (n : Z) : bytes :=
  match trim_zeros (pad 9 n) with
  | [] => []
  | t => "."%byte :: t
  end.

(** [Z07:00]; hours of more than two digits print in full. *)
Definition format_zone (off : Z) : bytes :=
  if off =? 0 then ["Z"%byte]
  else
    let zone := Z.quot off 60 in
    (if zone <? 0 then "-"%byte else "+"%byte)
      :: (if Z.abs zone / 60 <? 100 then pad 2 (Z.abs zone / 60) else format_uint (Z.abs zone / 60))
      ++ ":"%byte :: pad 2 (Z.abs zone mod 60).

Definition format_rfc3339 (t : Time) : result bytes :=
  let abs := ns t + offset t * Second in
  let secs := abs / Second in
  let '(y, m, d) := civil (secs / 86400) in
  let sod := secs mod 86400 in
  if (y <? 0) || (9999 <? y) then Err (PlainError "year outside of range [0,9999]")
  else if negb (offset t =? 0) && (24 <=? (Z.abs (Z.quot (offset t) 60) / 60) mod 100)
  then Err (PlainError "timezone hour outside of range [0,23]")
  else Ok (pad 4 y ++ "-"%byte :: pad 2 m ++ "-"%byte :: pad 2 d ++ "T"%byte ::
           pad 2 (sod / 3600) ++ ":"%byte :: pad 2 (sod / 60 mod 60) ++ ":"%byte :: pad 2 (sod mod 60) ++
           format_fraction (abs mod Second) ++ format_zone (offset t)).

(** A time the JSON encoder accepts. *)
Definition representable (t : Time) : bool := is_ok (format_rfc3339 t).

(** The JSON value of a time. *)
Definition time_json (t : Time) : result Value :=
  s ← format_rfc3339 t;
  Ok (JStr (go_string s)).

Example zero_time_text : format_rfc3339 zeroTime = Ok (go_bytes "0001-01-01T00:00:00Z").
Proof. vm_compute. reflexivity. Qed.

Example leap_day_text :
  format_rfc3339 (mkTime ((unixToInternal + 1709210096) * Second + 120000000) 19800)
  = Ok (go_bytes "2024-02-29T18:04:56.12+05:30").
Proof. vm_compute. reflexivity. Qed.

(** ** Lemmas *)

(** The year of a day of the 400-year cycle, and the day of that year. *)
Lemma year_of_era doe : 0 <= doe < 146097 ->
  let yoe := (doe - doe / 1460 + doe / 36524 - doe / 146096) / 365 in
  0 <= yoe <= 399 /\ 0 <= doe - (365 * yoe + yoe / 4 - yoe / 100) <= 365.
Proof. intros H yoe. subst yoe. split; [divmod_lia|split; divmod_lia]. Qed.

Lemma month_of_year doy : 0 <= doy <= 365 ->
  let mp := (5 * doy + 2) / 153 in
  let d := doy - (153 * mp + 2) / 5 + 1 in
  0 <= mp <= 11 /\ 1 <= d <= 31.
Proof. intros H mp d. subst mp d. split; [divmod_lia|split; divmod_lia]. Qed.

Lemma civil_spec z :
  let '(y, m, d) := civil z in
  1 <= m <= 12 /\ 1 <= d <= 31 /\ days_from_civil y m d = z.
Proof.
  unfold civil, days_from_civil. cbv zeta.
  set (era := (z + 306) / 146097). set (doe := (z + 306) mod 146097).
  assert (z = era * 146097 + doe - 306 /\ 0 <= doe < 146097) as [Hz Hdoe] by (subst era doe; divmod_lia).
  clearbody era doe. pose proof (year_of_era doe Hdoe) as Hy. cbv zeta in Hy.
  set (yoe := (doe - doe / 1460 + doe / 36524 - doe / 146096) / 365) in *. clearbody yoe.
  set (doy := doe - (365 * yoe + yoe / 4 - yoe / 100)) in *.
  pose proof (month_of_year doy ltac:(tauto)) as Hm. cbv zeta in Hm.
  set (mp := (5 * doy + 2) / 153) in *. clearbody mp.
  set (d := doy - (153 * mp + 2) / 5 + 1) in *.
  split; [destruct (mp <? 10) eqn:E; lia|]. split; [tauto|].
  set (m := if mp <? 10 then mp + 3 else mp - 9).
  assert ((m + 9) mod 12 = mp) as -> by (subst m; destruct (mp <? 10) eqn:E; divmod_lia).
  replace (if m <=? 2 then yoe + era * 400 + (if m <=? 2 then 1 else 0) - 1
    else yoe + era * 400 + (if m <=? 2 then 1 else 0)) with (yoe + era * 400)
    by (destruct (m <=? 2); lia).
  rewrite Z.div_add, Z.mod_add, Z.div_small, Z.mod_small by lia. subst d doy. lia.
Qed.

Lemma civil_inj z w : civil z = civil w -> z = w.
Proof.
  intros H. pose proof (civil_spec z) as Hz. pose proof (civil_spec w) as Hw.
  rewrite H in Hz. destruct (civil w) as [[y m] d]. destruct Hz as (_ & _ & <-), Hw as (_ & _ & <-). done.
Qed.

Lemma pad_length n z : length (pad n z) = n.
Proof. revert z. induction n as [|n IH]; intros z; simpl; [done|]. rewrite length_app, IH. simpl. lia. Qed.

Lemma digit_inj a b : 0 <= a < 10 -> 0 <= b < 10 -> digit a = digit b -> a = b.
Proof. unfold digit. intros Ha Hb H%(f_equal b2z). rewrite !b2z_z2b in H by lia. lia. Qed.

Lemma pad_inj n a b : 0 <= a < 10 ^ Z.of_nat n -> 0 <= b < 10 ^ Z.of_nat n -> pad n a = pad n b -> a = b.
Proof.
  revert a b. induction n as [|n IH]; intros a b Ha Hb H; [change (10 ^ Z.of_nat 0) with 1 in *; lia|].
  cbn [pad] in H. apply app_inj_2 in H as [H1 H2]; [|done].
  injection H2 as H2. rewrite Nat2Z.inj_succ, Z.pow_succ_r in Ha, Hb by lia.
  apply IH in H1; [|split; [divmod_lia|apply Z.div_lt_upper_bound; lia]..].
  apply digit_inj in H2; [|divmod_lia..]. divmod_lia.
Qed.

Lemma trim_zeros_app s : exists n, s = trim_zeros s ++ replicate n "0"%byte.
Proof.
  induction s as [|c s [n IH]]; [by exists 0%nat|]. cbn [trim_zeros].
  destruct (trim_zeros s) as [|d t].
  - case_bool_decide; subst; [by exists (S n); cbn; f_equal|by exists n; cbn; f_equal].
  - exists n. by cbn; f_equal.
Qed.

Lemma trim_zeros_inj s t : length s = length t -> trim_zeros s = trim_zeros t -> s = t.
Proof.
  intros Hl H. destruct (trim_zeros_app s) as [n Hs], (trim_zeros_app t) as [m Ht].
  rewrite H in Hs. generalize (trim_zeros t) Hs Ht. clear Hs Ht H. intros u -> ->.
  rewrite !length_app, !length_replicate in Hl. do 2 f_equal. lia.
Qed.

Lemma format_fraction_inj a b :
  0 <= a < Second -> 0 <= b < Second -> format_fraction a = format_fraction b -> a = b.
Proof.
  unfold format_fraction. intros Ha Hb H. apply (pad_inj 9); [done..|].
  apply trim_zeros_inj; [by rewrite !pad_length|].
  destruct (trim_zeros (pad 9 a)), (trim_zeros (pad 9 b)); congruence.
Qed.

Ltac split_app H H1 := apply app_inj_1 in H as [H1 H]; [|by rewrite !pad_length].

(** Two UTC times with the same text are the same instant. *)
Lemma format_rfc3339_inj t u s :
  offset t = 0 -> offset u = 0 -> format_rfc3339 t = Ok s -> format_rfc3339 u = Ok s -> ns t = ns u.
Proof.
  unfold format_rfc3339. intros Ht Hu. rewrite Ht, Hu. rewrite !Z.mul_0_l, !Z.add_0_r.
  set (a := ns t). set (b := ns u). pose proof (civil_spec (a / Second / 86400)) as Ca.
  pose proof (civil_spec (b / Second / 86400)) as Cb.
  destruct (civil (a / Second / 86400)) as [[y m] d] eqn:Ea.
  destruct (civil (b / Second / 86400)) as [[y' m'] d'] eqn:Eb.
  destruct ((y <? 0) || (9999 <? y)) eqn:Ry, ((y' <? 0) || (9999 <? y')) eqn:Ry'; cbn [negb andb Z.eqb]; try done.
  intros H1 H2. rewrite <- H1 in H2. apply (inj Ok) in H2 as H. symmetry in H. clear H1 H2.
  split_app H Hy. apply (inj (cons _)) in H. split_app H Hm. apply (inj (cons _)) in H. split_app H Hd.
  apply (inj (cons _)) in H. split_app H Hh. apply (inj (cons _)) in H. split_app H Hn. apply (inj (cons _)) in H.
  split_app H Hs. apply app_inj_2 in H as [Hf _]; [|done].
  apply format_fraction_inj in Hf; [|unfold Second; divmod_lia..].
  apply pad_inj in Hy, Hm, Hd, Hh, Hn, Hs; [|change (10 ^ Z.of_nat 2) with 100; change (10 ^ Z.of_nat 4) with 10000; divmod_lia..].
  assert (a / Second / 86400 = b / Second / 86400) by (apply civil_inj; congruence).
  assert (a / Second = b / Second) by divmod_lia.
  rewrite (Z.div_mod a Second), (Z.div_mod b Second) by done. congruence.
Qed.

(** The text of a time is plain ASCII. *)
Lemma pad_ascii n z : ascii_text (pad n z).
Proof.
  revert z. induction n as [|n IH]; intros z; cbn [pad]; [constructor|].
  apply Forall_app. split; [apply IH|]. constructor; [|constructor].
  unfold digit. rewrite b2z_z2b; divmod_lia.
Qed.

Lemma trim_zeros_ascii s : ascii_text s -> ascii_text (trim_zeros s).
Proof. destruct (trim_zeros_app s) as [n H]. rewrite H at 1. by intros [? _]%Forall_app. Qed.

Lemma format_fraction_ascii n : ascii_text (format_fraction n).
Proof.
  unfold format_fraction. pose proof (trim_zeros_ascii _ (pad_ascii 9 n)) as H.
  destruct (trim_zeros (pad 9 n)); constructor; done.
Qed.

Lemma format_rfc3339_ascii t s : offset t = 0 -> format_rfc3339 t = Ok s -> ascii_text s.
Proof.
  unfold format_rfc3339. intros ->. destruct (civil _) as [[y m] d]. intros H.
  destruct ((y <? 0) || (9999 <? y)); [done|]. cbn [negb andb Z.eqb] in H. apply (inj Ok) in H as <-.
  repeat first [apply pad_ascii | apply format_fraction_ascii | apply Forall_app; split | apply Forall_cons; split].
  all: done.
Qed.

Lemma time_json_total t : representable t = true -> exists s, time_json t = Ok (JStr s).
Proof. unfold representable, time_json. intros [s ->]%is_ok_true. by eexists. Qed.
