(* ===== verification/Base64.v ===== *)
(** * encoding/base64: [base64.RawURLEncoding]

    The unpadded URL alphabet.  The decoder is Go's: it skips carriage returns
    and line feeds anywhere, rejects every other foreign character and a final
    group of a single character, and ignores the unused low bits of a final
    group of two or three. *)
From Stdlib Require Import ZArith Lia Strings.Byte.
From stdpp Require Import numbers strings base list.
From S2P Require Import Prelude Errors.
Open Scope Z_scope.

Definition b64_char (z : Z) : byte :=
  if z <? 26 then z2b (65 + z)
  else if z <? 52 then z2b (71 + z)
  else if z <? 62 then z2b (z - 4)
  else if z =? 62 then "-"%byte else "_"%byte.

Definition b64_val (b : byte) : option Z :=
  let z := b2z b in
  if (65 <=? z) && (z <=? 90) then Some (z - 65)
  else if (97 <=? z) && (z <=? 122) then Some (z - 71)
  else if (48 <=? z) && (z <=? 57) then Some (z + 4)
  else if bool_decide (b = "-"%byte) then Some 62
  else if bool_decide (b = "_"%byte) then Some 63
  else None.

Fixpoint b64_encode (s : bytes) : bytes :=
  match s with
  | [] => []
  | [a] =>
      let v := b2z a * 16 in
      [b64_char (v / 64); b64_char (v mod 64)]
  | [a; b] =>
      let v := (b2z a * 256 + b2z b) * 4 in
      [b64_char (v / 4096); b64_char (v / 64 mod 64); b64_char (v mod 64)]
  | a :: b :: c :: r =>
      let v := (b2z a * 256 + b2z b) * 256 + b2z c in
      b64_char (v / 262144) :: b64_char (v / 4096 mod 64) :: b64_char (v / 64 mod 64) :: b64_char (v mod 64)
        :: b64_encode r
  end.

Fixpoint b64_groups (s : list Z) : option bytes :=
  match s with
  | [] => Some []
  | [_] => None
  | [a; b] => Some [z2b ((a * 64 + b) / 16)]
  | [a; b; c] =>
      let v := (a * 64 + b) * 64 + c in
      Some [z2b (v / 1024); z2b (v / 4)]
  | a :: b :: c :: d :: r =>
      let v := ((a * 64 + b) * 64 + c) * 64 + d in
      rest ← b64_groups r;
      Some (z2b (v / 65536) :: z2b (v / 256) :: z2b v :: rest)
  end.

Definition b64_newline (b : byte) : bool := bool_decide (b = x0a) || bool_decide (b = x0d).

Definition b64_decode (s : bytes) : option bytes :=
  vs ← mapM b64_val (List.filter (fun b => negb (b64_newline b)) s);
  b64_groups vs.

Example b64_sample : b64_encode (go_bytes "ISCP?>") = go_bytes "SVNDUD8-".
Proof. vm_compute. reflexivity. Qed.

Example b64_lenient : b64_decode (go_bytes "QR") = Some (go_bytes "A") /\ b64_decode (go_bytes "QQ") = Some (go_bytes "A").
Proof. vm_compute. done. Qed.

(** ** Lemmas *)

(** The range of every byte in the context. *)
Ltac byte_ranges :=
  repeat match goal with
  | x : byte |- _ =>
      lazymatch goal with
      | _ : 0 <= b2z x < 256 |- _ => fail
      | _ => pose proof (b2z_range x)
      end
  end.

Lemma b64_alphabet_check :
  forallb (fun n => let z := Z.of_nat n in
    bool_decide (b64_val (b64_char z) = Some z) && negb (b64_newline (b64_char z))) (seq 0 64) = true.
Proof. vm_compute. reflexivity. Qed.

Lemma b64_val_char z : 0 <= z < 64 -> b64_val (b64_char z) = Some z /\ b64_newline (b64_char z) = false.
Proof.
  intros Hz. pose proof (proj1 (forallb_forall _ _) b64_alphabet_check (Z.to_nat z)) as H.
  specialize (H ltac:(apply in_seq; lia)). cbv beta zeta in H. rewrite Z2Nat.id in H by lia.
  bool_prop. by split.
Qed.

(** Induction three bytes at a time. *)
Lemma triple_ind (P : bytes -> Prop) :
  P [] -> (forall a, P [a]) -> (forall a b, P [a; b]) ->
  (forall a b c r, P r -> P (a :: b :: c :: r)) -> forall s, P s.
Proof.
  intros H0 H1 H2 H3. fix IH 1. intros [|a [|b [|c r]]]; [apply H0|apply H1|apply H2|].
  apply H3, IH.
Qed.

Fixpoint b64_sextets (s : bytes) : list Z :=
  match s with
  | [] => []
  | [a] => let v := b2z a * 16 in [v / 64; v mod 64]
  | [a; b] => let v := (b2z a * 256 + b2z b) * 4 in [v / 4096; v / 64 mod 64; v mod 64]
  | a :: b :: c :: r =>
      let v := (b2z a * 256 + b2z b) * 256 + b2z c in
      v / 262144 :: v / 4096 mod 64 :: v / 64 mod 64 :: v mod 64 :: b64_sextets r
  end.

Lemma b64_encode_sextets s :
  b64_encode s = map b64_char (b64_sextets s) /\ Forall (fun z => 0 <= z < 64) (b64_sextets s).
Proof.
  induction s as [|a|a b|a b c r [IH1 IH2]] using triple_ind; cbn [b64_encode b64_sextets map];
    (split; [by rewrite ?IH1|]);
    byte_ranges;
    repeat (apply Forall_cons; split; [divmod_lia|]); try done.
Qed.

Lemma b2z_z2b_mod z : b2z (z2b z) = z mod 256.
Proof.
  replace (z2b z) with (z2b (z mod 256)); [apply b2z_z2b; divmod_lia|].
  unfold z2b. by rewrite Z.mod_mod by done.
Qed.

Lemma b64_groups_sextets s : b64_groups (b64_sextets s) = Some s.
Proof.
  induction s as [|a|a b|a b c r IH] using triple_ind; cbn [b64_groups b64_sextets]; [done| | |];
    byte_ranges;
    rewrite ?IH; cbn; repeat f_equal; apply b2z_inj; rewrite b2z_z2b_mod; divmod_lia.
Qed.

(** Decoding inverts encoding. *)
Lemma b64_decode_encode s : b64_decode (b64_encode s) = Some s.
Proof.
  destruct (b64_encode_sextets s) as [-> Hs]. unfold b64_decode.
  assert (List.filter (fun b => negb (b64_newline b)) (map b64_char (b64_sextets s)) = map b64_char (b64_sextets s)
    /\ mapM b64_val (map b64_char (b64_sextets s)) = Some (b64_sextets s)) as [-> ->].
  { induction Hs as [|z l Hz Hl [IH1 IH2]]; [done|]. destruct (b64_val_char z Hz) as [E1 E2].
    cbn [map List.filter]. rewrite E2. cbn. by rewrite IH1, E1, IH2. }
  apply b64_groups_sextets.
Qed.

Lemma b64_visible_check :
  forallb (fun n => let z := b2z (b64_char (Z.of_nat n)) in (33 <=? z) && (z <? 128)) (seq 0 64) = true.
Proof. vm_compute. reflexivity. Qed.

(** The text is visible ASCII, and not empty for some bytes. *)
Lemma b64_encode_visible s : Forall (fun b => 33 <= b2z b < 128) (b64_encode s).
Proof.
  destruct (b64_encode_sextets s) as [-> Hs]. apply Forall_map. eapply Forall_impl; [exact Hs|]. cbv beta. intros z Hz.
  pose proof (proj1 (forallb_forall _ _) b64_visible_check (Z.to_nat z)) as H.
  specialize (H ltac:(apply in_seq; lia)). cbv beta zeta in H. rewrite Z2Nat.id in H by lia. unfold compose. lia.
Qed.

Lemma b64_encode_first s : s <> [] -> exists b t, b64_encode s = b :: t /\ 33 <= b2z b < 128.
Proof.
  pose proof (b64_encode_visible s) as Hv. destruct (b64_encode s) as [|b t] eqn:E; [by destruct s as [|? [|? [|? ?]]]|].
  apply Forall_cons in Hv as [Hb _]. eauto.
Qed.
