(* ===== verification/Sha256.v ===== *)
(** * crypto/sha256 and crypto/hmac

    SHA-256 (FIPS 180-4) on 32-bit words kept as [Z] below [2^32], and HMAC
    over it; executable, so that thumbprints, transcript hashes and message
    authentication codes of concrete inputs can be computed. *)
From Stdlib Require Import ZArith Lia Strings.Byte.
From stdpp Require Import numbers strings base list.
From S2P Require Import Prelude.
Open Scope Z_scope.

Definition w32 (z : Z) : Z := Z.land z 0xffffffff.

Definition add32 (x y : Z) : Z := w32 (x + y).

Definition rotr (n x : Z) : Z := Z.lor (Z.shiftr x n) (w32 (Z.shiftl x (32 - n))).

Definition xor3 (x y z : Z) : Z := Z.lxor (Z.lxor x y) z.

Definition bigSigma0 (x : Z) : Z := xor3 (rotr 2 x) (rotr 13 x) (rotr 22 x).
Definition bigSigma1 (x : Z) : Z := xor3 (rotr 6 x) (rotr 11 x) (rotr 25 x).
Definition smallSigma0 (x : Z) : Z := xor3 (rotr 7 x) (rotr 18 x) (Z.shiftr x 3).
Definition smallSigma1 (x : Z) : Z := xor3 (rotr 17 x) (rotr 19 x) (Z.shiftr x 10).
Definition choose (x y z : Z) : Z := Z.lxor (Z.land x y) (Z.land (Z.lxor x 0xffffffff) z).
Definition majority (x y z : Z) : Z := xor3 (Z.land x y) (Z.land x z) (Z.land y z).

(** The constants are the leading 32 bits of the fractional parts of the cube
    roots (rounds) and square roots (initial hash) of the first primes. *)
Fixpoint cube_root_bits (n : nat) (acc z : Z) : Z :=
  match n with
  | O => acc
  | S n =>
      let acc' := acc + 2 ^ Z.of_nat n in
      cube_root_bits n (if acc' * acc' * acc' <=? z then acc' else acc) z
  end.

Definition is_prime (p : Z) : bool :=
  forallb (fun d => negb (p mod (Z.of_nat d) =? 0)) (seq 2 (Z.to_nat (Z.sqrt p) - 1)).

Definition primes : list Z := List.filter is_prime (map Z.of_nat (seq 2 310)).

Definition round_constants : list Z :=
  Eval vm_compute in map (fun p => cube_root_bits 36 0 (p * 2 ^ 96) mod 2 ^ 32) primes.

Definition initial_hash : list Z :=
  Eval vm_compute in map (fun p => Z.sqrt (p * 2 ^ 64) mod 2 ^ 32) (take 8 primes).

(** Message schedule, newest word first. *)
Fixpoint extend_schedule (n : nat) (ws : list Z) : list Z :=
  match n with
  | O => ws
  | S n =>
      let at_ i := nth i ws 0 in
      extend_schedule n
        (w32 (smallSigma1 (at_ 1%nat) + at_ 6%nat + smallSigma0 (at_ 14%nat) + at_ 15%nat) :: ws)
  end.

Definition be_word (b : bytes) : Z := foldl (fun acc x => acc * 256 + b2z x) 0 b.

Fixpoint chunk_words (n : nat) (b : bytes) : list Z :=
  match n with
  | O => []
  | S n => be_word (take 4 b) :: chunk_words n (drop 4 b)
  end.

Definition schedule (block : bytes) : list Z := rev (extend_schedule 48 (rev (chunk_words 16 block))).

Definition sha_round (s : list Z) (kw : Z * Z) : list Z :=
  match s with
  | [a; b; c; d; e; f; g; h] =>
      let t1 := h + bigSigma1 e + choose e f g + kw.1 + kw.2 in
      let t2 := bigSigma0 a + majority a b c in
      [w32 (t1 + t2); a; b; c; add32 d t1; e; f; g]
  | _ => s
  end.

Definition compress (h : list Z) (block : bytes) : list Z :=
  zip_with add32 h (foldl sha_round h (zip round_constants (schedule block))).

Fixpoint hash_blocks (n : nat) (h : list Z) (b : bytes) : list Z :=
  match n with
  | O => h
  | S n => hash_blocks n (compress h (take 64 b)) (drop 64 b)
  end.

(** [n] bytes of [z], most significant first. *)
Fixpoint be_bytes (n : nat) (z : Z) : bytes :=
  match n with
  | O => []
  | S n => be_bytes n (z / 256) ++ [z2b z]
  end.

Definition sha_pad (m : bytes) : bytes :=
  let n := Z.of_nat (length m) in
  m ++ [x80] ++ replicate (Z.to_nat ((55 - n) mod 64)) x00 ++ be_bytes 8 (n * 8).

Definition sha256 (m : bytes) : bytes :=
  let p := sha_pad m in
  flat_map (be_bytes 4) (hash_blocks (length p / 64) initial_hash p).

Definition xor_pad (c : Z) (key : bytes) : bytes := map (fun b => z2b (Z.lxor c (b2z b))) key.

Definition hmac_sha256 (key data : bytes) : bytes :=
  let k := if (64 <? Z.of_nat (length key)) then sha256 key else key in
  let k := k ++ replicate (64 - length k) x00 in
  sha256 (xor_pad 0x5c k ++ sha256 (xor_pad 0x36 k ++ data)).

(** ** Test vectors (FIPS 180-4, RFC 4231) *)

Example sha256_abc : be_word (sha256 (go_bytes "abc"))
  = 0xba7816bf8f01cfea414140de5dae2223b00361a396177a9cb410ff61f20015ad.
Proof. vm_compute. reflexivity. Qed.

Example sha256_two_blocks :
  be_word (sha256 (go_bytes "abcdbcdecdefdefgefghfghighijhijkijkljklmklmnlmnomnopnopq"))
  = 0x248d6a61d20638b8e5c026930c3e6039a33ce45964ff2167f6ecedd419db06c1.
Proof. vm_compute. reflexivity. Qed.

Example hmac_rfc4231_2 : be_word (hmac_sha256 (go_bytes "Jefe") (go_bytes "what do ya want for nothing?"))
  = 0x5bdcc146bf60754e6a042426089575c75a003f089d2739839dec58b964ec3843.
Proof. vm_compute. reflexivity. Qed.

(** ** Output length *)

Lemma be_bytes_length n z : length (be_bytes n z) = n.
Proof. revert z. induction n as [|n IH]; intros z; cbn; [done|]. rewrite length_app, IH. cbn. lia. Qed.

Lemma sha_round_length s kw : length (sha_round s kw) = length s.
Proof. unfold sha_round. by repeat case_match. Qed.

Lemma compress_length h block : length (compress h block) = length h.
Proof.
  unfold compress. rewrite length_zip_with.
  assert (forall l s, length (foldl sha_round s l) = length s) as ->; [|lia].
  induction l as [|kw l IH]; intros s; cbn; [done|]. by rewrite IH, sha_round_length.
Qed.

Lemma sha256_length m : length (sha256 m) = 32%nat.
Proof.
  unfold sha256. cbv zeta. generalize (sha_pad m). intros b. generalize (length b / 64)%nat. intros n.
  assert (length (hash_blocks n initial_hash b) = 8%nat) as H.
  { assert (length initial_hash = 8%nat) as H0 by reflexivity. revert H0 b. generalize initial_hash.
    induction n as [|n IH]; intros h Hh b; [exact Hh|]. cbn. apply IH. by rewrite compress_length. }
  change 32%nat with (4 * 8)%nat. rewrite <- H. generalize (hash_blocks n initial_hash b). clear.
  induction l as [|w l IH]; cbn [flat_map]; [done|]. rewrite length_app, be_bytes_length, IH. cbn [length]. lia.
Qed.
