(* ===== verification/Crypto.v ===== *)
(** * Crypto: [pkg/iscp/crypto/crypto.go]

    The provider the whole library signs, agrees and encrypts with.  The
    primitives outside the repository (Ed25519, X25519, HKDF and
    ChaCha20-Poly1305) are the operations of the class [CryptoOps]; what the
    library relies on them for is the class [CryptoLaws], and [ToyCrypto] is an
    executable instance of both.  SHA-256, HMAC and base64 are computed. *)
From Stdlib Require Import ZArith Lia Strings.Byte.
From stdpp Require Import numbers strings base list.
From S2P Require Import Prelude Errors Base64 Sha256.
Open Scope Z_scope.

Definition CiphersuiteV2 : string := "ISCP_V2_X25519_HKDF_SHA256_CHACHA20POLY1305".

(** ** The primitives *)

Class CryptoOps := {
  (** the public key of a 32-byte seed; a private key is the seed followed by it *)
  ed25519_public : bytes -> bytes;
  (** private key, message *)
  ed25519_sign : bytes -> bytes -> bytes;
  (** public key, message, signature *)
  ed25519_verify : bytes -> bytes -> bytes -> bool;
  (** scalar, point; [None] for a low-order point *)
  x25519 : bytes -> bytes -> option bytes;
  x25519_basepoint : bytes;
  (** secret, salt, info, length; [None] beyond the output limit *)
  hkdf_sha256 : bytes -> bytes -> bytes -> nat -> option bytes;
  (** key, nonce, plaintext, additional data *)
  aead_seal : bytes -> bytes -> bytes -> bytes -> bytes;
  (** key, nonce, ciphertext, additional data *)
  aead_open : bytes -> bytes -> bytes -> bytes -> option bytes
}.

(** The documented behaviour of the primitives. *)
Class CryptoLaws (C : CryptoOps) := {
  ed25519_public_length seed :
    length seed = 32%nat -> length (ed25519_public seed) = 32%nat;
  ed25519_verify_sign seed m :
    length seed = 32%nat ->
    ed25519_verify (ed25519_public seed) m (ed25519_sign (seed ++ ed25519_public seed) m) = true;
  ed25519_sign_length seed m :
    length seed = 32%nat -> length (ed25519_sign (seed ++ ed25519_public seed) m) = 64%nat;
  x25519_length a p r : x25519 a p = Some r -> length r = 32%nat;
  x25519_base_total a : length a = 32%nat -> is_Some (x25519 a x25519_basepoint);
  x25519_commutes a b pa pb :
    x25519 a x25519_basepoint = Some pa -> x25519 b x25519_basepoint = Some pb ->
    x25519 a pb = x25519 b pa;
  (** no agreement with a point made from the base fails *)
  x25519_honest a b pb :
    length a = 32%nat -> x25519 b x25519_basepoint = Some pb -> is_Some (x25519 a pb);
  hkdf_total secret salt info n :
    (n <= 255 * 32)%nat ->
    exists out, hkdf_sha256 secret salt info n = Some out /\ length out = n;
  aead_open_seal k n m ad :
    length k = 32%nat -> length n = 12%nat -> aead_open k n (aead_seal k n m ad) ad = Some m;
  (** the tag covers the whole ciphertext: what opens was sealed as such *)
  aead_open_sealed k n c m ad :
    length k = 32%nat -> length n = 12%nat -> aead_open k n c ad = Some m -> c = aead_seal k n m ad
}.

(** ** Randomness

    [Provider.rand] is an [io.Reader]: the bytes it will still deliver. *)

Definition reader : Type := bytes.

(** [io.ReadFull]: all [n] bytes or an error. *)
Definition ReadFull (n : nat) (r : reader) : option bytes * reader :=
  if (length r <? n)%nat then (None, []) else (Some (take n r), drop n r).

Definition err_eof : error := PlainError "unexpected EOF".

(** ** Encodings and digests *)

Definition SHA256 (data : bytes) : bytes := sha256 data.

Definition HMACSHA256 (key data : bytes) : bytes := hmac_sha256 key data.

Definition EqualMAC (a b : bytes) : bool := bool_decide (a = b).

Definition Base64URL (data : bytes) : string := go_string (b64_encode data).

Definition DecodeBase64URL (s : string) : result bytes :=
  match b64_decode (go_bytes s) with
  | Some b => Ok b
  | None => Err (Wrap CodeCanonicalInvalid "invalid base64url" (PlainError "illegal base64 data"))
  end.

Definition Thumbprint (keyType : string) (public : bytes) : string :=
  Base64URL (SHA256 (go_bytes ("iscp/v2/thumbprint/" +:+ keyType) ++ [x00] ++ public)).

(** ** Keys *)

Record Ed25519PrivateKey := mkEdPriv { edpriv : bytes }.
Record Ed25519PublicKey := mkEdPub { edpub : bytes }.
Record X25519PrivateKey := mkXPriv { xpriv : bytes }.
Record X25519PublicKey := mkXPub { xpub : bytes }.

Definition PrivateKeySize : nat := 64.
Definition PublicKeySize : nat := 32.

Definition Ed25519PrivateKeyFromBytes (b : bytes) : result Ed25519PrivateKey :=
  if (length b =? PrivateKeySize)%nat then Ok (mkEdPriv b)
  else Err (New CodeKeyInvalid "invalid ed25519 private key size").

Definition Ed25519PublicKeyFromBytes (b : bytes) : result Ed25519PublicKey :=
  if (length b =? PublicKeySize)%nat then Ok (mkEdPub b)
  else Err (New CodeKeyInvalid "invalid ed25519 public key size").

Definition X25519PublicKeyFromBytes (b : bytes) : result X25519PublicKey :=
  if (length b =? 32)%nat then Ok (mkXPub b)
  else Err (New CodeKeyInvalid "invalid x25519 public key size").

(** [Ed25519PrivateKey.Public]: the second half of the key. *)
Definition Public (k : Ed25519PrivateKey) : Ed25519PublicKey := mkEdPub (drop 32 (edpriv k)).

Definition BytesForDevStore (k : Ed25519PrivateKey) : bytes := edpriv k.

(** The three masks [GenerateSessionKey] applies to a scalar. *)
Definition clamp (priv : bytes) : bytes :=
  alter (fun b => z2b (Z.lor (Z.land (b2z b) 127) 64)) 31%nat
    (alter (fun b => z2b (Z.land (b2z b) 248)) 0%nat priv).

Section provider.
  Context {C : CryptoOps}.

Definition GenerateIdentityKey (rand : reader) : result (Ed25519PrivateKey * Ed25519PublicKey) * reader :=
  match ReadFull 32 rand with
  | (None, rand) => (Err (Wrap CodeKeyInvalid "generate ed25519 key" err_eof), rand)
  | (Some seed, rand) =>
      let pub := ed25519_public seed in
      (Ok (mkEdPriv (seed ++ pub), mkEdPub pub), rand)
  end.

Definition GenerateSessionKey (rand : reader) : result (X25519PrivateKey * X25519PublicKey) * reader :=
  match ReadFull 32 rand with
  | (None, rand) => (Err (Wrap CodeKeyInvalid "generate x25519 private key" err_eof), rand)
  | (Some priv, rand) =>
      let priv := clamp priv in
      (match x25519 priv x25519_basepoint with
       | None => Err (Wrap CodeKeyInvalid "derive x25519 public key" (PlainError "bad input point"))
       | Some pubBytes => Ok (mkXPriv priv, mkXPub pubBytes)
       end, rand)
  end.

Definition Sign (priv : Ed25519PrivateKey) (message : bytes) : bytes := ed25519_sign (edpriv priv) message.

Definition Verify (pub : Ed25519PublicKey) (message signature : bytes) : bool :=
  ed25519_verify (edpub pub) message signature.

Definition SharedSecret (priv : X25519PrivateKey) (pub : X25519PublicKey) : result bytes :=
  match x25519 (xpriv priv) (xpub pub) with
  | Some secret => Ok secret
  | None => Err (Wrap CodeKeyInvalid "x25519 agreement failed" (PlainError "bad input point"))
  end.

Definition HKDF (secret salt info : bytes) (length : nat) : result bytes :=
  match hkdf_sha256 secret salt info length with
  | Some out => Ok out
  | None => Err (Wrap CodeKeyInvalid "hkdf derive failed" (PlainError "entropy limit reached"))
  end.

(** [chacha20poly1305.New] and the nonce check both entry points share. *)
Definition new_aead (key nonce : bytes) : result unit :=
  _ ← reject_if (negb (length key =? 32)%nat)
        (Wrap CodeEnvelopeInvalid "create aead" (PlainError "bad key length"));
  reject_if (negb (length nonce =? 12)%nat) (New CodeEnvelopeInvalid "invalid nonce size").

Definition Seal (key nonce plaintext aad : bytes) : result bytes :=
  _ ← new_aead key nonce;
  Ok (aead_seal key nonce plaintext aad).

Definition Open (key nonce ciphertext aad : bytes) : result bytes :=
  _ ← new_aead key nonce;
  of_option (Wrap CodeEnvelopeInvalid "aead authentication failed" (PlainError "message authentication failed"))
    (aead_open key nonce ciphertext aad).

End provider.

(** ** Lemmas *)

Lemma DecodeBase64URL_Base64URL b : DecodeBase64URL (Base64URL b) = Ok b.
Proof. unfold DecodeBase64URL, Base64URL. by rewrite go_bytes_string, b64_decode_encode. Qed.

Lemma Base64URL_inj a b : Base64URL a = Base64URL b -> a = b.
Proof. intros H%(f_equal DecodeBase64URL). rewrite !DecodeBase64URL_Base64URL in H. congruence. Qed.

Lemma Ed25519PublicKeyFromBytes_Ok b k :
  Ed25519PublicKeyFromBytes b = Ok k <-> length b = 32%nat /\ k = mkEdPub b.
Proof.
  unfold Ed25519PublicKeyFromBytes, PublicKeySize. destruct (Nat.eqb_spec (length b) 32); naive_solver.
Qed.

Ltac inv_key :=
  match goal with
  | H : Ed25519PublicKeyFromBytes _ = Ok _ |- _ => apply Ed25519PublicKeyFromBytes_Ok in H as [? ->]
  end.

Lemma clamp_length b : length (clamp b) = length b.
Proof. unfold clamp. by rewrite !length_alter. Qed.

Lemma new_aead_Ok key nonce u :
  new_aead key nonce = Ok u <-> length key = 32%nat /\ length nonce = 12%nat.
Proof.
  unfold new_aead. destruct (Nat.eqb_spec (length key) 32), (Nat.eqb_spec (length nonce) 12), u; cbn; naive_solver.
Qed.

Section laws.
  Context {C : CryptoOps} {L : CryptoLaws C}.

(** A private key as [GenerateIdentityKey] makes it. *)
Definition key_ok (k : Ed25519PrivateKey) : Prop :=
  exists seed, length seed = 32%nat /\ edpriv k = seed ++ ed25519_public seed.

Lemma GenerateIdentityKey_ok rand priv pub rand' :
  GenerateIdentityKey rand = (Ok (priv, pub), rand') -> key_ok priv /\ pub = Public priv.
Proof.
  unfold GenerateIdentityKey, ReadFull. destruct (Nat.ltb_spec (length rand) 32); [done|].
  intros [= <- <- <-]. assert (length (take 32 rand) = 32%nat) as Hl by (rewrite length_take; lia).
  split; [by eexists|]. unfold Public. cbn. by rewrite drop_app_length' by done.
Qed.

Lemma Verify_Sign k m : key_ok k -> Verify (Public k) m (Sign k m) = true.
Proof.
  intros (seed & Hl & E). unfold Verify, Sign, Public. rewrite E. cbn.
  rewrite drop_app_length' by done. by apply ed25519_verify_sign.
Qed.

Lemma Sign_length k m : key_ok k -> length (Sign k m) = 64%nat.
Proof. intros (seed & Hl & E). unfold Sign. rewrite E. by apply ed25519_sign_length. Qed.

Lemma Public_length k : key_ok k -> length (edpub (Public k)) = 32%nat.
Proof.
  intros (seed & Hl & E). unfold Public. cbn. rewrite E, drop_app_length' by done.
  by apply ed25519_public_length.
Qed.

(** The two ends of an agreement derive the same secret. *)
Lemma SharedSecret_agree r1 r2 ka pa kb pb r1' r2' :
  GenerateSessionKey r1 = (Ok (ka, pa), r1') -> GenerateSessionKey r2 = (Ok (kb, pb), r2') ->
  SharedSecret ka pb = SharedSecret kb pa.
Proof.
  unfold GenerateSessionKey, SharedSecret. destruct (ReadFull 32 r1) as [[s1|] ?], (ReadFull 32 r2) as [[s2|] ?];
    [|done..].
  destruct (x25519 (clamp s1) _) as [p1|] eqn:E1; [|done].
  destruct (x25519 (clamp s2) _) as [p2|] eqn:E2; [|done].
  intros [= <- <- _] [= <- <- _]. cbn. by rewrite (x25519_commutes _ _ _ _ E1 E2).
Qed.

Lemma honest_secret r1 r2 ka pa kb pb r1' r2' :
  GenerateSessionKey r1 = (Ok (ka, pa), r1') -> GenerateSessionKey r2 = (Ok (kb, pb), r2') ->
  length (xpub pb) = 32%nat /\ exists secret, SharedSecret ka pb = Ok secret.
Proof.
  unfold GenerateSessionKey, ReadFull. destruct (Nat.ltb_spec (length r1) 32), (Nat.ltb_spec (length r2) 32); try done.
  destruct (x25519 (clamp (take 32 r1)) _) as [p1|] eqn:E1; [|done].
  destruct (x25519 (clamp (take 32 r2)) _) as [p2|] eqn:E2; [|done].
  intros [= <- <- _] [= <- <- _]. cbn. split; [by apply x25519_length in E2|].
  unfold SharedSecret. cbn.
  destruct (x25519_honest (clamp (take 32 r1)) _ _ ltac:(rewrite clamp_length, length_take; lia) E2) as [x ->].
  by eexists.
Qed.

Lemma GenerateSessionKey_total rand :
  (32 <= length rand)%nat ->
  exists k p, GenerateSessionKey rand = (Ok (k, p), drop 32 rand) /\ length (xpub p) = 32%nat.
Proof.
  intros H. unfold GenerateSessionKey, ReadFull. destruct (Nat.ltb_spec (length rand) 32); [lia|].
  destruct (x25519_base_total (clamp (take 32 rand))) as [p E].
  { rewrite clamp_length, length_take. lia. }
  rewrite E. eexists _, _. split; [done|]. by apply x25519_length in E.
Qed.

Lemma Open_Seal key nonce m ad c : Seal key nonce m ad = Ok c -> Open key nonce c ad = Ok m.
Proof.
  unfold Seal, Open. destruct (new_aead key nonce) eqn:E; [|done]. cbn. intros [= <-].
  apply new_aead_Ok in E as [Hk Hn]. by rewrite aead_open_seal.
Qed.

Lemma Open_Ok key nonce c ad m : Open key nonce c ad = Ok m -> Seal key nonce m ad = Ok c.
Proof.
  unfold Seal, Open. destruct (new_aead key nonce) eqn:E; [|done]. cbn.
  apply new_aead_Ok in E as [Hk Hn]. rewrite of_option_Ok. intros H%aead_open_sealed; [by rewrite <- H|done..].
Qed.

End laws.

(** ** An executable instance

    Not cryptography: an instance of the operations that satisfies every law
    and computes, on which the theorems are exercised. *)
Module ToyCrypto.

Definition toy_x25519 (a p : bytes) : option bytes :=
  if (length a =? 32)%nat && (length p =? 32)%nat
  then Some (zip_with (fun x y => z2b (Z.lxor (b2z x) (b2z y))) a p) else None.

Definition toy_hkdf (secret salt info : bytes) (n : nat) : option bytes :=
  if (255 * 32 <? n)%nat then None
  else Some (take n (flat_map (fun i => sha256 (z2b (Z.of_nat i) :: secret ++ salt ++ info)) (seq 0 (S (n / 32))))).

Definition toy_seal (k n m ad : bytes) : bytes := sha256 (k ++ n ++ ad ++ m) ++ m.

Definition toy_open (k n c ad : bytes) : option bytes :=
  let m := drop 32 c in
  if bool_decide (c = toy_seal k n m ad) then Some m else None.

#[export] Instance toy_ops : CryptoOps := {
  ed25519_public seed := seed;
  ed25519_sign priv m := take 32 priv ++ sha256 m;
  ed25519_verify pub m sig := bool_decide (sig = pub ++ sha256 m);
  x25519 := toy_x25519;
  x25519_basepoint := replicate 32 x00;
  hkdf_sha256 := toy_hkdf;
  aead_seal := toy_seal;
  aead_open := toy_open
}.

Lemma xor_zero a n : length a = n ->
  zip_with (fun x y => z2b (Z.lxor (b2z x) (b2z y))) a (replicate n x00) = a.
Proof.
  intros <-. induction a as [|x a IH]; cbn; [done|]. f_equal; [|exact IH].
  change (b2z x00) with 0. rewrite Z.lxor_0_r. apply z2b_b2z.
Qed.

Lemma toy_x25519_base a r : toy_x25519 a (replicate 32 x00) = Some r -> r = a /\ length a = 32%nat.
Proof.
  unfold toy_x25519. destruct (Nat.eqb_spec (length a) 32); [|done].
  rewrite length_replicate. cbn [andb Nat.eqb]. intros [= <-]. split; [by apply (xor_zero a 32)|done].
Qed.

Lemma flat_map_sha_length f (l : list nat) : length (flat_map (fun i => sha256 (f i)) l) = (32 * length l)%nat.
Proof. induction l as [|i l IH]; cbn [flat_map length]; [done|]. rewrite length_app, sha256_length, IH. lia. Qed.

#[export] Instance toy_laws : CryptoLaws toy_ops.
Proof.
  split.
  - done.
  - intros seed m H. apply bool_decide_eq_true. cbn. by rewrite take_app_length'.
  - intros seed m H. cbn -[sha256]. rewrite length_app, sha256_length, length_take, length_app. lia.
  - intros a p r. cbn. unfold toy_x25519. destruct (_ && _) eqn:E; [|done]. intros [= <-].
    apply andb_true_iff in E as [E1%Nat.eqb_eq E2%Nat.eqb_eq]. rewrite length_zip_with. lia.
  - intros a H. cbn. unfold toy_x25519. rewrite H. eexists. reflexivity.
  - intros a b pa pb [-> Ha]%toy_x25519_base [-> Hb]%toy_x25519_base. cbn. unfold toy_x25519.
    rewrite Ha, Hb. cbn. f_equal. etrans; [symmetry; apply zip_with_flip|]. apply zip_with_ext; [|done..].
    intros x y. unfold flip. by rewrite Z.lxor_comm.
  - intros a b pb Ha [-> Hb]%toy_x25519_base. cbn. unfold toy_x25519. rewrite Ha, Hb. eexists. reflexivity.
  - intros secret salt info n Hn. cbn. unfold toy_hkdf. destruct (Nat.ltb_spec (255 * 32) n); [lia|].
    eexists. split; [done|]. rewrite length_take, flat_map_sha_length, length_seq.
    pose proof (Nat.div_mod_eq n 32). pose proof (Nat.mod_upper_bound n 32). lia.
  - intros k n m ad _ _. cbn -[sha256]. unfold toy_open, toy_seal.
    rewrite drop_app_length' by (symmetry; apply sha256_length).
    by rewrite bool_decide_true.
  - intros k n c m ad _ _. cbn. unfold toy_open. case_bool_decide as E; [|done]. by intros [= <-].
Qed.

End ToyCrypto.
