(* ===== verification/Signed.v ===== *)
(** * Signed objects

    The interface between the structs that carry a [Signature] field (proofs,
    grants, handshake and control frames, bundles, tickets) and the code that
    signs and checks them.  Each of those packages repeats the same two
    sequences of statements:

    - signing: build the signature input of the unsigned struct, sign it, store
      the signature ([sign_object]);
    - checking: decode the public key, decode the signature, rebuild the input
      with the signature field cleared, verify ([verify_object]; the generic
      source is [verifyControlSignature] of [pkg/iscp/session/control.go]).

    What a signature covers is proved once, here, for every such struct. *)
From Stdlib Require Import ZArith Lia Strings.Byte.
From stdpp Require Import sorting numbers gmap strings base list.
From S2P Require Import Prelude Errors Utf8 GoJson JsonFacts Canonical CanonicalProps GoTime Base64 Sha256 Crypto.
Open Scope Z_scope.

(** [identity.Signature]. *)
Record Signature := mkSignature { sig_Alg : string; sig_KID : string; sig_Value : string }.

#[export] Instance Signature_eq_dec : EqDecision Signature.
Proof. solve_decision. Defined.

(** [Signature{}]. *)
Definition noSignature : Signature := mkSignature "" "" "".

Definition Signature_json (s : Signature) : Value :=
  JObj [("alg", JStr (sig_Alg s)); ("kid", JStr (sig_KID s)); ("value", JStr (sig_Value s))].

(** A [[]string] field: [None] is the nil slice, which marshals as null. *)
Abbreviation Slice := (option (list string)).

Definition elems (s : Slice) : list string := default [] s.

Definition strings_json (l : list string) : Value := JArr (map JStr l).

Definition slice_json (s : Slice) : Value :=
  match s with
  | None => JNull
  | Some l => strings_json l
  end.

(** An [omitempty] member. *)
Definition omit_empty (empty : bool) (k : string) (v : Value) : list (string * Value) :=
  if empty then [] else [(k, v)].

(** [slices.Contains]. *)
Definition contains (l : list string) (s : string) : bool := bool_decide (s ∈ l).

(** A struct with a [signature] member: its other members in field order. *)
Class Signed (A : Type) := {
  signature_of : A -> Signature;
  set_signature : Signature -> A -> A;
  members : A -> result (list (string * Value))
}.

Class SignedLaws (A : Type) {S : Signed A} := {
  signature_set s a : signature_of (set_signature s a) = s;
  set_set s s' a : set_signature s (set_signature s' a) = set_signature s a;
  members_set s a : members (set_signature s a) = members a
}.

Section signed.
  Context {A : Type} `{Signed A}.

(** [json.Marshal]: every such struct has its signature last. *)
Definition marshal (a : A) : result bytes :=
  m ← members a;
  Ok (encode (JObj (m ++ [("signature", Signature_json (signature_of a))]))).

Definition signatureInput (objectType : string) (a : A) : result bytes :=
  b ← marshal a;
  SignatureInput objectType b.

Definition unsigned (a : A) : A := set_signature noSignature a.

Context {C : CryptoOps}.

Definition sign_object (objectType : string) (priv : Ed25519PrivateKey) (kid : string) (a : A) : result A :=
  input ← signatureInput objectType a;
  Ok (set_signature (mkSignature "Ed25519" kid (Base64URL (Sign priv input))) a).

Definition verify_object (objectType public : string) (a : A) (err : error) : result unit :=
  pubBytes ← DecodeBase64URL public;
  pub ← Ed25519PublicKeyFromBytes pubBytes;
  sig ← DecodeBase64URL (sig_Value (signature_of a));
  input ← signatureInput objectType (unsigned a);
  reject_if (negb (Verify pub input sig)) err.

End signed.

(** ** Signing and checking *)

Section facts.
  Context {A : Type} `{SA : Signed A} {SL : SignedLaws A} {C : CryptoOps} {L : CryptoLaws C}.

Lemma signatureInput_unsigned ty (a : A) s :
  signatureInput ty (unsigned (set_signature s a)) = signatureInput ty (unsigned a).
Proof. unfold unsigned. by rewrite set_set. Qed.

(** What [sign_object] signs, [verify_object] accepts. *)
Lemma verify_sign_object ty priv kid (a b : A) public err :
  key_ok priv -> DecodeBase64URL public = Ok (edpub (Public priv)) ->
  sign_object ty priv kid (unsigned a) = Ok b -> verify_object ty public b err = Ok tt.
Proof.
  intros Hk Hp Hs. unfold sign_object in Hs. inv_ok. unfold verify_object. rewrite Hp.
  assert (Ed25519PublicKeyFromBytes (edpub (Public priv)) = Ok (Public priv)) as Hf.
  { apply Ed25519PublicKeyFromBytes_Ok. split; [by apply Public_length|]. by destruct (Public priv). }
  rewrite signature_set. run. rewrite Hf. run. cbn [sig_Value].
  rewrite DecodeBase64URL_Base64URL. run. rewrite signatureInput_unsigned.
  unfold unsigned in *. rewrite set_set, E. run. by rewrite Verify_Sign.
Qed.

(** The same for an object built with an empty signature. *)
Lemma verify_fresh_object ty priv kid (a b : A) public err :
  key_ok priv -> DecodeBase64URL public = Ok (edpub (Public priv)) -> unsigned a = a ->
  sign_object ty priv kid a = Ok b -> verify_object ty public b err = Ok tt.
Proof. intros Hk Hp <-. by apply verify_sign_object. Qed.

(** What an accepted object has been checked for. *)
Lemma verify_object_Ok ty public (a : A) err u :
  verify_object ty public a err = Ok u ->
  exists pub sig input,
    DecodeBase64URL public = Ok pub /\ length pub = 32%nat /\
    DecodeBase64URL (sig_Value (signature_of a)) = Ok sig /\
    signatureInput ty (unsigned a) = Ok input /\ Verify (mkEdPub pub) input sig = true.
Proof.
  unfold verify_object. intros Hv. inv_ok.
  apply Ed25519PublicKeyFromBytes_Ok in E1 as [Hl ->]. bool_prop. eauto 10.
Qed.

End facts.

(** ** What a signature input determines *)

Lemma assoc_perm {B} k (l l' : list (string * B)) :
  NoDup (map fst l) -> Permutation l l' -> assoc k l = assoc k l'.
Proof.
  intros Hd Hp. induction Hp as [|[k' x] l l' Hp IH|[k1 x] [k2 y] l|l l' l'' H1 IH1 H2 IH2]; [done|..].
  - cbn in *. apply NoDup_cons in Hd as [_ Hd]. by rewrite IH.
  - cbn in *. apply NoDup_cons in Hd as [Hk _]. repeat case_bool_decide; subst; set_solver.
  - rewrite IH1 by done. apply IH2. by rewrite <- H1.
Qed.

Lemma assoc_map {B D} (f : B -> D) k (l : list (string * B)) :
  assoc k (map (fun p => match p with (k, x) => (k, f x) end) l) = f <$> assoc k l.
Proof. induction l as [|[k' x] l IH]; cbn; [done|]. by case_bool_decide. Qed.

Lemma assoc_delete {B} k k' (l : list (string * B)) : k <> k' -> assoc k (delete_field k' l) = assoc k l.
Proof.
  intros Hk. unfold delete_field. induction l as [|[k0 x] l IH]; [done|].
  rewrite filter_cons. cbn [assoc fst]. destruct (decide _) as [Hd|Hd]; cbn [assoc].
  - by rewrite IH.
  - cbn in Hd. apply dec_stable in Hd as ->. rewrite IH. by rewrite bool_decide_false.
Qed.

Lemma assoc_app {B} k (l l' : list (string * B)) :
  assoc k (l ++ l') = match assoc k l with Some x => Some x | None => assoc k l' end.
Proof. induction l as [|[k' x] l IH]; cbn; [done|]. by case_bool_decide. Qed.

Lemma sort_value_assoc k l l' :
  NoDup (map fst l) -> NoDup (map fst l') -> sort_value (JObj l) = sort_value (JObj l') ->
  sort_value <$> assoc k l = sort_value <$> assoc k l'.
Proof.
  intros Hd Hd' E. cbn [sort_value] in E.
  injection E as E. rewrite <- !assoc_map.
  assert (forall l : list (string * Value), map fst (map (fun p => match p with (k, x) => (k, sort_value x) end) l) = map fst l)
    as Hfst. { clear. induction l as [|[? ?] l IH]; cbn; by f_equal. }
  rewrite (assoc_perm k _ (merge_sort key_le (map (fun p => match p with (k, x) => (k, sort_value x) end) l))).
  - rewrite E. symmetry. apply assoc_perm; [by rewrite Hfst|]. symmetry. apply merge_sort_Permutation.
  - by rewrite Hfst.
  - symmetry. apply merge_sort_Permutation.
Qed.

Lemma clean_obj l : clean (JObj l) = JObj (map clean_member l).
Proof. cbn [clean]. f_equal. apply map_ext. by intros []. Qed.

(** Member names that are already clean, as every field tag is. *)
Definition clean_keys (m : list (string * Value)) : bool :=
  forallb (fun p => bool_decide (clean_str p.1 = p.1)) m.

Lemma assoc_clean_member k m : clean_keys m = true -> assoc k (map clean_member m) = clean <$> assoc k m.
Proof.
  unfold clean_keys. induction m as [|[k' x] m IH]; cbn [map forallb assoc clean_member fst snd]; [done|].
  intros Hk. bool_prop. replace (clean_str k') with k' by done. case_bool_decide; [done|]. by apply IH.
Qed.

(** The members a struct is marshalled with are acceptable to the strict
    parser, and their names are clean. *)
Definition good_members {A} `{Signed A} (a : A) (m : list (string * Value)) : bool :=
  parseable (JObj (m ++ [("signature", Signature_json (signature_of a))])) && clean_keys m.

(** UTC times are determined by their JSON value. *)
Lemma time_json_inj t u v w :
  offset t = 0 -> offset u = 0 -> time_json t = Ok v -> time_json u = Ok w ->
  sort_value (clean v) = sort_value (clean w) -> ns t = ns u.
Proof.
  unfold time_json. intros Ot Ou Et Eu. inv_ok. cbn [clean sort_value]. unfold clean_str.
  rewrite !go_bytes_string, (sanitize_valid v0), (sanitize_valid v1).
  2: by apply ascii_valid, (format_rfc3339_ascii t).
  2: by apply ascii_valid, (format_rfc3339_ascii u).
  intros [= H%(inj go_string)]. subst. eapply format_rfc3339_inj; eassumption.
Qed.

(** Which signature a struct carries makes no difference to the parser. *)
Lemma parseable_resign m s s' :
  parseable (JObj (m ++ [("signature", Signature_json s)])) = true ->
  parseable (JObj (m ++ [("signature", Signature_json s')])) = true.
Proof.
  cbn [parseable]. rewrite !map_app, !forallb_app. cbn [map fst]. intros H. bool_prop.
  rewrite !andb_true_iff, bool_decide_eq_true. split_and!; [done..|vm_compute; reflexivity].
Qed.

(** Two structs with the same signature input have the same object type and
    agree on every member but the signature, ill-formed UTF-8 aside. *)
Lemma signatureInput_fields {A B} `{Signed A} `{Signed B} t1 t2 (a : A) (b : B) ma mb o :
  no_nul t1 = true -> no_nul t2 = true ->
  members a = Ok ma -> members b = Ok mb -> good_members a ma = true -> good_members b mb = true ->
  signatureInput t1 a = Ok o -> signatureInput t2 b = Ok o ->
  t1 = t2 /\ forall k, k <> "signature" ->
    (sort_value ∘ clean) <$> assoc k ma = (sort_value ∘ clean) <$> assoc k mb.
Proof.
  unfold good_members. intros N1 N2 Ma Mb Ga Gb Ea Eb. bool_prop. unfold signatureInput, marshal in Ea, Eb.
  rewrite Ma in Ea. rewrite Mb in Eb. cbn [mbind result_bind] in Ea, Eb.
  destruct (SignatureInput_shared t1 t2 _ _ o N1 N2 Ea Eb) as (<- & l1 & l2 & P1 & P2 & W1 & W2 & E).
  split; [done|]. intros k Hk.
  rewrite ParseStrict_encode in P1, P2 by done. rewrite !clean_obj, !map_app in *.
  injection P1 as <-. injection P2 as <-. unfold signed_part in *.
  apply wf_obj_iff in W1 as [D1 _], W2 as [D2 _].
  apply (sort_value_assoc k _ _ D1 D2) in E.
  rewrite !assoc_delete, !assoc_app, !assoc_clean_member in E by done. cbn [map clean_member assoc fst] in E.
  replace (clean_str "signature") with "signature" in E by (vm_compute; reflexivity).
  rewrite (bool_decide_false (k = "signature")) in E by done.
  by destruct (assoc k ma), (assoc k mb).
Qed.

(** Objects with one canonical text agree on every member. *)
Lemma object_fields l l' b :
  parseable (JObj l) = true -> parseable (JObj l') = true -> clean_keys l = true -> clean_keys l' = true ->
  MarshalValue (clean (JObj l)) = Ok b -> MarshalValue (clean (JObj l')) = Ok b ->
  forall k, (sort_value ∘ clean) <$> assoc k l = (sort_value ∘ clean) <$> assoc k l'.
Proof.
  intros Hp Hp' Hk Hk' E E' k.
  assert (forall l, parseable (JObj l) = true -> wf_value (clean (JObj l)) = true) as Hwf.
  { intros l0 H0. eapply ParseStrict_value_wf. by apply ParseStrict_encode. }
  pose proof (MarshalValue_sort_inj _ _ _ (Hwf _ Hp) (Hwf _ Hp') E E') as Hs.
  pose proof (Hwf _ Hp) as W. pose proof (Hwf _ Hp') as W'. rewrite !clean_obj in *.
  apply wf_obj_iff in W as [D _], W' as [D' _]. apply (sort_value_assoc k _ _ D D') in Hs.
  rewrite !assoc_clean_member in Hs by done. by destruct (assoc k l), (assoc k l').
Qed.

(** The same for two structs of one type. *)
Lemma signatureInput_agree {A} `{Signed A} t (a b : A) o :
  no_nul t = true ->
  (forall m, members a = Ok m -> good_members a m = true) ->
  (forall m, members b = Ok m -> good_members b m = true) ->
  signatureInput t a = Ok o -> signatureInput t b = Ok o ->
  exists ma mb, members a = Ok ma /\ members b = Ok mb /\ forall k, k <> "signature" ->
    (sort_value ∘ clean) <$> assoc k ma = (sort_value ∘ clean) <$> assoc k mb.
Proof.
  intros Ht Ga Gb Ea Eb. assert (is_ok (members a) = true /\ is_ok (members b) = true) as [Ia Ib].
  { unfold signatureInput, marshal in Ea, Eb. by destruct (members a), (members b). }
  apply is_ok_true in Ia as [ma Ma], Ib as [mb Mb]. exists ma, mb. split; [exact Ma|split; [exact Mb|]].
  exact (proj2 (signatureInput_fields t t a b ma mb o Ht Ht Ma Mb (Ga _ Ma) (Gb _ Mb) Ea Eb)).
Qed.

(** Two structs that agree on every member but the signature, ill-formed UTF-8
    and the order inside nested objects aside. *)
Definition agree {A} `{Signed A} (a b : A) : Prop :=
  exists ma mb, members a = Ok ma /\ members b = Ok mb /\ forall k, k <> "signature" ->
    (sort_value ∘ clean) <$> assoc k ma = (sort_value ∘ clean) <$> assoc k mb.

(** What acceptance of a signed struct says: the key verified a signature over an
    input that only structs saying the same have. *)
Definition signed_by {A} `{Signed A} {C : CryptoOps} (objectType public : string) (a : A) : Prop :=
  exists pub sig input,
    DecodeBase64URL public = Ok pub /\ length pub = 32%nat /\
    DecodeBase64URL (sig_Value (signature_of a)) = Ok sig /\
    Verify (mkEdPub pub) input sig = true /\
    forall b, (forall m, members b = Ok m -> good_members b m = true) ->
      signatureInput objectType b = Ok input -> agree a b.

Lemma verify_object_signed_by {A} `{SA : Signed A} {SL : SignedLaws A} {C : CryptoOps} t public (a : A) err u :
  no_nul t = true -> (forall m, members a = Ok m -> good_members a m = true) ->
  verify_object t public a err = Ok u -> signed_by t public a.
Proof.
  intros Ht Ga (pub & sig & input & Hp & Hl & Hs & Hi & Hv)%verify_object_Ok.
  exists pub, sig, input. split_and!; [done..|]. intros b Gb Hb.
  assert (forall m, members (unsigned a) = Ok m -> good_members (unsigned a) m = true) as Gu.
  { intros m. unfold unsigned, good_members. rewrite members_set, signature_set. intros Hm.
    specialize (Ga m Hm). unfold good_members in Ga. bool_prop. apply andb_true_iff. split; [|done].
    eapply parseable_resign; eassumption. }
  destruct (signatureInput_agree t (unsigned a) b input Ht Gu Gb Hi Hb) as (ma & mb & Ma & Mb & F).
  exists ma, mb. split; [|done]. unfold unsigned in Ma. by rewrite members_set in Ma.
Qed.

(** A struct with good members has a signature input. *)
Lemma signatureInput_total {A} `{Signed A} t (a : A) m :
  members a = Ok m -> good_members a m = true -> exists o, signatureInput t a = Ok o.
Proof.
  unfold good_members. intros Ma Hg. bool_prop. unfold signatureInput, marshal. rewrite Ma. run.
  unfold SignatureInput. rewrite ParseStrict_encode by done. run. rewrite clean_obj.
  destruct (MarshalValue_parse (JObj (delete_field "signature"
    (map clean_member (m ++ [("signature", Signature_json (signature_of a))]))))) as (b & -> & _); [|by eexists].
  apply wf_delete_field. rewrite <- clean_obj. eapply ParseStrict_value_wf. by apply ParseStrict_encode.
Qed.

(** Members with the same names and the same text. *)
Definition same_text (m m' : list (string * Value)) : Prop :=
  Forall2 (fun p q => p.1 = q.1 /\ encode p.2 = encode q.2) m m'.

Lemma encode_same_text m m' : same_text m m' -> encode (JObj m) = encode (JObj m').
Proof.
  intros H. cbn [encode]. do 3 f_equal. induction H as [|[k x] [k' y] m m' [E F] _ IH]; [done|]. cbn in *. congruence.
Qed.

(** A struct some of whose members are raw text has a signature input if that text
    is that of acceptable values. *)
Lemma signatureInput_raw_total {A} `{Signed A} t (a : A) m m' :
  members a = Ok m -> same_text m m' ->
  parseable (JObj (m' ++ [("signature", Signature_json (signature_of a))])) = true ->
  exists o, signatureInput t a = Ok o.
Proof.
  intros Ma Ht Hp. unfold signatureInput, marshal. rewrite Ma. run.
  rewrite (encode_same_text _ (m' ++ [("signature", Signature_json (signature_of a))])).
  2: { apply Forall2_app; [exact Ht|]. by repeat constructor. }
  unfold SignatureInput. rewrite ParseStrict_encode by done. run. rewrite clean_obj.
  match goal with |- context [MarshalValue ?v] => destruct (MarshalValue_parse v) as (b & -> & _) end; [|by eexists].
  apply wf_delete_field. rewrite <- clean_obj. eapply ParseStrict_value_wf. by apply ParseStrict_encode.
Qed.

Lemma sign_object_total {A} `{Signed A} {C : CryptoOps} t priv kid (a : A) o :
  signatureInput t a = Ok o -> exists b, sign_object t priv kid a = Ok b.
Proof. intros E. unfold sign_object. rewrite E. by eexists. Qed.

(** Reads member [k] off the agreement of two structs. *)
Ltac member F k :=
  let H := fresh "F" in
  pose proof (F k ltac:(done)) as H; cbn -[clean_str clean] in H; cbn [clean sort_value] in H;
  try (injection H as H).

Lemma Marshal_encode v : parseable v = true -> Marshal (encode v) = MarshalValue (clean v).
Proof. intros Hp. unfold Marshal. by rewrite ParseStrict_encode. Qed.

Lemma Marshal_encode_total v : parseable v = true -> exists b, Marshal (encode v) = Ok b.
Proof.
  intros Hp. rewrite Marshal_encode by done.
  destruct (MarshalValue_parse (clean v)) as (b & -> & _); [|by eexists].
  eapply ParseStrict_value_wf. by apply ParseStrict_encode.
Qed.

Lemma MarshalValue_plain v : plain v = true -> MarshalValue v = Ok (encode (sort_value v)).
Proof. apply write_encode. Qed.

(** Conversion never needs to look into the primitives and codecs. *)
#[global] Opaque sha256 hmac_sha256 b64_encode b64_decode encode ParseStrict SignatureInput MarshalValue
  format_rfc3339 clean_str.
