(* ===== verification/Identity.v ===== *)
(** * Identity: [pkg/iscp/identity/identity.go]

    Device identities and device proofs: the signed statement with which a
    device answers a challenge. *)
From Stdlib Require Import ZArith Lia Strings.Byte.
From stdpp Require Import sorting numbers gmap strings base list.
From S2P Require Import Prelude Errors Utf8 GoJson Canonical CanonicalProps GoTime Crypto Signed.
Open Scope Z_scope.

Definition TypeDeviceIdentity : string := "iscp.device.identity.v2".
Definition TypeDeviceProof : string := "iscp.device.proof.v2".

Record PublicKey := mkPublicKey { pk_KTY : string; pk_Use : string; pk_KID : string; pk_Public : string }.

Record DeviceIdentity := mkDeviceIdentity {
  di_Type : string;
  di_DomainID : string;
  di_DeviceID : string;
  di_PublicKey : PublicKey;
  di_CreatedAt : Time;
  di_Metadata : gmap string string
}.

Record DeviceProof := mkDeviceProof {
  dp_Type : string;
  dp_DomainID : string;
  dp_DeviceID : string;
  dp_Audience : string;
  dp_Challenge : string;
  dp_Nonce : string;
  dp_IssuedAt : Time;
  dp_Signature : Signature
}.

Record Device := mkDevice { dev_Identity : DeviceIdentity; dev_Private : Ed25519PrivateKey }.

(** The zero value. *)
Definition zeroIdentity : DeviceIdentity := mkDeviceIdentity "" "" "" (mkPublicKey "" "" "" "") zeroTime ∅.

#[export] Instance PublicKey_eq_dec : EqDecision PublicKey.
Proof. solve_decision. Defined.

#[export] Instance DeviceIdentity_eq_dec : EqDecision DeviceIdentity.
Proof. solve_decision. Defined.

(** [identity.Thumbprint]. *)
Definition IdentityThumbprint (id : DeviceIdentity) : result string :=
  pubBytes ← DecodeBase64URL (pk_Public (di_PublicKey id));
  Ok (Thumbprint (pk_KTY (di_PublicKey id)) pubBytes).

Definition DeviceProof_members (p : DeviceProof) : result (list (string * Value)) :=
  issued ← time_json (dp_IssuedAt p);
  Ok [("type", JStr (dp_Type p)); ("domain_id", JStr (dp_DomainID p)); ("device_id", JStr (dp_DeviceID p));
      ("audience", JStr (dp_Audience p)); ("challenge", JStr (dp_Challenge p)); ("nonce", JStr (dp_Nonce p));
      ("issued_at", issued)].

#[export] Instance DeviceProof_signed : Signed DeviceProof := {
  signature_of := dp_Signature;
  set_signature s p :=
    mkDeviceProof (dp_Type p) (dp_DomainID p) (dp_DeviceID p) (dp_Audience p) (dp_Challenge p) (dp_Nonce p)
      (dp_IssuedAt p) s;
  members := DeviceProof_members
}.

#[export] Instance DeviceProof_laws : SignedLaws DeviceProof.
Proof. split; intros; by destruct a. Qed.

Definition proofSignatureInput (p : DeviceProof) : result bytes := signatureInput TypeDeviceProof p.

Section identity.
  Context {C : CryptoOps}.

Definition NewDevice (rand : reader) (domainID deviceID : string) (now : Time) : result Device * reader :=
  match GenerateIdentityKey rand with
  | (Err err, rand) => (Err err, rand)
  | (Ok (priv, pub), rand) =>
      let pubBytes := edpub pub in
      let kid := Thumbprint "Ed25519" pubBytes in
      (Ok (mkDevice
             (mkDeviceIdentity TypeDeviceIdentity domainID deviceID
                (mkPublicKey "Ed25519" "identity-signature" kid (Base64URL pubBytes)) (UTC now) ∅)
             priv), rand)
  end.

Definition CreateProof (d : Device) (audience challenge nonce : string) (now : Time) : result DeviceProof :=
  let id := dev_Identity d in
  sign_object TypeDeviceProof (dev_Private d) (pk_KID (di_PublicKey id))
    (mkDeviceProof TypeDeviceProof (di_DomainID id) (di_DeviceID id) audience challenge nonce (UTC now) noSignature).

Definition VerifyProof (id : DeviceIdentity) (proof : DeviceProof) (audience challenge : string)
    (now : Time) (ttl : Z) : result unit :=
  let key := di_PublicKey id in
  _ ← reject_if (negb (bool_decide (dp_Type proof = TypeDeviceProof)))
        (New CodeSignatureInvalid "invalid proof type");
  _ ← reject_if (negb (bool_decide (di_DomainID id = dp_DomainID proof)) ||
                 negb (bool_decide (di_DeviceID id = dp_DeviceID proof)))
        (New CodeSignatureInvalid "proof identity mismatch");
  _ ← reject_if (negb (bool_decide (dp_Audience proof = audience)) ||
                 negb (bool_decide (dp_Challenge proof = challenge)))
        (New CodeSignatureInvalid "proof audience or challenge mismatch");
  _ ← reject_if ((ttl <? Sub now (dp_IssuedAt proof)) || After (dp_IssuedAt proof) (Add now ttl))
        (New CodeSignatureInvalid "proof is outside allowed time window");
  pubBytes ← DecodeBase64URL (pk_Public key);
  _ ← reject_if (negb (bool_decide (pk_KID key = Thumbprint (pk_KTY key) pubBytes)))
        (New CodeKeyInvalid "identity kid does not match public key thumbprint");
  _ ← reject_if (negb (bool_decide (sig_KID (dp_Signature proof) = pk_KID key)))
        (New CodeKeyInvalid "proof signature kid does not match identity key");
  pub ← Ed25519PublicKeyFromBytes pubBytes;
  sig ← DecodeBase64URL (sig_Value (dp_Signature proof));
  input ← proofSignatureInput (unsigned proof);
  reject_if (negb (Verify pub input sig)) (New CodeSignatureInvalid "proof signature verification failed").

End identity.

(** ** Devices as [NewDevice] makes them *)

Section facts.
  Context {C : CryptoOps} {L : CryptoLaws C}.

(** The published key is the public half of the private one, under its
    thumbprint. *)
Definition device_ok (d : Device) : Prop :=
  key_ok (dev_Private d) /\
  let key := di_PublicKey (dev_Identity d) in
  DecodeBase64URL (pk_Public key) = Ok (edpub (Public (dev_Private d))) /\
  pk_KID key = Thumbprint (pk_KTY key) (edpub (Public (dev_Private d))).

Lemma NewDevice_device_ok rand domainID deviceID now d rand' :
  NewDevice rand domainID deviceID now = (Ok d, rand') -> device_ok d.
Proof.
  unfold NewDevice. destruct (GenerateIdentityKey rand) as [[[priv pub]|] r] eqn:E; [|done].
  apply GenerateIdentityKey_ok in E as [Hk ->]. intros [= <- _].
  split; [done|]. split; [apply DecodeBase64URL_Base64URL|done].
Qed.

Lemma DeviceProof_good (p : DeviceProof) m : members p = Ok m -> good_members p m = true.
Proof.
  cbn [members DeviceProof_signed]. unfold DeviceProof_members, time_json. intros Hm. inv_ok.
  vm_compute. reflexivity.
Qed.

(** Two proofs that say the same: every member equal once ill-formed UTF-8 is
    replaced, and the same instant. *)
Definition same_proof (p q : DeviceProof) : Prop :=
  clean_str (dp_Type p) = clean_str (dp_Type q) /\
  clean_str (dp_DomainID p) = clean_str (dp_DomainID q) /\
  clean_str (dp_DeviceID p) = clean_str (dp_DeviceID q) /\
  clean_str (dp_Audience p) = clean_str (dp_Audience q) /\
  clean_str (dp_Challenge p) = clean_str (dp_Challenge q) /\
  clean_str (dp_Nonce p) = clean_str (dp_Nonce q) /\
  ns (dp_IssuedAt p) = ns (dp_IssuedAt q).

Lemma proofSignatureInput_inj p q o :
  offset (dp_IssuedAt p) = 0 -> offset (dp_IssuedAt q) = 0 ->
  proofSignatureInput p = Ok o -> proofSignatureInput q = Ok o -> same_proof p q.
Proof.
  intros Op Oq Ep Eq.
  destruct (signatureInput_agree TypeDeviceProof p q o eq_refl (DeviceProof_good p) (DeviceProof_good q) Ep Eq) as (mp & mq & Mp & Mq & F).
  cbn [members DeviceProof_signed] in Mp, Mq. unfold DeviceProof_members in Mp, Mq. inv_ok.
  member F "type"; member F "domain_id"; member F "device_id"; member F "audience".
  member F "challenge"; member F "nonce"; member F "issued_at".
  split_and!; [done..|]. eapply time_json_inj; eassumption.
Qed.

(** ** Proofs *)

Lemma CreateProof_total d audience challenge nonce now :
  representable (UTC now) = true -> exists p, CreateProof d audience challenge nonce now = Ok p.
Proof.
  intros [s Hs]%time_json_total. unfold CreateProof, sign_object.
  edestruct (signatureInput_total (A := DeviceProof)) as [o ->];
    [cbn [members DeviceProof_signed]; unfold DeviceProof_members; cbn [dp_IssuedAt]; rewrite Hs; reflexivity
    |vm_compute; reflexivity|].
  run. by eexists.
Qed.

(** The acceptance window of a proof. *)
Lemma proof_window now issued ttl :
  0 <= ttl < maxDuration ->
  (ttl <? Sub now issued) || After issued (Add now ttl) = false <->
  ns issued - ttl <= ns now <= ns issued + ttl.
Proof. unfold Sub, After, Add, minDuration, maxDuration. cbn [ns]. lia. Qed.

(** A proof a device makes is accepted by whoever knows its identity and
    asks for the same audience and challenge, at any time at most [ttl] away
    from the time it was issued, and it can be made at any time of the years 0
    to 9999. *)
Theorem CreateProof_VerifyProof d audience challenge nonce now now' ttl :
  device_ok d -> representable (UTC now) = true ->
  0 <= ttl < maxDuration -> ns now - ttl <= ns now' <= ns now + ttl ->
  exists p, CreateProof d audience challenge nonce now = Ok p /\
            VerifyProof (dev_Identity d) p audience challenge now' ttl = Ok tt.
Proof.
  intros (Hk & Hp & Hkid) Hr Httl Hnow.
  destruct (CreateProof_total d audience challenge nonce now Hr) as [p Hc]. exists p. split; [done|].
  unfold CreateProof in Hc. pose proof Hc as Hv.
  apply (verify_fresh_object _ _ _ _ _ (pk_Public (di_PublicKey (dev_Identity d)))
    (New CodeSignatureInvalid "proof signature verification failed")) in Hv; [|done..].
  unfold sign_object in Hc. inv_ok. unfold VerifyProof, verify_object in *.
  cbn [set_signature DeviceProof_signed dp_Type dp_DomainID dp_DeviceID dp_Audience dp_Challenge dp_Signature
    sig_KID dp_IssuedAt] in *.
  rewrite !bool_decide_true by done. cbn [negb orb]. run.
  rewrite (proj2 (proof_window now' (UTC now) ttl Httl)) by done. run.
  rewrite Hp in *. run. rewrite bool_decide_true by done. cbn [negb]. run. exact Hv.
Qed.


End facts.

(** ** Concrete devices *)

Import ToyCrypto.

Definition t0 : Time := mkTime ((unixToInternal + 1700000000) * Second) 0.

Definition toy_seed (b : byte) : bytes := replicate 32 b.

(** What [NewDevice] returns when the reader delivers the byte [b] 32 times. *)
Definition toy_device (b : byte) (deviceID : string) : Device :=
  mkDevice
    (mkDeviceIdentity TypeDeviceIdentity "dom" deviceID
       (mkPublicKey "Ed25519" "identity-signature" (Thumbprint "Ed25519" (toy_seed b)) (Base64URL (toy_seed b)))
       t0 ∅)
    (mkEdPriv (toy_seed b ++ toy_seed b)).

Lemma toy_device_ok b deviceID : device_ok (C := ToyCrypto.toy_ops) (toy_device b deviceID).
Proof. apply (NewDevice_device_ok (toy_seed b) "dom" deviceID t0 _ []). reflexivity. Qed.

Lemma CreateProof_VerifyProof_witness :
  exists p, CreateProof (toy_device x01 "alice") "relay" "challenge" "nonce" t0 = Ok p /\
            VerifyProof (dev_Identity (toy_device x01 "alice")) p "relay" "challenge"
              (Add t0 (30 * Second)) (60 * Second) = Ok tt.
Proof.
  apply CreateProof_VerifyProof; [apply toy_device_ok|vm_compute; reflexivity|split; vm_compute; done|].
  split; vm_compute; discriminate.
Defined.

(** The proof of the witness above. *)
Definition toy_proof : DeviceProof :=
  match CreateProof (toy_device x01 "alice") "relay" "challenge" "nonce" t0 with
  | Ok p => p
  | Err _ => mkDeviceProof "" "" "" "" "" "" t0 noSignature
  end.

