(* ===== verification/Trust.v ===== *)
(** * Trust grants: [pkg/iscp/trust/trust.go]

    The signed statement by which a trust root lets a device act: who it is for
    (subject and key), what for (audience, permissions, relays), until when and
    under which revocation epoch. *)
From Stdlib Require Import ZArith Lia Strings.Byte.
From stdpp Require Import sorting numbers gmap strings base list.
From S2P Require Import Prelude Errors Utf8 GoJson Canonical CanonicalProps GoTime Crypto Signed Identity.
Open Scope Z_scope.

Definition TypeTrustGrant : string := "iscp.trust_grant.v2".

Record Grant := mkGrant {
  gr_Type : string;
  gr_GrantID : string;
  gr_Issuer : string;
  gr_SubjectDeviceID : string;
  gr_Audience : string;
  gr_ConfirmationThumbprint : string;
  gr_Permissions : Slice;
  gr_RelayConstraints : list string;
  gr_NotBefore : Time;
  gr_ExpiresAt : Time;
  gr_RevocationEpoch : Z;  (** uint64 *)
  gr_Signature : Signature
}.

#[export] Instance Grant_eq_dec : EqDecision Grant.
Proof. solve_decision. Defined.

Record VerifyOptions := mkVerifyOptions {
  vo_Audience : string;
  vo_SubjectDeviceID : string;
  vo_ConfirmationThumbprint : string;
  vo_Permission : string;
  vo_RelayID : string;
  vo_CurrentRevocationEpoch : Z;
  vo_Now : Time
}.

Definition Grant_members (g : Grant) : result (list (string * Value)) :=
  notBefore ← time_json (gr_NotBefore g);
  expiresAt ← time_json (gr_ExpiresAt g);
  Ok ([("type", JStr (gr_Type g)); ("grant_id", JStr (gr_GrantID g)); ("issuer", JStr (gr_Issuer g));
       ("subject_device_id", JStr (gr_SubjectDeviceID g)); ("audience", JStr (gr_Audience g));
       ("confirmation_thumbprint", JStr (gr_ConfirmationThumbprint g));
       ("permissions", slice_json (gr_Permissions g))] ++
      omit_empty (bool_decide (gr_RelayConstraints g = [])) "relay_constraints" (strings_json (gr_RelayConstraints g)) ++
      [("not_before", notBefore); ("expires_at", expiresAt); ("revocation_epoch", JInt (gr_RevocationEpoch g))]).

Definition Grant_set_signature (s : Signature) (g : Grant) : Grant :=
  mkGrant (gr_Type g) (gr_GrantID g) (gr_Issuer g) (gr_SubjectDeviceID g) (gr_Audience g)
    (gr_ConfirmationThumbprint g) (gr_Permissions g) (gr_RelayConstraints g) (gr_NotBefore g) (gr_ExpiresAt g)
    (gr_RevocationEpoch g) s.

#[export] Instance Grant_signed : Signed Grant := {
  signature_of := gr_Signature;
  set_signature := Grant_set_signature;
  members := Grant_members
}.

#[export] Instance Grant_laws : SignedLaws Grant.
Proof. split; intros; by destruct a. Qed.

Definition grantSignatureInput (g : Grant) : result bytes := signatureInput TypeTrustGrant g.

Section trust.
  Context {C : CryptoOps}.

(** The fields [SignGrant] sets before signing. *)
Definition issue_grant (issuer : Device) (g : Grant) : Grant :=
  mkGrant TypeTrustGrant (gr_GrantID g) (di_DeviceID (dev_Identity issuer)) (gr_SubjectDeviceID g) (gr_Audience g)
    (gr_ConfirmationThumbprint g) (gr_Permissions g) (gr_RelayConstraints g) (gr_NotBefore g) (gr_ExpiresAt g)
    (gr_RevocationEpoch g) noSignature.

Definition SignGrant (issuer : Device) (grant : Grant) : result Grant :=
  sign_object TypeTrustGrant (dev_Private issuer) (pk_KID (di_PublicKey (dev_Identity issuer)))
    (issue_grant issuer grant).

Definition VerifyGrant (grant : Grant) (issuer : DeviceIdentity) (opts : VerifyOptions) : result unit :=
  _ ← reject_if (negb (bool_decide (gr_Type grant = TypeTrustGrant)))
        (New CodeTrustInvalid "invalid trust grant type");
  _ ← reject_if (Before (vo_Now opts) (gr_NotBefore grant) || negb (Before (vo_Now opts) (gr_ExpiresAt grant)))
        (New CodeTrustInvalid "trust grant is not currently valid");
  _ ← reject_if (negb (bool_decide (gr_Audience grant = vo_Audience opts)))
        (New CodeTrustInvalid "trust grant audience mismatch");
  _ ← reject_if (negb (bool_decide (gr_SubjectDeviceID grant = vo_SubjectDeviceID opts)))
        (New CodeTrustInvalid "trust grant subject mismatch");
  _ ← reject_if (negb (bool_decide (gr_ConfirmationThumbprint grant = vo_ConfirmationThumbprint opts)))
        (New CodeTrustInvalid "trust grant confirmation mismatch");
  _ ← reject_if (negb (contains (elems (gr_Permissions grant)) (vo_Permission opts)))
        (New CodeTrustInvalid "trust grant permission denied");
  _ ← reject_if ((0 <? Z.of_nat (length (gr_RelayConstraints grant))) &&
                 negb (contains (gr_RelayConstraints grant) (vo_RelayID opts)))
        (New CodeTrustInvalid "trust grant relay constraint mismatch");
  _ ← reject_if (gr_RevocationEpoch grant <? vo_CurrentRevocationEpoch opts)
        (New CodeTrustInvalid "trust grant has been revoked");
  verify_object TypeTrustGrant (pk_Public (di_PublicKey issuer)) grant
    (New CodeTrustInvalid "trust grant signature verification failed").

End trust.

(** ** What a grant permits *)

(** The bindings of a grant, apart from its signature. *)
Definition grant_permits (g : Grant) (o : VerifyOptions) : Prop :=
  gr_Type g = TypeTrustGrant /\
  ns (gr_NotBefore g) <= ns (vo_Now o) < ns (gr_ExpiresAt g) /\
  gr_Audience g = vo_Audience o /\
  gr_SubjectDeviceID g = vo_SubjectDeviceID o /\
  gr_ConfirmationThumbprint g = vo_ConfirmationThumbprint o /\
  vo_Permission o ∈ elems (gr_Permissions g) /\
  (gr_RelayConstraints g = [] \/ vo_RelayID o ∈ gr_RelayConstraints g) /\
  vo_CurrentRevocationEpoch o <= gr_RevocationEpoch g.

(** Grants that say the same, ill-formed UTF-8 aside. *)
Definition same_grant (g h : Grant) : Prop :=
  clean_str (gr_GrantID g) = clean_str (gr_GrantID h) /\
  clean_str (gr_Issuer g) = clean_str (gr_Issuer h) /\
  clean_str (gr_SubjectDeviceID g) = clean_str (gr_SubjectDeviceID h) /\
  clean_str (gr_Audience g) = clean_str (gr_Audience h) /\
  clean_str (gr_ConfirmationThumbprint g) = clean_str (gr_ConfirmationThumbprint h) /\
  map clean_str (elems (gr_Permissions g)) = map clean_str (elems (gr_Permissions h)) /\
  map clean_str (gr_RelayConstraints g) = map clean_str (gr_RelayConstraints h) /\
  ns (gr_NotBefore g) = ns (gr_NotBefore h) /\
  ns (gr_ExpiresAt g) = ns (gr_ExpiresAt h) /\
  gr_RevocationEpoch g = gr_RevocationEpoch h.

Lemma relay_check l r :
  (0 <? Z.of_nat (length l)) && negb (contains l r) = false <-> l = [] \/ r ∈ l.
Proof.
  unfold contains. destruct l as [|x l].
  - cbn. naive_solver.
  - assert ((0 <? Z.of_nat (length (x :: l))) = true) as -> by (apply Z.ltb_lt; rewrite length_cons; lia). cbn [andb].
    case_bool_decide; cbn; naive_solver.
Qed.

Section facts.
  Context {C : CryptoOps} {L : CryptoLaws C}.

Lemma VerifyGrant_spec g issuer o :
  VerifyGrant g issuer o = Ok tt <->
  grant_permits g o /\
  verify_object TypeTrustGrant (pk_Public (di_PublicKey issuer)) g
    (New CodeTrustInvalid "trust grant signature verification failed") = Ok tt.
Proof.
  unfold VerifyGrant, grant_permits, Before. rewrite !guard_Ok, relay_check. unfold contains.
  rewrite !negb_false_iff, !bool_decide_eq_true, orb_false_iff.
  rewrite negb_false_iff, Z.ltb_ge, Z.ltb_lt, Z.ltb_ge. tauto.
Qed.

Lemma strings_json_clean_inj l l' :
  sort_value (clean (strings_json l)) = sort_value (clean (strings_json l')) -> map clean_str l = map clean_str l'.
Proof.
  unfold strings_json. cbn [clean sort_value]. rewrite !map_map. intros [= H].
  revert l' H. induction l as [|x l IH]; intros [|y l'] H; try done. cbn in *. injection H as H1 H2.
  by rewrite H1, (IH l').
Qed.

Lemma slice_json_clean_inj s s' :
  sort_value (clean (slice_json s)) = sort_value (clean (slice_json s')) ->
  map clean_str (elems s) = map clean_str (elems s').
Proof.
  destruct s as [l|], s' as [l'|]; cbn [slice_json]; [apply strings_json_clean_inj|done..].
Qed.

Lemma good_strings_json l : parseable (strings_json l) = true.
Proof. unfold strings_json. cbn [parseable]. by induction l. Qed.

Lemma good_slice_json s : parseable (slice_json s) = true.
Proof. destruct s; [apply good_strings_json|done]. Qed.

Lemma Grant_good (g : Grant) m :
  in_i64 (gr_RevocationEpoch g) = true -> members g = Ok m -> good_members g m = true.
Proof.
  intros He. cbn [members Grant_signed]. unfold Grant_members, time_json. intros Hm. inv_ok.
  unfold good_members. apply andb_true_iff. split.
  - cbn [parseable]. apply andb_true_iff. split.
    + destruct (bool_decide (gr_RelayConstraints g = [])); vm_compute; reflexivity.
    + destruct (bool_decide (gr_RelayConstraints g = [])); cbn [omit_empty app forallb];
        rewrite good_slice_json, ?good_strings_json; cbn [parseable]; rewrite He; vm_compute; reflexivity.
  - destruct (bool_decide (gr_RelayConstraints g = [])); vm_compute; reflexivity.
Qed.



Lemma grantSignatureInput_inj g h o :
  in_i64 (gr_RevocationEpoch g) = true -> in_i64 (gr_RevocationEpoch h) = true ->
  offset (gr_NotBefore g) = 0 -> offset (gr_NotBefore h) = 0 ->
  offset (gr_ExpiresAt g) = 0 -> offset (gr_ExpiresAt h) = 0 ->
  grantSignatureInput g = Ok o -> grantSignatureInput h = Ok o -> same_grant g h.
Proof.
  intros Ig Ih O1 O2 O3 O4 Eg Eh.
  destruct (signatureInput_agree TypeTrustGrant g h o eq_refl (fun m => Grant_good g m Ig)
    (fun m => Grant_good h m Ih) Eg Eh) as (mg & mh & Mg & Mh & F). clear Eg Eh.
  cbn [members Grant_signed] in Mg, Mh. unfold Grant_members in Mg, Mh. inv_ok.
  assert (map clean_str (gr_RelayConstraints g) = map clean_str (gr_RelayConstraints h)) as Hr.
  { pose proof (F "relay_constraints" ltac:(done)) as H.
    destruct (gr_RelayConstraints g) as [|x l], (gr_RelayConstraints h) as [|y l'];
      cbn -[clean strings_json] in H; try done.
    apply (inj Some) in H. by apply strings_json_clean_inj. }
  destruct (bool_decide (gr_RelayConstraints g = [])), (bool_decide (gr_RelayConstraints h = []));
    cbn [omit_empty app] in F;
    member F "grant_id"; member F "issuer"; member F "subject_device_id"; member F "audience";
    member F "confirmation_thumbprint"; member F "not_before"; member F "expires_at"; member F "revocation_epoch";
    pose proof (F "permissions" ltac:(done)) as Hp; cbn -[clean slice_json] in Hp; apply (inj Some) in Hp;
    apply slice_json_clean_inj in Hp;
    (split_and!; [done..|eapply (time_json_inj (gr_NotBefore g)); eassumption
      |eapply (time_json_inj (gr_ExpiresAt g)); eassumption|done]).
Qed.

(** A signed grant is accepted under the signer's key exactly for what it permits. *)
Lemma SignGrant_accepted issuer grant g id opts :
  key_ok (dev_Private issuer) -> DecodeBase64URL (pk_Public (di_PublicKey id)) = Ok (edpub (Public (dev_Private issuer))) ->
  SignGrant issuer grant = Ok g ->
  (VerifyGrant g id opts = Ok tt <-> grant_permits (issue_grant issuer grant) opts).
Proof.
  intros Hk Hp Hg. rewrite VerifyGrant_spec.
  assert (verify_object TypeTrustGrant (pk_Public (di_PublicKey id)) g
    (New CodeTrustInvalid "trust grant signature verification failed") = Ok tt) as Hv
    by exact (verify_fresh_object _ _ _ _ _ _ _ Hk Hp eq_refl Hg).
  assert (grant_permits g opts <-> grant_permits (issue_grant issuer grant) opts) as Hiff.
  { unfold SignGrant, sign_object in Hg. by inv_ok. }
  tauto.
Qed.

(** Issuing then checking: a grant a trust root signs is accepted under the
    root's identity exactly when its bindings permit what is asked, and signing
    succeeds for every epoch below [2^63] and times of the years 0 to 9999. *)
Theorem SignGrant_VerifyGrant issuer grant opts :
  device_ok issuer -> in_i64 (gr_RevocationEpoch grant) = true ->
  representable (gr_NotBefore grant) = true -> representable (gr_ExpiresAt grant) = true ->
  exists g, SignGrant issuer grant = Ok g /\
    (VerifyGrant g (dev_Identity issuer) opts = Ok tt <-> grant_permits (issue_grant issuer grant) opts).
Proof.
  intros (Hk & Hp & _) He [s1 H1]%time_json_total [s2 H2]%time_json_total.
  assert (exists g, SignGrant issuer grant = Ok g) as [g Hg].
  { unfold SignGrant, sign_object.
    destruct (members (issue_grant issuer grant)) as [m|] eqn:Hm.
    2: { cbn [members Grant_signed] in Hm. unfold Grant_members in Hm. cbn [gr_NotBefore gr_ExpiresAt issue_grant] in Hm.
         by rewrite H1, H2 in Hm. }
    destruct (signatureInput_total TypeTrustGrant _ _ Hm (Grant_good (issue_grant issuer grant) _ He Hm)) as [o ->]. run. by eexists. }
  exists g. split; [done|]. by apply SignGrant_accepted.
Qed.


(** Revocation and expiry are final: once the verifier's revocation epoch has
    passed the grant's, or its clock the grant's expiry, no later epoch or clock
    makes the grant acceptable again. *)
Theorem VerifyGrant_revocation_monotone g issuer opts opts' :
  vo_CurrentRevocationEpoch opts <= vo_CurrentRevocationEpoch opts' ->
  ns (vo_Now opts) <= ns (vo_Now opts') ->
  gr_RevocationEpoch g < vo_CurrentRevocationEpoch opts \/ ns (gr_ExpiresAt g) <= ns (vo_Now opts) ->
  exists e, VerifyGrant g issuer opts' = Err e /\ error_code e = Some CodeTrustInvalid.
Proof.
  intros Hepoch Hnow Hover. unfold VerifyGrant, Before.
  repeat match goal with
  | |- context [reject_if ?b _ ≫= _] => destruct b eqn:?; [by eexists|run]
  end.
  bool_prop. lia.
Qed.

End facts.

Import ToyCrypto.

(** A root and a grant for "alice" to publish through relay "r1". *)
Definition toy_root : Device := toy_device x07 "root".

Definition toy_grant : Grant :=
  mkGrant "" "g1" "" "alice" "dom" "tp" (Some ["publish"; "receive"]) ["r1"] t0 (Add t0 Hour) 3 noSignature.

Definition toy_options : VerifyOptions := mkVerifyOptions "dom" "alice" "tp" "publish" "r1" 3 (Add t0 Minute).

Definition toy_signed_grant : Grant :=
  match SignGrant toy_root toy_grant with
  | Ok g => g
  | Err _ => toy_grant
  end.

Lemma SignGrant_VerifyGrant_witness :
  exists g, SignGrant toy_root toy_grant = Ok g /\
    (VerifyGrant g (dev_Identity toy_root) toy_options = Ok tt <->
     grant_permits (issue_grant toy_root toy_grant) toy_options).
Proof.
  apply SignGrant_VerifyGrant; [apply toy_device_ok|reflexivity|vm_compute; reflexivity..].
Defined.


Lemma VerifyGrant_revocation_monotone_witness :
  exists e, VerifyGrant toy_signed_grant (dev_Identity toy_root)
    (mkVerifyOptions "dom" "alice" "tp" "publish" "r1" 5 (Add t0 Minute)) = Err e /\
    error_code e = Some CodeTrustInvalid.
Proof.
  apply (VerifyGrant_revocation_monotone _ _ (mkVerifyOptions "dom" "alice" "tp" "publish" "r1" 4 (Add t0 Minute)));
    [vm_compute; discriminate..|left; vm_compute; reflexivity].
Defined.

(** Epochs of [2^63] and above are [uint64] values the canonical form, whose
    integers are [int64], cannot carry: such a grant cannot be signed. *)
Example SignGrant_large_epoch :
  is_ok (SignGrant toy_root (mkGrant "" "g1" "" "alice" "dom" "tp" None [] t0 t0 (2 ^ 63) noSignature)) = false.
Proof. vm_compute. reflexivity. Qed.
