(* ===== verification/Session.v ===== *)
(** * Sessions: [pkg/iscp/session/session.go]

    The two-message handshake (signed hellos carrying ephemeral X25519 keys, a
    transcript hash over both, directional keys, ready messages that confirm
    them) and the per-session counters. *)
From Stdlib Require Import ZArith Lia Strings.Byte.
From stdpp Require Import sorting numbers gmap strings base list.
From S2P Require Import Prelude Errors Utf8 GoJson Canonical CanonicalProps GoTime Sha256 Crypto Signed Identity.
Open Scope Z_scope.

Definition TypeHello : string := "iscp.session.hello.v2".
Definition TypeReady : string := "iscp.session.ready.v2".

Record Hello := mkHello {
  he_Type : string;
  he_SessionID : string;
  he_DomainID : string;
  he_DeviceID : string;
  he_PeerDeviceID : string;
  he_Ciphersuite : string;
  he_EphemeralPublicKey : string;
  he_GrantID : string;
  he_IssuedAt : Time;
  he_Signature : Signature
}.

Record ReadyMsg := mkReady {
  rd_Type : string;
  rd_SessionID : string;
  rd_DeviceID : string;
  rd_TranscriptHash : string;
  rd_ReadyMAC : string;
  rd_Signature : Signature
}.

Record LocalHello := mkLocalHello { lh_Hello : Hello; lh_privateKey : X25519PrivateKey }.

Record State := mkState {
  st_SessionID : string;
  st_DomainID : string;
  st_LocalDeviceID : string;
  st_PeerDeviceID : string;
  st_TranscriptHash : bytes;
  st_SendKey : bytes;
  st_ReceiveKey : bytes;
  st_ReadyKey : bytes;
  st_ready : bool;
  st_sendSeq : Z;      (** uint64 *)
  st_seenSeq : gset Z
}.

Definition Hello_members (h : Hello) : result (list (string * Value)) :=
  issued ← time_json (he_IssuedAt h);
  Ok [("type", JStr (he_Type h)); ("session_id", JStr (he_SessionID h)); ("domain_id", JStr (he_DomainID h));
      ("device_id", JStr (he_DeviceID h)); ("peer_device_id", JStr (he_PeerDeviceID h));
      ("ciphersuite", JStr (he_Ciphersuite h)); ("ephemeral_public_key", JStr (he_EphemeralPublicKey h));
      ("grant_id", JStr (he_GrantID h)); ("issued_at", issued)].

#[export] Instance Hello_signed : Signed Hello := {
  signature_of := he_Signature;
  set_signature s h :=
    mkHello (he_Type h) (he_SessionID h) (he_DomainID h) (he_DeviceID h) (he_PeerDeviceID h) (he_Ciphersuite h)
      (he_EphemeralPublicKey h) (he_GrantID h) (he_IssuedAt h) s;
  members := Hello_members
}.

#[export] Instance Hello_laws : SignedLaws Hello.
Proof. split; intros; by destruct a. Qed.

Definition Ready_members (r : ReadyMsg) : result (list (string * Value)) :=
  Ok [("type", JStr (rd_Type r)); ("session_id", JStr (rd_SessionID r)); ("device_id", JStr (rd_DeviceID r));
      ("transcript_hash", JStr (rd_TranscriptHash r)); ("ready_mac", JStr (rd_ReadyMAC r))].

#[export] Instance Ready_signed : Signed ReadyMsg := {
  signature_of := rd_Signature;
  set_signature s r :=
    mkReady (rd_Type r) (rd_SessionID r) (rd_DeviceID r) (rd_TranscriptHash r) (rd_ReadyMAC r) s;
  members := Ready_members
}.

#[export] Instance Ready_laws : SignedLaws ReadyMsg.
Proof. split; intros; by destruct a. Qed.

(** ** The transcript *)

(** [sort.Slice] of two elements: they swap when the second is less. *)
Definition sort2 {A} (less : A -> A -> bool) (a b : A) : A * A := if less b a then (b, a) else (a, b).

(** [mustJSONMap]: the struct's members after a trip through its JSON text, the
    nil map when it has none. *)
Definition mustJSONMap (h : Hello) : Value :=
  match members h with
  | Ok m => clean (JObj (m ++ [("signature", Signature_json (he_Signature h))]))
  | Err _ => JObj []
  end.

Definition mustThumbprint (id : DeviceIdentity) : string :=
  match IdentityThumbprint id with
  | Ok tp => tp
  | Err _ => ""
  end.

(** The document [TranscriptHash] hashes. *)
Definition transcript_doc (a b : Hello) (aID bID : DeviceIdentity) : Value :=
  let '(h0, h1) := sort2 (fun x y => String.ltb (he_DeviceID x) (he_DeviceID y)) a b in
  let '(i0, i1) := sort2 (fun x y => String.ltb (di_DeviceID x) (di_DeviceID y)) aID bID in
  JObj [("protocol", JStr "iscp.session.transcript.v2");
        ("session_id", JStr (he_SessionID a));
        ("domain_id", JStr (he_DomainID a));
        ("ciphersuite", JStr CiphersuiteV2);
        ("hello_a", mustJSONMap h0);
        ("hello_b", mustJSONMap h1);
        ("identity_a", JStr (di_DeviceID i0));
        ("identity_b", JStr (di_DeviceID i1));
        ("identity_thumbprint_a", JStr (mustThumbprint i0));
        ("identity_thumbprint_b", JStr (mustThumbprint i1))].

Definition TranscriptHash (a b : Hello) (aID bID : DeviceIdentity) : result bytes :=
  canon ← MarshalValue (transcript_doc a b aID bID);
  Ok (SHA256 canon).

Definition directionLabels (local remote : string) : string * string :=
  if String.ltb local remote then ("low-to-high", "high-to-low") else ("high-to-low", "low-to-high").

(** ** Counters *)

(** [binary.BigEndian.PutUint64(nonce[4:], seq)] over twelve zero bytes. *)
Definition nonce_of (seq : Z) : bytes := replicate 4 x00 ++ be_bytes 8 seq.

Definition with_sendSeq (s : State) (n : Z) : State :=
  mkState (st_SessionID s) (st_DomainID s) (st_LocalDeviceID s) (st_PeerDeviceID s) (st_TranscriptHash s)
    (st_SendKey s) (st_ReceiveKey s) (st_ReadyKey s) (st_ready s) n (st_seenSeq s).

Definition with_seenSeq (s : State) (seen : gset Z) : State :=
  mkState (st_SessionID s) (st_DomainID s) (st_LocalDeviceID s) (st_PeerDeviceID s) (st_TranscriptHash s)
    (st_SendKey s) (st_ReceiveKey s) (st_ReadyKey s) (st_ready s) (st_sendSeq s) seen.

Definition with_ready (s : State) : State :=
  mkState (st_SessionID s) (st_DomainID s) (st_LocalDeviceID s) (st_PeerDeviceID s) (st_TranscriptHash s)
    (st_SendKey s) (st_ReceiveKey s) (st_ReadyKey s) true (st_sendSeq s) (st_seenSeq s).

Definition NextSend (s : State) : Z * bytes * State :=
  let seq := st_sendSeq s in
  (seq, nonce_of seq, with_sendSeq s (wrap_u64 (seq + 1))).

Definition MarkReceived (s : State) (seq : Z) : result State :=
  if bool_decide (seq ∈ st_seenSeq s) then Err (New CodeReplayDetected "duplicate envelope sequence")
  else Ok (with_seenSeq s ({[seq]} ∪ st_seenSeq s)).

(** [State.Ready]; [None] is the nil pointer. *)
Definition Ready (s : option State) : bool :=
  match s with
  | Some s => st_ready s
  | None => false
  end.

(** ** The handshake *)

Section session.
  Context {C : CryptoOps}.

Definition CreateHello (rand : reader) (dev : Device) (sessionID peerDeviceID grantID : string) (now : Time)
    : result LocalHello * reader :=
  match GenerateSessionKey rand with
  | (Err err, rand) => (Err err, rand)
  | (Ok (priv, pub), rand) =>
      (hello ← sign_object TypeHello (dev_Private dev) (pk_KID (di_PublicKey (dev_Identity dev)))
         (mkHello TypeHello sessionID (di_DomainID (dev_Identity dev)) (di_DeviceID (dev_Identity dev)) peerDeviceID
            CiphersuiteV2 (Base64URL (xpub pub)) grantID (UTC now) noSignature);
       Ok (mkLocalHello hello priv), rand)
  end.

Definition VerifyHello (hello : Hello) (id : DeviceIdentity) : result unit :=
  _ ← reject_if (negb (bool_decide (he_Type hello = TypeHello)))
        (New CodeSessionInvalid "invalid session hello type");
  _ ← reject_if (negb (bool_decide (he_DeviceID hello = di_DeviceID id)) ||
                 negb (bool_decide (he_DomainID hello = di_DomainID id)))
        (New CodeSessionInvalid "session hello identity mismatch");
  _ ← reject_if (negb (bool_decide (he_Ciphersuite hello = CiphersuiteV2)))
        (New CodeSessionInvalid "unsupported ciphersuite");
  verify_object TypeHello (pk_Public (di_PublicKey id)) hello
    (New CodeSessionInvalid "session hello signature verification failed").

Definition Establish (local : LocalHello) (remote : Hello) (localID remoteID : DeviceIdentity) : result State :=
  let lh := lh_Hello local in
  _ ← reject_if (negb (bool_decide (he_SessionID lh = he_SessionID remote)))
        (New CodeSessionInvalid "session id mismatch");
  _ ← reject_if (negb (bool_decide (he_DomainID lh = he_DomainID remote)))
        (New CodeSessionInvalid "domain mismatch");
  _ ← reject_if (negb (bool_decide (he_PeerDeviceID lh = he_DeviceID remote)) ||
                 negb (bool_decide (he_PeerDeviceID remote = he_DeviceID lh)))
        (New CodeSessionInvalid "peer binding mismatch");
  _ ← VerifyHello remote remoteID;
  remotePubBytes ← DecodeBase64URL (he_EphemeralPublicKey remote);
  remotePub ← X25519PublicKeyFromBytes remotePubBytes;
  secret ← SharedSecret (lh_privateKey local) remotePub;
  th ← TranscriptHash lh remote localID remoteID;
  let '(sendLabel, recvLabel) := directionLabels (he_DeviceID lh) (he_DeviceID remote) in
  okm ← HKDF secret th (go_bytes ("iscp/v2/session/" +:+ sendLabel)) 32;
  rkm ← HKDF secret th (go_bytes ("iscp/v2/session/" +:+ recvLabel)) 32;
  readyKey ← HKDF secret th (go_bytes "iscp/v2/session/ready") 32;
  Ok (mkState (he_SessionID lh) (he_DomainID lh) (he_DeviceID lh) (he_DeviceID remote) th okm rkm readyKey
        false 0 ∅).

Definition ready_mac (s : State) (deviceID : string) : bytes :=
  HMACSHA256 (st_ReadyKey s) (go_bytes ("ready:" +:+ deviceID)).

Definition CreateReady (s : State) (dev : Device) : result ReadyMsg :=
  sign_object TypeReady (dev_Private dev) (pk_KID (di_PublicKey (dev_Identity dev)))
    (mkReady TypeReady (st_SessionID s) (st_LocalDeviceID s) (Base64URL (st_TranscriptHash s))
       (Base64URL (ready_mac s (st_LocalDeviceID s))) noSignature).

(** The state is marked ready only at the end of a successful check. *)
Definition VerifyReady (s : State) (ready : ReadyMsg) (remoteID : DeviceIdentity) : result State :=
  _ ← reject_if (negb (bool_decide (rd_Type ready = TypeReady)) ||
                 negb (bool_decide (rd_SessionID ready = st_SessionID s)) ||
                 negb (bool_decide (rd_DeviceID ready = st_PeerDeviceID s)))
        (New CodeSessionInvalid "ready binding mismatch");
  th ← DecodeBase64URL (rd_TranscriptHash ready);
  _ ← reject_if (negb (bool_decide (th = st_TranscriptHash s)))
        (New CodeSessionInvalid "ready transcript mismatch");
  mac ← DecodeBase64URL (rd_ReadyMAC ready);
  _ ← reject_if (negb (EqualMAC mac (ready_mac s (rd_DeviceID ready))))
        (New CodeSessionInvalid "ready mac mismatch");
  _ ← verify_object TypeReady (pk_Public (di_PublicKey remoteID)) ready
        (New CodeSessionInvalid "ready signature verification failed");
  Ok (with_ready s).

End session.
