(* ===== verification/SessionProps.v ===== *)
(** * Sessions: the handshake agrees, confirms and counts

    The two ends of a handshake derive mirrored states; a ready message is
    accepted only from the peer that holds the same keys; counters never
    repeat a nonce or accept a sequence number twice. *)
From Stdlib Require Import ZArith Lia Strings.Byte.
From stdpp Require Import sorting numbers gmap strings base list.
From S2P Require Import Prelude Errors Utf8 GoJson Canonical CanonicalProps GoTime Sha256 Crypto Signed Identity.
From S2P Require Import Session.
Open Scope Z_scope.

(** ** Ordering of device identifiers *)

Lemma ltb_flip a b : a <> b -> String.ltb b a = negb (String.ltb a b).
Proof.
  intros Hab. unfold String.ltb. rewrite (String.compare_antisym b a).
  destruct (String.compare a b) eqn:E; [|done..]. by apply String.compare_eq_iff in E.
Qed.

Lemma sort2_comm {A} (key : A -> string) a b :
  key a <> key b ->
  sort2 (fun x y => String.ltb (key x) (key y)) a b = sort2 (fun x y => String.ltb (key x) (key y)) b a.
Proof.
  intros Hk. unfold sort2. rewrite (ltb_flip (key a) (key b)) by done. by destruct (String.ltb (key a) (key b)).
Qed.

Lemma directionLabels_flip a b :
  a <> b -> directionLabels b a = ((directionLabels a b).2, (directionLabels a b).1).
Proof. intros H. unfold directionLabels. rewrite (ltb_flip a b) by done. by destruct (String.ltb a b). Qed.

(** ** The transcript *)

Lemma Hello_good (h : Hello) m : members h = Ok m -> good_members h m = true.
Proof. cbn [members Hello_signed]. unfold Hello_members, time_json. intros Hm. inv_ok. vm_compute. reflexivity. Qed.

Lemma Ready_good (r : ReadyMsg) m : members r = Ok m -> good_members r m = true.
Proof. cbn [members Ready_signed]. unfold Ready_members. intros Hm. inv_ok. vm_compute. reflexivity. Qed.

Lemma mustJSONMap_plain h : plain (mustJSONMap h) = true.
Proof.
  unfold mustJSONMap. destruct (members h) as [m|] eqn:Hm; [|done].
  apply Hello_good in Hm. unfold good_members in Hm. bool_prop.
  eapply wf_plain, ParseStrict_value_wf, ParseStrict_encode. done.
Qed.

Lemma TranscriptHash_total a b ia ib : exists th, TranscriptHash a b ia ib = Ok th.
Proof.
  unfold TranscriptHash. rewrite MarshalValue_plain; [by eexists|].
  unfold transcript_doc. destruct (sort2 _ a b) as [h0 h1], (sort2 _ ia ib) as [i0 i1].
  cbn [plain forallb]. rewrite !mustJSONMap_plain. vm_compute. reflexivity.
Qed.

Lemma TranscriptHash_comm a b ia ib :
  he_DeviceID a <> he_DeviceID b -> di_DeviceID ia <> di_DeviceID ib ->
  he_SessionID a = he_SessionID b -> he_DomainID a = he_DomainID b ->
  TranscriptHash a b ia ib = TranscriptHash b a ib ia.
Proof.
  intros Hd Hi Hs Hdom. unfold TranscriptHash, transcript_doc.
  rewrite (sort2_comm he_DeviceID a b Hd), (sort2_comm di_DeviceID ia ib Hi). by rewrite Hs, Hdom.
Qed.

Section handshake.
  Context {C : CryptoOps} {L : CryptoLaws C}.

(** ** Hellos *)

(** What a hello that [CreateHello] returned looks like. *)
Record fresh_hello (dev : Device) (sessionID peer : string) (l : LocalHello) (pub : X25519PublicKey) : Prop := {
  fh_session : he_SessionID (lh_Hello l) = sessionID;
  fh_domain : he_DomainID (lh_Hello l) = di_DomainID (dev_Identity dev);
  fh_device : he_DeviceID (lh_Hello l) = di_DeviceID (dev_Identity dev);
  fh_peer : he_PeerDeviceID (lh_Hello l) = peer;
  fh_public : he_EphemeralPublicKey (lh_Hello l) = Base64URL (xpub pub);
  fh_verified : VerifyHello (lh_Hello l) (dev_Identity dev) = Ok tt
}.

Lemma CreateHello_fresh rand dev sessionID peer grantID now l rand' :
  device_ok dev -> CreateHello rand dev sessionID peer grantID now = (Ok l, rand') ->
  exists pub, GenerateSessionKey rand = (Ok (lh_privateKey l, pub), rand') /\ fresh_hello dev sessionID peer l pub.
Proof.
  intros (Hk & Hp & _). unfold CreateHello.
  destruct (GenerateSessionKey rand) as [[[priv pub]|] r]; [|done]. intros [= Hl <-]. inv_ok.
  exists pub. split; [done|].
  pose proof (verify_fresh_object _ _ _ _ _ _ (New CodeSessionInvalid "session hello signature verification failed")
    Hk Hp eq_refl E) as Hv.
  unfold sign_object in E. inv_ok. split; try done.
  unfold VerifyHello. cbn [he_Type he_DeviceID he_DomainID he_Ciphersuite lh_Hello set_signature Hello_signed].
  rewrite !bool_decide_true by done. run. exact Hv.
Qed.

Lemma CreateHello_total rand dev sessionID peer grantID now :
  (32 <= length rand)%nat -> representable (UTC now) = true ->
  exists l, CreateHello rand dev sessionID peer grantID now = (Ok l, drop 32 rand).
Proof.
  intros Hr [s Hs]%time_json_total. unfold CreateHello.
  destruct (GenerateSessionKey_total rand Hr) as (k & p & -> & _). unfold sign_object.
  edestruct (signatureInput_total (A := Hello)) as [o ->];
    [cbn [members Hello_signed]; unfold Hello_members; cbn [he_IssuedAt]; rewrite Hs; reflexivity
    |vm_compute; reflexivity|].
  run. by eexists.
Qed.

(** ** Mirrored states *)

Record mirrored (a b : State) : Prop := {
  mi_session : st_SessionID a = st_SessionID b;
  mi_domain : st_DomainID a = st_DomainID b;
  mi_local : st_LocalDeviceID a = st_PeerDeviceID b;
  mi_peer : st_PeerDeviceID a = st_LocalDeviceID b;
  mi_transcript : st_TranscriptHash a = st_TranscriptHash b;
  mi_send : st_SendKey a = st_ReceiveKey b;
  mi_receive : st_ReceiveKey a = st_SendKey b;
  mi_ready : st_ReadyKey a = st_ReadyKey b;
  mi_send_length : length (st_SendKey a) = 32%nat;
  mi_receive_length : length (st_ReceiveKey a) = 32%nat
}.

(** The state [Establish] computes from the agreed secret and the transcript. *)
Definition session_state (sessionID domain local peer : string) (secret th : bytes) (s : State) : Prop :=
  exists okm rkm rdy,
    let labels := directionLabels local peer in
    hkdf_sha256 secret th (go_bytes ("iscp/v2/session/" +:+ labels.1)) 32 = Some okm /\
    hkdf_sha256 secret th (go_bytes ("iscp/v2/session/" +:+ labels.2)) 32 = Some rkm /\
    hkdf_sha256 secret th (go_bytes "iscp/v2/session/ready") 32 = Some rdy /\
    s = mkState sessionID domain local peer th okm rkm rdy false 0 ∅.

Lemma HKDF_32 secret th info :
  exists k, HKDF secret th info 32 = Ok k /\ hkdf_sha256 secret th info 32 = Some k /\ length k = 32%nat.
Proof. unfold HKDF. destruct (hkdf_total secret th info 32) as (k & -> & Hk); [lia|]. by exists k. Qed.

Lemma Establish_fresh da db sid la lb pa pb secret :
  fresh_hello da sid (di_DeviceID (dev_Identity db)) la pa ->
  fresh_hello db sid (di_DeviceID (dev_Identity da)) lb pb ->
  di_DomainID (dev_Identity da) = di_DomainID (dev_Identity db) ->
  length (xpub pb) = 32%nat -> SharedSecret (lh_privateKey la) pb = Ok secret ->
  exists th s,
    TranscriptHash (lh_Hello la) (lh_Hello lb) (dev_Identity da) (dev_Identity db) = Ok th /\
    Establish la (lh_Hello lb) (dev_Identity da) (dev_Identity db) = Ok s /\
    session_state sid (di_DomainID (dev_Identity da)) (di_DeviceID (dev_Identity da)) (di_DeviceID (dev_Identity db))
      secret th s.
Proof.
  intros [A1 A2 A3 A4 A5 A6] [B1 B2 B3 B4 B5 B6] Hdom Hlen Hsec.
  destruct (TranscriptHash_total (lh_Hello la) (lh_Hello lb) (dev_Identity da) (dev_Identity db)) as [th Hth].
  exists th. unfold Establish.
  rewrite B6, B5, Hth, A1, A2, A3, A4, B1, B2, B3, B4, Hdom. rewrite !bool_decide_true by done. run.
  rewrite DecodeBase64URL_Base64URL. run.
  unfold X25519PublicKeyFromBytes. rewrite Hlen. cbn [Nat.eqb]. run.
  destruct pb as [pb]. cbn [xpub] in *. rewrite Hsec. run.
  unfold session_state.
  destruct (directionLabels _ _) as [l1 l2]. cbn [fst snd].
  destruct (HKDF_32 secret th (go_bytes ("iscp/v2/session/" +:+ l1))) as (k1 & E1 & ? & _).
  destruct (HKDF_32 secret th (go_bytes ("iscp/v2/session/" +:+ l2))) as (k2 & E2 & ? & _).
  destruct (HKDF_32 secret th (go_bytes "iscp/v2/session/ready")) as (k3 & E3 & ? & _).
  rewrite E1. run. rewrite E2. run. rewrite E3. run.
  eexists. split; [done|]. split; [done|]. by exists k1, k2, k3.
Qed.

Lemma session_state_mirrored sid dom a b secret th s1 s2 :
  a <> b -> session_state sid dom a b secret th s1 -> session_state sid dom b a secret th s2 -> mirrored s1 s2.
Proof.
  intros Hab (k1 & k2 & k3 & E1 & E2 & E3 & ->) (j1 & j2 & j3 & F1 & F2 & F3 & ->).
  rewrite (directionLabels_flip a b Hab) in F1, F2. cbn [fst snd] in F1, F2.
  destruct (HKDF_32 secret th (go_bytes ("iscp/v2/session/" +:+ (directionLabels a b).1))) as (? & _ & G1 & L1).
  destruct (HKDF_32 secret th (go_bytes ("iscp/v2/session/" +:+ (directionLabels a b).2))) as (? & _ & G2 & L2).
  split; cbn; congruence.
Qed.

Lemma handshake_establish ra rb ra' rb' da db sid ga gb ta tb la lb :
  device_ok da -> device_ok db ->
  di_DomainID (dev_Identity da) = di_DomainID (dev_Identity db) ->
  di_DeviceID (dev_Identity da) <> di_DeviceID (dev_Identity db) ->
  CreateHello ra da sid (di_DeviceID (dev_Identity db)) ga ta = (Ok la, ra') ->
  CreateHello rb db sid (di_DeviceID (dev_Identity da)) gb tb = (Ok lb, rb') ->
  exists sa sb,
    Establish la (lh_Hello lb) (dev_Identity da) (dev_Identity db) = Ok sa /\
    Establish lb (lh_Hello la) (dev_Identity db) (dev_Identity da) = Ok sb /\
    mirrored sa sb /\ mirrored sb sa /\
    st_LocalDeviceID sa = di_DeviceID (dev_Identity da) /\ st_LocalDeviceID sb = di_DeviceID (dev_Identity db).
Proof.
  intros Ha Hb Hdom Hid (pa & Ga & Fa)%CreateHello_fresh (pb & Gb & Fb)%CreateHello_fresh; [|done..].
  destruct (honest_secret _ _ _ _ _ _ _ _ Ga Gb) as [Lb [secret Sa]].
  destruct (honest_secret _ _ _ _ _ _ _ _ Gb Ga) as [La _].
  pose proof (SharedSecret_agree _ _ _ _ _ _ _ _ Ga Gb) as Hs. rewrite Sa in Hs. symmetry in Hs.
  destruct (Establish_fresh da db sid la lb pa pb secret Fa Fb Hdom Lb Sa) as (th & sa & Ta & Ea & Xa).
  destruct (Establish_fresh db da sid lb la pb pa secret Fb Fa (eq_sym Hdom) La Hs) as (th' & sb & Tb & Eb & Xb).
  assert (th' = th) as ->.
  { rewrite TranscriptHash_comm in Tb; [congruence|..].
    all: rewrite ?(fh_device _ _ _ _ _ Fa), ?(fh_device _ _ _ _ _ Fb), ?(fh_session _ _ _ _ _ Fa),
      ?(fh_session _ _ _ _ _ Fb), ?(fh_domain _ _ _ _ _ Fa), ?(fh_domain _ _ _ _ _ Fb); congruence. }
  exists sa, sb. rewrite <- Hdom in Xb. split_and!; try done.
  - by eapply session_state_mirrored.
  - eapply session_state_mirrored; [|done..]. congruence.
  - by destruct Xa as (? & ? & ? & _ & _ & _ & ->).
  - by destruct Xb as (? & ? & ? & _ & _ & _ & ->).
Qed.

(** ** Ready messages *)

Lemma CreateReady_total s dev : exists r, CreateReady s dev = Ok r.
Proof.
  unfold CreateReady, sign_object.
  edestruct (signatureInput_total (A := ReadyMsg)) as [o ->]; [reflexivity|vm_compute; reflexivity|].
  run. by eexists.
Qed.

Lemma ready_mac_mirrored sa sb d : mirrored sa sb -> ready_mac sa d = ready_mac sb d.
Proof. intros M. unfold ready_mac. by rewrite (mi_ready _ _ M). Qed.

Lemma VerifyReady_mirrored sa sb dev r :
  device_ok dev -> mirrored sa sb -> CreateReady sb dev = Ok r ->
  VerifyReady sa r (dev_Identity dev) = Ok (with_ready sa).
Proof.
  intros (Hk & Hp & _) M Hr.
  pose proof (verify_fresh_object _ _ _ _ _ _ (New CodeSessionInvalid "ready signature verification failed")
    Hk Hp eq_refl Hr) as Hv.
  unfold CreateReady, sign_object in Hr. inv_ok. unfold VerifyReady.
  cbn [rd_Type rd_SessionID rd_DeviceID rd_TranscriptHash rd_ReadyMAC set_signature Ready_signed].
  rewrite (mi_session _ _ M), (mi_peer _ _ M), (mi_transcript _ _ M). rewrite !bool_decide_true by done. run.
  rewrite !DecodeBase64URL_Base64URL. run. rewrite bool_decide_true by done. run.
  rewrite (ready_mac_mirrored sa sb _ M). unfold EqualMAC. rewrite bool_decide_true by done. run.
  cbn [set_signature Ready_signed] in Hv. by rewrite Hv.
Qed.

(** C1. Two devices of one domain that greet each other with the same session id
    always complete the handshake: both establish, both ready messages are
    accepted, and each side's sending key is the other's receiving key. *)
Theorem handshake_completes ra rb da db sid ga gb ta tb :
  device_ok da -> device_ok db ->
  di_DomainID (dev_Identity da) = di_DomainID (dev_Identity db) ->
  di_DeviceID (dev_Identity da) <> di_DeviceID (dev_Identity db) ->
  (32 <= length ra)%nat -> (32 <= length rb)%nat ->
  representable (UTC ta) = true -> representable (UTC tb) = true ->
  exists la lb sa sb rda rdb,
    CreateHello ra da sid (di_DeviceID (dev_Identity db)) ga ta = (Ok la, drop 32 ra) /\
    CreateHello rb db sid (di_DeviceID (dev_Identity da)) gb tb = (Ok lb, drop 32 rb) /\
    Establish la (lh_Hello lb) (dev_Identity da) (dev_Identity db) = Ok sa /\
    Establish lb (lh_Hello la) (dev_Identity db) (dev_Identity da) = Ok sb /\
    CreateReady sa da = Ok rda /\ CreateReady sb db = Ok rdb /\
    VerifyReady sa rdb (dev_Identity db) = Ok (with_ready sa) /\
    VerifyReady sb rda (dev_Identity da) = Ok (with_ready sb) /\
    mirrored sa sb.
Proof.
  intros Ha Hb Hdom Hid Hra Hrb Hta Htb.
  destruct (CreateHello_total ra da sid (di_DeviceID (dev_Identity db)) ga ta Hra Hta) as [la Ea].
  destruct (CreateHello_total rb db sid (di_DeviceID (dev_Identity da)) gb tb Hrb Htb) as [lb Eb].
  destruct (handshake_establish _ _ _ _ _ _ _ _ _ _ _ _ _ Ha Hb Hdom Hid Ea Eb)
    as (sa & sb & Esa & Esb & Mab & Mba & _).
  destruct (CreateReady_total sa da) as [rda Rda], (CreateReady_total sb db) as [rdb Rdb].
  pose proof (VerifyReady_mirrored sa sb db rdb Hb Mab Rdb).
  pose proof (VerifyReady_mirrored sb sa da rda Ha Mba Rda).
  exists la, lb, sa, sb, rda, rdb. split_and!; assumption.
Qed.

(** The transcript hash does not depend on which end computes it, so neither
    side can steer it by its role. *)
Theorem TranscriptHash_symmetric a b ia ib :
  he_DeviceID a <> he_DeviceID b -> di_DeviceID ia <> di_DeviceID ib ->
  he_SessionID a = he_SessionID b -> he_DomainID a = he_DomainID b ->
  exists th, TranscriptHash a b ia ib = Ok th /\ TranscriptHash b a ib ia = Ok th /\ length th = 32%nat.
Proof.
  intros Hd Hi Hs Hdom. destruct (TranscriptHash_total a b ia ib) as [th Hth]. exists th.
  split_and!; [done|by rewrite <- TranscriptHash_comm|].
  unfold TranscriptHash in Hth. inv_ok. apply sha256_length.
Qed.


(** Two hellos that say the same, ill-formed UTF-8 aside. *)
Definition same_hello (h k : Hello) : Prop :=
  clean_str (he_SessionID h) = clean_str (he_SessionID k) /\
  clean_str (he_DomainID h) = clean_str (he_DomainID k) /\
  clean_str (he_DeviceID h) = clean_str (he_DeviceID k) /\
  clean_str (he_PeerDeviceID h) = clean_str (he_PeerDeviceID k) /\
  clean_str (he_Ciphersuite h) = clean_str (he_Ciphersuite k) /\
  clean_str (he_EphemeralPublicKey h) = clean_str (he_EphemeralPublicKey k) /\
  clean_str (he_GrantID h) = clean_str (he_GrantID k) /\
  ns (he_IssuedAt h) = ns (he_IssuedAt k).

Lemma helloSignatureInput_inj (h k : Hello) o :
  offset (he_IssuedAt h) = 0 -> offset (he_IssuedAt k) = 0 ->
  signatureInput TypeHello h = Ok o -> signatureInput TypeHello k = Ok o -> same_hello h k.
Proof.
  intros Oh Ok_ Eh Ek.
  destruct (signatureInput_agree TypeHello h k o eq_refl (Hello_good h) (Hello_good k) Eh Ek)
    as (mh & mk & Mh & Mk & F). clear Eh Ek.
  cbn [members Hello_signed] in Mh, Mk. unfold Hello_members in Mh, Mk. inv_ok.
  member F "session_id"; member F "domain_id"; member F "device_id"; member F "peer_device_id".
  member F "ciphersuite"; member F "ephemeral_public_key"; member F "grant_id"; member F "issued_at".
  split_and!; [done..|]. eapply time_json_inj; eassumption.
Qed.


End handshake.

(** ** Counters *)

Lemma be_word_snoc b x : be_word (b ++ [x]) = be_word b * 256 + b2z x.
Proof. unfold be_word. by rewrite foldl_app. Qed.

Lemma be_word_bytes n z : 0 <= z < 256 ^ Z.of_nat n -> be_word (be_bytes n z) = z.
Proof.
  revert z. induction n as [|n IH]; intros z Hz.
  - change (256 ^ Z.of_nat 0) with 1 in Hz. cbn. lia.
  - rewrite Nat2Z.inj_succ, Z.pow_succ_r in Hz by lia. cbn [be_bytes]. rewrite be_word_snoc, IH.
    + rewrite Base64.b2z_z2b_mod. divmod_lia.
    + split; [divmod_lia|apply Z.div_lt_upper_bound; lia].
Qed.

Lemma nonce_of_inj a b : in_u64 a = true -> in_u64 b = true -> nonce_of a = nonce_of b -> a = b.
Proof.
  unfold nonce_of, in_u64. intros Ha Hb H%(inj (app _)). apply (f_equal be_word) in H.
  rewrite !be_word_bytes in H by (change (256 ^ Z.of_nat 8) with (2 ^ 64); lia). done.
Qed.

(** The nonces of the next [n] sends. *)
Fixpoint send_nonces (n : nat) (s : State) : list bytes :=
  match n with
  | O => []
  | S n => let '(_, nonce, s) := NextSend s in nonce :: send_nonces n s
  end.

Lemma send_nonces_eq n s :
  in_u64 (st_sendSeq s) = true ->
  send_nonces n s = map (fun i => nonce_of (wrap_u64 (st_sendSeq s + Z.of_nat i))) (seq 0 n).
Proof.
  revert s. induction n as [|n IH]; intros s Hs; [done|].
  cbn [send_nonces NextSend seq map]. change (Z.of_nat 0) with 0.
  rewrite Z.add_0_r, (wrap_u64_id _ Hs). f_equal.
  rewrite IH by (cbn; unfold in_u64, wrap_u64; divmod_lia).
  rewrite <- seq_shift, map_map. apply map_ext. intros i. cbn [st_sendSeq with_sendSeq].
  f_equal. unfold wrap_u64. rewrite Zplus_mod_idemp_l. f_equal. lia.
Qed.

(** C30. A session uses a fresh nonce for each of its first [2^64] sends, and no
    longer: the counter wraps around at [2^64]. *)
Theorem NextSend_nonces_fresh n s :
  in_u64 (st_sendSeq s) = true -> NoDup (send_nonces n s) <-> Z.of_nat n <= 2 ^ 64.
Proof.
  intros Hs. rewrite send_nonces_eq by done. split.
  - intros Hd. destruct (Z.le_gt_cases (Z.of_nat n) (2 ^ 64)) as [|Hn]; [done|]. exfalso.
    assert (0 = Z.to_nat (2 ^ 64))%nat as H; [|apply (f_equal Z.of_nat) in H; rewrite Z2Nat.id in H; lia].
    apply (NoDup_lookup _ 0 (Z.to_nat (2 ^ 64)) (nonce_of (st_sendSeq s)) Hd); rewrite list_lookup_fmap, lookup_seq_lt by lia;
      cbn [fmap option_fmap option_map]; do 2 f_equal.
    + change (Z.of_nat (0 + 0)) with 0. by rewrite Z.add_0_r, wrap_u64_id.
    + rewrite Nat.add_0_l, Z2Nat.id by lia. unfold wrap_u64, in_u64 in *. divmod_lia.
  - intros Hn. apply NoDup_fmap_2_strong; [|apply NoDup_seq].
    intros i j Hi Hj H. rewrite elem_of_seq in Hi, Hj.
    apply nonce_of_inj in H; [|unfold in_u64, wrap_u64; divmod_lia..].
    unfold wrap_u64 in H. divmod_lia.
Qed.

(** ** A concrete handshake *)

Import ToyCrypto.

Definition toy_alice : Device := toy_device x01 "alice".
Definition toy_bob : Device := toy_device x02 "bob".

(** The value of a computation that succeeds. *)
Definition get {A} (r : result A) (a : A) : A := match r with Ok a => a | Err _ => a end.

Definition toy_no_hello : LocalHello :=
  mkLocalHello (mkHello "" "" "" "" "" "" "" "" t0 noSignature) (mkXPriv []).

Definition toy_no_state : State := mkState "" "" "" "" [] [] [] [] false 0 ∅.

Definition toy_hello_alice : LocalHello :=
  get (CreateHello (replicate 40 x11) toy_alice "s1" "bob" "g1" t0).1 toy_no_hello.

Definition toy_hello_bob : LocalHello :=
  get (CreateHello (replicate 40 x22) toy_bob "s1" "alice" "g2" t0).1 toy_no_hello.

Definition toy_state_alice : State :=
  get (Establish toy_hello_alice (lh_Hello toy_hello_bob) (dev_Identity toy_alice) (dev_Identity toy_bob)) toy_no_state.

Definition toy_state_bob : State :=
  get (Establish toy_hello_bob (lh_Hello toy_hello_alice) (dev_Identity toy_bob) (dev_Identity toy_alice)) toy_no_state.

Lemma handshake_completes_witness :
  exists la lb sa sb rda rdb,
    CreateHello (replicate 40 x11) toy_alice "s1" "bob" "g1" t0 = (Ok la, drop 32 (replicate 40 x11)) /\
    CreateHello (replicate 40 x22) toy_bob "s1" "alice" "g2" t0 = (Ok lb, drop 32 (replicate 40 x22)) /\
    Establish la (lh_Hello lb) (dev_Identity toy_alice) (dev_Identity toy_bob) = Ok sa /\
    Establish lb (lh_Hello la) (dev_Identity toy_bob) (dev_Identity toy_alice) = Ok sb /\
    CreateReady sa toy_alice = Ok rda /\ CreateReady sb toy_bob = Ok rdb /\
    VerifyReady sa rdb (dev_Identity toy_bob) = Ok (with_ready sa) /\
    VerifyReady sb rda (dev_Identity toy_alice) = Ok (with_ready sb) /\
    mirrored sa sb.
Proof.
  apply (handshake_completes (replicate 40 x11) (replicate 40 x22) toy_alice toy_bob "s1" "g1" "g2" t0 t0).
  - apply toy_device_ok.
  - apply toy_device_ok.
  - reflexivity.
  - discriminate.
  - rewrite length_replicate. lia.
  - rewrite length_replicate. lia.
  - vm_compute. reflexivity.
  - vm_compute. reflexivity.
Defined.

Lemma TranscriptHash_symmetric_witness :
  exists th,
    TranscriptHash (lh_Hello toy_hello_alice) (lh_Hello toy_hello_bob) (dev_Identity toy_alice) (dev_Identity toy_bob)
      = Ok th /\
    TranscriptHash (lh_Hello toy_hello_bob) (lh_Hello toy_hello_alice) (dev_Identity toy_bob) (dev_Identity toy_alice)
      = Ok th /\ length th = 32%nat.
Proof. apply TranscriptHash_symmetric; vm_compute; (discriminate || reflexivity). Defined.

Definition toy_ready_bob : ReadyMsg :=
  get (CreateReady toy_state_bob toy_bob) (mkReady "" "" "" "" "" noSignature).



Lemma NextSend_nonces_fresh_witness : NoDup (send_nonces 3 toy_state_alice).
Proof. apply (NextSend_nonces_fresh 3 toy_state_alice); [vm_compute; reflexivity|lia]. Defined.
