(* ===== verification/Control.v ===== *)
(** * Session control frames: [pkg/iscp/session/control.go]

    Signed requests to reopen a session and announcements that one is closed,
    valid for at most thirty seconds.  The sixteen random bytes of a frame's
    nonce are an argument of the functions that create it. *)
From Stdlib Require Import ZArith Lia Strings.Byte.
From stdpp Require Import sorting numbers gmap strings base list.
From S2P Require Import Prelude Errors Utf8 GoJson Canonical CanonicalProps GoTime Crypto Signed Identity.
Open Scope Z_scope.

Definition TypeReopen : string := "iscp.session.reopen.v1".
Definition TypeClose : string := "iscp.session.close.v1".

Definition CauseRuntimeStarted : string := "runtime_started".
Definition CauseForegroundRecovery : string := "foreground_recovery".

Definition CloseReasonShutdown : string := "shutdown".
Definition CloseReasonSuperseded : string := "superseded".
Definition CloseReasonRevoked : string := "revoked".
Definition CloseReasonError : string := "error".

Definition ControlFrameMaxTTL : Z := 30 * Second.
Definition ControlFrameClockSkew : Z := 5 * Second.

Record Reopen := mkReopen {
  ro_Type : string;
  ro_RequestID : string;
  ro_DomainID : string;
  ro_DeviceID : string;
  ro_PeerDeviceID : string;
  ro_RelayID : string;
  ro_Cause : string;
  ro_IssuedAt : Time;
  ro_ExpiresAt : Time;
  ro_Nonce : string;
  ro_Signature : Signature
}.

Record Close := mkClose {
  cl_Type : string;
  cl_SessionID : string;
  cl_DomainID : string;
  cl_DeviceID : string;
  cl_PeerDeviceID : string;
  cl_RelayID : string;
  cl_Reason : string;
  cl_IssuedAt : Time;
  cl_ExpiresAt : Time;
  cl_Nonce : string;
  cl_Signature : Signature
}.

Record ReopenVerifyOptions := mkReopenVerifyOptions {
  rvo_LocalDeviceID : string;
  rvo_DomainID : string;
  rvo_RelayID : string;
  rvo_Now : Time
}.

Definition Reopen_members (r : Reopen) : result (list (string * Value)) :=
  issued ← time_json (ro_IssuedAt r);
  expires ← time_json (ro_ExpiresAt r);
  Ok [("type", JStr (ro_Type r)); ("request_id", JStr (ro_RequestID r)); ("domain_id", JStr (ro_DomainID r));
      ("device_id", JStr (ro_DeviceID r)); ("peer_device_id", JStr (ro_PeerDeviceID r));
      ("relay_id", JStr (ro_RelayID r)); ("cause", JStr (ro_Cause r)); ("issued_at", issued); ("expires_at", expires);
      ("nonce", JStr (ro_Nonce r))].

#[export] Instance Reopen_signed : Signed Reopen := {
  signature_of := ro_Signature;
  set_signature s r :=
    mkReopen (ro_Type r) (ro_RequestID r) (ro_DomainID r) (ro_DeviceID r) (ro_PeerDeviceID r) (ro_RelayID r)
      (ro_Cause r) (ro_IssuedAt r) (ro_ExpiresAt r) (ro_Nonce r) s;
  members := Reopen_members
}.

#[export] Instance Reopen_laws : SignedLaws Reopen.
Proof. split; intros; by destruct a. Qed.

Definition Close_members (c : Close) : result (list (string * Value)) :=
  issued ← time_json (cl_IssuedAt c);
  expires ← time_json (cl_ExpiresAt c);
  Ok [("type", JStr (cl_Type c)); ("session_id", JStr (cl_SessionID c)); ("domain_id", JStr (cl_DomainID c));
      ("device_id", JStr (cl_DeviceID c)); ("peer_device_id", JStr (cl_PeerDeviceID c));
      ("relay_id", JStr (cl_RelayID c)); ("reason", JStr (cl_Reason c)); ("issued_at", issued);
      ("expires_at", expires); ("nonce", JStr (cl_Nonce c))].

#[export] Instance Close_signed : Signed Close := {
  signature_of := cl_Signature;
  set_signature s c :=
    mkClose (cl_Type c) (cl_SessionID c) (cl_DomainID c) (cl_DeviceID c) (cl_PeerDeviceID c) (cl_RelayID c)
      (cl_Reason c) (cl_IssuedAt c) (cl_ExpiresAt c) (cl_Nonce c) s;
  members := Close_members
}.

#[export] Instance Close_laws : SignedLaws Close.
Proof. split; intros; by destruct a. Qed.

Definition validCause (cause : string) : bool :=
  bool_decide (cause = CauseRuntimeStarted) || bool_decide (cause = CauseForegroundRecovery).

Definition validCloseReason (reason : string) : bool :=
  bool_decide (reason = CloseReasonShutdown) || bool_decide (reason = CloseReasonSuperseded) ||
  bool_decide (reason = CloseReasonRevoked) || bool_decide (reason = CloseReasonError).

Definition verifyControlWindow (issuedAt expiresAt now : Time) : result unit :=
  let now := UTC now in
  reject_if (After issuedAt (Add now ControlFrameClockSkew) || negb (After expiresAt now) ||
             Before expiresAt issuedAt || (ControlFrameMaxTTL <? Sub expiresAt issuedAt))
    (New CodeSignatureInvalid "session control frame is outside its allowed time window").

Section control.
  Context {C : CryptoOps}.

Definition verifyControlSignature {A} `{Signed A} (objectType : string) (frame : A) (sender : DeviceIdentity)
    : result unit :=
  verify_object objectType (pk_Public (di_PublicKey sender)) frame
    (New CodeSignatureInvalid "session control frame signature verification failed").

Definition CreateReopen (rnd : bytes) (dev : Device) (requestID peerDeviceID relayID cause : string) (now : Time)
    : result Reopen :=
  _ ← reject_if (negb (validCause cause)) (New CodeSessionInvalid "unsupported session reopen cause");
  let issued := TruncateSecond (UTC now) in
  sign_object TypeReopen (dev_Private dev) (pk_KID (di_PublicKey (dev_Identity dev)))
    (mkReopen TypeReopen requestID (di_DomainID (dev_Identity dev)) (di_DeviceID (dev_Identity dev)) peerDeviceID
       relayID cause issued (Add issued ControlFrameMaxTTL) (Base64URL rnd) noSignature).

Definition VerifyReopen (reopen : Reopen) (requester : DeviceIdentity) (opts : ReopenVerifyOptions) : result unit :=
  _ ← reject_if (negb (bool_decide (ro_Type reopen = TypeReopen)))
        (New CodeSessionInvalid "invalid session reopen type");
  _ ← reject_if (negb (validCause (ro_Cause reopen))) (New CodeSessionInvalid "unsupported session reopen cause");
  _ ← reject_if (negb (bool_decide (ro_DomainID reopen = rvo_DomainID opts)) ||
                 negb (bool_decide (di_DomainID requester = rvo_DomainID opts)))
        (New CodeTrustInvalid "session reopen domain mismatch");
  _ ← reject_if (negb (bool_decide (ro_DeviceID reopen = di_DeviceID requester)))
        (New CodeTrustInvalid "session reopen identity mismatch");
  _ ← reject_if (negb (bool_decide (ro_PeerDeviceID reopen = rvo_LocalDeviceID opts)))
        (New CodeTrustInvalid "session reopen is not addressed to this device");
  _ ← reject_if (negb (bool_decide (ro_RelayID reopen = rvo_RelayID opts)))
        (New CodeTrustInvalid "session reopen relay constraint mismatch");
  _ ← verifyControlWindow (ro_IssuedAt reopen) (ro_ExpiresAt reopen) (rvo_Now opts);
  _ ← reject_if (negb (bool_decide (sig_KID (ro_Signature reopen) = pk_KID (di_PublicKey requester))))
        (New CodeTrustInvalid "session reopen identity mismatch");
  verifyControlSignature TypeReopen reopen requester.

Definition CreateClose (rnd : bytes) (dev : Device) (sessionID peerDeviceID relayID reason : string) (now : Time)
    : result Close :=
  _ ← reject_if (negb (validCloseReason reason)) (New CodeSessionInvalid "unsupported session close reason");
  let issued := TruncateSecond (UTC now) in
  sign_object TypeClose (dev_Private dev) (pk_KID (di_PublicKey (dev_Identity dev)))
    (mkClose TypeClose sessionID (di_DomainID (dev_Identity dev)) (di_DeviceID (dev_Identity dev)) peerDeviceID
       relayID reason issued (Add issued ControlFrameMaxTTL) (Base64URL rnd) noSignature).

Definition VerifyClose (frame : Close) (sender : DeviceIdentity) (opts : ReopenVerifyOptions) : result unit :=
  _ ← reject_if (negb (bool_decide (cl_Type frame = TypeClose)))
        (New CodeSessionInvalid "invalid session close type");
  _ ← reject_if (negb (validCloseReason (cl_Reason frame))) (New CodeSessionInvalid "unsupported session close reason");
  _ ← reject_if (negb (bool_decide (cl_DomainID frame = rvo_DomainID opts)) ||
                 negb (bool_decide (di_DomainID sender = rvo_DomainID opts)))
        (New CodeTrustInvalid "session close domain mismatch");
  _ ← reject_if (negb (bool_decide (cl_DeviceID frame = di_DeviceID sender)))
        (New CodeTrustInvalid "session close identity mismatch");
  _ ← reject_if (negb (bool_decide (cl_PeerDeviceID frame = rvo_LocalDeviceID opts)))
        (New CodeTrustInvalid "session close is not addressed to this device");
  _ ← reject_if (negb (bool_decide (cl_RelayID frame = rvo_RelayID opts)))
        (New CodeTrustInvalid "session close relay constraint mismatch");
  _ ← verifyControlWindow (cl_IssuedAt frame) (cl_ExpiresAt frame) (rvo_Now opts);
  _ ← reject_if (negb (bool_decide (sig_KID (cl_Signature frame) = pk_KID (di_PublicKey sender))))
        (New CodeTrustInvalid "session close identity mismatch");
  verifyControlSignature TypeClose frame sender.

End control.

(** ** Facts *)

(** The interval in which a frame is accepted. *)
Lemma verifyControlWindow_spec issued expires now :
  verifyControlWindow issued expires now = Ok tt <->
  ns issued <= ns now + ControlFrameClockSkew /\ ns now < ns expires /\
  ns issued <= ns expires <= ns issued + ControlFrameMaxTTL.
Proof.
  unfold verifyControlWindow. rewrite reject_if_Ok.
  unfold After, Before, Sub, Add, UTC, ControlFrameMaxTTL, ControlFrameClockSkew, Second, minDuration, maxDuration.
  cbn [ns]. lia.
Qed.

Section facts.
  Context {C : CryptoOps} {L : CryptoLaws C}.

Lemma Reopen_good (r : Reopen) m : members r = Ok m -> good_members r m = true.
Proof. cbn [members Reopen_signed]. unfold Reopen_members, time_json. intros Hm. inv_ok. vm_compute. reflexivity. Qed.

Lemma Close_good (c : Close) m : members c = Ok m -> good_members c m = true.
Proof. cbn [members Close_signed]. unfold Close_members, time_json. intros Hm. inv_ok. vm_compute. reflexivity. Qed.

(** What a receiver requires of a reopen frame apart from its signature. *)
Definition reopen_bound (r : Reopen) (requester : DeviceIdentity) (o : ReopenVerifyOptions) : Prop :=
  ro_Type r = TypeReopen /\ validCause (ro_Cause r) = true /\
  ro_DomainID r = rvo_DomainID o /\ di_DomainID requester = rvo_DomainID o /\
  ro_DeviceID r = di_DeviceID requester /\ ro_PeerDeviceID r = rvo_LocalDeviceID o /\ ro_RelayID r = rvo_RelayID o /\
  (ns (ro_IssuedAt r) <= ns (rvo_Now o) + ControlFrameClockSkew /\ ns (rvo_Now o) < ns (ro_ExpiresAt r) /\
   ns (ro_IssuedAt r) <= ns (ro_ExpiresAt r) <= ns (ro_IssuedAt r) + ControlFrameMaxTTL) /\
  sig_KID (ro_Signature r) = pk_KID (di_PublicKey requester).

Lemma VerifyReopen_spec r requester o :
  VerifyReopen r requester o = Ok tt <->
  reopen_bound r requester o /\ verifyControlSignature TypeReopen r requester = Ok tt.
Proof.
  unfold VerifyReopen, reopen_bound. rewrite <- verifyControlWindow_spec, !guard_Ok, bind_Ok.
  setoid_rewrite guard_Ok. rewrite !orb_false_iff, !negb_false_iff, !bool_decide_eq_true.
  split.
  - intros (? & ? & ? & ? & ? & ? & [] & ? & ? & ?). bool_prop. tauto.
  - intros [(? & ? & ? & ? & ? & ? & ? & ? & ?) ?]. split_and!; try done. exists tt.
    by rewrite bool_decide_true.
Qed.

(** The same for a close frame. *)
Definition close_bound (c : Close) (sender : DeviceIdentity) (o : ReopenVerifyOptions) : Prop :=
  cl_Type c = TypeClose /\ validCloseReason (cl_Reason c) = true /\
  cl_DomainID c = rvo_DomainID o /\ di_DomainID sender = rvo_DomainID o /\
  cl_DeviceID c = di_DeviceID sender /\ cl_PeerDeviceID c = rvo_LocalDeviceID o /\ cl_RelayID c = rvo_RelayID o /\
  (ns (cl_IssuedAt c) <= ns (rvo_Now o) + ControlFrameClockSkew /\ ns (rvo_Now o) < ns (cl_ExpiresAt c) /\
   ns (cl_IssuedAt c) <= ns (cl_ExpiresAt c) <= ns (cl_IssuedAt c) + ControlFrameMaxTTL) /\
  sig_KID (cl_Signature c) = pk_KID (di_PublicKey sender).

Lemma VerifyClose_spec c sender o :
  VerifyClose c sender o = Ok tt <->
  close_bound c sender o /\ verifyControlSignature TypeClose c sender = Ok tt.
Proof.
  unfold VerifyClose, close_bound. rewrite <- verifyControlWindow_spec, !guard_Ok, bind_Ok.
  setoid_rewrite guard_Ok. rewrite !orb_false_iff, !negb_false_iff, !bool_decide_eq_true.
  split.
  - intros (? & ? & ? & ? & ? & ? & [] & ? & ? & ?). bool_prop. tauto.
  - intros [(? & ? & ? & ? & ? & ? & ? & ? & ?) ?]. split_and!; try done. exists tt.
    by rewrite bool_decide_true.
Qed.

(** A control frame is accepted only by the device it is addressed to, from the
    identity that signed it, through the relay it names, at most five seconds
    early and within the thirty seconds it may live; its signature covers every
    member.  This holds of reopen and of close frames alike. *)
Theorem control_frames_sound :
  (forall r requester o, VerifyReopen r requester o = Ok tt ->
     reopen_bound r requester o /\ signed_by TypeReopen (pk_Public (di_PublicKey requester)) r) /\
  (forall c sender o, VerifyClose c sender o = Ok tt ->
     close_bound c sender o /\ signed_by TypeClose (pk_Public (di_PublicKey sender)) c).
Proof.
  split.
  - intros r requester o [Hb Hv]%VerifyReopen_spec. split; [done|].
    by apply (verify_object_signed_by TypeReopen _ _ _ _ eq_refl (Reopen_good r)) in Hv.
  - intros c sender o [Hb Hv]%VerifyClose_spec. split; [done|].
    by apply (verify_object_signed_by TypeClose _ _ _ _ eq_refl (Close_good c)) in Hv.
Qed.

Lemma CreateReopen_total rnd dev requestID peer relay cause now :
  validCause cause = true -> representable (TruncateSecond (UTC now)) = true ->
  representable (Add (TruncateSecond (UTC now)) ControlFrameMaxTTL) = true ->
  exists r, CreateReopen rnd dev requestID peer relay cause now = Ok r.
Proof.
  intros Hc [s1 H1]%time_json_total [s2 H2]%time_json_total. unfold CreateReopen. rewrite Hc. run.
  unfold sign_object. edestruct (signatureInput_total (A := Reopen)) as [o ->];
    [cbn [members Reopen_signed]; unfold Reopen_members; cbn [ro_IssuedAt ro_ExpiresAt]; rewrite H1; run; rewrite H2; reflexivity
    |vm_compute; reflexivity|].
  run. by eexists.
Qed.

Lemma TruncateSecond_bounds t : ns (TruncateSecond t) <= ns t < ns (TruncateSecond t) + Second.
Proof. unfold TruncateSecond, Second. cbn [ns]. divmod_lia. Qed.

(** A reopen request reaches the device it is addressed to: whatever valid cause
    it has, the addressee accepts it until thirty seconds after the (whole)
    second it was created in. *)
Theorem CreateReopen_VerifyReopen rnd dev requestID peer relay cause now now' :
  device_ok dev -> validCause cause = true ->
  representable (TruncateSecond (UTC now)) = true ->
  representable (Add (TruncateSecond (UTC now)) ControlFrameMaxTTL) = true ->
  ns now <= ns now' + ControlFrameClockSkew -> ns now' < ns (TruncateSecond now) + ControlFrameMaxTTL ->
  exists r, CreateReopen rnd dev requestID peer relay cause now = Ok r /\
    VerifyReopen r (dev_Identity dev)
      (mkReopenVerifyOptions peer (di_DomainID (dev_Identity dev)) relay now') = Ok tt.
Proof.
  intros (Hk & Hp & _) Hc H1 H2 Hearly Hlate.
  destruct (CreateReopen_total rnd dev requestID peer relay cause now Hc H1 H2) as [r Hr].
  exists r. split; [done|]. apply VerifyReopen_spec.
  unfold CreateReopen in Hr. rewrite Hc in Hr. cbn [negb reject_if mbind result_bind] in Hr.
  pose proof (verify_fresh_object _ _ _ _ _ _
    (New CodeSignatureInvalid "session control frame signature verification failed") Hk Hp eq_refl Hr) as Hv.
  split; [|done]. pose proof (TruncateSecond_bounds now).
  unfold sign_object in Hr. inv_ok. unfold reopen_bound, ControlFrameMaxTTL in *.
  cbn [ro_Type ro_Cause ro_DomainID ro_DeviceID ro_PeerDeviceID ro_RelayID ro_IssuedAt ro_ExpiresAt ro_Signature
    set_signature Reopen_signed rvo_DomainID rvo_LocalDeviceID rvo_RelayID rvo_Now sig_KID Add ns
    TruncateSecond UTC] in *.
  split_and!; try done; unfold ControlFrameClockSkew, Second in *; lia.
Qed.

End facts.

Import ToyCrypto.

Lemma CreateReopen_VerifyReopen_witness :
  exists r, CreateReopen (replicate 16 x05) (toy_device x01 "alice") "req" "bob" "r1" CauseRuntimeStarted t0 = Ok r /\
    VerifyReopen r (dev_Identity (toy_device x01 "alice")) (mkReopenVerifyOptions "bob" "dom" "r1" (Add t0 Second))
    = Ok tt.
Proof.
  apply (CreateReopen_VerifyReopen _ (toy_device x01 "alice")); [apply toy_device_ok|vm_compute; reflexivity..| |];
    vm_compute; (reflexivity || discriminate).
Defined.

Definition toy_close : Close :=
  match CreateClose (replicate 16 x05) (toy_device x01 "alice") "s1" "bob" "r1" CloseReasonShutdown t0 with
  | Ok c => c
  | Err _ => mkClose "" "" "" "" "" "" "" t0 t0 "" noSignature
  end.

Lemma control_frames_sound_witness :
  signed_by TypeClose (pk_Public (di_PublicKey (dev_Identity (toy_device x01 "alice")))) toy_close.
Proof.
  apply (proj2 control_frames_sound toy_close (dev_Identity (toy_device x01 "alice"))
    (mkReopenVerifyOptions "bob" "dom" "r1" (Add t0 Second))).
  vm_compute. reflexivity.
Defined.
