(* ===== verification/Envelope.v ===== *)
(** * Secure envelopes: [pkg/iscp/envelope/envelope.go]

    Payloads encrypted under a session's sending key, with the whole header as
    additional data.  [Encrypt] and [Decrypt] change the session they are given,
    also when they fail: they return its new state beside their result. *)
From Stdlib Require Import ZArith Lia Strings.Byte.
From stdpp Require Import sorting numbers gmap strings base list.
From S2P Require Import Prelude Errors Utf8 GoJson Canonical CanonicalProps GoTime Sha256 Crypto Signed Identity.
From S2P Require Import Session SessionProps.
Open Scope Z_scope.

Definition TypeSecureEnvelope : string := "iscp.secure_envelope.v2".

Record Route := mkRoute { rt_RelayID : string; rt_TTLSeconds : Z; rt_Priority : Z }.

Record SecureEnvelope := mkSecureEnvelope {
  se_Type : string;
  se_DomainID : string;
  se_MessageID : string;
  se_SessionID : string;
  se_SenderDeviceID : string;
  se_RecipientDeviceID : string;
  se_Sequence : Z;  (** uint64 *)
  se_Nonce : string;
  se_PayloadType : string;
  se_Route : Route;
  se_Ciphertext : string
}.

Definition Route_json (r : Route) : Value :=
  JObj [("relay_id", JStr (rt_RelayID r)); ("ttl_seconds", JInt (rt_TTLSeconds r));
        ("priority", JInt (rt_Priority r))].

Definition SecureEnvelope_json (e : SecureEnvelope) : Value :=
  JObj [("type", JStr (se_Type e)); ("domain_id", JStr (se_DomainID e)); ("message_id", JStr (se_MessageID e));
        ("session_id", JStr (se_SessionID e)); ("sender_device_id", JStr (se_SenderDeviceID e));
        ("recipient_device_id", JStr (se_RecipientDeviceID e)); ("sequence", JInt (se_Sequence e));
        ("nonce", JStr (se_Nonce e)); ("payload_type", JStr (se_PayloadType e)); ("route", Route_json (se_Route e));
        ("ciphertext", JStr (se_Ciphertext e))].

Definition with_ciphertext (e : SecureEnvelope) (c : string) : SecureEnvelope :=
  mkSecureEnvelope (se_Type e) (se_DomainID e) (se_MessageID e) (se_SessionID e) (se_SenderDeviceID e)
    (se_RecipientDeviceID e) (se_Sequence e) (se_Nonce e) (se_PayloadType e) (se_Route e) c.

Definition aad (env : SecureEnvelope) : result bytes :=
  Marshal (encode (SecureEnvelope_json (with_ciphertext env ""))).

Definition err_not_ready : error := New CodeSessionInvalid "session is not ready for payload delivery".

Section envelope.
  Context {C : CryptoOps}.

Definition Encrypt (st : option State) (messageID payloadType : string) (route : Route) (plaintext : bytes)
    : result SecureEnvelope * option State :=
  match st with
  | None => (Err err_not_ready, None)
  | Some s =>
      if negb (Ready (Some s)) then (Err err_not_ready, Some s)
      else
        let '(seq, nonce, s) := NextSend s in
        let env := mkSecureEnvelope TypeSecureEnvelope (st_DomainID s) messageID (st_SessionID s)
                     (st_LocalDeviceID s) (st_PeerDeviceID s) seq (Base64URL nonce) payloadType route "" in
        (ad ← aad env;
         ct ← Seal (st_SendKey s) nonce plaintext ad;
         Ok (with_ciphertext env (Base64URL ct)), Some s)
  end.

Definition Decrypt (st : option State) (env : SecureEnvelope) : result bytes * option State :=
  match st with
  | None => (Err err_not_ready, None)
  | Some s =>
      if negb (Ready (Some s)) then (Err err_not_ready, Some s)
      else if negb (bool_decide (se_Type env = TypeSecureEnvelope)) ||
              negb (bool_decide (se_SessionID env = st_SessionID s)) ||
              negb (bool_decide (se_DomainID env = st_DomainID s))
      then (Err (New CodeEnvelopeInvalid "envelope binding mismatch"), Some s)
      else if negb (bool_decide (se_SenderDeviceID env = st_PeerDeviceID s)) ||
              negb (bool_decide (se_RecipientDeviceID env = st_LocalDeviceID s))
      then (Err (New CodeEnvelopeInvalid "envelope route identity mismatch"), Some s)
      else match MarkReceived s (se_Sequence env) with
      | Err err => (Err err, Some s)
      | Ok s =>
          (nonce ← DecodeBase64URL (se_Nonce env);
           ct ← DecodeBase64URL (se_Ciphertext env);
           ad ← aad env;
           Open (st_ReceiveKey s) nonce ct ad, Some s)
      end
  end.

End envelope.

(** ** Headers *)

(** A header the canonical form can carry: [int] fields are [int64], the sequence
    number below [2^63]. *)
Definition header_ok (e : SecureEnvelope) : bool :=
  in_i64 (se_Sequence e) && in_i64 (rt_TTLSeconds (se_Route e)) && in_i64 (rt_Priority (se_Route e)).

Lemma header_parseable e : header_ok e = true -> parseable (SecureEnvelope_json e) = true.
Proof.
  unfold header_ok. intros H. bool_prop. unfold SecureEnvelope_json, Route_json. cbn [parseable forallb].
  rewrite H, H0, H1. vm_compute. reflexivity.
Qed.

Lemma aad_Ok e : header_ok e = true ->
  aad e = Ok (encode (sort_value (clean (SecureEnvelope_json (with_ciphertext e ""))))).
Proof.
  intros H. unfold aad, Marshal. assert (parseable (SecureEnvelope_json (with_ciphertext e "")) = true) as Hp
    by by apply header_parseable.
  rewrite ParseStrict_encode by done. run.
  apply write_encode, wf_plain. eapply ParseStrict_value_wf. by apply ParseStrict_encode.
Qed.

Lemma aad_ciphertext e c : aad (with_ciphertext e c) = aad e.
Proof. reflexivity. Qed.

(** Headers that say the same, ill-formed UTF-8 aside. *)
Definition same_header (e f : SecureEnvelope) : Prop :=
  clean_str (se_MessageID e) = clean_str (se_MessageID f) /\
  clean_str (se_SenderDeviceID e) = clean_str (se_SenderDeviceID f) /\
  clean_str (se_RecipientDeviceID e) = clean_str (se_RecipientDeviceID f) /\
  clean_str (se_SessionID e) = clean_str (se_SessionID f) /\
  clean_str (se_DomainID e) = clean_str (se_DomainID f) /\
  se_Sequence e = se_Sequence f /\
  clean_str (se_Nonce e) = clean_str (se_Nonce f) /\
  clean_str (se_PayloadType e) = clean_str (se_PayloadType f) /\
  clean_str (rt_RelayID (se_Route e)) = clean_str (rt_RelayID (se_Route f)) /\
  rt_TTLSeconds (se_Route e) = rt_TTLSeconds (se_Route f) /\
  rt_Priority (se_Route e) = rt_Priority (se_Route f).

Lemma Route_json_inj r r' :
  sort_value (clean (Route_json r)) = sort_value (clean (Route_json r')) ->
  clean_str (rt_RelayID r) = clean_str (rt_RelayID r') /\
  rt_TTLSeconds r = rt_TTLSeconds r' /\ rt_Priority r = rt_Priority r'.
Proof.
  unfold Route_json. rewrite !clean_obj. intros H.
  match type of H with sort_value (JObj (map clean_member ?x)) = sort_value (JObj (map clean_member ?y)) =>
    assert (forall k, k <> "signature" -> (sort_value ∘ clean) <$> assoc k x = (sort_value ∘ clean) <$> assoc k y) as F
  end.
  { intros k _. apply (sort_value_assoc k) in H;
      [|apply (bool_decide_eq_true (NoDup _)); vm_compute; reflexivity..].
    rewrite !assoc_clean_member in H by (vm_compute; reflexivity). by rewrite !option_fmap_compose. }
  member F "relay_id"; member F "ttl_seconds"; member F "priority".
  split_and!; assumption.
Qed.

Lemma aad_inj e f a : header_ok e = true -> header_ok f = true -> aad e = Ok a -> aad f = Ok a -> same_header e f.
Proof.
  intros He Hf Ea Ef. rewrite aad_Ok in Ea, Ef by done.
  apply (inj Ok) in Ea, Ef. unfold SecureEnvelope_json in Ea, Ef.
  match type of Ea with encode (sort_value (clean (JObj ?x))) = _ =>
  match type of Ef with encode (sort_value (clean (JObj ?y))) = _ =>
    assert (parseable (JObj x) = true) as P by exact (header_parseable (with_ciphertext e "") He);
    assert (parseable (JObj y) = true) as Q by exact (header_parseable (with_ciphertext f "") Hf);
    pose proof (object_fields x y a P Q) as F
  end end.
  assert (forall l, parseable (JObj l) = true ->
    MarshalValue (clean (JObj l)) = Ok (encode (sort_value (clean (JObj l))))) as HM.
  { intros l Hl. apply MarshalValue_plain, wf_plain. eapply ParseStrict_value_wf. by apply ParseStrict_encode. }
  rewrite (HM _ P), (HM _ Q), Ea, Ef in F. clear HM P Q Ea Ef.
  specialize (F ltac:(vm_compute; reflexivity) ltac:(vm_compute; reflexivity) eq_refl eq_refl).
  assert (forall k, k <> "signature" -> (sort_value ∘ clean) <$> assoc k _ = (sort_value ∘ clean) <$> assoc k _) as G
    by (intros k _; exact (F k)). clear F.
  member G "message_id"; member G "sender_device_id"; member G "recipient_device_id"; member G "session_id".
  member G "domain_id"; member G "sequence"; member G "nonce"; member G "payload_type".
  pose proof (G "route" ltac:(done)) as R. cbn -[clean Route_json] in R. apply (inj Some), Route_json_inj in R.
  unfold same_header. tauto.
Qed.

#[global] Opaque aad.

Section channel.
  Context {C : CryptoOps} {L : CryptoLaws C}.

(** ** One envelope *)

Lemma nonce_of_length z : length (nonce_of z) = 12%nat.
Proof. unfold nonce_of. by rewrite length_app, length_replicate, be_bytes_length. Qed.

(** The envelope [Encrypt] makes of a state, before its ciphertext is set. *)
Definition header_of (s : State) (messageID payloadType : string) (route : Route) : SecureEnvelope :=
  mkSecureEnvelope TypeSecureEnvelope (st_DomainID s) messageID (st_SessionID s) (st_LocalDeviceID s)
    (st_PeerDeviceID s) (st_sendSeq s) (Base64URL (nonce_of (st_sendSeq s))) payloadType route "".

(** A ready state whose next envelope can be encoded. *)
Definition can_send (s : State) (route : Route) : Prop :=
  st_ready s = true /\ length (st_SendKey s) = 32%nat /\ header_ok (header_of s "" "" route) = true.

Lemma Encrypt_ready s messageID payloadType route m :
  can_send s route ->
  exists c, Encrypt (Some s) messageID payloadType route m
    = (Ok (with_ciphertext (header_of s messageID payloadType route) c),
       Some (with_sendSeq s (wrap_u64 (st_sendSeq s + 1)))) /\
    exists a ct, aad (header_of s messageID payloadType route) = Ok a /\ c = Base64URL ct /\
      Seal (st_SendKey s) (nonce_of (st_sendSeq s)) m a = Ok ct.
Proof.
  intros (Hr & Hk & Hh). unfold Encrypt, Ready. rewrite Hr. cbn [negb NextSend].
  match goal with |- context [with_ciphertext ?e _] => change e with (header_of s messageID payloadType route) end.
  assert (header_ok (header_of s messageID payloadType route) = true) as Hh' by exact Hh.
  rewrite (aad_Ok _ Hh'). run.
  generalize (encode (sort_value (clean (SecureEnvelope_json (with_ciphertext (header_of s messageID payloadType route) ""))))).
  intros a. cbn [st_SendKey with_sendSeq].
  destruct (Seal (st_SendKey s) (nonce_of (st_sendSeq s)) m a) as [ct|] eqn:Hs.
  - run. exists (Base64URL ct). split; [done|]. by exists a, ct.
  - unfold Seal in Hs. rewrite (proj2 (new_aead_Ok _ _ tt)) in Hs; [done|].
    split; [exact Hk|apply nonce_of_length].
Qed.

(** An envelope that passes every check of [Decrypt]. *)
Lemma Decrypt_accepts s env seq nonce ct a m :
  st_ready s = true -> se_Type env = TypeSecureEnvelope -> se_SessionID env = st_SessionID s ->
  se_DomainID env = st_DomainID s -> se_SenderDeviceID env = st_PeerDeviceID s ->
  se_RecipientDeviceID env = st_LocalDeviceID s -> se_Sequence env = seq -> seq ∉ st_seenSeq s ->
  DecodeBase64URL (se_Nonce env) = Ok nonce -> DecodeBase64URL (se_Ciphertext env) = Ok ct -> aad env = Ok a ->
  Open (st_ReceiveKey s) nonce ct a = Ok m ->
  Decrypt (Some s) env = (Ok m, Some (with_seenSeq s ({[seq]} ∪ st_seenSeq s))).
Proof.
  intros Hr H1 H2 H3 H4 H5 <- Hseen Hn Hc Ha Ho. unfold Decrypt, Ready. rewrite Hr, H1, H2, H3, H4, H5.
  rewrite !bool_decide_true by done. cbn [negb orb]. unfold MarkReceived. rewrite bool_decide_false by done.
  rewrite Hn. run. rewrite Hc. run. rewrite Ha. run. cbn [st_ReceiveKey with_seenSeq]. by rewrite Ho.
Qed.

(** A number seen before is refused before anything is decoded. *)
Lemma Decrypt_seen s env :
  se_Sequence env ∈ st_seenSeq s ->
  exists e, Decrypt (Some s) env = (Err e, Some s).
Proof.
  intros Hin. unfold Decrypt, MarkReceived.
  repeat match goal with |- context [if ?b then _ else _] => destruct b eqn:?; try by eexists end.
  bool_prop. done.
Qed.

Lemma Decrypt_replay s env :
  st_ready s = true -> se_Type env = TypeSecureEnvelope -> se_SessionID env = st_SessionID s ->
  se_DomainID env = st_DomainID s -> se_SenderDeviceID env = st_PeerDeviceID s ->
  se_RecipientDeviceID env = st_LocalDeviceID s -> se_Sequence env ∈ st_seenSeq s ->
  Decrypt (Some s) env = (Err (New CodeReplayDetected "duplicate envelope sequence"), Some s).
Proof.
  intros Hr H1 H2 H3 H4 H5 Hseen. unfold Decrypt, Ready. rewrite Hr, H1, H2, H3, H4, H5.
  rewrite !bool_decide_true by done. cbn [negb orb]. unfold MarkReceived. by rewrite bool_decide_true.
Qed.

(** Accepting an envelope of the peer. *)
Lemma Decrypt_mirrored sa sb messageID payloadType route m c a ct :
  mirrored sa sb -> st_ready sb = true -> st_sendSeq sa ∉ st_seenSeq sb ->
  aad (header_of sa messageID payloadType route) = Ok a -> c = Base64URL ct ->
  Seal (st_SendKey sa) (nonce_of (st_sendSeq sa)) m a = Ok ct ->
  Decrypt (Some sb) (with_ciphertext (header_of sa messageID payloadType route) c)
  = (Ok m, Some (with_seenSeq sb ({[st_sendSeq sa]} ∪ st_seenSeq sb))).
Proof.
  intros [] Hr Hseen Ha -> Hs.
  apply (Decrypt_accepts sb (with_ciphertext (header_of sa messageID payloadType route) (Base64URL ct))
    (st_sendSeq sa) (nonce_of (st_sendSeq sa)) ct a);
    [done|done|done|done|done|done|done|done|apply DecodeBase64URL_Base64URL|apply DecodeBase64URL_Base64URL|..].
  - by rewrite aad_ciphertext.
  - rewrite <- mi_send. by apply Open_Seal.
Qed.

(** ** A channel

    One end encrypts a list of messages; the network delivers the envelopes in
    any order, losing some and repeating others. *)

Record message := mkMessage {
  msg_ID : string; msg_PayloadType : string; msg_Route : Route; msg_Body : bytes }.

Fixpoint send_all (st : option State) (ms : list message) : list (result SecureEnvelope) * option State :=
  match ms with
  | [] => ([], st)
  | m :: ms =>
      let '(r, st) := Encrypt st (msg_ID m) (msg_PayloadType m) (msg_Route m) (msg_Body m) in
      let '(rs, st) := send_all st ms in
      (r :: rs, st)
  end.

Fixpoint receive_all (st : option State) (es : list SecureEnvelope) : list (result bytes) * option State :=
  match es with
  | [] => ([], st)
  | e :: es =>
      let '(r, st) := Decrypt st e in
      let '(rs, st) := receive_all st es in
      (r :: rs, st)
  end.

Definition err_replay : error := New CodeReplayDetected "duplicate envelope sequence".

(** What the receiver should see: the first copy of each message delivers it, a
    further copy is a replay. *)
Fixpoint outcomes (ms : list message) (before : list nat) (order : list nat) : list (result bytes) :=
  match order with
  | [] => []
  | i :: order =>
      (if bool_decide (i ∈ before) then Err err_replay
       else match ms !! i with Some m => Ok (msg_Body m) | None => Err err_not_ready end)
        :: outcomes ms (i :: before) order
  end.

(** Envelope [e] carries message [m] as number [n] of the sender. *)
Definition carries (s : State) (n : Z) (e : SecureEnvelope) (m : message) : Prop :=
  let s := with_sendSeq s n in
  exists a ct,
    e = with_ciphertext (header_of s (msg_ID m) (msg_PayloadType m) (msg_Route m)) (Base64URL ct) /\
    aad (header_of s (msg_ID m) (msg_PayloadType m) (msg_Route m)) = Ok a /\
    Seal (st_SendKey s) (nonce_of n) (msg_Body m) a = Ok ct.

Definition route_ok (m : message) : Prop :=
  in_i64 (rt_TTLSeconds (msg_Route m)) = true /\ in_i64 (rt_Priority (msg_Route m)) = true.

Lemma with_sendSeq_id s : with_sendSeq s (st_sendSeq s) = s.
Proof. by destruct s. Qed.

Lemma with_seenSeq_id s : with_seenSeq s (st_seenSeq s) = s.
Proof. by destruct s. Qed.

Lemma send_all_carries ms s :
  st_ready s = true -> length (st_SendKey s) = 32%nat -> Forall route_ok ms ->
  0 <= st_sendSeq s -> st_sendSeq s + Z.of_nat (length ms) <= 2 ^ 63 ->
  exists es, (send_all (Some s) ms).1 = map Ok es /\ length es = length ms /\
    forall i e m, es !! i = Some e -> ms !! i = Some m -> carries s (st_sendSeq s + Z.of_nat i) e m.
Proof.
  revert s. induction ms as [|m ms IH]; intros s Hr Hk Hms Hlo Hhi; [by exists []|].
  apply Forall_cons in Hms as [[Ht Hp] Hms]. rewrite length_cons in Hhi.
  destruct (Encrypt_ready s (msg_ID m) (msg_PayloadType m) (msg_Route m) (msg_Body m))
    as (c & E & a & ct & Ha & -> & Hs).
  { split_and!; [done..|]. unfold header_ok. cbn [se_Sequence se_Route header_of]. rewrite Ht, Hp.
    unfold in_i64. lia. }
  assert (wrap_u64 (st_sendSeq s + 1) = st_sendSeq s + 1) as Hw by (apply wrap_u64_id; unfold in_u64; lia).
  rewrite Hw in E. destruct (IH (with_sendSeq s (st_sendSeq s + 1))) as (es & Hes & Hl & Hc);
    [done|done|done|cbn; lia|cbn; lia|].
  cbn [send_all]. rewrite E. destruct (send_all _ ms) as [rs st]. cbn [fst] in *. subst rs.
  eexists (_ :: es). split; [done|]. split; [by rewrite !length_cons, Hl|].
  intros [|i] e m' He Hm.
  - cbn in He, Hm. injection He as <-. injection Hm as <-. change (Z.of_nat 0) with 0. rewrite Z.add_0_r.
    unfold carries. rewrite with_sendSeq_id. exists a, ct. split_and!; [reflexivity|exact Ha|exact Hs].
  - cbn in He, Hm. specialize (Hc i e m' He Hm). cbn [st_sendSeq with_sendSeq] in Hc.
    replace (st_sendSeq s + Z.of_nat (S i)) with (st_sendSeq s + 1 + Z.of_nat i) by lia. exact Hc.
Qed.

Lemma mirrored_seqs sa sb n seen : mirrored sa sb -> mirrored (with_sendSeq sa n) (with_seenSeq sb seen).
Proof. intros []. by split. Qed.

Lemma Decrypt_carries sa sb n e m :
  mirrored sa sb -> st_ready sb = true -> carries sa n e m ->
  Decrypt (Some sb) e =
    if bool_decide (n ∈ st_seenSeq sb) then (Err err_replay, Some sb)
    else (Ok (msg_Body m), Some (with_seenSeq sb ({[n]} ∪ st_seenSeq sb))).
Proof.
  intros M Hr (a & ct & -> & Ha & Hs).
  pose proof (mirrored_seqs _ _ n (st_seenSeq sb) M) as M'. destruct (bool_decide_reflect (n ∈ st_seenSeq sb)) as [Hin|Hout].
  - destruct M'. apply Decrypt_replay; first [assumption|reflexivity].
  - rewrite with_seenSeq_id in M'.
    by apply (Decrypt_mirrored (with_sendSeq sa n) sb _ _ _ _ _ a ct).
Qed.

(** C2. The channel delivers exactly once, whatever the network does: of envelopes
    delivered in any order, with losses and repetitions, the first copy of each
    yields its plaintext and every further copy is refused as a replay. *)
Theorem channel_exactly_once sa sb ms order :
  mirrored sa sb -> st_ready sa = true -> st_ready sb = true -> Forall route_ok ms ->
  0 <= st_sendSeq sa -> st_sendSeq sa + Z.of_nat (length ms) <= 2 ^ 63 ->
  (forall i, (i < length ms)%nat -> st_sendSeq sa + Z.of_nat i ∉ st_seenSeq sb) ->
  Forall (fun i => i < length ms)%nat order ->
  exists es ds,
    (send_all (Some sa) ms).1 = map Ok es /\ mapM (fun i => es !! i) order = Some ds /\
    (receive_all (Some sb) ds).1 = outcomes ms [] order.
Proof.
  intros M Hra Hrb Hms Hlo Hhi Hfresh Hord.
  destruct (send_all_carries ms sa Hra (mi_send_length _ _ M) Hms Hlo Hhi) as (es & Hes & Hl & Hc).
  exists es. assert (exists ds, mapM (fun i => es !! i) order = Some ds) as [ds Hds].
  { apply mapM_is_Some. eapply Forall_impl; [exact Hord|]. intros i Hi. apply lookup_lt_is_Some. by rewrite Hl. }
  exists ds. split_and!; [done..|].
  assert (forall before sb, mirrored sa sb -> st_ready sb = true ->
    (forall i, (i < length ms)%nat -> st_sendSeq sa + Z.of_nat i ∈ st_seenSeq sb <-> i ∈ before) ->
    (receive_all (Some sb) ds).1 = outcomes ms before order) as Hgen.
  2: { apply Hgen; [done..|]. intros i Hi. specialize (Hfresh i Hi). set_solver. }
  clear M Hrb Hfresh sb Hes. revert ds Hds. induction Hord as [|i order Hi Hord IH]; intros ds Hds before sb M Hr Hseen.
  - cbn in Hds. injection Hds as <-. done.
  - cbn in Hds. destruct (es !! i) as [e|] eqn:He; [|done]. cbn in Hds.
    destruct (mapM _ order) as [ds'|] eqn:Hds'; [|done]. cbn in Hds. injection Hds as <-.
    destruct (ms !! i) as [m|] eqn:Hm; [|by apply lookup_ge_None in Hm; lia].
    cbn [receive_all outcomes]. rewrite (Decrypt_carries sa sb _ e m M Hr (Hc i e m He Hm)), Hm.
    rewrite (bool_decide_ext _ _ (Hseen i Hi)). case_bool_decide as Hb.
    + specialize (IH ds' eq_refl (i :: before) sb M Hr).
      destruct (receive_all (Some sb) ds') as [rs st]. cbn [fst] in *. f_equal. apply IH.
      intros j Hj. rewrite (Hseen j Hj). set_solver.
    + specialize (IH ds' eq_refl (i :: before) (with_seenSeq sb ({[st_sendSeq sa + Z.of_nat i]} ∪ st_seenSeq sb))).
      destruct (receive_all _ ds') as [rs st]. cbn [fst] in *. f_equal. apply IH; [by destruct M|done|].
      intros j Hj. cbn [st_seenSeq with_seenSeq]. rewrite elem_of_union, elem_of_singleton, (Hseen j Hj), elem_of_cons.
      assert (st_sendSeq sa + Z.of_nat j = st_sendSeq sa + Z.of_nat i <-> j = i) as -> by lia. done.
Qed.

(** What an accepted envelope has passed. *)
Lemma Decrypt_Ok st env m st' :
  Decrypt st env = (Ok m, st') ->
  exists s nonce ct a, st = Some s /\ st_ready s = true /\
    se_Type env = TypeSecureEnvelope /\ se_SessionID env = st_SessionID s /\ se_DomainID env = st_DomainID s /\
    se_SenderDeviceID env = st_PeerDeviceID s /\ se_RecipientDeviceID env = st_LocalDeviceID s /\
    se_Sequence env ∉ st_seenSeq s /\ st' = Some (with_seenSeq s ({[se_Sequence env]} ∪ st_seenSeq s)) /\
    DecodeBase64URL (se_Nonce env) = Ok nonce /\ DecodeBase64URL (se_Ciphertext env) = Ok ct /\
    aad env = Ok a /\ Open (st_ReceiveKey s) nonce ct a = Ok m.
Proof.
  unfold Decrypt, MarkReceived. destruct st as [s|]; [|done].
  repeat match goal with |- context [if ?b then _ else _] => destruct b eqn:?; [done|] end.
  intros [= H <-]. inv_ok. bool_prop. cbn [Ready st_ReceiveKey with_seenSeq] in *.
  exists s, v, v0, v1. split_and!; assumption || reflexivity.
Qed.


(** The sequence number is spent before the ciphertext is authenticated: an
    envelope with the session's public identifiers and an arbitrary ciphertext
    that fails to open makes the genuine envelope of that number a replay. *)
Theorem Decrypt_forgery_blocks_genuine s forged genuine e st' :
  Decrypt (Some s) forged = (Err e, Some st') -> st_ready s = true ->
  se_Type forged = TypeSecureEnvelope -> se_SessionID forged = st_SessionID s -> se_DomainID forged = st_DomainID s ->
  se_SenderDeviceID forged = st_PeerDeviceID s -> se_RecipientDeviceID forged = st_LocalDeviceID s ->
  se_Sequence genuine = se_Sequence forged ->
  exists e', Decrypt (Some st') genuine = (Err e', Some st').
Proof.
  intros Hf Hr H1 H2 H3 H4 H5 Hs. apply Decrypt_seen. rewrite Hs. revert Hf.
  unfold Decrypt, Ready, MarkReceived. rewrite Hr, H1, H2, H3, H4, H5. rewrite !bool_decide_true by done.
  cbn [negb orb]. case_bool_decide as Hin.
  - intros [= _ <-]. done.
  - intros Hf. assert (st' = with_seenSeq s ({[se_Sequence forged]} ∪ st_seenSeq s)) as -> by congruence.
    cbn [st_seenSeq with_seenSeq]. set_solver.
Qed.

Lemma Seal_total k n m a :
  length k = 32%nat -> length n = 12%nat -> Seal k n m a = Ok (aead_seal k n m a).
Proof. intros Hk Hn. unfold Seal. by rewrite (proj2 (new_aead_Ok k n tt)). Qed.

(** The peer's header for number [n] under a nonce of its choice. *)
Definition peer_header (s : State) (route : Route) (nonce : bytes) (n : Z) : SecureEnvelope :=
  mkSecureEnvelope TypeSecureEnvelope (st_DomainID s) "m" (st_SessionID s) (st_PeerDeviceID s)
    (st_LocalDeviceID s) n (Base64URL nonce) "text" route "".

Lemma Decrypt_peer s route nonce n m a :
  st_ready s = true -> length (st_ReceiveKey s) = 32%nat -> length nonce = 12%nat -> n ∉ st_seenSeq s ->
  aad (peer_header s route nonce n) = Ok a ->
  Decrypt (Some s) (with_ciphertext (peer_header s route nonce n) (Base64URL (aead_seal (st_ReceiveKey s) nonce m a)))
  = (Ok m, Some (with_seenSeq s ({[n]} ∪ st_seenSeq s))).
Proof.
  intros Hr Hk Hn Hseen Ha.
  apply (Decrypt_accepts s (with_ciphertext (peer_header s route nonce n) _) n nonce
    (aead_seal (st_ReceiveKey s) nonce m a) a);
    [exact Hr|reflexivity|reflexivity|reflexivity|reflexivity|reflexivity|reflexivity|exact Hseen
    |apply DecodeBase64URL_Base64URL|apply DecodeBase64URL_Base64URL|rewrite aad_ciphertext; exact Ha|].
  apply Open_Seal, Seal_total; assumption.
Qed.

(** A repeated nonce is not noticed: the receiver tracks sequence numbers only,
    so envelopes of different numbers that carry the same nonce are both
    accepted when their sender sealed them. *)
Theorem Decrypt_accepts_repeated_nonce s n1 n2 nonce m1 m2 route :
  st_ready s = true -> length (st_ReceiveKey s) = 32%nat -> length nonce = 12%nat ->
  in_i64 n1 = true -> in_i64 n2 = true -> n1 <> n2 -> n1 ∉ st_seenSeq s -> n2 ∉ st_seenSeq s ->
  in_i64 (rt_TTLSeconds route) = true -> in_i64 (rt_Priority route) = true ->
  exists e1 e2,
    se_Nonce e1 = Base64URL nonce /\ se_Nonce e2 = Base64URL nonce /\
    (receive_all (Some s) [e1; e2]).1 = [Ok m1; Ok m2].
Proof.
  intros Hr Hk Hn I1 I2 Hne S1 S2 It Ip.
  assert (forall s' n, in_i64 n = true -> exists a, aad (peer_header s' route nonce n) = Ok a) as Ha.
  { intros s' n In. eexists. apply aad_Ok. unfold header_ok. cbn [se_Sequence se_Route peer_header].
    by rewrite In, It, Ip. }
  set (s2 := with_seenSeq s ({[n1]} ∪ st_seenSeq s)).
  destruct (Ha s n1 I1) as [a1 A1], (Ha s2 n2 I2) as [a2 A2].
  exists (with_ciphertext (peer_header s route nonce n1) (Base64URL (aead_seal (st_ReceiveKey s) nonce m1 a1))),
    (with_ciphertext (peer_header s2 route nonce n2) (Base64URL (aead_seal (st_ReceiveKey s2) nonce m2 a2))).
  split; [reflexivity|]. split; [reflexivity|]. cbn [receive_all].
  rewrite (Decrypt_peer s route nonce n1 m1 a1 Hr Hk Hn S1 A1). fold s2.
  rewrite (Decrypt_peer s2 route nonce n2 m2 a2 Hr Hk Hn); [reflexivity| |exact A2].
  subst s2. cbn [st_seenSeq with_seenSeq]. clear - Hne S2. set_solver.
Qed.

End channel.

(** ** A concrete channel *)

Import ToyCrypto.

Definition toy_ready_alice_state : State := with_ready toy_state_alice.
Definition toy_ready_bob_state : State := with_ready toy_state_bob.

Definition toy_route : Route := mkRoute "r1" 60 0.

Definition toy_messages : list message :=
  [mkMessage "m0" "text" toy_route (go_bytes "hello"); mkMessage "m1" "text" toy_route (go_bytes "world")].

Lemma toy_mirrored : mirrored toy_ready_alice_state toy_ready_bob_state.
Proof. split; vm_compute; reflexivity. Qed.

Lemma toy_seen n : n ∉ st_seenSeq toy_ready_bob_state.
Proof.
  replace (st_seenSeq toy_ready_bob_state) with (∅ : gset Z) by (vm_compute; reflexivity). apply not_elem_of_empty.
Qed.

Lemma channel_exactly_once_witness :
  exists es ds,
    (send_all (Some toy_ready_alice_state) toy_messages).1 = map Ok es /\
    mapM (fun i => es !! i) [1; 0; 1]%nat = Some ds /\
    (receive_all (Some toy_ready_bob_state) ds).1
    = [Ok (go_bytes "world"); Ok (go_bytes "hello"); Err err_replay].
Proof.
  apply (channel_exactly_once toy_ready_alice_state toy_ready_bob_state toy_messages [1; 0; 1]%nat).
  - apply toy_mirrored.
  - reflexivity.
  - reflexivity.
  - repeat constructor.
  - vm_compute. discriminate.
  - vm_compute. discriminate.
  - intros i _. apply toy_seen.
  - repeat (constructor; [cbn; lia|]). constructor.
Defined.

(** The first envelope alice sends. *)
Definition toy_envelope : SecureEnvelope :=
  get (Encrypt (Some toy_ready_alice_state) "m0" "text" toy_route (go_bytes "hello")).1
    (header_of toy_no_state "" "" toy_route).


Lemma Decrypt_forgery_blocks_genuine_witness :
  exists e', Decrypt (Some (with_seenSeq toy_ready_bob_state {[0]})) toy_envelope
    = (Err e', Some (with_seenSeq toy_ready_bob_state {[0]})).
Proof.
  apply (Decrypt_forgery_blocks_genuine toy_ready_bob_state (with_ciphertext toy_envelope "AAAA") toy_envelope
    (Wrap CodeEnvelopeInvalid "aead authentication failed" (PlainError "message authentication failed"))
    (with_seenSeq toy_ready_bob_state {[0]})); vm_compute; reflexivity.
Defined.

Lemma Decrypt_accepts_repeated_nonce_witness :
  exists e1 e2,
    se_Nonce e1 = Base64URL (nonce_of 7) /\ se_Nonce e2 = Base64URL (nonce_of 7) /\
    (receive_all (Some toy_ready_bob_state) [e1; e2]).1 = [Ok (go_bytes "a"); Ok (go_bytes "b")].
Proof.
  apply (Decrypt_accepts_repeated_nonce toy_ready_bob_state 1 2 (nonce_of 7) (go_bytes "a") (go_bytes "b") toy_route);
    [reflexivity|vm_compute; reflexivity|reflexivity|reflexivity|reflexivity|discriminate|apply toy_seen|apply toy_seen
    |reflexivity|reflexivity].
Defined.
