(* ===== verification/Provisioning.v ===== *)
(** * Provisioning: [pkg/iscp/provisioning/provisioning.go]

    Pairing tickets (v2, and v3 with the role bindings of the grant they lead
    to), the store that counts their uses, the local channel, and the signed
    bundle a device is provisioned with. *)
From Stdlib Require Import ZArith Lia Strings.Byte.
From stdpp Require Import sorting numbers gmap strings base list.
From S2P Require Import Prelude Errors Utf8 GoJson RawFacts Canonical CanonicalProps GoTime Crypto Signed Identity.
Open Scope Z_scope.

Definition TypePairingTicket : string := "iscp.pairing_ticket.v2".
Definition TypePairingTicketV3 : string := "iscp.pairing_ticket.v3".
Definition TypeBundle : string := "iscp.provisioning.bundle.v2".
Definition PurposeInvite : string := "invite".

Record PairingTicket := mkPairingTicket {
  pt_Type : string;
  pt_TicketID : string;
  pt_DomainID : string;
  pt_RelayID : string;
  pt_TrustRootID : string;
  pt_MaxUses : Z;
  pt_IssuedAt : Time;
  pt_ExpiresAt : Time;
  pt_Signature : Signature
}.

Record PairingTicketV3 := mkPairingTicketV3 {
  p3_Type : string;
  p3_TicketID : string;
  p3_DomainID : string;
  p3_RelayID : string;
  p3_TrustRootID : string;
  p3_Purpose : string;
  p3_ConsumerRole : string;
  p3_GrantAudience : string;
  p3_GrantPermissions : Slice;
  p3_GrantTTLSeconds : Z;
  p3_MaxUses : Z;
  p3_IssuedAt : Time;
  p3_ExpiresAt : Time;
  p3_Signature : Signature
}.

Record GrantRoleBindings := mkGrantRoleBindings {
  rb_SubjectDeviceID : string;
  rb_ConfirmationThumbprint : string;
  rb_Audience : string;
  rb_Permissions : Slice;
  rb_RelayID : string
}.

Record LocalChannel := mkLocalChannel { lc_Key : bytes; lc_TranscriptMAC : bytes; lc_Ready : bool }.

Record Bundle := mkBundle {
  bu_Type : string;
  bu_BundleID : string;
  bu_IssuedToDeviceID : string;
  bu_IssuedToPublicKeyThumbprint : string;
  bu_RelayDescriptor : option bytes;
  bu_TrustRootDescriptor : option bytes;
  bu_AccessCredential : option bytes;
  bu_RefreshCredentialWrapped : string;
  bu_TrustGrant : option bytes;
  bu_IssuedAt : Time;
  bu_ExpiresAt : Time;
  bu_Signature : Signature
}.

(** ** JSON *)

Definition PairingTicket_members (t : PairingTicket) : result (list (string * Value)) :=
  issued ← time_json (pt_IssuedAt t);
  expires ← time_json (pt_ExpiresAt t);
  Ok [("type", JStr (pt_Type t)); ("ticket_id", JStr (pt_TicketID t)); ("domain_id", JStr (pt_DomainID t));
      ("relay_id", JStr (pt_RelayID t)); ("trust_root_id", JStr (pt_TrustRootID t)); ("max_uses", JInt (pt_MaxUses t));
      ("issued_at", issued); ("expires_at", expires)].

#[export] Instance PairingTicket_signed : Signed PairingTicket := {
  signature_of := pt_Signature;
  set_signature s t :=
    mkPairingTicket (pt_Type t) (pt_TicketID t) (pt_DomainID t) (pt_RelayID t) (pt_TrustRootID t) (pt_MaxUses t)
      (pt_IssuedAt t) (pt_ExpiresAt t) s;
  members := PairingTicket_members
}.

#[export] Instance PairingTicket_laws : SignedLaws PairingTicket.
Proof. split; intros; by destruct a. Qed.

Definition PairingTicketV3_members (t : PairingTicketV3) : result (list (string * Value)) :=
  issued ← time_json (p3_IssuedAt t);
  expires ← time_json (p3_ExpiresAt t);
  Ok ([("type", JStr (p3_Type t)); ("ticket_id", JStr (p3_TicketID t)); ("domain_id", JStr (p3_DomainID t));
       ("relay_id", JStr (p3_RelayID t)); ("trust_root_id", JStr (p3_TrustRootID t)); ("purpose", JStr (p3_Purpose t));
       ("consumer_role", JStr (p3_ConsumerRole t)); ("grant_audience", JStr (p3_GrantAudience t));
       ("grant_permissions", slice_json (p3_GrantPermissions t))] ++
      omit_empty (p3_GrantTTLSeconds t =? 0) "grant_ttl_seconds" (JInt (p3_GrantTTLSeconds t)) ++
      [("max_uses", JInt (p3_MaxUses t)); ("issued_at", issued); ("expires_at", expires)]).

#[export] Instance PairingTicketV3_signed : Signed PairingTicketV3 := {
  signature_of := p3_Signature;
  set_signature s t :=
    mkPairingTicketV3 (p3_Type t) (p3_TicketID t) (p3_DomainID t) (p3_RelayID t) (p3_TrustRootID t) (p3_Purpose t)
      (p3_ConsumerRole t) (p3_GrantAudience t) (p3_GrantPermissions t) (p3_GrantTTLSeconds t) (p3_MaxUses t)
      (p3_IssuedAt t) (p3_ExpiresAt t) s;
  members := PairingTicketV3_members
}.

#[export] Instance PairingTicketV3_laws : SignedLaws PairingTicketV3.
Proof. split; intros; by destruct a. Qed.

(** A [json.RawMessage] member. *)
Definition raw_json (raw : option bytes) : result Value :=
  b ← marshal_raw raw;
  Ok (JRaw b).

Definition Bundle_members (b : Bundle) : result (list (string * Value)) :=
  relay ← raw_json (bu_RelayDescriptor b);
  trust ← raw_json (bu_TrustRootDescriptor b);
  access ← raw_json (bu_AccessCredential b);
  grant ← raw_json (bu_TrustGrant b);
  issued ← time_json (bu_IssuedAt b);
  expires ← time_json (bu_ExpiresAt b);
  Ok [("type", JStr (bu_Type b)); ("bundle_id", JStr (bu_BundleID b));
      ("issued_to_device_id", JStr (bu_IssuedToDeviceID b));
      ("issued_to_public_key_thumbprint", JStr (bu_IssuedToPublicKeyThumbprint b)); ("relay_descriptor", relay);
      ("trust_root_descriptor", trust); ("access_credential", access);
      ("refresh_credential_wrapped", JStr (bu_RefreshCredentialWrapped b)); ("trust_grant", grant);
      ("issued_at", issued); ("expires_at", expires)].

Definition Bundle_set_signature (s : Signature) (b : Bundle) : Bundle :=
  mkBundle (bu_Type b) (bu_BundleID b) (bu_IssuedToDeviceID b) (bu_IssuedToPublicKeyThumbprint b)
    (bu_RelayDescriptor b) (bu_TrustRootDescriptor b) (bu_AccessCredential b) (bu_RefreshCredentialWrapped b)
    (bu_TrustGrant b) (bu_IssuedAt b) (bu_ExpiresAt b) s.

#[export] Instance Bundle_signed : Signed Bundle := {
  signature_of := bu_Signature;
  set_signature := Bundle_set_signature;
  members := Bundle_members
}.

#[export] Instance Bundle_laws : SignedLaws Bundle.
Proof. split; intros; by destruct a. Qed.

(** ** Tickets *)

Section tickets.
  Context {C : CryptoOps}.

(** The ticket as it is signed. *)
Definition ticketV3_to_sign (t : PairingTicketV3) : PairingTicketV3 :=
  mkPairingTicketV3 TypePairingTicketV3 (p3_TicketID t) (p3_DomainID t) (p3_RelayID t) (p3_TrustRootID t)
    (p3_Purpose t) (p3_ConsumerRole t) (p3_GrantAudience t) (p3_GrantPermissions t) (p3_GrantTTLSeconds t)
    (p3_MaxUses t) (p3_IssuedAt t) (p3_ExpiresAt t) noSignature.

Definition SignTicketV3 (issuer : Device) (ticket : PairingTicketV3) : result PairingTicketV3 :=
  sign_object TypePairingTicketV3 (dev_Private issuer) (pk_KID (di_PublicKey (dev_Identity issuer)))
    (ticketV3_to_sign ticket).

Definition VerifyTicketV3 (ticket : PairingTicketV3) (issuer : DeviceIdentity) (now : Time) : result unit :=
  _ ← reject_if (negb (bool_decide (p3_Type ticket = TypePairingTicketV3)))
        (New CodeProvisionInvalid "invalid ticket type");
  _ ← reject_if (negb (bool_decide (p3_Purpose ticket = PurposeInvite)))
        (New CodeProvisionInvalid "unsupported ticket purpose");
  _ ← reject_if (bool_decide (p3_ConsumerRole ticket = "")) (New CodeProvisionInvalid "ticket consumer role is required");
  _ ← reject_if (bool_decide (p3_GrantAudience ticket = ""))
        (New CodeProvisionInvalid "ticket grant audience is required");
  _ ← reject_if (bool_decide (elems (p3_GrantPermissions ticket) = []))
        (New CodeProvisionInvalid "ticket grant permissions are required");
  _ ← reject_if (p3_GrantTTLSeconds ticket <? 0) (New CodeProvisionInvalid "ticket grant ttl must not be negative");
  _ ← reject_if (Before now (p3_IssuedAt ticket) || negb (Before now (p3_ExpiresAt ticket)))
        (New CodeProvisionInvalid "pairing ticket expired");
  verify_object TypePairingTicketV3 (pk_Public (di_PublicKey issuer)) ticket
    (New CodeProvisionInvalid "pairing ticket signature failed").

Definition BindGrantRoles (ticket : PairingTicketV3) (consumer : DeviceIdentity) : result GrantRoleBindings :=
  _ ← reject_if (negb (bool_decide (di_DomainID consumer = p3_DomainID ticket)))
        (New CodeProvisionInvalid "ticket domain does not match consumer domain");
  _ ← reject_if (bool_decide (di_DeviceID consumer = p3_GrantAudience ticket))
        (New CodeProvisionInvalid "ticket grant audience must not be the consuming device");
  tp ← IdentityThumbprint consumer;
  Ok (mkGrantRoleBindings (di_DeviceID consumer) tp (p3_GrantAudience ticket) (p3_GrantPermissions ticket)
        (p3_RelayID ticket)).

Definition ticket_to_sign (t : PairingTicket) : PairingTicket :=
  mkPairingTicket TypePairingTicket (pt_TicketID t) (pt_DomainID t) (pt_RelayID t) (pt_TrustRootID t) (pt_MaxUses t)
    (pt_IssuedAt t) (pt_ExpiresAt t) noSignature.

Definition SignTicket (issuer : Device) (ticket : PairingTicket) : result PairingTicket :=
  sign_object TypePairingTicket (dev_Private issuer) (pk_KID (di_PublicKey (dev_Identity issuer)))
    (ticket_to_sign ticket).

Definition VerifyTicket (ticket : PairingTicket) (issuer : DeviceIdentity) (now : Time) : result unit :=
  _ ← reject_if (negb (bool_decide (pt_Type ticket = TypePairingTicket)))
        (New CodeProvisionInvalid "invalid ticket type");
  _ ← reject_if (Before now (pt_IssuedAt ticket) || negb (Before now (pt_ExpiresAt ticket)))
        (New CodeProvisionInvalid "pairing ticket expired");
  verify_object TypePairingTicket (pk_Public (di_PublicKey issuer)) ticket
    (New CodeProvisionInvalid "pairing ticket signature failed").

End tickets.

(** ** The ticket store

    Every operation holds the store's mutex from start to end, so concurrent
    consumers act one after the other, in some order. *)

Record TicketStore := mkTicketStore { uses : gmap string Z; limit : gmap string Z }.

Definition NewTicketStore : TicketStore := mkTicketStore ∅ ∅.

Definition consume (s : TicketStore) (ticketID : string) (maxUses : Z) : result unit * TicketStore :=
  if maxUses <=? 0 then (Err (New CodeProvisionInvalid "ticket max uses must be positive"), s)
  else
    let limits := match limit s !! ticketID with
                  | Some _ => limit s
                  | None => <[ticketID := maxUses]> (limit s)
                  end in
    let used := default 0 (uses s !! ticketID) in
    if default 0 (limits !! ticketID) <=? used
    then (Err (New CodeProvisionInvalid "pairing ticket already consumed"), mkTicketStore (uses s) limits)
    else (Ok tt, mkTicketStore (<[ticketID := wrap_i64 (used + 1)]> (uses s)) limits).

Definition Consume (s : TicketStore) (t : PairingTicket) : result unit * TicketStore :=
  consume s (pt_TicketID t) (pt_MaxUses t).

Definition ConsumeV3 (s : TicketStore) (t : PairingTicketV3) : result unit * TicketStore :=
  consume s (p3_TicketID t) (p3_MaxUses t).

(** ** The local channel and bundles *)

Section bundles.
  Context {C : CryptoOps}.

Definition EstablishLocalChannel (rand : reader) (oobSecret : bytes) : result LocalChannel * reader :=
  match GenerateSessionKey rand with
  | (Err err, rand) => (Err err, rand)
  | (Ok (aPriv, aPub), rand) =>
      match GenerateSessionKey rand with
      | (Err err, rand) => (Err err, rand)
      | (Ok (bPriv, bPub), rand) =>
          (secretA ← SharedSecret aPriv bPub;
           secretB ← SharedSecret bPriv aPub;
           _ ← reject_if (negb (bool_decide (secretA = secretB)))
                 (New CodeProvisionInvalid "local secure channel key mismatch");
           let transcript := go_bytes "iscp/v2/provisioning/local-channel" ++ xpub aPub ++ xpub bPub in
           key ← HKDF secretA oobSecret transcript 32;
           Ok (mkLocalChannel key (HMACSHA256 key transcript) true), rand)
      end
  end.

Definition bundle_to_sign (b : Bundle) : Bundle :=
  mkBundle TypeBundle (bu_BundleID b) (bu_IssuedToDeviceID b) (bu_IssuedToPublicKeyThumbprint b)
    (bu_RelayDescriptor b) (bu_TrustRootDescriptor b) (bu_AccessCredential b) (bu_RefreshCredentialWrapped b)
    (bu_TrustGrant b) (bu_IssuedAt b) (bu_ExpiresAt b) noSignature.

Definition SignBundle (issuer : Device) (bundle : Bundle) : result Bundle :=
  sign_object TypeBundle (dev_Private issuer) (pk_KID (di_PublicKey (dev_Identity issuer))) (bundle_to_sign bundle).

Definition ApplyBundle (channel : LocalChannel) (local : DeviceIdentity) (bundle : Bundle) (issuer : DeviceIdentity)
    (now : Time) : result unit :=
  _ ← reject_if (negb (lc_Ready channel)) (New CodeProvisionInvalid "local secure channel is not ready");
  _ ← reject_if (Before now (bu_IssuedAt bundle) || negb (Before now (bu_ExpiresAt bundle)))
        (New CodeProvisionInvalid "provisioning bundle expired");
  _ ← reject_if (negb (bool_decide (bu_IssuedToDeviceID bundle = di_DeviceID local)))
        (New CodeProvisionInvalid "bundle device id mismatch");
  tp ← IdentityThumbprint local;
  _ ← reject_if (negb (bool_decide (bu_IssuedToPublicKeyThumbprint bundle = tp)))
        (New CodeProvisionInvalid "bundle public key thumbprint mismatch");
  verify_object TypeBundle (pk_Public (di_PublicKey issuer)) bundle (New CodeProvisionInvalid "bundle signature failed").

End bundles.

(** ** How often a ticket is consumed *)

(** A run of the store: the outcome of each call, in the order the mutex grants
    them. *)
Fixpoint consume_all (s : TicketStore) (calls : list (string * Z)) : list (result unit) :=
  match calls with
  | [] => []
  | (id, m) :: calls => let '(r, s) := consume s id m in r :: consume_all s calls
  end.

(** The calls that name ticket [id] with a positive limit. *)
Definition calls_for (id : string) (calls : list (string * Z)) : list (string * Z) :=
  List.filter (fun c => bool_decide (c.1 = id) && (0 <? c.2)) calls.

(** How many of the calls for [id] succeeded. *)
Fixpoint successes (id : string) (calls : list (string * Z)) (rs : list (result unit)) : Z :=
  match calls, rs with
  | c :: calls, r :: rs => (if bool_decide (c.1 = id) && is_ok r then 1 else 0) + successes id calls rs
  | _, _ => 0
  end.

(** Uses left for [id]: what the recorded limit leaves, or the limit the next
    valid call will set. *)
Definition uses_left (s : TicketStore) (id : string) (calls : list (string * Z)) : Z :=
  match limit s !! id with
  | Some l => l - default 0 (uses s !! id)
  | None => match calls_for id calls with (_, m) :: _ => m | [] => 0 end
  end.

(** The store's invariant: uses are recorded only under a limit and never
    exceed it. *)
Definition store_ok (s : TicketStore) : Prop :=
  forall id, match limit s !! id with
             | Some l => 0 <= default 0 (uses s !! id) <= l /\ in_i64 l = true
             | None => uses s !! id = None
             end.

Lemma store_ok_new : store_ok NewTicketStore.
Proof. intros id. cbn. by rewrite !lookup_empty. Qed.

Lemma consume_ok s id m : store_ok s -> in_i64 m = true -> store_ok (consume s id m).2.
Proof.
  intros Hs Hm j. pose proof (Hs id) as Hid. pose proof (Hs j) as Hj. unfold consume. cbv zeta.
  destruct (Z.leb_spec m 0); [done|]. destruct (decide (j = id)) as [->|Hne].
  - destruct (limit s !! id) as [l|] eqn:El.
    + rewrite El. cbn [default from_option Datatypes.id]. destruct (Z.leb_spec l (default 0 (uses s !! id))); cbn [snd limit uses];
        rewrite El; [done|]. rewrite lookup_insert_eq. cbn [default from_option Datatypes.id]. unfold in_i64 in *.
      rewrite wrap_i64_id by (unfold in_i64; lia). lia.
    + rewrite lookup_insert_eq, Hid. cbn [default from_option Datatypes.id]. destruct (Z.leb_spec m 0); [lia|].
      cbn [snd limit uses]. rewrite !lookup_insert_eq. cbn [default from_option Datatypes.id]. rewrite wrap_i64_id by done.
      split; [lia|done].
  - destruct (limit s !! id) as [l|] eqn:El;
      repeat case_match; cbn [snd limit uses] in *; rewrite ?lookup_insert_ne in * by done; simplify_eq; done.
Qed.

Lemma consume_other s id m j : j <> id ->
  limit (consume s id m).2 !! j = limit s !! j /\ uses (consume s id m).2 !! j = uses s !! j.
Proof.
  intros Hne. unfold consume. cbv zeta. repeat case_match; cbn [snd limit uses]; rewrite ?lookup_insert_ne by done; done.
Qed.

Lemma successes_left calls s id :
  store_ok s -> Forall (fun c => in_i64 c.2 = true) calls ->
  successes id calls (consume_all s calls)
  = Z.min (Z.of_nat (length (calls_for id calls))) (uses_left s id calls).
Proof.
  revert s. induction calls as [|[i m] calls IH]; intros s Hs Hc.
  - cbn. unfold uses_left. pose proof (Hs id) as Hid. cbn. destruct (limit s !! id); lia.
  - apply Forall_cons in Hc as [Hm Hc]. cbn in Hm. cbn [consume_all].
    pose proof (consume_ok s i m Hs Hm) as Hs'. specialize (IH (consume s i m).2 Hs' Hc).
    pose proof (consume_other s i m id) as Hother. pose proof (Hs id) as Hid.
    destruct (consume s i m) as [r s'] eqn:E. cbn [snd successes fst] in *. rewrite IH.
    unfold uses_left, calls_for in *. cbn [List.filter fst snd].
    destruct (bool_decide_reflect (i = id)) as [->|Hne]; cbn [andb].
    + unfold consume in E. cbv zeta in E. destruct (Z.leb_spec m 0).
      * injection E as <- <-. cbn [is_ok andb]. replace (0 <? m) with false by lia. by rewrite Z.add_0_l.
      * replace (0 <? m) with true by lia. cbn [length]. rewrite Nat2Z.inj_succ.
        destruct (limit s !! id) as [l|] eqn:El.
        -- rewrite El in E. cbn [default from_option Datatypes.id] in E.
           destruct (Z.leb_spec l (default 0 (uses s !! id))); injection E as <- <-; cbn [limit uses is_ok];
             rewrite El; [lia|]. rewrite lookup_insert_eq. cbn [default from_option Datatypes.id]. unfold in_i64 in *.
           rewrite wrap_i64_id by (unfold in_i64; lia). lia.
        -- rewrite lookup_insert_eq, Hid in E. cbn [default from_option Datatypes.id] in E.
           destruct (Z.leb_spec m 0); [lia|]. injection E as <- <-. cbn [limit uses is_ok].
           rewrite !lookup_insert_eq. cbn [default from_option Datatypes.id]. rewrite wrap_i64_id by done. lia.
    + destruct Hother as [-> ->]; [congruence|]. by rewrite Z.add_0_l.
Qed.

(** A pairing ticket is consumed exactly as often as its limit allows: under
    any sequence of calls for any tickets, the successful ones for a ticket are
    as many as its valid calls, up to the limit its first valid call set. *)
Theorem ticket_uses_exact calls id :
  Forall (fun c => in_i64 c.2 = true) calls ->
  successes id calls (consume_all NewTicketStore calls)
  = Z.min (Z.of_nat (length (calls_for id calls)))
      (match calls_for id calls with (_, m) :: _ => m | [] => 0 end).
Proof. intros Hc. by rewrite (successes_left calls NewTicketStore id store_ok_new Hc). Qed.

Lemma ticket_uses_exact_witness :
  successes "t" [("t", 2); ("u", 1); ("t", 9); ("t", 2)]
    (consume_all NewTicketStore [("t", 2); ("u", 1); ("t", 9); ("t", 2)]) = 2.
Proof. apply ticket_uses_exact. repeat (constructor; [reflexivity|]). constructor. Defined.

(** ** Tickets and the grants they lead to *)

Section facts.
  Context {C : CryptoOps} {L : CryptoLaws C}.

Lemma PairingTicketV3_good (t : PairingTicketV3) m :
  in_i64 (p3_GrantTTLSeconds t) = true -> in_i64 (p3_MaxUses t) = true ->
  members t = Ok m -> good_members t m = true.
Proof.
  intros I1 I2. cbn [members PairingTicketV3_signed]. unfold PairingTicketV3_members, time_json. intros Hm. inv_ok.
  assert (parseable (slice_json (p3_GrantPermissions t)) = true) as Hs.
  { destruct (p3_GrantPermissions t) as [l|]; [|done]. cbn. by induction l. }
  unfold good_members. cbn [parseable]. rewrite !andb_true_iff.
  destruct (p3_GrantTTLSeconds t =? 0); cbn [omit_empty app forallb]; rewrite Hs; cbn [parseable]; rewrite I2, ?I1;
    split_and!; vm_compute; reflexivity.
Qed.

Lemma SignTicketV3_total issuer t :
  in_i64 (p3_GrantTTLSeconds t) = true -> in_i64 (p3_MaxUses t) = true ->
  representable (p3_IssuedAt t) = true -> representable (p3_ExpiresAt t) = true ->
  exists t', SignTicketV3 issuer t = Ok t'.
Proof.
  intros I1 I2 [s Hs]%time_json_total [e He]%time_json_total. unfold SignTicketV3.
  assert (exists m, members (ticketV3_to_sign t) = Ok m) as [m Hm].
  { cbn [members PairingTicketV3_signed]. unfold PairingTicketV3_members.
    cbn [ticketV3_to_sign p3_IssuedAt p3_ExpiresAt]. rewrite Hs, He. by eexists. }
  destruct (signatureInput_total TypePairingTicketV3 _ m Hm (PairingTicketV3_good (ticketV3_to_sign t) m I1 I2 Hm)) as [o Ho].
  by apply (sign_object_total _ _ _ _ _ Ho).
Qed.

Lemma SignTicket_total issuer t :
  in_i64 (pt_MaxUses t) = true -> representable (pt_IssuedAt t) = true -> representable (pt_ExpiresAt t) = true ->
  exists t', SignTicket issuer t = Ok t'.
Proof.
  intros I [s Hs]%time_json_total [e He]%time_json_total. unfold SignTicket.
  edestruct (signatureInput_total (A := PairingTicket)) as [o Ho]; [| |by apply (sign_object_total _ _ _ _ _ Ho)].
  - cbn [members PairingTicket_signed]. unfold PairingTicket_members. cbn [ticket_to_sign pt_IssuedAt pt_ExpiresAt].
    rewrite Hs, He. reflexivity.
  - unfold good_members. cbn [app ticket_to_sign pt_MaxUses parseable forallb]. rewrite I. vm_compute. reflexivity.
Qed.

(** A bundle whose raw members hold encoded values can be signed. *)
Lemma SignBundle_total issuer b v1 v2 v3 v4 :
  bu_RelayDescriptor b = Some (encode v1) -> bu_TrustRootDescriptor b = Some (encode v2) ->
  bu_AccessCredential b = Some (encode v3) -> bu_TrustGrant b = Some (encode v4) ->
  Forall (fun v => parseable v = true /\ depth v <= maxNestingDepth) [v1; v2; v3; v4] ->
  representable (bu_IssuedAt b) = true -> representable (bu_ExpiresAt b) = true ->
  exists b', SignBundle issuer b = Ok b'.
Proof.
  intros E1 E2 E3 E4 Hv [s Hs]%time_json_total [e He]%time_json_total.
  repeat (apply Forall_cons in Hv as [[? ?] Hv]). unfold SignBundle.
  edestruct (signatureInput_raw_total (A := Bundle) TypeBundle (bundle_to_sign b)) as [o Ho];
    [| | |by apply (sign_object_total _ _ _ _ _ Ho)].
  - cbn [members Bundle_signed]. unfold Bundle_members, raw_json.
    cbn [bundle_to_sign bu_RelayDescriptor bu_TrustRootDescriptor bu_AccessCredential bu_TrustGrant bu_IssuedAt bu_ExpiresAt].
    rewrite E1, E2, E3, E4, !marshal_raw_encode, Hs, He by done. reflexivity.
  - instantiate (1 := [_; _; _; _; (_, v1); (_, v2); (_, v3); _; (_, v4); _; _]).
    repeat (constructor; [done|]). constructor.
  - cbn [app parseable forallb fst]. repeat match goal with H : parseable _ = true |- _ => rewrite H end.
    vm_compute. reflexivity.
Qed.

(** What a v3 ticket must say, apart from its signature. *)
Definition ticketV3_valid (t : PairingTicketV3) (now : Time) : Prop :=
  p3_Type t = TypePairingTicketV3 /\ p3_Purpose t = PurposeInvite /\ p3_ConsumerRole t <> "" /\
  p3_GrantAudience t <> "" /\ elems (p3_GrantPermissions t) <> [] /\ 0 <= p3_GrantTTLSeconds t /\
  ns (p3_IssuedAt t) <= ns now < ns (p3_ExpiresAt t).

Lemma VerifyTicketV3_spec t issuer now :
  VerifyTicketV3 t issuer now = Ok tt <->
  ticketV3_valid t now /\
  verify_object TypePairingTicketV3 (pk_Public (di_PublicKey issuer)) t
    (New CodeProvisionInvalid "pairing ticket signature failed") = Ok tt.
Proof.
  unfold VerifyTicketV3, ticketV3_valid, Before. rewrite !guard_Ok.
  rewrite !negb_false_iff, !bool_decide_eq_true, !bool_decide_eq_false, orb_false_iff.
  rewrite negb_false_iff, !Z.ltb_ge, Z.ltb_lt. tauto.
Qed.

(** A ticket of the right direction only: a device that consumes an accepted v3
    ticket becomes the subject of a grant under its own key, for the audience,
    permissions and relay the issuer signed into the ticket, and never for
    itself; the signature covers every member of the ticket. *)
Theorem ticketV3_binds_roles t issuer consumer now b :
  in_i64 (p3_GrantTTLSeconds t) = true -> in_i64 (p3_MaxUses t) = true ->
  VerifyTicketV3 t issuer now = Ok tt -> BindGrantRoles t consumer = Ok b ->
  signed_by TypePairingTicketV3 (pk_Public (di_PublicKey issuer)) t /\
  ns (p3_IssuedAt t) <= ns now < ns (p3_ExpiresAt t) /\
  di_DomainID consumer = p3_DomainID t /\
  rb_SubjectDeviceID b = di_DeviceID consumer /\ IdentityThumbprint consumer = Ok (rb_ConfirmationThumbprint b) /\
  rb_Audience b = p3_GrantAudience t /\ rb_Audience b <> rb_SubjectDeviceID b /\
  rb_Permissions b = p3_GrantPermissions t /\ elems (rb_Permissions b) <> [] /\ rb_RelayID b = p3_RelayID t.
Proof.
  intros I1 I2 [Hv Hs]%VerifyTicketV3_spec Hb. unfold BindGrantRoles in Hb. inv_ok. bool_prop.
  destruct Hv as (_ & _ & _ & _ & Hp & _ & Ht).
  split; [exact (verify_object_signed_by TypePairingTicketV3 _ _ _ _ eq_refl
    (fun m => PairingTicketV3_good t m I1 I2) Hs)|].
  cbn [rb_SubjectDeviceID rb_ConfirmationThumbprint rb_Audience rb_Permissions rb_RelayID].
  split_and!; try done; first [tauto|congruence].
Qed.

(** Tickets, v2 and v3, and bundles are accepted by their addressee while they
    are valid: what the issuer signed verifies under the issuer's identity. *)
Theorem provisioning_objects_verify issuer now :
  device_ok issuer ->
  (forall t t', SignTicketV3 issuer t = Ok t' ->
     VerifyTicketV3 t' (dev_Identity issuer) now = Ok tt <-> ticketV3_valid (ticketV3_to_sign t) now) /\
  (forall t t', SignTicket issuer t = Ok t' ->
     VerifyTicket t' (dev_Identity issuer) now = Ok tt <-> ns (pt_IssuedAt t) <= ns now < ns (pt_ExpiresAt t)) /\
  (forall b b' channel local, SignBundle issuer b = Ok b' ->
     ApplyBundle channel local b' (dev_Identity issuer) now = Ok tt <->
     lc_Ready channel = true /\ ns (bu_IssuedAt b) <= ns now < ns (bu_ExpiresAt b) /\
     bu_IssuedToDeviceID b = di_DeviceID local /\
     IdentityThumbprint local = Ok (bu_IssuedToPublicKeyThumbprint b)).
Proof.
  intros (Hk & Hp & _). split_and!.
  - intros t t' Ht. rewrite VerifyTicketV3_spec.
    pose proof (verify_fresh_object _ _ _ _ _ _ (New CodeProvisionInvalid "pairing ticket signature failed")
      Hk Hp eq_refl Ht) as Hv.
    assert (ticketV3_valid t' now <-> ticketV3_valid (ticketV3_to_sign t) now) as Hiff
      by (unfold SignTicketV3, sign_object in Ht; by inv_ok).
    tauto.
  - intros t t' Ht.
    pose proof (verify_fresh_object _ _ _ _ _ _ (New CodeProvisionInvalid "pairing ticket signature failed")
      Hk Hp eq_refl Ht) as Hv.
    unfold VerifyTicket. rewrite !guard_Ok, Hv. unfold SignTicket, sign_object in Ht. inv_ok.
    cbn [pt_Type pt_IssuedAt pt_ExpiresAt set_signature PairingTicket_signed ticket_to_sign]. unfold Before.
    rewrite negb_false_iff, bool_decide_eq_true, orb_false_iff, negb_false_iff, Z.ltb_ge, Z.ltb_lt. naive_solver.
  - intros b b' channel local Hb.
    pose proof (verify_fresh_object _ _ _ _ _ _ (New CodeProvisionInvalid "bundle signature failed")
      Hk Hp eq_refl Hb) as Hv.
    unfold ApplyBundle. rewrite !guard_Ok, bind_Ok. setoid_rewrite guard_Ok. rewrite Hv.
    unfold SignBundle, sign_object in Hb. inv_ok.
    cbn [bu_IssuedAt bu_ExpiresAt bu_IssuedToDeviceID bu_IssuedToPublicKeyThumbprint set_signature Bundle_signed
      Bundle_set_signature bundle_to_sign]. unfold Before.
    rewrite !negb_false_iff, bool_decide_eq_true, orb_false_iff, negb_false_iff, Z.ltb_ge, Z.ltb_lt.
    setoid_rewrite negb_false_iff. setoid_rewrite bool_decide_eq_true. naive_solver.
Qed.

(** The local channel is always established from a working random source, with a
    key that depends on the out-of-band secret through the key derivation and a
    transcript code under that key; the key-mismatch branch is never taken. *)
Theorem EstablishLocalChannel_total rand oob :
  (64 <= length rand)%nat ->
  exists ch secret transcript,
    EstablishLocalChannel rand oob = (Ok ch, drop 64 rand) /\ lc_Ready ch = true /\
    hkdf_sha256 secret oob transcript 32 = Some (lc_Key ch) /\ length (lc_Key ch) = 32%nat /\
    lc_TranscriptMAC ch = HMACSHA256 (lc_Key ch) transcript.
Proof.
  intros Hr. unfold EstablishLocalChannel.
  destruct (GenerateSessionKey_total rand ltac:(lia)) as (ka & pa & Ea & La).
  destruct (GenerateSessionKey_total (drop 32 rand)) as (kb & pb & Eb & Lb); [rewrite length_drop; lia|].
  rewrite Ea, Eb. rewrite (SharedSecret_agree _ _ _ _ _ _ _ _ Eb Ea).
  destruct (honest_secret _ _ _ _ _ _ _ _ Ea Eb) as [_ [secret ->]]. run.
  rewrite bool_decide_true by done. run.
  set (transcript := go_bytes "iscp/v2/provisioning/local-channel" ++ xpub pa ++ xpub pb).
  unfold HKDF. destruct (hkdf_total secret oob transcript 32) as (k & E & Hk); [lia|]. rewrite E. run.
  eexists _, secret, transcript. rewrite drop_drop. split_and!; [reflexivity|reflexivity|exact E|exact Hk|reflexivity].
Qed.

End facts.

(** ** Concrete tickets *)

Import ToyCrypto.

Definition toy_ticket : PairingTicketV3 :=
  mkPairingTicketV3 "" "t1" "dom" "r1" "root" PurposeInvite "agent" "controller" (Some ["publish"]) 600 1 t0
    (Add t0 Hour) noSignature.

Definition toy_signed_ticket : PairingTicketV3 :=
  match SignTicketV3 (toy_device x07 "root") toy_ticket with Ok t => t | Err _ => toy_ticket end.

Definition toy_bindings : GrantRoleBindings :=
  match BindGrantRoles toy_signed_ticket (dev_Identity (toy_device x01 "alice")) with
  | Ok b => b
  | Err _ => mkGrantRoleBindings "" "" "" None ""
  end.

Lemma ticketV3_binds_roles_witness : rb_SubjectDeviceID toy_bindings = "alice" /\ rb_Audience toy_bindings = "controller".
Proof.
  destruct (ticketV3_binds_roles toy_signed_ticket (dev_Identity (toy_device x07 "root"))
    (dev_Identity (toy_device x01 "alice")) (Add t0 Minute) toy_bindings)
    as (_ & _ & _ & H1 & _ & H2 & _); try (vm_compute; reflexivity).
  split; [exact H1|exact H2].
Defined.

Lemma provisioning_objects_verify_witness :
  VerifyTicketV3 toy_signed_ticket (dev_Identity (toy_device x07 "root")) (Add t0 Minute) = Ok tt.
Proof.
  apply (proj1 (provisioning_objects_verify (toy_device x07 "root") (Add t0 Minute)
    (toy_device_ok x07 "root")) toy_ticket toy_signed_ticket).
  - vm_compute. reflexivity.
  - unfold ticketV3_valid. split_and!; vm_compute; (reflexivity || discriminate).
Defined.

Lemma EstablishLocalChannel_total_witness :
  exists ch secret transcript,
    EstablishLocalChannel (replicate 70 x33) (go_bytes "pin") = (Ok ch, drop 64 (replicate 70 x33)) /\
    lc_Ready ch = true /\ hkdf_sha256 secret (go_bytes "pin") transcript 32 = Some (lc_Key ch) /\
    length (lc_Key ch) = 32%nat /\ lc_TranscriptMAC ch = HMACSHA256 (lc_Key ch) transcript.
Proof. apply EstablishLocalChannel_total. rewrite length_replicate. lia. Defined.
