(* ===== verification/GoStrings.v ===== *)
(** * strings: the functions of Go's [strings] package the program uses *)
From Stdlib Require Import ZArith Lia Strings.Byte.
From stdpp Require Import numbers strings base list.
From S2P Require Import Prelude Utf8.
Open Scope Z_scope.

(** [unicode.IsSpace]. *)
Definition is_unicode_space (r : Z) : bool :=
  ((9 <=? r) && (r <=? 13)) || (r =? 32) || (r =? 0x85) || (r =? 0xa0) || (r =? 0x1680) ||
  ((0x2000 <=? r) && (r <=? 0x200a)) || (r =? 0x2028) || (r =? 0x2029) || (r =? 0x202f) || (r =? 0x205f) ||
  (r =? 0x3000).

Fixpoint drop_spaces (l : list (Z * bytes)) : list (Z * bytes) :=
  match l with
  | p :: l' => if is_unicode_space p.1 && negb (bad_rune p) then drop_spaces l' else l
  | [] => []
  end.

Definition TrimSpace (s : string) : string :=
  go_string (flat_map snd (rev (drop_spaces (rev (drop_spaces (runes (go_bytes s))))))).

Fixpoint has_prefix (p s : bytes) : bool :=
  match p, s with
  | [], _ => true
  | a :: p, b :: s => bool_decide (a = b) && has_prefix p s
  | _, [] => false
  end.

Definition HasPrefix (s p : string) : bool := has_prefix (go_bytes p) (go_bytes s).

(** [strings.TrimPrefix]. *)
Definition TrimPrefix (s p : string) : string :=
  if HasPrefix s p then go_string (drop (length (go_bytes p)) (go_bytes s)) else s.

Fixpoint contains_bytes (sub s : bytes) : bool :=
  has_prefix sub s || match s with [] => false | _ :: s => contains_bytes sub s end.

(** [strings.Contains]. *)
Definition Contains (s sub : string) : bool := contains_bytes (go_bytes sub) (go_bytes s).

(** [strings.ContainsAny] for a set of ASCII characters. *)
Definition ContainsAny (s chars : string) : bool :=
  existsb (fun b => bool_decide (b ∈ go_bytes chars)) (go_bytes s).

(** [unicode.ToLower] as far as a search for ASCII text can see it: the ASCII
    letters, and the two other runes whose lower case is ASCII (U+0130 and
    U+212A); every other rune stays outside ASCII. *)
Definition lower_rune (p : Z * bytes) : bytes :=
  if (65 <=? p.1) && (p.1 <=? 90) then [z2b (p.1 + 32)]
  else if p.1 =? 0x130 then [z2b 105]
  else if p.1 =? 0x212a then [z2b 107]
  else p.2.

Definition ToLower (s : string) : string := go_string (flat_map lower_rune (runes (go_bytes s))).

(** [strings.ToUpper] of ASCII text. *)
Definition ToUpper (s : string) : string :=
  go_string (map (fun b => if (97 <=? b2z b) && (b2z b <=? 122) then z2b (b2z b - 32) else b) (go_bytes s)).

(** [strings.EqualFold] against lower-case ASCII text. *)
Definition EqualFold (s lower : string) : bool := bool_decide (ToLower s = lower).

(** [strings.Join]. *)
Fixpoint Join (l : list string) (sep : string) : string :=
  match l with
  | [] => ""
  | [x] => x
  | x :: l => x +:+ sep +:+ Join l sep
  end.

(** The text before and after the first occurrence of a byte. *)
Fixpoint cut_byte (c : byte) (s : bytes) : option (bytes * bytes) :=
  match s with
  | [] => None
  | b :: s =>
      if bool_decide (b = c) then Some ([], s)
      else match cut_byte c s with Some (x, y) => Some (b :: x, y) | None => None end
  end.

(** [strings.Split] on a one-byte separator. *)
Fixpoint split_bytes (c : byte) (s : bytes) : list bytes :=
  match s with
  | [] => [[]]
  | b :: s =>
      if bool_decide (b = c) then [] :: split_bytes c s
      else match split_bytes c s with x :: xs => (b :: x) :: xs | [] => [[b]] end
  end.

Definition Split (s : string) (c : byte) : list string := map go_string (split_bytes c (go_bytes s)).

Example TrimSpace_ideographic :
  TrimSpace (go_string ([xe3; x80; x80] ++ go_bytes " a b " ++ [xc2; x85])) = "a b".
Proof. vm_compute. reflexivity. Qed.

Example Contains_kelvin : Contains (ToLower (go_string ([xe2; x84; xaa] ++ go_bytes "EY"))) "key" = true.
Proof. vm_compute. reflexivity. Qed.

(** ** Lemmas *)

Lemma contains_bytes_elem sub s c : contains_bytes sub s = true -> c ∈ sub -> c ∈ s.
Proof.
  assert (forall s, has_prefix sub s = true -> c ∈ sub -> c ∈ s) as Hp.
  { induction sub as [|a sub IH]; intros [|b s']; cbn [has_prefix]; try done; try by intros _ []%not_elem_of_nil.
    intros E. bool_prop. rewrite !elem_of_cons. intros [->|Hc]; [by left|right; auto]. }
  induction s as [|b s IH]; cbn [contains_bytes]; intros [E|E]%orb_true_iff Hc; try discriminate; try by apply Hp.
  apply elem_of_cons. right. by apply IH.
Qed.

Lemma contains_bytes_app a b c : contains_bytes b (a ++ b ++ c) = true.
Proof.
  assert (has_prefix b (b ++ c) = true) as H.
  { induction b as [|x b IH]; cbn; [done|]. rewrite bool_decide_true by done. exact IH. }
  induction a as [|x a IH]; cbn [app].
  - destruct (b ++ c); cbn [contains_bytes]; by rewrite H.
  - cbn [contains_bytes]. rewrite IH. apply orb_true_r.
Qed.

(** Text that starts with a visible ASCII character is not blank. *)
Lemma TrimSpace_visible b s : 33 <= b2z b < 128 -> TrimSpace (go_string (b :: s)) <> "".
Proof.
  intros Hb. unfold TrimSpace. rewrite go_bytes_string.
  assert (runes (b :: s) = (b2z b, [b]) :: runes s) as ->.
  { unfold runes. cbn [length runes_go decode_rune]. replace (b2z b <? 128) with true by lia. reflexivity. }
  assert (is_unicode_space (b2z b) = false) as Hsp by (unfold is_unicode_space; lia).
  cbn [drop_spaces fst]. rewrite Hsp. cbn [andb rev].
  assert (forall l, exists l', drop_spaces (l ++ [(b2z b, [b])]) = l' ++ [(b2z b, [b])]) as Hd.
  { induction l as [|p l [l' IH]]; cbn [app drop_spaces fst].
    - rewrite Hsp. by exists [].
    - destruct (_ && _); [by exists l'|by exists (p :: l)]. }
  destruct (Hd (rev (runes s))) as [l' ->]. rewrite rev_app_distr. cbn. done.
Qed.
