(* ===== verification/Config.v ===== *)
(** * Config: [pkg/iscp/config/config.go]

    The security gate of a deployment profile.  The environment variable
    [ISCP_PROFILE] is an argument. *)
From stdpp Require Import strings base list.
From S2P Require Import Prelude Errors GoStrings.

Abbreviation Profile := string.

Definition ProfileProduction : Profile := "production".
Definition ProfileStaging : Profile := "staging".
Definition ProfileLocalLab : Profile := "local-lab".

Record Gate := mkGate {
  gt_Profile : Profile;
  gt_AllowUnsignedDescriptor : bool;
  gt_AllowBearerOnlyAccess : bool;
  gt_AllowPlaintextDebug : bool;
  gt_AllowDebugSecrets : bool;
  gt_RequireSignedDescriptors : bool;
  gt_RequireProofOfPossession : bool;
  gt_RequireSessionReadyBefore : bool
}.

Definition DefaultGate (profile : Profile) : Gate :=
  mkGate profile false false false false (negb (bool_decide (profile = ProfileLocalLab))) true true.

Definition LoadProfileFromEnv (env : string) (defaultProfile : Profile) : Profile :=
  let value := TrimSpace env in
  if bool_decide (value = "") then defaultProfile else value.

Definition ValidateGate (g : Gate) : result unit :=
  if bool_decide (gt_Profile g = ProfileProduction) || bool_decide (gt_Profile g = ProfileStaging) then
    _ ← reject_if (gt_AllowUnsignedDescriptor g) (New CodeConfigInvalid "profile forbids unsigned descriptors");
    _ ← reject_if (gt_AllowBearerOnlyAccess g) (New CodeConfigInvalid "profile forbids bearer-only relay access");
    reject_if (gt_AllowPlaintextDebug g || gt_AllowDebugSecrets g)
      (New CodeConfigInvalid "profile forbids plaintext debug secrets")
  else if bool_decide (gt_Profile g = ProfileLocalLab) then
    reject_if (gt_AllowPlaintextDebug g && negb (gt_AllowDebugSecrets g))
      (New CodeConfigInvalid "plaintext debug requires allow_debug_secrets")
  else Err (New CodeConfigInvalid "unknown profile").

(** ** Facts *)

(** A gate that allows nothing a hardened profile forbids. *)
Definition hardened (g : Gate) : Prop :=
  gt_AllowUnsignedDescriptor g = false /\ gt_AllowBearerOnlyAccess g = false /\
  gt_AllowPlaintextDebug g = false /\ gt_AllowDebugSecrets g = false.

Lemma ValidateGate_hardened g :
  gt_Profile g <> ProfileLocalLab -> ValidateGate g = Ok tt ->
  (gt_Profile g = ProfileProduction \/ gt_Profile g = ProfileStaging) /\ hardened g.
Proof.
  unfold ValidateGate, hardened. intros Hp Hv.
  destruct (_ || _) eqn:E.
  - inv_ok. bool_prop. split; [|done]. apply orb_true_iff in E as [E|E]; bool_prop; tauto.
  - destruct (bool_decide_reflect (gt_Profile g = ProfileLocalLab)); done.
Qed.

(** The three known profiles' default gates are valid, and a valid gate outside
    the local lab allows no unsigned descriptor, no bearer-only access and no
    debug output; any other profile name is refused. *)
Theorem ValidateGate_profiles :
  (forall p, p ∈ [ProfileProduction; ProfileStaging; ProfileLocalLab] <-> ValidateGate (DefaultGate p) = Ok tt) /\
  (forall g, gt_Profile g <> ProfileLocalLab -> ValidateGate g = Ok tt ->
     (gt_Profile g = ProfileProduction \/ gt_Profile g = ProfileStaging) /\ hardened g).
Proof.
  split; [|apply ValidateGate_hardened]. intros p. split.
  - intros [->|[->|[->|[]%elem_of_nil]%elem_of_cons]%elem_of_cons]%elem_of_cons; vm_compute; reflexivity.
  - unfold ValidateGate. cbn [DefaultGate gt_Profile]. intros H.
    destruct (bool_decide_reflect (p = ProfileProduction)), (bool_decide_reflect (p = ProfileStaging)),
      (bool_decide_reflect (p = ProfileLocalLab)); try done; rewrite !elem_of_cons; tauto.
Qed.
