(* ===== verification/Recovery.v ===== *)
(** * Credential recovery: [pkg/iscp/recovery/recovery.go]

    The sealed block in which a relay returns credentials to a device that has
    lost them: encrypted to the device's wrap key, with a transcript that names
    the device and its enrolled key. *)
From Stdlib Require Import ZArith Lia Strings.Byte.
From stdpp Require Import numbers strings base list.
From S2P Require Import Prelude Errors Canonical CanonicalProps Base64 Sha256 Crypto Signed.
Open Scope Z_scope.

Definition TypeWrappedCredentials : string := "iscp.relay.credential_recovery.wrapped.v2".
Definition TranscriptLabel : string := "iscp/v2/relay/credential-recovery".

Record WrappedCredentials := mkWrappedCredentials {
  wc_Type : string;
  wc_Ciphersuite : string;
  wc_RecoveryPublicKey : string;
  wc_ServerPublicKey : string;
  wc_Nonce : string;
  wc_Ciphertext : string
}.

Definition NUL : string := go_string [x00].

Definition Challenge (idempotencyKey wrapPublicKey : string) : string :=
  idempotencyKey +:+ NUL +:+ wrapPublicKey.

Definition Transcript (domainID deviceID thumbprint : string) : bytes :=
  go_bytes (TranscriptLabel +:+ NUL +:+ domainID +:+ NUL +:+ deviceID +:+ NUL +:+ thumbprint).

Section recovery.
  Context {C : CryptoOps}.

Definition deriveKey (secret transcript clientPub serverPub : bytes) : result bytes :=
  HKDF secret [] (transcript ++ clientPub ++ serverPub) 32.

(** [recovery.Seal]; [nonce] is what [RandomBytes(12)] returns. *)
Definition RecoverySeal (rand : reader) (nonce : bytes) (wrapPublicKey : string) (transcript plaintext : bytes)
    : result WrappedCredentials * reader :=
  match DecodeBase64URL wrapPublicKey with
  | Err _ => (Err (New CodeKeyInvalid "recovery wrap key is not valid base64url"), rand)
  | Ok clientPubBytes =>
      match X25519PublicKeyFromBytes clientPubBytes with
      | Err err => (Err err, rand)
      | Ok clientPub =>
          match GenerateSessionKey rand with
          | (Err err, rand) => (Err err, rand)
          | (Ok (serverPriv, serverPub), rand) =>
              (secret ← SharedSecret serverPriv clientPub;
               key ← deriveKey secret transcript (xpub clientPub) (xpub serverPub);
               ciphertext ← Seal key nonce plaintext transcript;
               Ok (mkWrappedCredentials TypeWrappedCredentials CiphersuiteV2 wrapPublicKey
                     (Base64URL (xpub serverPub)) (Base64URL nonce) (Base64URL ciphertext)), rand)
          end
      end
  end.

(** [recovery.Open]. *)
Definition RecoveryOpen (wrapped : WrappedCredentials) (wrapPriv : X25519PrivateKey) (wrapPublicKey : string)
    (transcript : bytes) : result bytes :=
  _ ← reject_if (negb (bool_decide (wc_Type wrapped = TypeWrappedCredentials)))
        (New CodeSchemaInvalid "unexpected wrapped credential type");
  _ ← reject_if (negb (bool_decide (wc_Ciphersuite wrapped = CiphersuiteV2)))
        (New CodeSchemaInvalid "unsupported wrapped credential ciphersuite");
  _ ← reject_if (negb (bool_decide (wc_RecoveryPublicKey wrapped = wrapPublicKey)))
        (New CodeKeyInvalid "wrapped credential recovery key mismatch");
  serverPubBytes ← DecodeBase64URL (wc_ServerPublicKey wrapped);
  serverPub ← X25519PublicKeyFromBytes serverPubBytes;
  clientPubBytes ← DecodeBase64URL wrapPublicKey;
  secret ← SharedSecret wrapPriv serverPub;
  key ← deriveKey secret transcript clientPubBytes serverPubBytes;
  nonce ← DecodeBase64URL (wc_Nonce wrapped);
  ciphertext ← DecodeBase64URL (wc_Ciphertext wrapped);
  Open key nonce ciphertext transcript.

End recovery.

(** ** Names separated by NUL bytes *)

Lemma no_nul_app_nul s : no_nul s = true -> existsb (fun c => bool_decide (c = x00)) (go_bytes s) = false.
Proof. unfold no_nul. by rewrite negb_true_iff. Qed.

Lemma Transcript_bytes d i t :
  Transcript d i t = go_bytes TranscriptLabel ++ [x00] ++ go_bytes d ++ [x00] ++ go_bytes i ++ [x00] ++ go_bytes t.
Proof. unfold Transcript, NUL. by rewrite !go_bytes_app, !go_bytes_string. Qed.

(** The transcript of a sealed block names one device: for identifiers without
    NUL bytes, equal transcripts come from the same domain, device and key; and a
    recovery challenge determines the attempt and the key it delivers to. *)
Theorem recovery_names_injective :
  (forall d i t d' i' t', no_nul d = true -> no_nul d' = true -> no_nul i = true -> no_nul i' = true ->
     Transcript d i t = Transcript d' i' t' -> d = d' /\ i = i' /\ t = t') /\
  (forall k w k' w', no_nul k = true -> no_nul k' = true -> Challenge k w = Challenge k' w' -> k = k' /\ w = w').
Proof.
  split.
  - intros d i t d' i' t' Hd Hd' Hi Hi'. rewrite !Transcript_bytes. intros H%(inj (app _)).
    apply (inj (app _)) in H. apply split_nul in H as [E1%(inj go_bytes) H]; [|by apply no_nul_app_nul..].
    apply split_nul in H as [E2%(inj go_bytes) E3%(inj go_bytes)]; [|by apply no_nul_app_nul..]. done.
  - intros k w k' w' Hk Hk' H. unfold Challenge, NUL in H. apply (f_equal go_bytes) in H.
    rewrite !go_bytes_app, !go_bytes_string in H.
    apply split_nul in H as [E1%(inj go_bytes) E2%(inj go_bytes)]; [|by apply no_nul_app_nul..]. done.
Qed.

Lemma recovery_names_injective_witness : "dom" = "dom" /\ "dev" = "dev" /\ "tp" = "tp".
Proof.
  apply (proj1 recovery_names_injective "dom" "dev" "tp" "dom" "dev" "tp"); vm_compute; reflexivity.
Defined.

Section facts.
  Context {C : CryptoOps} {L : CryptoLaws C}.

(** Recovery delivers: what the relay seals to a wrap key the device generated,
    the device opens with the matching private key and the same transcript; and
    sealing never fails for a well-formed wrap key and a working random source. *)
Theorem recovery_roundtrip rc rs rc' k p nonce transcript m :
  GenerateSessionKey rc = (Ok (k, p), rc') -> (32 <= length rs)%nat -> length nonce = 12%nat ->
  exists w, RecoverySeal rs nonce (Base64URL (xpub p)) transcript m = (Ok w, drop 32 rs) /\
            RecoveryOpen w k (Base64URL (xpub p)) transcript = Ok m.
Proof.
  intros Hc Hr Hn. unfold RecoverySeal. rewrite DecodeBase64URL_Base64URL.
  destruct (GenerateSessionKey_total rs Hr) as (ks & ps & Hs & Ls).
  destruct (honest_secret _ _ _ _ _ _ _ _ Hs Hc) as [Lp [secret Hsec]].
  pose proof (SharedSecret_agree _ _ _ _ _ _ _ _ Hs Hc) as Hagree.
  unfold X25519PublicKeyFromBytes. rewrite Lp. cbn [Nat.eqb]. rewrite Hs.
  replace (mkXPub (xpub p)) with p by by destruct p. rewrite Hsec. run. unfold deriveKey, HKDF.
  destruct (hkdf_total secret [] (transcript ++ xpub p ++ xpub ps) 32) as (key & Hk & Lk); [lia|].
  rewrite Hk. run. destruct (Seal key nonce m transcript) as [ct|] eqn:Hseal.
  2: { unfold Seal in Hseal. by rewrite (proj2 (new_aead_Ok key nonce tt)) in Hseal. }
  run. eexists. split; [reflexivity|].
  unfold RecoveryOpen.
  cbn [wc_Type wc_Ciphersuite wc_RecoveryPublicKey wc_ServerPublicKey wc_Nonce wc_Ciphertext].
  rewrite !bool_decide_true by done. run. rewrite !DecodeBase64URL_Base64URL. run.
  unfold X25519PublicKeyFromBytes. rewrite Ls. cbn [Nat.eqb]. run.
  replace (mkXPub (xpub ps)) with ps by by destruct ps.
  rewrite <- Hagree, Hsec. run. unfold deriveKey, HKDF. rewrite Hk. run. by apply Open_Seal.
Qed.

(** A block opens only for the key and transcript it was sealed for: acceptance
    means the ciphertext is the seal of the plaintext under the key derived from
    this very transcript and both public keys. *)
Theorem RecoveryOpen_sound w k pub transcript m :
  RecoveryOpen w k pub transcript = Ok m ->
  wc_RecoveryPublicKey w = pub /\
  exists serverPub clientPub secret key nonce ct,
    DecodeBase64URL (wc_ServerPublicKey w) = Ok serverPub /\ DecodeBase64URL pub = Ok clientPub /\
    x25519 (xpriv k) serverPub = Some secret /\
    hkdf_sha256 secret [] (transcript ++ clientPub ++ serverPub) 32 = Some key /\
    DecodeBase64URL (wc_Nonce w) = Ok nonce /\ DecodeBase64URL (wc_Ciphertext w) = Ok ct /\
    Seal key nonce m transcript = Ok ct.
Proof.
  unfold RecoveryOpen, X25519PublicKeyFromBytes, SharedSecret, deriveKey, HKDF. intros Ho. inv_ok. bool_prop.
  repeat match goal with H : match ?x with Some _ => _ | None => _ end = Ok _ |- _ =>
    destruct x eqn:?; [injection H as H; subst|discriminate H] end.
  split; [done|]. do 6 eexists. split_and!; try eassumption. by apply Open_Ok.
Qed.

End facts.

Import ToyCrypto.

Definition toy_wrap : X25519PrivateKey * X25519PublicKey :=
  match (GenerateSessionKey (replicate 32 x44)).1 with Ok p => p | Err _ => (mkXPriv [], mkXPub []) end.

Definition toy_wrapped : WrappedCredentials :=
  match (RecoverySeal (replicate 32 x55) (replicate 12 x01) (Base64URL (xpub toy_wrap.2))
           (Transcript "dom" "dev" "tp") (go_bytes "token")).1 with
  | Ok w => w
  | Err _ => mkWrappedCredentials "" "" "" "" "" ""
  end.

Lemma recovery_roundtrip_witness :
  exists w, RecoverySeal (replicate 32 x55) (replicate 12 x01) (Base64URL (xpub toy_wrap.2))
              (Transcript "dom" "dev" "tp") (go_bytes "token") = (Ok w, drop 32 (replicate 32 x55)) /\
            RecoveryOpen w toy_wrap.1 (Base64URL (xpub toy_wrap.2)) (Transcript "dom" "dev" "tp") = Ok (go_bytes "token").
Proof.
  apply (recovery_roundtrip (replicate 32 x44) (replicate 32 x55) [] toy_wrap.1 toy_wrap.2);
    [vm_compute; reflexivity|rewrite length_replicate; lia|reflexivity].
Defined.

Lemma RecoveryOpen_sound_witness : wc_RecoveryPublicKey toy_wrapped = Base64URL (xpub toy_wrap.2).
Proof.
  apply (RecoveryOpen_sound toy_wrapped toy_wrap.1 (Base64URL (xpub toy_wrap.2)) (Transcript "dom" "dev" "tp")
    (go_bytes "token")).
  vm_compute. reflexivity.
Defined.
