(* ===== verification/Descriptor.v ===== *)
(** * Signed descriptors: [pkg/iscp/descriptor/descriptor.go]

    Relay and trust-root descriptors inside a signed wrapper, and the pin of a
    descriptor.  [Verify] reads the expiry out of the embedded JSON text with
    [json.Unmarshal]; that decoding is the argument [unmarshal_expires]. *)
From Stdlib Require Import ZArith Lia Strings.Byte.
From stdpp Require Import sorting numbers gmap strings base list.
From S2P Require Import Prelude Errors Utf8 GoJson RawFacts Canonical CanonicalProps GoTime Sha256 Crypto Signed Identity.
From S2P Require Import GoStrings Config Provisioning.
Open Scope Z_scope.

Definition TypeSignedDescriptor : string := "iscp.signed_descriptor.v2".
Definition TypeRelayDescriptor : string := "iscp.relay.descriptor.v2".
Definition TypeTrustRootDescriptor : string := "iscp.trust_root.descriptor.v2".

Record DescriptorKey := mkDescriptorKey {
  dk_KTY : string; dk_Use : string; dk_KID : string; dk_Public : string; dk_State : string }.

Record RelayDescriptor := mkRelayDescriptor {
  rdesc_Type : string;
  rdesc_RelayID : string;
  rdesc_DomainID : string;
  rdesc_BaseURL : string;
  rdesc_WebSocketURL : string;
  rdesc_SigningKeys : option (list DescriptorKey);
  rdesc_IssuedAt : Time;
  rdesc_ExpiresAt : Time;
  rdesc_Metadata : gmap string string
}.

Record TrustRootDescriptor := mkTrustRootDescriptor {
  tdesc_Type : string;
  tdesc_TrustRootID : string;
  tdesc_DomainID : string;
  tdesc_BaseURL : string;
  tdesc_Keys : option (list DescriptorKey);
  tdesc_IssuedAt : Time;
  tdesc_ExpiresAt : Time;
  tdesc_Metadata : gmap string string
}.

Record SignedDescriptor := mkSignedDescriptor {
  sd_Type : string;
  sd_DescriptorType : string;
  sd_Descriptor : option bytes;
  sd_SignedBy : string;
  sd_SignedAt : Time;
  sd_Signature : Signature
}.

Definition DescriptorKey_json (k : DescriptorKey) : Value :=
  JObj ([("kty", JStr (dk_KTY k)); ("use", JStr (dk_Use k)); ("kid", JStr (dk_KID k)); ("public", JStr (dk_Public k))]
        ++ omit_empty (bool_decide (dk_State k = "")) "state" (JStr (dk_State k))).

Definition keys_json (ks : option (list DescriptorKey)) : Value :=
  match ks with
  | None => JNull
  | Some l => JArr (map DescriptorKey_json l)
  end.

(** A [map[string]string]: members in key order. *)
Definition map_json (m : gmap string string) : Value :=
  JObj (merge_sort key_le (map (fun p => (p.1, JStr p.2)) (map_to_list m))).

(** [json.Marshal] of an identity. *)
Definition DeviceIdentity_json (id : DeviceIdentity) : result Value :=
  created ← time_json (di_CreatedAt id);
  let k := di_PublicKey id in
  Ok (JObj ([("type", JStr (di_Type id)); ("domain_id", JStr (di_DomainID id)); ("device_id", JStr (di_DeviceID id));
             ("public_key", JObj [("kty", JStr (pk_KTY k)); ("use", JStr (pk_Use k)); ("kid", JStr (pk_KID k));
                                  ("public", JStr (pk_Public k))]);
             ("created_at", created)] ++
            omit_empty (bool_decide (di_Metadata id = ∅)) "metadata" (map_json (di_Metadata id)))).

Definition RelayDescriptor_json (d : RelayDescriptor) : result Value :=
  issued ← time_json (rdesc_IssuedAt d);
  expires ← time_json (rdesc_ExpiresAt d);
  Ok (JObj ([("type", JStr (rdesc_Type d)); ("relay_id", JStr (rdesc_RelayID d)); ("domain_id", JStr (rdesc_DomainID d));
             ("base_url", JStr (rdesc_BaseURL d)); ("websocket_url", JStr (rdesc_WebSocketURL d));
             ("signing_keys", keys_json (rdesc_SigningKeys d)); ("issued_at", issued); ("expires_at", expires)] ++
            omit_empty (bool_decide (rdesc_Metadata d = ∅)) "metadata" (map_json (rdesc_Metadata d)))).

Definition TrustRootDescriptor_json (d : TrustRootDescriptor) : result Value :=
  issued ← time_json (tdesc_IssuedAt d);
  expires ← time_json (tdesc_ExpiresAt d);
  Ok (JObj ([("type", JStr (tdesc_Type d)); ("trust_root_id", JStr (tdesc_TrustRootID d));
             ("domain_id", JStr (tdesc_DomainID d)); ("base_url", JStr (tdesc_BaseURL d));
             ("keys", keys_json (tdesc_Keys d)); ("issued_at", issued); ("expires_at", expires)] ++
            omit_empty (bool_decide (tdesc_Metadata d = ∅)) "metadata" (map_json (tdesc_Metadata d)))).

Definition SignedDescriptor_members (s : SignedDescriptor) : result (list (string * Value)) :=
  raw ← raw_json (sd_Descriptor s);
  signedAt ← time_json (sd_SignedAt s);
  Ok [("type", JStr (sd_Type s)); ("descriptor_type", JStr (sd_DescriptorType s)); ("descriptor", raw);
      ("signed_by", JStr (sd_SignedBy s)); ("signed_at", signedAt)].

#[export] Instance SignedDescriptor_signed : Signed SignedDescriptor := {
  signature_of := sd_Signature;
  set_signature s d :=
    mkSignedDescriptor (sd_Type d) (sd_DescriptorType d) (sd_Descriptor d) (sd_SignedBy d) (sd_SignedAt d) s;
  members := SignedDescriptor_members
}.

#[export] Instance SignedDescriptor_laws : SignedLaws SignedDescriptor.
Proof. split; intros; by destruct a. Qed.

(** [descriptor.Pin]. *)
Definition Pin (sd : SignedDescriptor) : result string :=
  canon ← Marshal (default [] (sd_Descriptor sd));
  Ok (Base64URL (SHA256 canon)).

Section descriptor.
  Context {C : CryptoOps}.

(** [descriptor.Sign]; [descriptor] is the JSON value of the struct, an error when
    it cannot be marshalled. *)
Definition SignDescriptor (signer : Device) (descriptorType : string) (descriptor : result Value) (now : Time)
    : result SignedDescriptor :=
  raw ← descriptor;
  sign_object TypeSignedDescriptor (dev_Private signer) (pk_KID (di_PublicKey (dev_Identity signer)))
    (mkSignedDescriptor TypeSignedDescriptor descriptorType (Some (encode raw)) (di_DeviceID (dev_Identity signer))
       (UTC now) noSignature).

(** [descriptor.Verify]. *)
Definition VerifyDescriptor (unmarshal_expires : bytes -> result Time) (sd : SignedDescriptor)
    (signer : DeviceIdentity) (gate : Gate) (now : Time) : result unit :=
  _ ← ValidateGate gate;
  if bool_decide (sig_Value (sd_Signature sd) = "") then
    reject_if (gt_RequireSignedDescriptors gate || negb (gt_AllowUnsignedDescriptor gate))
      (New CodeSignatureInvalid "unsigned descriptor rejected")
  else
    _ ← verify_object TypeSignedDescriptor (pk_Public (di_PublicKey signer)) sd
          (New CodeSignatureInvalid "descriptor signature verification failed");
    if bool_decide (sd_DescriptorType sd = TypeRelayDescriptor) ||
       bool_decide (sd_DescriptorType sd = TypeTrustRootDescriptor) then
      expiresAt ← unmarshal_expires (default [] (sd_Descriptor sd));
      reject_if (After now expiresAt) (New CodeSignatureInvalid "descriptor expired")
    else Err (New CodeSignatureInvalid "unsupported descriptor type").

End descriptor.

Section facts.
  Context {C : CryptoOps} {L : CryptoLaws C}.

(** Outside the local lab a descriptor is accepted only with a signature of the
    signer's key over it, for a known descriptor type and before its expiry;
    unsigned descriptors pass only in a lab gate that allows them. *)
Theorem VerifyDescriptor_sound unmarshal_expires sd signer gate now :
  VerifyDescriptor unmarshal_expires sd signer gate now = Ok tt ->
  (sig_Value (sd_Signature sd) = "" /\ gt_Profile gate = ProfileLocalLab /\ gt_AllowUnsignedDescriptor gate = true /\
   gt_RequireSignedDescriptors gate = false) \/
  (exists pub sig input expires,
    DecodeBase64URL (pk_Public (di_PublicKey signer)) = Ok pub /\
    DecodeBase64URL (sig_Value (sd_Signature sd)) = Ok sig /\
    signatureInput TypeSignedDescriptor (unsigned sd) = Ok input /\ Verify (mkEdPub pub) input sig = true /\
    sd_DescriptorType sd ∈ [TypeRelayDescriptor; TypeTrustRootDescriptor] /\
    unmarshal_expires (default [] (sd_Descriptor sd)) = Ok expires /\ ns now <= ns expires).
Proof.
  unfold VerifyDescriptor. intros Hv. inv_ok. destruct v.
  destruct (bool_decide_reflect (sig_Value (sd_Signature sd) = "")) as [Hempty|Hsig].
  - left. inv_ok. bool_prop. split_and!; try done.
    destruct (decide (gt_Profile gate = ProfileLocalLab)) as [|Hp]; [done|].
    destruct (ValidateGate_hardened gate Hp E) as [_ [? _]]. congruence.
  - right. inv_ok. match goal with H : verify_object _ _ _ _ = Ok _ |- _ =>
      apply verify_object_Ok in H as (pub & sig & input & ? & _ & ? & ? & ?) end.
    exists pub, sig, input. destruct (_ || _) eqn:Et; [|done]. inv_ok. eexists. split_and!; try eassumption.
    + apply orb_true_iff in Et. rewrite !elem_of_cons. destruct Et; bool_prop; tauto.
    + unfold After in *. lia.
Qed.

Lemma signature_text_nonempty k m : key_ok k -> Base64URL (Sign k m) <> "".
Proof.
  intros Hk E. assert (Sign k m = []) as E' by (apply Base64URL_inj; rewrite E; vm_compute; reflexivity).
  apply (f_equal length) in E'. by rewrite Sign_length in E'.
Qed.

(** A descriptor whose JSON value is acceptable can be signed. *)
Lemma SignDescriptor_total signer dtype v now :
  key_ok (dev_Private signer) -> parseable v = true -> depth v <= maxNestingDepth -> representable (UTC now) = true ->
  exists sd, SignDescriptor signer dtype (Ok v) now = Ok sd /\ sd_Descriptor sd = Some (encode v) /\
    sd_DescriptorType sd = dtype /\ sig_Value (sd_Signature sd) <> "".
Proof.
  intros Hk Hp Hd [s Hs]%time_json_total. unfold SignDescriptor. run.
  edestruct (signatureInput_raw_total TypeSignedDescriptor (mkSignedDescriptor TypeSignedDescriptor dtype (Some (encode v))
    (di_DeviceID (dev_Identity signer)) (UTC now) noSignature)) as [o Ho].
  - cbn [members SignedDescriptor_signed]. unfold SignedDescriptor_members, raw_json. cbn [sd_Descriptor sd_SignedAt].
    rewrite marshal_raw_encode, Hs by done. reflexivity.
  - instantiate (1 := [_; _; (_, v); _; _]). repeat (constructor; [done|]). constructor.
  - cbn [app parseable forallb fst]. rewrite Hp. vm_compute. reflexivity.
  - unfold sign_object. rewrite Ho. run. eexists. split; [reflexivity|]. split_and!; [done..|].
    by apply signature_text_nonempty.
Qed.

Lemma keys_json_good ks : parseable (keys_json ks) = true /\ depth (keys_json ks) <= 2.
Proof.
  destruct ks as [ks|]; [|done]. cbn [keys_json]. split.
  - cbn [parseable]. induction ks as [|k ks IH]; cbn [map forallb]; [done|]. rewrite IH.
    unfold DescriptorKey_json. by destruct (bool_decide (dk_State k = "")).
  - cbn [depth]. induction ks as [|k ks IH]; cbn [map foldr]; [lia|].
    assert (depth (DescriptorKey_json k) = 1) as ->
      by (unfold DescriptorKey_json; by destruct (bool_decide (dk_State k = ""))). lia.
Qed.

Lemma RelayDescriptor_json_good d :
  rdesc_Metadata d = ∅ -> representable (rdesc_IssuedAt d) = true -> representable (rdesc_ExpiresAt d) = true ->
  exists v, RelayDescriptor_json d = Ok v /\ parseable v = true /\ depth v <= maxNestingDepth.
Proof.
  intros Hm [i Hi]%time_json_total [e He]%time_json_total. unfold RelayDescriptor_json. rewrite Hi, He, Hm. run.
  eexists. split; [reflexivity|]. destruct (keys_json_good (rdesc_SigningKeys d)) as [Hp Hd].
  rewrite bool_decide_true by done. cbn [omit_empty app parseable forallb depth map foldr]. rewrite Hp. split.
  - vm_compute. reflexivity.
  - unfold maxNestingDepth. lia.
Qed.

(** A signed descriptor is accepted by every valid gate until it expires. *)
Theorem SignDescriptor_VerifyDescriptor unmarshal_expires signer dtype d now now' gate sd expires :
  device_ok signer -> dtype ∈ [TypeRelayDescriptor; TypeTrustRootDescriptor] ->
  SignDescriptor signer dtype d now = Ok sd -> ValidateGate gate = Ok tt ->
  sig_Value (sd_Signature sd) <> "" ->
  unmarshal_expires (default [] (sd_Descriptor sd)) = Ok expires -> ns now' <= ns expires ->
  VerifyDescriptor unmarshal_expires sd (dev_Identity signer) gate now' = Ok tt.
Proof.
  intros (Hk & Hp & _) Ht Hs Hg Hne Hu Hnow. unfold VerifyDescriptor. rewrite Hg. run.
  rewrite bool_decide_false by done. unfold SignDescriptor in Hs. inv_ok.
  rewrite (verify_fresh_object _ _ _ _ _ _ _ Hk Hp eq_refl E0). run.
  assert (sd_DescriptorType sd = dtype) as -> by (unfold sign_object in E0; by inv_ok).
  replace (_ || _) with true.
  - rewrite Hu. run. unfold After. by replace (ns expires <? ns now') with false by lia.
  - symmetry. apply orb_true_iff. rewrite !bool_decide_eq_true. rewrite !elem_of_cons in Ht. set_solver.
Qed.

End facts.

(** A pin identifies a descriptor's content, not its formatting: re-encoding the
    descriptor canonically leaves the pin unchanged. *)
Theorem Pin_canonical t dt raw b by_ at_ sig :
  Marshal raw = Ok b ->
  Pin (mkSignedDescriptor t dt (Some raw) by_ at_ sig) = Ok (Base64URL (SHA256 b)) /\
  Pin (mkSignedDescriptor t dt (Some b) by_ at_ sig) = Ok (Base64URL (SHA256 b)).
Proof.
  intros Hm. unfold Pin. cbn [sd_Descriptor default from_option]. change (Datatypes.id ?x) with x.
  rewrite Hm, (Marshal_canonical _ _ Hm). done.
Qed.

Lemma Pin_canonical_witness :
  Pin (mkSignedDescriptor "" "" (Some (js "{ 'b':1, 'a':2 }")) "" t0 noSignature)
  = Ok (Base64URL (SHA256 (js "{'a':2,'b':1}"))).
Proof.
  apply (Pin_canonical "" "" (js "{ 'b':1, 'a':2 }") (js "{'a':2,'b':1}") "" t0 noSignature).
  vm_compute. reflexivity.
Defined.

Import ToyCrypto.

Definition toy_relay_descriptor : RelayDescriptor :=
  mkRelayDescriptor TypeRelayDescriptor "r1" "dom" "https://r" "wss://r" None t0 (Add t0 Hour) {["k" := "v"]}.

Definition toy_signed_descriptor : SignedDescriptor :=
  match SignDescriptor (toy_device x07 "root") TypeRelayDescriptor (RelayDescriptor_json toy_relay_descriptor) t0 with
  | Ok s => s
  | Err _ => mkSignedDescriptor "" "" None "" t0 noSignature
  end.

Definition toy_unmarshal (b : bytes) : result Time := Ok (Add t0 Hour).

Lemma SignDescriptor_VerifyDescriptor_witness :
  VerifyDescriptor toy_unmarshal toy_signed_descriptor (dev_Identity (toy_device x07 "root"))
    (DefaultGate ProfileProduction) (Add t0 Minute) = Ok tt.
Proof.
  apply (SignDescriptor_VerifyDescriptor toy_unmarshal (toy_device x07 "root") TypeRelayDescriptor
    (RelayDescriptor_json toy_relay_descriptor) t0 (Add t0 Minute) _ toy_signed_descriptor (Add t0 Hour)).
  - apply toy_device_ok.
  - left.
  - vm_compute. reflexivity.
  - vm_compute. reflexivity.
  - vm_compute. discriminate.
  - reflexivity.
  - vm_compute. discriminate.
Defined.

Lemma VerifyDescriptor_sound_witness :
  exists pub, DecodeBase64URL (pk_Public (di_PublicKey (dev_Identity (toy_device x07 "root")))) = Ok pub.
Proof.
  destruct (VerifyDescriptor_sound toy_unmarshal toy_signed_descriptor (dev_Identity (toy_device x07 "root"))
    (DefaultGate ProfileProduction) (Add t0 Minute)) as [(_ & H & _)|(pub & _ & _ & _ & H & _)].
  - vm_compute. reflexivity.
  - discriminate H.
  - exists pub. exact H.
Defined.
