(* ===== verification/AuditHash.v ===== *)
(** * Audit entries: [pkg/server/audit/audit.go]

    The hash of an audit entry's canonical form, and what a log gains whose
    entries carry the hash of the one before. *)
From Stdlib Require Import ZArith Lia Strings.Byte.
From stdpp Require Import sorting numbers gmap strings base list.
From S2P Require Import Prelude Errors Utf8 GoJson Canonical CanonicalProps GoTime Base64 Sha256 Crypto Signed Descriptor.
Open Scope Z_scope.

Record Entry := mkEntry {
  en_DomainID : string;
  en_EventType : string;
  en_ActorID : string;
  en_SubjectID : string;
  en_Metadata : gmap string string;
  en_PreviousHash : string;
  en_CreatedAt : Time
}.

#[export] Instance Entry_eq_dec : EqDecision Entry.
Proof. solve_decision. Defined.

Definition omit_string (k s : string) : list (string * Value) := omit_empty (bool_decide (s = "")) k (JStr s).

Definition Entry_members (e : Entry) (created : Value) : list (string * Value) :=
  [("domain_id", JStr (en_DomainID e)); ("event_type", JStr (en_EventType e))] ++
  omit_string "actor_id" (en_ActorID e) ++ omit_string "subject_id" (en_SubjectID e) ++
  omit_empty (bool_decide (en_Metadata e = ∅)) "metadata" (map_json (en_Metadata e)) ++
  omit_string "previous_hash" (en_PreviousHash e) ++ [("created_at", created)].

Definition Entry_json (e : Entry) : result Value :=
  created ← time_json (en_CreatedAt e);
  Ok (JObj (Entry_members e created)).

Definition Entry_canonical (e : Entry) : result bytes :=
  b ← Entry_json e;
  Marshal (encode b).

Definition HashEntry (e : Entry) : result bytes :=
  canon ← Entry_canonical e;
  Ok (SHA256 canon).

(** ** What the canonical form of an entry determines *)

(** Well-formed UTF-8 throughout, and a UTC time, as [time.Now().UTC()] is. *)
Definition clean_text (s : string) : bool := bool_decide (clean_str s = s).

Definition entry_ok (e : Entry) : bool :=
  forallb clean_text [en_DomainID e; en_EventType e; en_ActorID e; en_SubjectID e; en_PreviousHash e] &&
  forallb (fun p => clean_text p.1 && clean_text p.2) (map_to_list (en_Metadata e)) &&
  (offset (en_CreatedAt e) =? 0).

Definition map_members (m : gmap string string) : list (string * Value) :=
  merge_sort key_le (map (fun p => (p.1, JStr p.2)) (map_to_list m)).

Lemma map_members_perm m :
  map_members m ≡ₚ map (fun p => (p.1, JStr p.2)) (map_to_list m).
Proof. apply merge_sort_Permutation. Qed.

Lemma map_members_nodup m : NoDup (map fst (map_members m)).
Proof.
  rewrite map_members_perm, map_map. cbn. apply NoDup_fst_map_to_list.
Qed.

Lemma map_members_assoc m k : assoc k (map_members m) = JStr <$> m !! k.
Proof.
  rewrite (assoc_perm k _ _ (map_members_nodup m) (map_members_perm m)).
  destruct (m !! k) as [v|] eqn:E; cbn.
  - apply assoc_elem; [rewrite map_map; apply NoDup_fst_map_to_list|].
    apply (list_elem_of_fmap_2' (fun p => (p.1, JStr p.2)) _ (k, v)); [by apply elem_of_map_to_list|done].
  - apply assoc_None. rewrite map_map. intros (p & -> & Hp)%list_elem_of_fmap.
    destruct p as [k' v]. cbn in E. apply elem_of_map_to_list in Hp. by rewrite Hp in E.
Qed.

Lemma map_json_parseable m :
  forallb (fun p => clean_text p.1 && clean_text p.2) (map_to_list m) = true -> parseable (map_json m) = true.
Proof.
  intros Hc. change (map_json m) with (JObj (map_members m)). cbn [parseable]. apply andb_true_iff. split.
  - apply bool_decide_eq_true. erewrite map_ext_in; [apply map_members_nodup|].
    intros p Hp. cbn. apply list_elem_of_In in Hp. rewrite map_members_perm in Hp.
    apply list_elem_of_fmap in Hp as ([k v] & -> & Hp). cbn.
    rewrite forallb_forall in Hc. apply list_elem_of_In in Hp. specialize (Hc _ Hp). cbn in Hc. unfold clean_text in Hc. by bool_prop.
  - apply forallb_forall. intros p Hp. apply list_elem_of_In in Hp. rewrite map_members_perm in Hp.
    by apply list_elem_of_fmap in Hp as ([k v] & -> & _).
Qed.

(** The members of an entry by name. *)
Lemma Entry_members_assoc e c :
  assoc "domain_id" (Entry_members e c) = Some (JStr (en_DomainID e)) /\
  assoc "event_type" (Entry_members e c) = Some (JStr (en_EventType e)) /\
  assoc "actor_id" (Entry_members e c) = (if bool_decide (en_ActorID e = "") then None else Some (JStr (en_ActorID e))) /\
  assoc "subject_id" (Entry_members e c) = (if bool_decide (en_SubjectID e = "") then None else Some (JStr (en_SubjectID e))) /\
  assoc "metadata" (Entry_members e c) = (if bool_decide (en_Metadata e = ∅) then None else Some (map_json (en_Metadata e))) /\
  assoc "previous_hash" (Entry_members e c) =
    (if bool_decide (en_PreviousHash e = "") then None else Some (JStr (en_PreviousHash e))) /\
  assoc "created_at" (Entry_members e c) = Some c.
Proof.
  unfold Entry_members, omit_string, omit_empty.
  destruct (bool_decide (en_ActorID e = "")), (bool_decide (en_SubjectID e = "")), (bool_decide (en_Metadata e = ∅)),
    (bool_decide (en_PreviousHash e = "")); split_and!; reflexivity.
Qed.

Lemma Entry_members_good e c t :
  entry_ok e = true -> time_json t = Ok c ->
  parseable (JObj (Entry_members e c)) = true /\ clean_keys (Entry_members e c) = true.
Proof.
  unfold entry_ok. intros He Hc. bool_prop. pose proof (map_json_parseable (en_Metadata e) ltac:(done)) as Hm.
  assert (parseable c = true) as Hpc by (unfold time_json in Hc; by inv_ok).
  unfold Entry_members, omit_string, omit_empty.
  destruct (bool_decide (en_ActorID e = "")), (bool_decide (en_SubjectID e = "")), (bool_decide (en_Metadata e = ∅)),
    (bool_decide (en_PreviousHash e = "")); cbn [app parseable forallb]; rewrite ?Hm, Hpc; vm_compute; done.
Qed.

(** A UTC time is known by its instant. *)
Lemma time_eq t u : offset t = 0 -> offset u = 0 -> ns t = ns u -> t = u.
Proof. destruct t, u; cbn. congruence. Qed.

Lemma required_inj (s s' : string) :
  clean_text s = true -> clean_text s' = true ->
  (sort_value ∘ clean) <$> Some (JStr s) = (sort_value ∘ clean) <$> Some (JStr s') -> s = s'.
Proof.
  unfold clean_text. intros H H' E. bool_prop. cbn [fmap option_fmap option_map compose clean sort_value] in E.
  congruence.
Qed.

Lemma omitted_inj (s s' : string) :
  clean_text s = true -> clean_text s' = true ->
  (sort_value ∘ clean) <$> (if bool_decide (s = "") then None else Some (JStr s)) =
  (sort_value ∘ clean) <$> (if bool_decide (s' = "") then None else Some (JStr s')) -> s = s'.
Proof.
  unfold clean_text. intros H H' E. bool_prop. repeat case_bool_decide; try done; [congruence|].
  cbn [fmap option_fmap option_map compose clean sort_value] in E. congruence.
Qed.

Lemma map_json_inj (m m' : gmap string string) :
  forallb (fun p => clean_text p.1 && clean_text p.2) (map_to_list m) = true ->
  forallb (fun p => clean_text p.1 && clean_text p.2) (map_to_list m') = true ->
  sort_value (clean (map_json m)) = sort_value (clean (map_json m')) -> m = m'.
Proof.
  assert (forall n : gmap string string,
    forallb (fun p => clean_text p.1 && clean_text p.2) (map_to_list n) = true -> clean (map_json n) = map_json n) as Hc.
  { intros n Hn. change (map_json n) with (JObj (map_members n)). rewrite clean_obj. f_equal.
    rewrite <- (map_id (map_members n)) at 2. apply map_ext_in. intros p Hp%list_elem_of_In.
    rewrite map_members_perm in Hp. apply list_elem_of_fmap in Hp as ([k v] & -> & Hp%list_elem_of_In).
    rewrite forallb_forall in Hn. specialize (Hn _ Hp). cbn in Hn. unfold clean_text in Hn. bool_prop.
    unfold clean_member. cbn [fst snd clean]. congruence. }
  intros H H'. rewrite (Hc m H), (Hc m' H'). intros E. apply map_eq. intros k.
  pose proof (sort_value_assoc k (map_members m) (map_members m') (map_members_nodup m) (map_members_nodup m') E) as F.
  rewrite !map_members_assoc in F. destruct (m !! k), (m' !! k); cbn in F; congruence.
Qed.

Lemma metadata_inj (m m' : gmap string string) :
  forallb (fun p => clean_text p.1 && clean_text p.2) (map_to_list m) = true ->
  forallb (fun p => clean_text p.1 && clean_text p.2) (map_to_list m') = true ->
  (sort_value ∘ clean) <$> (if bool_decide (m = ∅) then None else Some (map_json m)) =
  (sort_value ∘ clean) <$> (if bool_decide (m' = ∅) then None else Some (map_json m')) -> m = m'.
Proof.
  intros H H' E. repeat case_bool_decide; try done; [congruence|].
  apply map_json_inj; [done..|]. by apply (inj Some) in E.
Qed.

Lemma entry_ok_texts e :
  entry_ok e = true ->
  clean_text (en_DomainID e) = true /\ clean_text (en_EventType e) = true /\ clean_text (en_ActorID e) = true /\
  clean_text (en_SubjectID e) = true /\ clean_text (en_PreviousHash e) = true /\
  forallb (fun p => clean_text p.1 && clean_text p.2) (map_to_list (en_Metadata e)) = true /\ offset (en_CreatedAt e) = 0.
Proof. unfold entry_ok. rewrite !andb_true_iff, Z.eqb_eq. cbn [forallb]. rewrite !andb_true_iff. tauto. Qed.

Lemma Entry_members_inj e f te tf :
  entry_ok e = true -> entry_ok f = true -> time_json (en_CreatedAt e) = Ok te -> time_json (en_CreatedAt f) = Ok tf ->
  (forall k, (sort_value ∘ clean) <$> assoc k (Entry_members e te) = (sort_value ∘ clean) <$> assoc k (Entry_members f tf)) ->
  e = f.
Proof.
  intros He Hf Te Tf F.
  destruct (Entry_members_assoc e te) as (E1 & E2 & E3 & E4 & E5 & E6 & E7).
  destruct (Entry_members_assoc f tf) as (F1 & F2 & F3 & F4 & F5 & F6 & F7).
  pose proof (F "domain_id") as G1. pose proof (F "event_type") as G2. pose proof (F "actor_id") as G3.
  pose proof (F "subject_id") as G4. pose proof (F "metadata") as G5. pose proof (F "previous_hash") as G6.
  pose proof (F "created_at") as G7. rewrite E1, F1 in G1. rewrite E2, F2 in G2. rewrite E3, F3 in G3.
  rewrite E4, F4 in G4. rewrite E5, F5 in G5. rewrite E6, F6 in G6. rewrite E7, F7 in G7.
  apply entry_ok_texts in He as (A1 & A2 & A3 & A4 & A5 & A6 & A7), Hf as (B1 & B2 & B3 & B4 & B5 & B6 & B7).
  apply required_inj in G1, G2; [|done..]. apply omitted_inj in G3, G4, G6; [|done..].
  apply metadata_inj in G5; [|done..]. apply (inj Some) in G7.
  assert (en_CreatedAt e = en_CreatedAt f) as G8.
  { apply time_eq; [done..|]. eapply time_json_inj; [done..|exact Te|exact Tf|exact G7]. }
  clear - G1 G2 G3 G4 G5 G6 G8. destruct e, f; cbn in *; congruence.
Qed.

Lemma Entry_canonical_Ok e c :
  entry_ok e = true -> Entry_canonical e = Ok c ->
  exists t, time_json (en_CreatedAt e) = Ok t /\ MarshalValue (clean (JObj (Entry_members e t))) = Ok c.
Proof.
  intros He. unfold Entry_canonical, Entry_json. intros (v & (t & Ht & Hv)%bind_Ok & Hm)%bind_Ok.
  injection Hv as <-. exists t. split; [done|].
  by rewrite <- (Marshal_encode _ (proj1 (Entry_members_good e t _ He Ht))).
Qed.

(** The canonical form says everything: entries with the same canonical form are
    equal. *)
Lemma Entry_canonical_inj e f c :
  entry_ok e = true -> entry_ok f = true -> Entry_canonical e = Ok c -> Entry_canonical f = Ok c -> e = f.
Proof.
  intros He Hf (te & Te & Ee)%Entry_canonical_Ok (tf & Tf & Ef)%Entry_canonical_Ok; [|done..].
  destruct (Entry_members_good e te _ He Te) as [Pe Ke], (Entry_members_good f tf _ Hf Tf) as [Pf Kf].
  exact (Entry_members_inj e f te tf He Hf Te Tf (object_fields _ _ c Pe Pf Ke Kf Ee Ef)).
Qed.

Lemma HashEntry_canonical e h : HashEntry e = Ok h -> exists c, Entry_canonical e = Ok c /\ h = SHA256 c.
Proof. unfold HashEntry. intros H. inv_ok. eauto. Qed.

(** ** Hash chains *)

(** A log in which every entry names the hash of the one before it; [prev] is what
    the first one names and [head] the hash of the last, in the text form
    [PreviousHash] has. *)
Inductive chained : string -> list Entry -> string -> Prop :=
| chained_nil prev : chained prev [] prev
| chained_snoc prev log e h head :
    chained prev log head -> en_PreviousHash e = head -> HashEntry e = Ok h ->
    chained prev (log ++ [e]) (Base64URL h).

(** Two different entries with one hash: a collision of SHA-256 on the canonical
    forms of entries of the two logs. *)
Definition collision (log log' : list Entry) : Prop :=
  exists e f c d, e ∈ log /\ f ∈ log' /\ Entry_canonical e = Ok c /\ Entry_canonical f = Ok d /\
    c <> d /\ SHA256 c = SHA256 d.

Lemma Base64URL_hash_nonempty c : Base64URL (SHA256 c) <> "".
Proof.
  intros E. assert (SHA256 c = []) as E' by (apply Base64URL_inj; rewrite E; vm_compute; reflexivity).
  apply (f_equal length) in E'. unfold SHA256 in E'. by rewrite sha256_length in E'.
Qed.

Lemma chained_empty log : chained "" log "" -> log = [].
Proof.
  inversion 1 as [|prev l e h head Hl He Hh]; [done|]. apply HashEntry_canonical in Hh as (c & _ & ->).
  by destruct (Base64URL_hash_nonempty c).
Qed.


Definition toy_entry (event prev : string) : Entry := mkEntry "dom" event "" "alice" {["by" := "admin"]} prev (mkTime 0 0).

Definition toy_hash (e : Entry) : bytes := match HashEntry e with Ok h => h | Err _ => [] end.

Definition toy_first : Entry := toy_entry "device.submit" "".
Definition toy_second : Entry := toy_entry "device.authorize" (Base64URL (toy_hash toy_first)).

Lemma toy_chain : chained "" [toy_first; toy_second] (Base64URL (toy_hash toy_second)).
Proof.
  apply (chained_snoc "" [toy_first] toy_second _ (Base64URL (toy_hash toy_first)));
    [|reflexivity|vm_compute; reflexivity].
  apply (chained_snoc "" [] toy_first _ ""); [constructor|reflexivity|vm_compute; reflexivity].
Qed.

