(* ===== verification/Storage.v ===== *)
(** * Key stores: [pkg/iscp/storage/storage.go]

    The in-memory store and the development file store.  The interface both
    implement is the class [IdentityKeyStore] with its law: what was saved last
    for a device is what loads.  A directory of the file store is the map from
    file names to the JSON documents they hold; failing file operations are not
    modelled. *)
From Stdlib Require Import ZArith Lia Strings.Byte.
From stdpp Require Import numbers gmap strings base list.
From S2P Require Import Prelude Errors Base64 Crypto GoStrings.

(** ** The interface *)

Class IdentityKeyStore (S : Type) := {
  SaveIdentityPrivateKey : S -> string -> Ed25519PrivateKey -> result unit * S;
  LoadIdentityPrivateKey : S -> string -> result Ed25519PrivateKey
}.

(** A store keeps the keys of the devices it accepts: loading returns the key
    saved last, and saving for one device leaves the others alone. *)
Class KeyStoreLaws (S : Type) `{IdentityKeyStore S} (accepts : string -> Prop) := {
  save_accepted s d k : accepts d -> (SaveIdentityPrivateKey s d k).1 = Ok tt;
  load_saved s d k :
    accepts d -> length (edpriv k) = PrivateKeySize ->
    LoadIdentityPrivateKey (SaveIdentityPrivateKey s d k).2 d = Ok k;
  load_other s d d' k :
    d <> d' -> LoadIdentityPrivateKey (SaveIdentityPrivateKey s d k).2 d' = LoadIdentityPrivateKey s d'
}.

(** ** [MemoryStore] *)

Record MemoryStore := mkMemoryStore { ms_keys : gmap string bytes }.

Definition NewMemoryStore : MemoryStore := mkMemoryStore ∅.

Definition MemoryStore_Save (s : MemoryStore) (deviceID : string) (key : Ed25519PrivateKey)
    : result unit * MemoryStore :=
  (Ok tt, mkMemoryStore (<[deviceID := BytesForDevStore key]> (ms_keys s))).

Definition MemoryStore_Load (s : MemoryStore) (deviceID : string) : result Ed25519PrivateKey :=
  match ms_keys s !! deviceID with
  | None => Err (New CodeStorageInvalid "identity key not found")
  | Some b => Ed25519PrivateKeyFromBytes b
  end.

#[export] Instance MemoryStore_store : IdentityKeyStore MemoryStore := {
  SaveIdentityPrivateKey := MemoryStore_Save;
  LoadIdentityPrivateKey := MemoryStore_Load
}.

(** ** [DevFileStore] *)

Record DevFileStore := mkDevFileStore { fs_files : gmap string (gmap string string) }.

Definition deviceFileName (deviceID : string) : result string :=
  if bool_decide (deviceID = "") || ContainsAny deviceID "/\" || bool_decide (deviceID = ".") ||
     bool_decide (deviceID = "..")
  then Err (New CodeStorageInvalid "invalid device id for dev file store")
  else Ok (deviceID +:+ ".json").

Definition dev_warning : string := "dev file store only; do not use for production private keys".

Definition DevFileStore_Save (s : DevFileStore) (deviceID : string) (key : Ed25519PrivateKey)
    : result unit * DevFileStore :=
  match deviceFileName deviceID with
  | Err err => (Err err, s)
  | Ok name =>
      let doc : gmap string string :=
        {["warning" := dev_warning; "key" := go_string (b64_encode (BytesForDevStore key))]} in
      (Ok tt, mkDevFileStore (<[name := doc]> (fs_files s)))
  end.

Definition DevFileStore_Load (s : DevFileStore) (deviceID : string) : result Ed25519PrivateKey :=
  name ← deviceFileName deviceID;
  doc ← of_option (Wrap CodeStorageInvalid "read dev key store" (PlainError "file does not exist")) (fs_files s !! name);
  keyBytes ← of_option (PlainError "illegal base64 data") (b64_decode (go_bytes (default "" (doc !! "key"))));
  Ed25519PrivateKeyFromBytes keyBytes.

#[export] Instance DevFileStore_store : IdentityKeyStore DevFileStore := {
  SaveIdentityPrivateKey := DevFileStore_Save;
  LoadIdentityPrivateKey := DevFileStore_Load
}.

(** ** Facts *)

Lemma FromBytes_key k : length (edpriv k) = PrivateKeySize -> Ed25519PrivateKeyFromBytes (edpriv k) = Ok k.
Proof. unfold Ed25519PrivateKeyFromBytes. intros ->. by destruct k. Qed.

#[export] Instance MemoryStore_laws : KeyStoreLaws MemoryStore (fun _ => True).
Proof.
  split; [done|..]; cbn; unfold MemoryStore_Load, MemoryStore_Save; cbn.
  - intros s d k _ Hk. rewrite lookup_insert_eq. by apply FromBytes_key.
  - intros s d d' k Hne. by rewrite lookup_insert_ne.
Qed.

(** The device identifiers that name a file. *)
Definition file_device (d : string) : Prop := is_ok (deviceFileName d) = true.

Lemma deviceFileName_inj d d' n : deviceFileName d = Ok n -> deviceFileName d' = Ok n -> d = d'.
Proof.
  unfold deviceFileName. do 2 (destruct (_ || _); [done|]). intros [= <-] [= H].
  apply (f_equal go_bytes) in H. rewrite !go_bytes_app in H. by apply (inj (.++ _)), (inj go_bytes) in H.
Qed.

#[export] Instance DevFileStore_laws : KeyStoreLaws DevFileStore file_device.
Proof.
  split; cbn; unfold DevFileStore_Load, DevFileStore_Save.
  - intros s d k [n Hn]%is_ok_true. by rewrite Hn.
  - intros s d k [n Hn]%is_ok_true Hk. rewrite Hn. run. cbn [snd fs_files]. rewrite lookup_insert_eq. run.
    replace (default "" _) with (go_string (b64_encode (BytesForDevStore k))) by reflexivity.
    rewrite go_bytes_string, b64_decode_encode. run. by apply FromBytes_key.
  - intros s d d' k Hne. destruct (deviceFileName d) as [n|] eqn:E; [|done]. cbn [snd fs_files].
    destruct (deviceFileName d') as [n'|] eqn:E'; [|done]. run.
    rewrite lookup_insert_ne; [done|]. intros ->. by eapply Hne, deviceFileName_inj.
Qed.

(** Both key stores keep what is saved: against the store interface, a key saved
    for an accepted device loads unchanged until another is saved for the same
    device, whatever is saved for others in between. *)
Theorem key_stores_keep {S} `{KeyStoreLaws S accepts} (s : S) d k (others : list (string * Ed25519PrivateKey)) :
  accepts d -> length (edpriv k) = PrivateKeySize -> Forall (fun o => o.1 <> d) others ->
  LoadIdentityPrivateKey
    (foldl (fun s o => (SaveIdentityPrivateKey s o.1 o.2).2) (SaveIdentityPrivateKey s d k).2 others) d = Ok k.
Proof.
  intros Ha Hk Ho. assert (forall s', LoadIdentityPrivateKey s' d = Ok k -> LoadIdentityPrivateKey
    (foldl (fun s o => (SaveIdentityPrivateKey s o.1 o.2).2) s' others) d = Ok k) as Hgen.
  { induction Ho as [|[d' k'] others Hne _ IH]; intros s' Hl; [done|]. cbn [foldl fst snd]. apply IH.
    rewrite load_other; [done|]. cbn in Hne. done. }
  apply Hgen. by apply load_saved.
Qed.

Lemma key_stores_keep_witness :
  LoadIdentityPrivateKey
    (foldl (fun s o => (SaveIdentityPrivateKey s o.1 o.2).2)
       (SaveIdentityPrivateKey (mkDevFileStore ∅) "alice" (mkEdPriv (replicate 64 x09))).2
       [("bob", mkEdPriv (replicate 64 x08))]) "alice" = Ok (mkEdPriv (replicate 64 x09)).
Proof.
  apply key_stores_keep; [vm_compute; reflexivity|reflexivity|].
  constructor; [discriminate|constructor].
Defined.

Lemma existsb_any_spec (chars : list byte) (l : bytes) :
  existsb (fun b => bool_decide (b ∈ chars)) l = false <-> forall b, b ∈ l -> b ∉ chars.
Proof.
  induction l as [|x l IH]; cbn [existsb]; [set_solver|]. rewrite orb_false_iff, bool_decide_eq_false, IH. set_solver.
Qed.

(** No device identifier leads the file store outside its directory: an accepted
    name contains no slash or backslash and is neither empty nor a dot entry, and
    distinct devices have distinct files. *)
Theorem deviceFileName_confined d n :
  deviceFileName d = Ok n ->
  d <> "" /\ d <> "." /\ d <> ".." /\ n = d +:+ ".json" /\
  (forall b, b ∈ go_bytes n -> b <> x2f /\ b <> x5c) /\
  (forall d', deviceFileName d' = Ok n -> d' = d).
Proof.
  intros H. pose proof H as H'. unfold deviceFileName in H. inv_ok. bool_prop.
  split_and!; [done..| |].
  - match goal with H : ContainsAny _ _ = false |- _ => unfold ContainsAny in H; rewrite existsb_any_spec in H;
      rename H into Hno end.
    intros b. rewrite go_bytes_app, elem_of_app. intros [Hb|Hb].
    + specialize (Hno b Hb). vm_compute in Hno. split; intros ->; apply Hno; repeat constructor.
    + vm_compute in Hb. split; intros ->; repeat (apply elem_of_cons in Hb as [Hb|Hb]; [discriminate Hb|]);
        by apply elem_of_nil in Hb.
  - intros d' Hd'. by eapply deviceFileName_inj.
Qed.

Lemma deviceFileName_confined_witness : "dev-1.json" = "dev-1" +:+ ".json".
Proof. apply (deviceFileName_confined "dev-1" "dev-1.json"). vm_compute. reflexivity. Defined.
