(* ===== verification/Payload.v ===== *)
(** * Payload types and hot-session tickets:
      [pkg/iscp/payload/payload.go] and [pkg/iscp/hotsession/hotsession.go] *)
From Stdlib Require Import ZArith Lia Strings.Byte.
From stdpp Require Import numbers gmap strings base list.
From S2P Require Import Prelude Errors Utf8 GoJson Canonical CanonicalProps GoTime.
Open Scope Z_scope.

(** ** The payload registry *)

Definition TypeText : string := "text".
Definition TypeAudioFrame : string := "audio.frame".
Definition TypeAudioControl : string := "audio.control".
Definition TypeTaskInvoke : string := "task.invoke".
Definition TypeTaskResult : string := "task.result".

Record Registry := mkRegistry { allowed : gset string }.

Definition DefaultRegistry : Registry :=
  mkRegistry {[TypeText; TypeAudioFrame; TypeAudioControl; TypeTaskInvoke; TypeTaskResult]}.

Definition ValidatePayload (r : Registry) (payloadType : string) : result unit :=
  reject_if (negb (bool_decide (payloadType ∈ allowed r))) (New CodeEnvelopeInvalid "unsupported payload type").

Definition EncodeText (text : string) : bytes := encode (JObj [("text", JStr text)]).

Record Text := mkText { tx_Text : string }.

Definition DecodeText `{Decode Text} (data : bytes) : result Text := decode data.

(** The text payload is strict JSON: its encoding is accepted by the strict parser
    and carries the text, with ill-formed UTF-8 replaced. *)
Theorem EncodeText_parses text :
  ParseStrict (EncodeText text) = Ok (JObj [("text", JStr (clean_str text))]).
Proof. unfold EncodeText. rewrite ParseStrict_encode by (vm_compute; reflexivity). reflexivity. Qed.

(** ** Hot sessions *)

Record HotTicket := mkHotTicket {
  ht_SessionID : string;
  ht_GrantID : string;
  ht_Permission : string;
  ht_Counter : Z;
  ht_ResumeBefore : Time
}.

Definition ValidateHotTicket (t : HotTicket) (permission : string) (now : Time) : result unit :=
  _ ← reject_if (bool_decide (ht_SessionID t = "") || bool_decide (ht_GrantID t = ""))
        (New CodeSessionInvalid "hot session is incomplete");
  _ ← reject_if (negb (bool_decide (ht_Permission t = permission)))
        (New CodeSessionInvalid "hot session permission mismatch");
  reject_if (negb (Before now (ht_ResumeBefore t))) (New CodeSessionInvalid "hot session resume window expired").
