(* ===== verification/Logging.v ===== *)
(** * Log redaction: [pkg/iscp/logging/redact.go]

    The pattern of secret attribute names is matched as Go's [regexp] does:
    anywhere in the name, rune by rune, with simple case folding (which also
    equates U+017F with "s" and U+212A with "k"). *)
From Stdlib Require Import ZArith Lia Strings.Byte.
From stdpp Require Import numbers strings base list.
From S2P Require Import Prelude Utf8 GoStrings.
Open Scope Z_scope.

Definition redacted : string := "[REDACTED]".

(** ** The pattern *)

Inductive element :=
| Letter (c : Z)   (** a lower-case letter or an underscore, case folded *)
| OptionalDash.    (** an optional underscore or dash *)

Definition letters (s : string) : list element := map (fun b => Letter (b2z b)) (go_bytes s).

Definition secretKeyPattern : list (list element) :=
  [letters "private" ++ OptionalDash :: letters "key";
   letters "refresh" ++ OptionalDash :: letters "credential";
   letters "access" ++ OptionalDash :: letters "token";
   letters "session" ++ OptionalDash :: letters "key";
   letters "payload_plaintext";
   letters "plaintext_payload";
   letters "cipher_key";
   letters "secret"].

(** Whether rune [r] folds to the pattern character [c]. *)
Definition folds_to (c r : Z) : bool :=
  (r =? c) || ((97 <=? c) && (c <=? 122) && (r =? c - 32)) || ((c =? 107) && (r =? 0x212a)) ||
  ((c =? 115) && (r =? 0x17f)).

Fixpoint match_here (p : list element) (rs : list Z) : bool :=
  match p with
  | [] => true
  | Letter c :: p =>
      match rs with
      | r :: rs => folds_to c r && match_here p rs
      | [] => false
      end
  | OptionalDash :: p =>
      match rs with
      | r :: rs' => (((r =? 95) || (r =? 45)) && match_here p rs') || match_here p rs
      | [] => match_here p rs
      end
  end.

Fixpoint match_anywhere (rs : list Z) : bool :=
  existsb (fun p => match_here p rs) secretKeyPattern ||
  match rs with
  | [] => false
  | _ :: rs => match_anywhere rs
  end.

Definition MatchString (key : string) : bool := match_anywhere (map fst (runes (go_bytes key))).

(** ** Redaction *)

(** An attribute value: a string, or a value of another type. *)
Inductive attr_value :=
| AString (s : string)
| AOther.

Definition RedactString (input : string) : string :=
  let lower := ToLower input in
  if Contains lower "private key" || Contains lower "access_token=" || Contains lower "refresh_credential=" ||
     Contains lower "session_key="
  then redacted else input.

Definition RedactKeyValue (key : string) (value : attr_value) : attr_value :=
  if MatchString key then AString redacted
  else match value with
  | AString s => AString (RedactString s)
  | AOther => AOther
  end.

Definition ReplaceAttr (a : string * attr_value) : string * attr_value := (a.1, RedactKeyValue a.1 a.2).

Example redact_names :
  map MatchString ["PrivateKey"; "my-refresh-credential-2"; "ACCESS_token"; "session__key"; "device_id"]
  = [true; true; true; false; false].
Proof. vm_compute. reflexivity. Qed.

(** Redaction is final: a logged attribute that has been redacted, or passed, once
    is not changed by passing through the filter again. *)
Theorem ReplaceAttr_idempotent a : ReplaceAttr (ReplaceAttr a) = ReplaceAttr a.
Proof.
  destruct a as [k v]. unfold ReplaceAttr, RedactKeyValue. cbn [fst snd]. f_equal.
  destruct (MatchString k); [done|]. destruct v as [s|]; [|done]. f_equal.
  unfold RedactString at 2 3. cbv zeta. destruct (_ || _) eqn:E.
  - vm_compute. reflexivity.
  - unfold RedactString. cbv zeta. by rewrite E.
Qed.
