(* ===== verification/Sorting.v ===== *)
(** * sort.Slice

    Go's [sort.Slice] permutes a slice so that no element is less than one before
    it; how it orders elements neither of which is less is unspecified.  The
    operation is therefore a parameter with that contract; [InsertionSort] is an
    executable instance. *)
From stdpp Require Import sorting base list.

Class SortSlice := { sort_slice {A : Type} : (A -> A -> bool) -> list A -> list A }.

(** [less] orders like a comparison of keys. *)
Definition weak_order {A} (less : A -> A -> bool) : Prop :=
  (forall x, less x x = false) /\
  (forall x y, less x y = true -> less y x = false) /\
  (forall x y z, less x y = false -> less y z = false -> less x z = false).

(** "Not after". *)
Definition not_after {A} (less : A -> A -> bool) (x y : A) : Prop := less y x = false.

Class SortLaws (S : SortSlice) := {
  sort_permutes {A} (less : A -> A -> bool) l : Permutation (sort_slice less l) l;
  sort_orders {A} (less : A -> A -> bool) l : weak_order less -> StronglySorted (not_after less) (sort_slice less l)
}.

Lemma weak_order_trans {A} (less : A -> A -> bool) : weak_order less -> Transitive (not_after less).
Proof. intros (_ & _ & Ht) x y z. unfold not_after. intros Hxy Hyz. exact (Ht z y x Hyz Hxy). Qed.

Lemma weak_order_total {A} (less : A -> A -> bool) : weak_order less -> Total (not_after less).
Proof.
  intros (_ & Ha & _) x y. unfold not_after. destruct (less y x) eqn:E; [right; by apply Ha|by left].
Qed.

Module InsertionSort.

Fixpoint insert_by {A} (less : A -> A -> bool) (x : A) (l : list A) : list A :=
  match l with
  | [] => [x]
  | y :: l => if less y x then y :: insert_by less x l else x :: y :: l
  end.

#[export] Instance insertion_sort : SortSlice := {
  sort_slice A less l := foldr (insert_by less) [] l
}.

Lemma insert_by_perm {A} (less : A -> A -> bool) x l : Permutation (insert_by less x l) (x :: l).
Proof.
  induction l as [|y l IH]; cbn; [done|]. destruct (less y x); [|done]. rewrite IH. apply Permutation_swap.
Qed.

Lemma insert_by_sorted {A} (less : A -> A -> bool) x l :
  weak_order less -> StronglySorted (not_after less) l -> StronglySorted (not_after less) (insert_by less x l).
Proof.
  intros Hw. pose proof (weak_order_trans _ Hw) as Htr. destruct Hw as (_ & Ha & _).
  induction 1 as [|y l Hs IH Hy]; cbn; [by repeat constructor|].
  destruct (less y x) eqn:E.
  - constructor; [exact IH|]. rewrite insert_by_perm. constructor; [by apply Ha|exact Hy].
  - constructor; [by constructor|]. constructor; [exact E|]. eapply Forall_impl; [exact Hy|].
    intros z Hz. exact (Htr x y z E Hz).
Qed.

#[export] Instance insertion_laws : SortLaws insertion_sort.
Proof.
  split; intros A less l.
  - induction l as [|x l IH]; cbn; [done|]. rewrite insert_by_perm. by constructor.
  - intros Hw. induction l as [|x l IH]; cbn; [constructor|]. by apply insert_by_sorted.
Qed.

End InsertionSort.
