(* ===== verification/Queue.v ===== *)
(** * The relay queue: [pkg/server/queue/queue.go]

    Messages in arrival order, bounded by their total size.  [Enqueue],
    [DequeueFor] and [SnapshotMetadata] filter the slice in place; the sweep over
    the shared backing array is modelled as written ([sweep]) and shown to be an
    ordinary filter.  Every operation holds the queue's mutex throughout. *)
From Stdlib Require Import ZArith Lia Strings.Byte.
From stdpp Require Import relations sorting numbers strings base list.
From S2P Require Import Prelude GoTime Sorting.
Open Scope Z_scope.

Record Message := mkMessage {
  qm_DomainID : string;
  qm_MessageID : string;
  qm_SenderDeviceID : string;
  qm_RecipientDeviceID : string;
  qm_Envelope : bytes;
  qm_Priority : Z;
  qm_ExpiresAt : Time;
  qm_QueuedAt : Time
}.

Record Queue := mkQueue { q_messages : list Message; q_maxBytes : Z; q_currentBytes : Z }.

Record MessageMetadata := mkMessageMetadata {
  mm_DomainID : string;
  mm_MessageID : string;
  mm_SenderDeviceID : string;
  mm_RecipientDeviceID : string;
  mm_Priority : Z;
  mm_QueuedAt : Time;
  mm_ExpiresAt : Time
}.

Definition NewQueue (maxBytes : Z) : Queue := mkQueue [] maxBytes 0.

(** ** Filtering in place

    [kept := q.messages[:0]; for _, msg := range q.messages { ... kept =
    append(kept, msg) }]: reads at index [i], writes at index [w] of the same
    array.  The verdict on an element says whether it is dropped, moved to a
    separate slice or kept. *)

Inductive verdict := VDrop | VTake | VKeep.

Fixpoint sweep {A} (f : A -> verdict) (n i w : nat) (arr : list A) (taken : list A) : list A * list A :=
  match n with
  | O => (take w arr, taken)
  | S n =>
      match arr !! i with
      | None => (take w arr, taken)
      | Some x =>
          match f x with
          | VDrop => sweep f n (S i) w arr taken
          | VTake => sweep f n (S i) w arr (taken ++ [x])
          | VKeep => sweep f n (S i) (S w) (<[w := x]> arr) taken
          end
      end
  end.

Definition sweep_all {A} (f : A -> verdict) (arr : list A) : list A * list A := sweep f (length arr) 0 0 arr [].

(** ** Operations *)

Definition envelope_size (m : Message) : Z := Z.of_nat (length (qm_Envelope m)).

Definition total_bytes (ms : list Message) : Z := foldr (fun m acc => envelope_size m + acc) 0 ms.

Definition recalculateBytes (q : Queue) : Queue :=
  mkQueue (q_messages q) (q_maxBytes q) (total_bytes (q_messages q)).

Definition expired (now : Time) (m : Message) : bool := After now (qm_ExpiresAt m).

Definition dropExpired (q : Queue) (now : Time) : Queue :=
  let '(kept, _) := sweep_all (fun m => if expired now m then VDrop else VKeep) (q_messages q) in
  recalculateBytes (mkQueue kept (q_maxBytes q) (q_currentBytes q)).

Definition Enqueue (q : Queue) (msg : Message) (now : Time) : bool * Queue :=
  let q := dropExpired q now in
  let size := envelope_size msg in
  if (q_maxBytes q <? size) || (q_maxBytes q <? wrap_i64 (q_currentBytes q + size)) then (false, q)
  else
    let msg := if IsZero (qm_QueuedAt msg)
               then mkMessage (qm_DomainID msg) (qm_MessageID msg) (qm_SenderDeviceID msg) (qm_RecipientDeviceID msg)
                      (qm_Envelope msg) (qm_Priority msg) (qm_ExpiresAt msg) now
               else msg in
    (true, mkQueue (q_messages q ++ [msg]) (q_maxBytes q) (wrap_i64 (q_currentBytes q + size))).

(** Higher priority first, then earlier arrival. *)
Definition delivery_less (p1 p2 : Z * Time) : bool :=
  if p1.1 =? p2.1 then Before p1.2 p2.2 else p2.1 <? p1.1.

Definition message_less (a b : Message) : bool :=
  delivery_less (qm_Priority a, qm_QueuedAt a) (qm_Priority b, qm_QueuedAt b).

Definition metadata_less (a b : MessageMetadata) : bool :=
  delivery_less (mm_Priority a, mm_QueuedAt a) (mm_Priority b, mm_QueuedAt b).

Definition addressed (domainID recipient : string) (m : Message) : bool :=
  bool_decide (qm_DomainID m = domainID) && bool_decide (qm_RecipientDeviceID m = recipient).

Definition metadata_of (m : Message) : MessageMetadata :=
  mkMessageMetadata (qm_DomainID m) (qm_MessageID m) (qm_SenderDeviceID m) (qm_RecipientDeviceID m)
    (qm_Priority m) (qm_QueuedAt m) (qm_ExpiresAt m).

Section queue.
  Context {S : SortSlice}.

Definition DequeueFor (q : Queue) (domainID recipient : string) (now : Time) (limit : Z) : list Message * Queue :=
  let '(kept, matches) :=
    sweep_all (fun m => if expired now m then VDrop else if addressed domainID recipient m then VTake else VKeep)
      (q_messages q) in
  let matches := sort_slice message_less matches in
  let '(out, kept) :=
    if limit <=? 0 then ([], kept ++ matches)
    else if limit <? Z.of_nat (length matches)
    then (take (Z.to_nat limit) matches, kept ++ drop (Z.to_nat limit) matches)
    else (matches, kept) in
  (out, recalculateBytes (mkQueue kept (q_maxBytes q) (q_currentBytes q))).

Definition SnapshotMetadata (q : Queue) (now : Time) : list MessageMetadata * Queue :=
  let '(kept, _) := sweep_all (fun m => if expired now m then VDrop else VKeep) (q_messages q) in
  (sort_slice metadata_less (map metadata_of kept),
   recalculateBytes (mkQueue kept (q_maxBytes q) (q_currentBytes q))).

End queue.

Definition UsedBytes (q : Queue) : Z := q_currentBytes q.

(** ** The sweep is a filter *)

Definition is_keep (v : verdict) : bool := match v with VKeep => true | _ => false end.
Definition is_take (v : verdict) : bool := match v with VTake => true | _ => false end.

(** The write index never passes the read index, so what is read is what was
    there at the start. *)
Lemma sweep_filter {A} (f : A -> verdict) rest kept gap taken :
  sweep f (length rest) (length kept + length gap) (length kept) (kept ++ gap ++ rest) taken
  = (kept ++ List.filter (fun x => is_keep (f x)) rest, taken ++ List.filter (fun x => is_take (f x)) rest).
Proof.
  revert kept gap taken. induction rest as [|x rest IH]; intros kept gap taken.
  - cbn [length sweep List.filter]. by rewrite take_app_length, !app_nil_r.
  - cbn [length sweep]. rewrite lookup_app_r by lia.
    replace (length kept + length gap - length kept)%nat with (length gap) by lia.
    rewrite lookup_app_r, Nat.sub_diag by lia. cbn [lookup list_lookup]. cbn [List.filter].
    destruct (f x); cbn [is_keep is_take].
    + specialize (IH kept (gap ++ [x]) taken). rewrite length_app in IH. cbn [length] in IH.
      rewrite <- !app_assoc in IH. cbn [app] in IH.
      replace (S (length kept + length gap)) with (length kept + (length gap + 1))%nat by lia. exact IH.
    + specialize (IH kept (gap ++ [x]) (taken ++ [x])). rewrite length_app in IH. cbn [length] in IH.
      rewrite <- !app_assoc in IH. cbn [app] in IH.
      replace (S (length kept + length gap)) with (length kept + (length gap + 1))%nat by lia. exact IH.
    + destruct gap as [|g gap].
      * rewrite insert_app_r_alt, Nat.sub_diag by lia. cbn [app insert list_insert].
        specialize (IH (kept ++ [x]) [] taken). rewrite length_app in IH. cbn [length app] in IH.
        rewrite <- !app_assoc in IH. cbn [app] in IH. cbn [length].
        replace (S (length kept + 0)) with (length kept + 1 + 0)%nat by lia.
        replace (S (length kept)) with (length kept + 1)%nat by lia. exact IH.
      * rewrite insert_app_r_alt, Nat.sub_diag by lia. cbn [app insert list_insert].
        specialize (IH (kept ++ [x]) (gap ++ [x]) taken). rewrite !length_app in IH. cbn [length] in IH.
        rewrite <- !app_assoc in IH. cbn [app] in IH. cbn [length].
        replace (S (length kept + S (length gap))) with (length kept + 1 + (length gap + 1))%nat by lia.
        replace (S (length kept)) with (length kept + 1)%nat by lia. exact IH.
Qed.

Lemma sweep_all_filter {A} (f : A -> verdict) arr :
  sweep_all f arr = (List.filter (fun x => is_keep (f x)) arr, List.filter (fun x => is_take (f x)) arr).
Proof. exact (sweep_filter f arr [] [] []). Qed.

(** ** Invariant *)

(** The byte count is exact and within the bound. *)
Definition queue_ok (q : Queue) : Prop :=
  q_currentBytes q = total_bytes (q_messages q) /\ 0 <= q_currentBytes q <= Z.max 0 (q_maxBytes q).

Lemma envelope_size_pos m : 0 <= envelope_size m.
Proof. unfold envelope_size. lia. Qed.

Lemma total_bytes_app l l' : total_bytes (l ++ l') = total_bytes l + total_bytes l'.
Proof. induction l as [|m l IH]; cbn; [done|]. fold (total_bytes (l ++ l')) (total_bytes l). lia. Qed.

Lemma total_bytes_pos l : 0 <= total_bytes l.
Proof. induction l as [|m l IH]; cbn; [lia|]. pose proof (envelope_size_pos m). fold (total_bytes l). lia. Qed.

#[export] Instance total_bytes_perm : Proper ((≡ₚ) ==> (=)) total_bytes.
Proof. induction 1; cbn in *; unfold total_bytes in *; lia. Qed.

Lemma total_bytes_filter f l : total_bytes (List.filter f l) <= total_bytes l.
Proof.
  induction l as [|m l IH]; cbn [List.filter]; [lia|]. pose proof (envelope_size_pos m).
  destruct (f m); cbn; fold (total_bytes (List.filter f l)) (total_bytes l); lia.
Qed.

(** The messages that have not expired. *)
Definition live (now : Time) (ms : list Message) : list Message := List.filter (fun m => negb (expired now m)) ms.

Lemma live_bytes now ms : total_bytes (live now ms) <= total_bytes ms.
Proof. apply total_bytes_filter. Qed.

Lemma filter_ext {A} (f g : A -> bool) l : (forall x, f x = g x) -> List.filter f l = List.filter g l.
Proof. intros H. induction l as [|x l IH]; cbn; [done|]. by rewrite H, IH. Qed.

Lemma dropExpired_eq q now :
  dropExpired q now = mkQueue (live now (q_messages q)) (q_maxBytes q) (total_bytes (live now (q_messages q))).
Proof.
  unfold dropExpired, recalculateBytes, live. rewrite sweep_all_filter. cbn [q_messages q_maxBytes].
  rewrite (filter_ext _ (fun m => negb (expired now m))); [done|]. intros m. by destruct (expired now m).
Qed.

Lemma dropExpired_ok q now : queue_ok q -> queue_ok (dropExpired q now).
Proof.
  intros [E H]. rewrite dropExpired_eq. split; [done|]. cbn [q_currentBytes q_maxBytes].
  pose proof (live_bytes now (q_messages q)). pose proof (total_bytes_pos (live now (q_messages q))). lia.
Qed.

(** [Enqueue] on a queue whose bound leaves room for the sum of two sizes. *)
Lemma Enqueue_eq q msg now :
  queue_ok q -> q_maxBytes q < 2 ^ 62 ->
  Enqueue q msg now =
    (let q' := dropExpired q now in
     if (total_bytes (live now (q_messages q)) + envelope_size msg <=? q_maxBytes q)
     then (true, mkQueue (live now (q_messages q) ++
                   [if IsZero (qm_QueuedAt msg)
                    then mkMessage (qm_DomainID msg) (qm_MessageID msg) (qm_SenderDeviceID msg)
                           (qm_RecipientDeviceID msg) (qm_Envelope msg) (qm_Priority msg) (qm_ExpiresAt msg) now
                    else msg]) (q_maxBytes q) (total_bytes (live now (q_messages q)) + envelope_size msg))
     else (false, q')).
Proof.
  intros Hq Hmax. pose proof (dropExpired_ok q now Hq) as [_ Hb]. unfold Enqueue. rewrite dropExpired_eq in *.
  cbn [q_messages q_maxBytes q_currentBytes] in *. pose proof (envelope_size_pos msg).
  pose proof (total_bytes_pos (live now (q_messages q))). cbv zeta.
  destruct (Z.ltb_spec (q_maxBytes q) (envelope_size msg)).
  - cbn [orb]. destruct (Z.leb_spec (total_bytes (live now (q_messages q)) + envelope_size msg) (q_maxBytes q)); [lia|done].
  - rewrite wrap_i64_id by (unfold in_i64; lia). cbn [orb].
    destruct (Z.ltb_spec (q_maxBytes q) (total_bytes (live now (q_messages q)) + envelope_size msg)),
      (Z.leb_spec (total_bytes (live now (q_messages q)) + envelope_size msg) (q_maxBytes q)); try lia; done.
Qed.

Lemma Enqueue_ok q msg now : queue_ok q -> q_maxBytes q < 2 ^ 62 -> queue_ok (Enqueue q msg now).2.
Proof.
  intros Hq Hmax. rewrite Enqueue_eq by done. cbv zeta.
  destruct (Z.leb_spec (total_bytes (live now (q_messages q)) + envelope_size msg) (q_maxBytes q));
    [|by apply dropExpired_ok].
  pose proof (envelope_size_pos msg). pose proof (total_bytes_pos (live now (q_messages q))).
  split; cbn [snd q_currentBytes q_messages q_maxBytes]; [|lia].
  rewrite total_bytes_app. destruct (IsZero (qm_QueuedAt msg)); cbn; unfold envelope_size; cbn [qm_Envelope]; lia.
Qed.

Section laws.
  Context {S : SortSlice} {L : SortLaws S}.

Lemma DequeueFor_eq q d r now limit :
  let mine := List.filter (fun m => negb (expired now m) && addressed d r m) (q_messages q) in
  let others := List.filter (fun m => negb (expired now m) && negb (addressed d r m)) (q_messages q) in
  let sorted := sort_slice message_less mine in
  let n := Z.to_nat limit in
  DequeueFor q d r now limit
  = (take n sorted, recalculateBytes (mkQueue (others ++ drop n sorted) (q_maxBytes q) (q_currentBytes q))).
Proof.
  cbv zeta. unfold DequeueFor. rewrite sweep_all_filter.
  rewrite (filter_ext (fun x => is_keep _) (fun m => negb (expired now m) && negb (addressed d r m)))
    by (intros m; by destruct (expired now m), (addressed d r m)).
  rewrite (filter_ext (fun x => is_take _) (fun m => negb (expired now m) && addressed d r m))
    by (intros m; by destruct (expired now m), (addressed d r m)).
  destruct (Z.leb_spec limit 0) as [Hl|Hl].
  - replace (Z.to_nat limit) with 0%nat by lia. by rewrite drop_0.
  - destruct (Z.ltb_spec limit (Z.of_nat (length (sort_slice message_less
      (List.filter (fun m => negb (expired now m) && addressed d r m) (q_messages q)))))); [done|].
    rewrite take_ge, drop_ge, app_nil_r by lia. done.
Qed.

Lemma filter_split {A} (f g : A -> bool) l :
  Permutation (List.filter (fun x => f x && g x) l ++ List.filter (fun x => f x && negb (g x)) l) (List.filter f l).
Proof.
  induction l as [|x l IH]; cbn; [done|]. destruct (f x), (g x); cbn [andb negb]; rewrite <- ?IH; try done.
  symmetry. apply Permutation_middle.
Qed.

Lemma DequeueFor_perm q d r now limit :
  Permutation ((DequeueFor q d r now limit).1 ++ q_messages (DequeueFor q d r now limit).2) (live now (q_messages q)).
Proof.
  pose proof (DequeueFor_eq q d r now limit) as E. cbv zeta in E. rewrite E. cbn [fst snd recalculateBytes q_messages].
  etrans; [|apply (filter_split _ (addressed d r))].
  etrans; [apply Permutation_app_head, Permutation_app_comm|].
  rewrite app_assoc, take_drop. apply Permutation_app_tail, sort_permutes.
Qed.

Lemma DequeueFor_ok q d r now limit : queue_ok q -> queue_ok (DequeueFor q d r now limit).2.
Proof.
  intros [E H]. pose proof (DequeueFor_perm q d r now limit) as Hp. apply total_bytes_perm in Hp.
  rewrite total_bytes_app in Hp. pose proof (live_bytes now (q_messages q)).
  pose proof (total_bytes_pos (DequeueFor q d r now limit).1).
  pose proof (total_bytes_pos (q_messages (DequeueFor q d r now limit).2)).
  pose proof (DequeueFor_eq q d r now limit) as Heq. cbv zeta in Heq. rewrite Heq in *.
  split; [done|]. cbn [snd recalculateBytes q_currentBytes q_maxBytes q_messages fst] in *. lia.
Qed.

Lemma SnapshotMetadata_eq q now :
  SnapshotMetadata q now = (sort_slice metadata_less (map metadata_of (live now (q_messages q))), dropExpired q now).
Proof.
  rewrite dropExpired_eq. unfold SnapshotMetadata, recalculateBytes, live. rewrite sweep_all_filter.
  rewrite (filter_ext (fun x => is_keep _) (fun m => negb (expired now m))); [done|].
  intros m. by destruct (expired now m).
Qed.

(** ** Steps *)

Inductive queue_step : Queue -> Queue -> Prop :=
| step_enqueue q msg now : queue_step q (Enqueue q msg now).2
| step_dequeue q d r now limit : queue_step q (DequeueFor q d r now limit).2
| step_snapshot q now : queue_step q (SnapshotMetadata q now).2.

Lemma queue_step_max q q' : queue_step q q' -> q_maxBytes q' = q_maxBytes q.
Proof.
  destruct 1 as [q msg now|q d r now limit|q now].
  - unfold Enqueue. rewrite dropExpired_eq. cbv zeta. by destruct (_ || _).
  - pose proof (DequeueFor_eq q d r now limit) as E. cbv zeta in E. by rewrite E.
  - rewrite SnapshotMetadata_eq. cbn [snd]. by rewrite dropExpired_eq.
Qed.

Lemma queue_step_ok q q' : queue_ok q -> q_maxBytes q < 2 ^ 62 -> queue_step q q' -> queue_ok q'.
Proof.
  intros Hok Hmax Hs. destruct Hs; [by apply Enqueue_ok|by apply DequeueFor_ok|].
  rewrite SnapshotMetadata_eq. by apply dropExpired_ok.
Qed.

(** C32. The queue never exceeds its memory bound and its byte count is always exact:
    in every state reachable from an empty queue by any interleaving of enqueues,
    dequeues and snapshots, the recorded size is the sum of the queued envelopes
    and at most the configured maximum. *)
Theorem queue_bounded maxBytes q :
  0 <= maxBytes < 2 ^ 62 -> rtc queue_step (NewQueue maxBytes) q ->
  UsedBytes q = total_bytes (q_messages q) /\ 0 <= UsedBytes q <= maxBytes.
Proof.
  intros Hmax Hr. assert (queue_ok q /\ q_maxBytes q = maxBytes) as [[E H] Hm].
  { assert (queue_ok (NewQueue maxBytes) /\ q_maxBytes (NewQueue maxBytes) = maxBytes) as Hnew
      by (split; [split; cbn; lia|done]).
    revert Hnew. induction Hr as [q|q q' q'' Hs _ IH]; [done|]. intros [Hok Hq]. apply IH. split.
    - apply (queue_step_ok q); [done|lia|done].
    - by rewrite (queue_step_max _ _ Hs). }
  unfold UsedBytes. split; [done|lia].
Qed.

(** ** Delivery *)

Lemma delivery_less_order : weak_order delivery_less.
Proof.
  unfold weak_order, delivery_less, Before. split_and!; intros; repeat case_match; lia.
Qed.

Lemma message_less_order : weak_order message_less.
Proof.
  destruct delivery_less_order as (H1 & H2 & H3). unfold message_less. split_and!; intros; eauto.
Qed.

Lemma StronglySorted_take_drop {A} (R : A -> A -> Prop) n l x y :
  StronglySorted R l -> x ∈ take n l -> y ∈ drop n l -> R x y.
Proof.
  revert n. induction l as [|z l IH]; intros [|n] Hs Hx Hy; cbn in *; [by apply elem_of_nil in Hx..|].
  apply StronglySorted_inv in Hs as [Hs Hz]. apply elem_of_cons in Hx as [->|Hx]; [|by apply (IH n)].
  rewrite Forall_forall in Hz. apply Hz.
  rewrite <- (take_drop n l). apply elem_of_app. by right.
Qed.

Lemma StronglySorted_take {A} (R : A -> A -> Prop) n l : StronglySorted R l -> StronglySorted R (take n l).
Proof.
  revert n. induction l as [|z l IH]; intros [|n] Hs; cbn; [constructor..|].
  apply StronglySorted_inv in Hs as [Hs Hz]. constructor; [by apply IH|]. by apply Forall_take.
Qed.

Lemma elem_of_list_filter {A} (f : A -> bool) l x : x ∈ List.filter f l <-> f x = true /\ x ∈ l.
Proof. rewrite !list_elem_of_In, List.filter_In. tauto. Qed.

(** A dequeue hands out the recipient's most urgent messages and loses nothing: it
    returns live messages addressed to the recipient, at most [limit], by falling
    priority and then arrival; what it returns and what stays is exactly what was
    live; and no message of the recipient that stays should have come first. *)
Theorem DequeueFor_delivers q d r now limit :
  let out := (DequeueFor q d r now limit).1 in
  let rest := q_messages (DequeueFor q d r now limit).2 in
  Permutation (out ++ rest) (live now (q_messages q)) /\
  Forall (fun m => addressed d r m = true) out /\
  StronglySorted (not_after message_less) out /\
  Z.of_nat (length out) <= Z.max 0 limit /\
  (forall m m', m ∈ out -> m' ∈ rest -> addressed d r m' = true -> message_less m' m = false) /\
  ((exists m', m' ∈ rest /\ addressed d r m' = true) -> Z.of_nat (length out) = Z.max 0 limit).
Proof.
  cbv zeta. split; [apply DequeueFor_perm|].
  pose proof (DequeueFor_eq q d r now limit) as E. cbv zeta in E. rewrite E. clear E.
  cbn [fst snd recalculateBytes q_messages].
  set (mine := List.filter (fun m => negb (expired now m) && addressed d r m) (q_messages q)).
  set (others := List.filter (fun m => negb (expired now m) && negb (addressed d r m)) (q_messages q)).
  pose proof (sort_permutes message_less mine) as Hp. pose proof (sort_orders message_less mine message_less_order) as Hs.
  set (sorted := sort_slice message_less mine) in *.
  assert (forall m, m ∈ sorted -> addressed d r m = true) as Hmine.
  { intros m Hm. rewrite Hp in Hm. subst mine. apply elem_of_list_filter in Hm as [Hm _]. by bool_prop. }
  assert (forall m, m ∈ others -> addressed d r m = false) as Hothers.
  { intros m Hm. subst others. apply elem_of_list_filter in Hm as [Hm _]. by bool_prop. }
  split_and!.
  - apply Forall_forall. intros m Hm. apply Hmine.
    rewrite <- (take_drop (Z.to_nat limit) sorted). apply elem_of_app. by left.
  - by apply StronglySorted_take.
  - rewrite length_take. lia.
  - intros m m' Hm Hm' Ha. apply elem_of_app in Hm' as [Hm'|Hm']; [apply Hothers in Hm'; congruence|].
    exact (StronglySorted_take_drop _ _ _ _ _ Hs Hm Hm').
  - intros (m' & Hm' & Ha). apply elem_of_app in Hm' as [Hm'|Hm']; [apply Hothers in Hm'; congruence|].
    rewrite length_take. assert (0 < length (drop (Z.to_nat limit) sorted))%nat as Hlen
      by (destruct (drop (Z.to_nat limit) sorted); [by apply elem_of_nil in Hm'|cbn; lia]).
    rewrite length_drop in Hlen. lia.
Qed.

End laws.

Import InsertionSort.

Definition toy_msg (id : string) (prio : Z) (size : nat) (queued : Z) : Message :=
  mkMessage "dom" id "alice" "bob" (replicate size x00) prio (mkTime 1000 0) (mkTime queued 0).

Definition toy_queue : Queue := (Enqueue (Enqueue (NewQueue 10) (toy_msg "a" 0 3 1) (mkTime 5 0)).2 (toy_msg "b" 5 4 2) (mkTime 6 0)).2.

Lemma queue_bounded_witness : UsedBytes toy_queue = total_bytes (q_messages toy_queue) /\ 0 <= UsedBytes toy_queue <= 10.
Proof.
  apply queue_bounded; [lia|]. unfold toy_queue.
  eapply rtc_l; [apply (step_enqueue _ (toy_msg "a" 0 3 1) (mkTime 5 0))|].
  eapply rtc_l; [apply step_enqueue|]. apply rtc_refl.
Defined.

Lemma DequeueFor_delivers_witness :
  map qm_MessageID (DequeueFor toy_queue "dom" "bob" (mkTime 7 0) 1).1 = ["b"] /\
  StronglySorted (not_after message_less) (DequeueFor toy_queue "dom" "bob" (mkTime 7 0) 1).1.
Proof.
  split; [vm_compute; reflexivity|]. apply (DequeueFor_delivers toy_queue "dom" "bob" (mkTime 7 0) 1).
Defined.
