(* ===== verification/Replay.v ===== *)
(** * Replay cache and rate limiter:
      [pkg/server/replay/replay.go] and [pkg/server/ratelimit/ratelimit.go]

    Both act under a mutex on a map keyed by strings. *)
From Stdlib Require Import ZArith Lia Strings.Byte.
From stdpp Require Import numbers gmap strings base list.
From S2P Require Import Prelude Errors GoTime Crypto Signed Identity.
Open Scope Z_scope.

(** ** The replay cache *)

Record Cache := mkCache { items : gmap string Time }.

Definition NewCache : Cache := mkCache ∅.

(** [Use]: drops what expired strictly before [now], then refuses a key that has
    not expired; the map is walked in any order, which makes no difference. *)
Definition Use (c : Cache) (key : string) (expiresAt now : Time) : bool * Cache :=
  let kept := filter (fun kv : string * Time => After now kv.2 = false) (items c) in
  match kept !! key with
  | Some exp =>
      if Before now exp then (false, mkCache kept) else (true, mkCache (<[key := expiresAt]> kept))
  | None => (true, mkCache (<[key := expiresAt]> kept))
  end.

(** A sequence of uses (key, expiry, time of the call). *)
Fixpoint use_all (c : Cache) (calls : list (string * Time * Time)) : list bool * Cache :=
  match calls with
  | [] => ([], c)
  | (k, e, now) :: calls =>
      let '(r, c) := Use c k e now in
      let '(rs, c) := use_all c calls in
      (r :: rs, c)
  end.

Lemma Use_lookup c key e now k :
  items (Use c key e now).2 !! k =
    if bool_decide (k = key) && (Use c key e now).1 then Some e
    else match items c !! k with
         | Some exp => if After now exp then None else Some exp
         | None => None
         end.
Proof.
  assert (filter (fun kv : string * Time => After now kv.2 = false) (items c) !! k =
    match items c !! k with Some exp => if After now exp then None else Some exp | None => None end) as Hf.
  { destruct (items c !! k) as [exp|] eqn:E.
    - destruct (After now exp) eqn:Ha.
      + apply map_lookup_filter_None_2. right. intros x Hx. rewrite E in Hx. injection Hx as <-. cbn. congruence.
      + by apply map_lookup_filter_Some_2.
    - apply map_lookup_filter_None_2. by left. }
  unfold Use. cbv zeta.
  destruct (filter (fun kv : string * Time => After now kv.2 = false) (items c) !! key) as [exp|] eqn:Ek;
    [destruct (Before now exp)|]; cbn [fst snd items]; rewrite ?andb_false_r, ?andb_true_r; [exact Hf|..];
    case_bool_decide; subst; rewrite ?lookup_insert_eq, ?lookup_insert_ne by done; done.
Qed.

Lemma Use_refuses c key e now exp :
  items c !! key = Some exp -> Before now exp = true -> (Use c key e now).1 = false.
Proof.
  intros Hk Hb. unfold Use. cbv zeta. erewrite map_lookup_filter_Some_2; [by rewrite Hb|exact Hk|].
  cbn. unfold After, Before in *. lia.
Qed.

(** A key is used once in its lifetime: after an accepted use that expires at
    [e], whatever other keys are used in between (at times up to then), every use
    of the key before [e] is refused. *)
Theorem replay_refused c key e now calls now' e' :
  (Use c key e now).1 = true ->
  Forall (fun call => ns call.2 <= ns now' /\ call.1.1 <> key) calls -> ns now' < ns e ->
  let c' := (use_all (Use c key e now).2 calls).2 in (Use c' key e' now').1 = false.
Proof.
  intros Hu Hc Hnow. cbv zeta. apply Use_refuses with e; [|unfold Before; lia].
  assert (items (Use c key e now).2 !! key = Some e) as Hin
    by (rewrite Use_lookup, Hu, bool_decide_true by done; done).
  revert Hin. generalize (Use c key e now).2. clear Hu c.
  induction Hc as [|[[k1 e1] now1] calls [Ht Hne] _ IH]; intros c Hin; [done|].
  cbn [use_all]. destruct (Use c k1 e1 now1) as [r c1] eqn:E. destruct (use_all c1 calls) as [rs c2] eqn:E2.
  cbn [snd]. specialize (IH c1). rewrite E2 in IH. apply IH.
  pose proof (Use_lookup c k1 e1 now1 key) as Hl. rewrite E in Hl. cbn [snd fst] in Hl, Hne, Ht. rewrite Hl.
  rewrite bool_decide_false by congruence. cbn [andb]. rewrite Hin. unfold After.
  by replace (ns e <? ns now1) with false by lia.
Qed.

Lemma replay_refused_witness :
  (Use (use_all (Use NewCache "k" (mkTime 100 0) (mkTime 1 0)).2 [("other", mkTime 50 0, mkTime 60 0)]).2 "k"
     (mkTime 300 0) (mkTime 99 0)).1 = false.
Proof.
  apply (replay_refused NewCache "k" (mkTime 100 0) (mkTime 1 0) [("other", mkTime 50 0, mkTime 60 0)] (mkTime 99 0)
    (mkTime 300 0)).
  - vm_compute. reflexivity.
  - constructor; [|constructor]. split; [vm_compute; discriminate|discriminate].
  - vm_compute. reflexivity.
Defined.

Section proofs.
  Context {C : CryptoOps}.

(** The last instant of the window is open to a replay: a proof is still valid
    exactly [ttl] after its issue, while the cache that remembers its nonce until
    then no longer refuses the nonce at that instant. *)
Theorem replay_window_boundary c key issued ttl now :
  0 <= ttl < maxDuration -> (Use c key (Add issued ttl) now).1 = true -> ns now <= ns issued + ttl ->
  let boundary := Add issued ttl in
  (ttl <? Sub boundary issued) || After issued (Add boundary ttl) = false /\
  (Use (Use c key (Add issued ttl) now).2 key (Add issued ttl) boundary).1 = true.
Proof.
  intros Httl Hu Hnow. cbv zeta. split.
  - apply proof_window; [done|]. cbn [ns Add]. lia.
  - unfold Use at 1. cbv zeta.
    destruct (filter _ (items (Use c key (Add issued ttl) now).2) !! key) as [exp|] eqn:E; [|done].
    apply map_lookup_filter_Some in E as [E _]. rewrite Use_lookup, Hu, bool_decide_true in E by done.
    cbn [andb] in E. injection E as <-. unfold Before. by rewrite Z.ltb_irrefl.
Qed.

End proofs.

Lemma replay_window_boundary_witness :
  (Use (Use NewCache "n" (Add t0 (60 * Second)) t0).2 "n" (Add t0 (60 * Second)) (Add t0 (60 * Second))).1 = true.
Proof.
  apply (replay_window_boundary NewCache "n" t0 (60 * Second) t0);
    [split; vm_compute; done|vm_compute; reflexivity|vm_compute; discriminate].
Defined.

(** ** The rate limiter *)

Record counter := mkCounter { ct_count : Z; ct_reset : Time }.

Record Limiter := mkLimiter { rl_limit : Z; rl_window : Z; rl_counters : gmap string counter }.

Definition NewLimiter (limit window : Z) : Limiter := mkLimiter limit window ∅.

Definition Allow (l : Limiter) (key : string) (now : Time) : bool * Limiter :=
  let c := default (mkCounter 0 zeroTime) (rl_counters l !! key) in
  let c := if IsZero (ct_reset c) || After now (ct_reset c) then mkCounter 0 (Add now (rl_window l)) else c in
  if rl_limit l <=? ct_count c
  then (false, mkLimiter (rl_limit l) (rl_window l) (<[key := c]> (rl_counters l)))
  else (true, mkLimiter (rl_limit l) (rl_window l)
                (<[key := mkCounter (wrap_i64 (ct_count c + 1)) (ct_reset c)]> (rl_counters l))).

Fixpoint allow_all (l : Limiter) (calls : list (string * Time)) : list bool :=
  match calls with
  | [] => []
  | (k, now) :: calls => let '(r, l) := Allow l k now in r :: allow_all l calls
  end.

(** The number of admitted calls for [key]. *)
Fixpoint admitted (key : string) (calls : list (string * Time)) (rs : list bool) : Z :=
  match calls, rs with
  | c :: calls, r :: rs => (if bool_decide (c.1 = key) && r then 1 else 0) + admitted key calls rs
  | _, _ => 0
  end.

(** The counters stay between zero and the limit. *)
Definition limiter_ok (l : Limiter) : Prop :=
  0 <= rl_limit l < 2 ^ 62 /\ forall k c, rl_counters l !! k = Some c -> 0 <= ct_count c <= rl_limit l.

Lemma Allow_ok l k now : limiter_ok l -> limiter_ok (Allow l k now).2.
Proof.
  intros [Hl Hc]. unfold Allow. cbv zeta.
  set (c := default (mkCounter 0 zeroTime) (rl_counters l !! k)).
  assert (0 <= ct_count c <= rl_limit l) as H0.
  { subst c. destruct (rl_counters l !! k) eqn:E; cbn; [by apply (Hc k)|lia]. }
  set (c' := if _ || _ then _ else c). assert (0 <= ct_count c' <= rl_limit l) as H1
    by (subst c'; destruct (_ || _); cbn; [lia|exact H0]).
  clearbody c' c. destruct (Z.leb_spec (rl_limit l) (ct_count c')); (split; [done|]); intros j d; cbn [snd rl_counters];
    (destruct (decide (j = k)) as [->|]; [rewrite lookup_insert_eq; intros [= <-]
                                         |rewrite lookup_insert_ne by done; apply Hc]); [done|].
  cbn [ct_count rl_limit snd]. rewrite wrap_i64_id by (unfold in_i64; lia). lia.
Qed.

Lemma Allow_limit l k now : rl_limit (Allow l k now).2 = rl_limit l /\ rl_window (Allow l k now).2 = rl_window l.
Proof. unfold Allow. cbv zeta. by destruct (_ <=? _). Qed.

Lemma Allow_other l k now j : j <> k -> rl_counters (Allow l k now).2 !! j = rl_counters l !! j.
Proof. intros Hne. unfold Allow. cbv zeta. destruct (_ <=? _); cbn [snd rl_counters]; by rewrite lookup_insert_ne. Qed.

(** Within a window that lasts until [reset], a key's remaining admissions. *)
Lemma admitted_window calls l key c :
  limiter_ok l -> rl_counters l !! key = Some c -> IsZero (ct_reset c) = false ->
  Forall (fun call => ns call.2 <= ns (ct_reset c)) calls ->
  admitted key calls (allow_all l calls)
  = Z.min (Z.of_nat (length (List.filter (fun call => bool_decide (call.1 = key)) calls))) (rl_limit l - ct_count c).
Proof.
  revert l c. induction calls as [|[k now] calls IH]; intros l c Hok Hc Hz Hf.
  - cbn. destruct Hok as [_ Hok]. specialize (Hok _ _ Hc). lia.
  - apply Forall_cons in Hf as [Hnow Hf]. cbn [snd] in Hnow. cbn [allow_all].
    pose proof (Allow_ok l k now Hok) as Hok'. pose proof (Allow_limit l k now) as [Hlim _].
    pose proof (Allow_other l k now key) as Hoth.
    destruct (Allow l k now) as [r l'] eqn:E. cbn [snd] in *. cbn [admitted List.filter fst].
    destruct Hok as [Hl0 Hok]. specialize (Hok _ _ Hc).
    destruct (bool_decide_reflect (k = key)) as [->|Hne]; cbn [andb length].
    + unfold Allow in E. rewrite Hc in E. cbn [default from_option Datatypes.id] in E. cbv zeta in E.
      rewrite Hz in E. unfold After in E. replace (ns (ct_reset c) <? ns now) with false in E by lia. cbn [orb] in E.
      destruct (Z.leb_spec (rl_limit l) (ct_count c)); injection E as <- <-.
      * rewrite (IH _ c Hok'); [cbn [rl_limit]; lia|cbn; apply lookup_insert_eq|done|done].
      * rewrite (IH _ (mkCounter (wrap_i64 (ct_count c + 1)) (ct_reset c)) Hok');
          [|cbn; apply lookup_insert_eq|done|done].
        cbn [rl_limit ct_count]. rewrite wrap_i64_id by (unfold in_i64; lia). lia.
    + rewrite (IH l' c Hok'), Hlim; [lia|by rewrite Hoth|done|done].
Qed.

(** The limiter admits exactly its limit per window: from the first call of a key
    on a fresh limiter until its window ends, of the calls for the key in any mix
    with others, the first [limit] are admitted and the rest are not. *)
Theorem ratelimit_exact limit window key now calls :
  0 <= limit < 2 ^ 62 -> 0 < ns now + window ->
  Forall (fun call => ns call.2 <= ns now + window) calls ->
  admitted key ((key, now) :: calls) (allow_all (NewLimiter limit window) ((key, now) :: calls))
  = Z.min (1 + Z.of_nat (length (List.filter (fun call => bool_decide (call.1 = key)) calls))) limit.
Proof.
  intros Hl Hw Hc. cbn [allow_all].
  assert (limiter_ok (NewLimiter limit window)) as Hok by (split; [exact Hl|intros k c; cbn [NewLimiter rl_counters]; rewrite lookup_empty; discriminate]).
  pose proof (Allow_ok _ key now Hok) as Hok'.
  unfold Allow in *. cbn [rl_counters rl_limit rl_window NewLimiter] in *. rewrite lookup_empty in *.
  cbn [default from_option Datatypes.id] in *. cbv zeta in *. cbn [ct_reset IsZero zeroTime ns Z.eqb orb ct_count] in *.
  destruct (Z.leb_spec limit 0); cbn [snd] in Hok'; cbn [admitted fst andb]; rewrite bool_decide_true by done; cbn [andb].
  - rewrite (admitted_window calls _ key (mkCounter 0 (Add now window)) Hok');
      [cbn [rl_limit ct_count]; lia|apply lookup_insert_eq|unfold IsZero; cbn; lia|exact Hc].
  - rewrite (admitted_window calls _ key (mkCounter (wrap_i64 (0 + 1)) (Add now window)) Hok');
      [|apply lookup_insert_eq|unfold IsZero; cbn; lia|exact Hc].
    cbn [rl_limit ct_count]. change (wrap_i64 (0 + 1)) with 1. lia.
Qed.

Lemma ratelimit_exact_witness :
  admitted "k" [("k", mkTime 1 0); ("j", mkTime 2 0); ("k", mkTime 3 0); ("k", mkTime 4 0)]
    (allow_all (NewLimiter 2 100) [("k", mkTime 1 0); ("j", mkTime 2 0); ("k", mkTime 3 0); ("k", mkTime 4 0)]) = 2.
Proof.
  apply (ratelimit_exact 2 100 "k" (mkTime 1 0) [("j", mkTime 2 0); ("k", mkTime 3 0); ("k", mkTime 4 0)]);
    [lia|cbn; lia|]. repeat (constructor; [cbn; lia|]). constructor.
Defined.
