(* ===== verification/Uuid.v ===== *)
(** * Identifiers of database rows: [pkg/server/postgres/uuid.go]

    Time-ordered random identifiers: 48 bits of Unix milliseconds, then random
    bits with the version and variant of a UUID of version 7. *)
From Stdlib Require Import ZArith Lia Strings.Byte.
From stdpp Require Import numbers strings base list.
From S2P Require Import Prelude Errors GoTime Sha256 Crypto Sorting.
Open Scope Z_scope.

(** ** Byte order, in which Go compares strings *)

Fixpoint bytes_ltb (a b : bytes) : bool :=
  match a, b with
  | x :: a, y :: b => (b2z x <? b2z y) || (b2z x =? b2z y) && bytes_ltb a b
  | [], _ :: _ => true
  | _, [] => false
  end.

Definition string_ltb (s t : string) : bool := bytes_ltb (go_bytes s) (go_bytes t).

(** ** The operations *)

Definition uint64_of (b : bytes) : Z := foldl (fun acc x => acc * 256 + b2z x) 0 b.

Definition NewUUIDv7Like (now : Time) (rand : reader) : result bytes * reader :=
  let ms := wrap_u64 (UnixMilli now) in
  let encoded := be_bytes 8 ms in
  match ReadFull 10 rand with
  | (None, rand) => (Err err_eof, rand)
  | (Some tail, rand) =>
      let id := take 6 (drop 2 encoded) ++ tail in
      let id := alter (fun b => z2b (Z.lor (Z.land (b2z b) 15) 112)) 6%nat id in
      let id := alter (fun b => z2b (Z.lor (Z.land (b2z b) 63) 128)) 8%nat id in
      (Ok id, rand)
  end.

Definition hex_digit (n : Z) : byte := if n <? 10 then z2b (48 + n) else z2b (87 + n).

Definition stringHex (b : bytes) : bytes :=
  flat_map (fun v => [hex_digit (Z.shiftr (b2z v) 4); hex_digit (Z.land (b2z v) 15)]) b.

(** [id[i:j]]. *)
Definition slice (i j : nat) (id : bytes) : bytes := take (j - i) (drop i id).

Definition UUIDString (id : bytes) : string :=
  go_string (stringHex (slice 0 4 id) ++ "-"%byte :: stringHex (slice 4 6 id) ++ "-"%byte ::
             stringHex (slice 6 8 id) ++ "-"%byte :: stringHex (slice 8 10 id) ++ "-"%byte ::
             stringHex (slice 10 16 id)).

Definition UUIDTimePrefix (id : bytes) : Z := uint64_of (replicate 2 x00 ++ take 6 id).

(** ** Lemmas on the order *)

Lemma bytes_ltb_irrefl a : bytes_ltb a a = false.
Proof. induction a as [|x a IH]; cbn; [done|]. rewrite IH. lia. Qed.

Lemma bytes_ltb_trans a b c : bytes_ltb a b = true -> bytes_ltb b c = true -> bytes_ltb a c = true.
Proof.
  revert b c. induction a as [|x a IH]; intros [|y b] [|z c]; cbn; try done.
  intros [H|[H1 H2]%andb_true_iff]%orb_true_iff [H'|[H1' H2']%andb_true_iff]%orb_true_iff;
    apply orb_true_iff; [left; lia..|]. right. rewrite (IH b c) by done. lia.
Qed.

Lemma bytes_ltb_total a b : bytes_ltb a b = false -> bytes_ltb b a = false -> a = b.
Proof.
  revert b. induction a as [|x a IH]; intros [|y b]; cbn; try done.
  intros [H1 H2]%orb_false_iff [H3 H4]%orb_false_iff.
  assert (b2z x = b2z y) as Hxy by lia. rewrite Hxy, Z.eqb_refl in H2, H4. cbn in H2, H4.
  rewrite (IH b) by done. by rewrite (b2z_inj x y).
Qed.

Lemma string_ltb_trans s t u : string_ltb s t = true -> string_ltb t u = true -> string_ltb s u = true.
Proof. apply bytes_ltb_trans. Qed.

Lemma string_ltb_irrefl s : string_ltb s s = false.
Proof. apply bytes_ltb_irrefl. Qed.

Lemma string_ltb_total s t : string_ltb s t = false -> string_ltb t s = false -> s = t.
Proof. intros H1 H2. apply (inj go_bytes). by apply bytes_ltb_total. Qed.

(** Sorting by a string. *)
Lemma string_weak_order {A} (key : A -> string) : weak_order (fun a b => string_ltb (key a) (key b)).
Proof.
  split_and!.
  - intros r. apply string_ltb_irrefl.
  - intros a b Hab. destruct (string_ltb (key b) (key a)) eqn:E; [|done].
    pose proof (string_ltb_trans _ _ _ Hab E) as Hc. by rewrite string_ltb_irrefl in Hc.
  - intros a b c Hab Hbc. destruct (string_ltb (key a) (key c)) eqn:E; [|done].
    destruct (string_ltb (key c) (key b)) eqn:Ecb.
    + by rewrite (string_ltb_trans _ _ _ E Ecb) in Hab.
    + rewrite (string_ltb_total _ _ Hbc Ecb) in Hab. congruence.
Qed.

Lemma bytes_ltb_app a b r s :
  length a = length b -> bytes_ltb a b = true -> bytes_ltb (a ++ r) (b ++ s) = true.
Proof.
  revert b. induction a as [|x a IH]; intros [|y b] Hl; cbn; try done.
  intros [H|[H1 H2]%andb_true_iff]%orb_true_iff; apply orb_true_iff; [by left|right].
  injection Hl as Hl. by rewrite (IH b), H1.
Qed.

Lemma bytes_ltb_app_same a r s : bytes_ltb (a ++ r) (a ++ s) = bytes_ltb r s.
Proof. induction a as [|x a IH]; cbn; [done|]. rewrite IH, Z.ltb_irrefl, Z.eqb_refl. done. Qed.

(** Big-endian numbers compare as their bytes do. *)
Lemma be_bytes_ltb n a b :
  0 <= a < 256 ^ Z.of_nat n -> 0 <= b < 256 ^ Z.of_nat n -> a < b ->
  bytes_ltb (be_bytes n a) (be_bytes n b) = true.
Proof.
  revert a b. induction n as [|n IH]; intros a b Ha Hb Hab;
    [change (256 ^ Z.of_nat 0) with 1 in *; lia|].
  rewrite Nat2Z.inj_succ, Z.pow_succ_r in Ha, Hb by lia. cbn [be_bytes].
  destruct (decide (a / 256 = b / 256)) as [Hq|Hq].
  - rewrite Hq, bytes_ltb_app_same. cbn. unfold z2b.
    assert (b2z (z2b a) < b2z (z2b b)) as Hlt; [|unfold z2b in Hlt; lia].
    assert (forall z, b2z (z2b z) = z mod 256) as Hz.
    { intros z. replace (z2b z) with (z2b (z mod 256)) by (unfold z2b; by rewrite Zmod_mod).
      apply b2z_z2b. divmod_lia. }
    rewrite !Hz. divmod_lia.
  - apply bytes_ltb_app; [by rewrite !be_bytes_length|]. apply IH; [divmod_lia..|]. divmod_lia.
Qed.

Lemma hex_digit_val n : 0 <= n < 16 -> b2z (hex_digit n) = if n <? 10 then 48 + n else 87 + n.
Proof. intros Hn. unfold hex_digit. destruct (n <? 10) eqn:E; apply b2z_z2b; lia. Qed.

Lemma nibbles v : let n := b2z v in
  0 <= Z.shiftr n 4 < 16 /\ 0 <= Z.land n 15 < 16 /\ n = 16 * Z.shiftr n 4 + Z.land n 15.
Proof.
  cbv zeta. pose proof (b2z_range v). rewrite Z.shiftr_div_pow2 by lia.
  change 15 with (Z.ones 4). rewrite Z.land_ones by lia. change (2 ^ 4) with 16. divmod_lia.
Qed.

Lemma stringHex_ltb a b :
  length a = length b -> bytes_ltb a b = true -> bytes_ltb (stringHex a) (stringHex b) = true.
Proof.
  revert b. induction a as [|x a IH]; intros [|y b] Hl; cbn -[hex_digit Z.shiftr Z.land]; try done.
  pose proof (nibbles x) as (Hx1 & Hx2 & Hx). pose proof (nibbles y) as (Hy1 & Hy2 & Hy).
  rewrite !hex_digit_val by done. injection Hl as Hl.
  set (x1 := Z.shiftr (b2z x) 4) in *. set (x2 := Z.land (b2z x) 15) in *.
  set (y1 := Z.shiftr (b2z y) 4) in *. set (y2 := Z.land (b2z y) 15) in *. clearbody x1 x2 y1 y2.
  intros [H|[H1 H2]%andb_true_iff]%orb_true_iff.
  - destruct (x1 <? 10) eqn:?, (x2 <? 10) eqn:?, (y1 <? 10) eqn:?, (y2 <? 10) eqn:?; lia.
  - assert (x1 = y1 /\ x2 = y2) as [-> ->] by lia. specialize (IH b Hl H2). unfold stringHex in IH.
    rewrite IH. rewrite !Z.eqb_refl. cbn [andb]. by rewrite !orb_true_r.
Qed.

Lemma stringHex_length b : length (stringHex b) = (2 * length b)%nat.
Proof. unfold stringHex. induction b; cbn -[Z.land Z.shiftr] in *; lia. Qed.

(** ** What an identifier is *)

(** The bytes of a fresh identifier: six of time, then the random ones with the
    version and variant set. *)
Lemma NewUUIDv7Like_bytes now rand id rand' :
  NewUUIDv7Like now rand = (Ok id, rand') ->
  exists tail, length tail = 10%nat /\ id = be_bytes 6 (wrap_u64 (UnixMilli now)) ++
    alter (fun b => z2b (Z.lor (Z.land (b2z b) 15) 112)) 0%nat
      (alter (fun b => z2b (Z.lor (Z.land (b2z b) 63) 128)) 2%nat tail).
Proof.
  unfold NewUUIDv7Like, ReadFull. cbv zeta. destruct (length rand <? 10)%nat eqn:El; [done|].
  apply Nat.ltb_ge in El. intros H. apply (f_equal fst) in H. cbn [fst] in H. apply (inj Ok) in H as <-.
  exists (take 10 rand). rewrite length_take. split; [lia|].
  do 10 (destruct rand as [|? rand]; [cbn in El; lia|]). reflexivity.
Qed.

Lemma uint64_of_be n z : uint64_of (be_bytes n z) = z mod 256 ^ Z.of_nat n.
Proof.
  unfold uint64_of. revert z. induction n as [|n IH]; intros z; [symmetry; apply Z.mod_1_r|].
  cbn [be_bytes]. rewrite foldl_snoc, IH, Nat2Z.inj_succ, Z.pow_succ_r by lia.
  replace (b2z (z2b z)) with (z mod 256).
  - rewrite Z.rem_mul_r by lia. lia.
  - replace (z2b z) with (z2b (z mod 256)) by (unfold z2b; by rewrite Zmod_mod).
    symmetry. apply b2z_z2b. divmod_lia.
Qed.

Lemma version_bits b : Z.shiftr (b2z (z2b (Z.lor (Z.land (b2z b) 15) 112))) 4 = 7.
Proof. destruct b; vm_compute; reflexivity. Qed.

Lemma variant_bits b : Z.shiftr (b2z (z2b (Z.lor (Z.land (b2z b) 63) 128))) 6 = 2.
Proof. destruct b; vm_compute; reflexivity. Qed.

Lemma time_prefix ms : uint64_of (replicate 2 x00 ++ be_bytes 6 (wrap_u64 ms)) = ms mod 2 ^ 48.
Proof.
  transitivity (uint64_of (be_bytes 6 (wrap_u64 ms))); [unfold uint64_of; rewrite foldl_app; reflexivity|].
  rewrite uint64_of_be. unfold wrap_u64. change (256 ^ Z.of_nat 6) with (2 ^ 48).
  change (2 ^ 64) with (2 ^ 48 * 2 ^ 16). rewrite Z.rem_mul_r by lia.
  rewrite Z.mul_comm, Z.mod_add, Zmod_mod by lia. done.
Qed.

Lemma UUIDString_length id : length id = 16%nat -> length (go_bytes (UUIDString id)) = 36%nat.
Proof.
  intros Hl. unfold UUIDString, slice. rewrite go_bytes_string.
  repeat (rewrite length_app || cbn [length]). rewrite !stringHex_length, !length_take, !length_drop, Hl. reflexivity.
Qed.

(** The text of an identifier compares as its first six bytes do. *)
Lemma UUIDString_ltb p q r s :
  length p = 6%nat -> length q = 6%nat -> bytes_ltb p q = true ->
  string_ltb (UUIDString (p ++ r)) (UUIDString (q ++ s)) = true.
Proof.
  intros Hp Hq Hlt. unfold string_ltb, UUIDString, slice. rewrite !go_bytes_string.
  rewrite <- (take_drop 4 p), <- (take_drop 4 q) in Hlt |- *.
  assert (length (take 4 p) = 4%nat /\ length (drop 4 p) = 2%nat) as [Hp1 Hp2]
    by (rewrite length_take, length_drop; lia).
  assert (length (take 4 q) = 4%nat /\ length (drop 4 q) = 2%nat) as [Hq1 Hq2]
    by (rewrite length_take, length_drop; lia).
  set (p1 := take 4 p) in *. set (p2 := drop 4 p) in *. set (q1 := take 4 q) in *. set (q2 := drop 4 q) in *.
  clearbody p1 p2 q1 q2. rewrite <- !app_assoc, !drop_0.
  change (4 - 0)%nat with 4%nat. change (6 - 4)%nat with 2%nat.
  rewrite (take_app_length' p1), (take_app_length' q1), (drop_app_length' p1 _ 4), (drop_app_length' q1 _ 4) by done.
  rewrite (take_app_length' p2), (take_app_length' q2) by done.
  destruct (decide (p1 = q1)) as [->|Hne].
  - rewrite bytes_ltb_app_same in Hlt |- *. cbn [bytes_ltb]. rewrite Z.ltb_irrefl, Z.eqb_refl. cbn [orb andb].
    apply bytes_ltb_app; [rewrite !stringHex_length; lia|]. apply stringHex_ltb; [lia|done].
  - apply bytes_ltb_app; [rewrite !stringHex_length; lia|]. apply stringHex_ltb; [lia|].
    destruct (bytes_ltb p1 q1) eqn:E1; [done|]. destruct (bytes_ltb q1 p1) eqn:E2.
    + exfalso. assert (bytes_ltb (q1 ++ q2) (p1 ++ p2) = true) as Hgt by (apply bytes_ltb_app; [lia|done]).
      pose proof (bytes_ltb_trans _ _ _ Hlt Hgt) as Hc. by rewrite bytes_ltb_irrefl in Hc.
    + exfalso. by apply Hne, bytes_ltb_total.
Qed.

(** A fresh identifier is a UUID of version 7 whose first 48 bits are the Unix
    milliseconds of its creation; its text has 36 characters, and the text of an
    identifier made at a later millisecond is greater in byte order, whatever the
    random bits are: sorting by identifier sorts by creation. *)
Theorem uuid_time_ordered now rand id rand' :
  NewUUIDv7Like now rand = (Ok id, rand') ->
  length id = 16%nat /\ (exists b, id !! 6%nat = Some b /\ Z.shiftr (b2z b) 4 = 7) /\
  (exists b, id !! 8%nat = Some b /\ Z.shiftr (b2z b) 6 = 2) /\
  UUIDTimePrefix id = UnixMilli now mod 2 ^ 48 /\
  length (go_bytes (UUIDString id)) = 36%nat /\
  forall now2 rand2 id2 rand2',
    NewUUIDv7Like now2 rand2 = (Ok id2, rand2') ->
    0 <= UnixMilli now < UnixMilli now2 -> UnixMilli now2 < 2 ^ 48 ->
    string_ltb (UUIDString id) (UUIDString id2) = true.
Proof.
  intros (tail & Ht & ->)%NewUUIDv7Like_bytes.
  pose proof (be_bytes_length 6 (wrap_u64 (UnixMilli now))) as H6.
  split_and!.
  - rewrite length_app, !length_alter. lia.
  - do 10 (destruct tail as [|? tail]; [done|]). eexists. split; [reflexivity|]. apply version_bits.
  - do 10 (destruct tail as [|? tail]; [done|]). eexists. split; [reflexivity|]. apply variant_bits.
  - unfold UUIDTimePrefix. rewrite take_app_length' by done. exact (time_prefix (UnixMilli now)).
  - apply UUIDString_length. rewrite length_app, !length_alter. lia.
  - intros now2 rand2 id2 rand2' (tail2 & Ht2 & ->)%NewUUIDv7Like_bytes Hlt Hmax.
    apply UUIDString_ltb; [by rewrite !be_bytes_length..|].
    rewrite !wrap_u64_id by (unfold in_u64; lia). apply be_bytes_ltb; change (256 ^ Z.of_nat 6) with (2 ^ 48); lia.
Qed.

Lemma uuid_time_ordered_witness :
  UUIDTimePrefix (match (NewUUIDv7Like (mkTime ((unixToInternal + 1) * Second) 0) (replicate 10 xff)).1 with
                  | Ok id => id | Err _ => [] end) = 1000.
Proof.
  destruct (uuid_time_ordered (mkTime ((unixToInternal + 1) * Second) 0) (replicate 10 xff) _ [] eq_refl)
    as (_ & _ & _ & Hp & _).
  vm_compute in Hp |- *. exact Hp.
Defined.
