(* ===== verification/Keyring.v ===== *)
(** * Signing keys and permission policy of the trust root:
      [pkg/server/keyring/keyring.go] and [pkg/server/policy/policy.go] *)
From Stdlib Require Import ZArith Lia Strings.Byte.
From stdpp Require Import numbers gmap strings base list.
From S2P Require Import Prelude Errors GoTime Crypto.
Open Scope Z_scope.

(** ** Iteration over a Go map

    [range] visits the entries of a map once each, in an order the language leaves
    open: the order is a parameter with that contract. *)

Class MapRange := { map_range {A : Type} : gmap string A -> list (string * A) }.

Class MapRangeLaws (R : MapRange) := {
  map_range_perm {A} (m : gmap string A) : Permutation (map_range m) (map_to_list m)
}.

(** ** The key ring *)

Inductive KeyState := StateNext | StateActive | StateRetired | StateRevoked.

#[export] Instance KeyState_eq_dec : EqDecision KeyState.
Proof. solve_decision. Defined.

Definition state_string (s : KeyState) : string :=
  match s with
  | StateNext => "next"
  | StateActive => "active"
  | StateRetired => "retired"
  | StateRevoked => "revoked"
  end.

Record Key := mkKey {
  k_ID : string;
  k_State : KeyState;
  k_Private : Ed25519PrivateKey;
  k_Public : Ed25519PublicKey
}.

Record Ring := mkRing { ring_keys : gmap string Key }.

Definition NewRing : Ring := mkRing ∅.

Definition AddKey (r : Ring) (key : Key) : Ring := mkRing (<[k_ID key := key]> (ring_keys r)).

Definition with_state (key : Key) (s : KeyState) : Key := mkKey (k_ID key) s (k_Private key) (k_Public key).

Definition is_active (key : Key) : bool := bool_decide (k_State key = StateActive).

Definition Get (r : Ring) (id : string) : result Key :=
  match ring_keys r !! id with
  | Some key =>
      if bool_decide (k_State key = StateRevoked) then Err (New CodeKeyInvalid "signing key not found") else Ok key
  | None => Err (New CodeKeyInvalid "signing key not found")
  end.

Section ring.
  Context {R : MapRange}.

Definition Active (r : Ring) : result Key :=
  match List.find is_active (map_range (ring_keys r)).*2 with
  | Some key => Ok key
  | None => Err (New CodeKeyInvalid "active signing key not found")
  end.

Definition Keys (r : Ring) : list Key := (map_range (ring_keys r)).*2.

(** The loop of [Rotate]: an active key met is written back retired. *)
Definition retire_active (entries : list (string * Key)) (keys : gmap string Key) : gmap string Key :=
  foldl (fun keys e => if is_active e.2 then <[e.1 := with_state e.2 StateRetired]> keys else keys) keys entries.

Definition Rotate (r : Ring) (nextID : string) : result unit * Ring :=
  match ring_keys r !! nextID with
  | Some next =>
      if bool_decide (k_State next = StateNext)
      then (Ok tt, mkRing (<[nextID := with_state next StateActive]>
                             (retire_active (map_range (ring_keys r)) (ring_keys r))))
      else (Err (New CodeKeyInvalid "next key not found"), r)
  | None => (Err (New CodeKeyInvalid "next key not found"), r)
  end.

Context {L : MapRangeLaws R}.

Lemma retire_active_lookup entries keys id :
  NoDup entries.*1 -> (forall e, e ∈ entries -> keys !! e.1 = Some e.2) ->
  retire_active entries keys !! id =
    match keys !! id with
    | Some key => if bool_decide (id ∈ entries.*1) && is_active key then Some (with_state key StateRetired) else Some key
    | None => None
    end.
Proof.
  revert keys. induction entries as [|[i key] entries IH]; intros keys Hd Hin; [cbn; by destruct (keys !! id)|].
  cbn [fmap list_fmap fst] in Hd. apply NoDup_cons in Hd as [Hi Hd]. cbn [retire_active foldl fst snd].
  pose proof (Hin (i, key) ltac:(left)) as Hik. cbn [fst snd] in Hik.
  unfold retire_active in IH. rewrite IH; [|done|].
  - cbn [fmap list_fmap fst]. destruct (decide (id = i)) as [->|Hne].
    + rewrite (bool_decide_false (i ∈ entries.*1)), (bool_decide_true (i ∈ i :: entries.*1)) by (done || left).
      rewrite Hik. destruct (is_active key) eqn:Ea; [rewrite lookup_insert_eq|rewrite Hik]; done.
    + rewrite (bool_decide_ext (id ∈ i :: entries.*1) (id ∈ entries.*1)) by set_solver.
      destruct (is_active key); [by rewrite lookup_insert_ne|done].
  - intros e He. assert (i <> e.1) by (intros ->; apply Hi; by apply list_elem_of_fmap_2).
    destruct (is_active key); [rewrite lookup_insert_ne by done|]; apply Hin; by right.
Qed.

Lemma range_nodup {A} (m : gmap string A) : NoDup (map_range m).*1.
Proof. rewrite map_range_perm. apply NoDup_fst_map_to_list. Qed.

Lemma range_elem {A} (m : gmap string A) e : e ∈ map_range m <-> m !! e.1 = Some e.2.
Proof. rewrite map_range_perm. destruct e. apply elem_of_map_to_list. Qed.

(** The keys after a rotation. *)
Lemma Rotate_lookup r nextID next id :
  ring_keys r !! nextID = Some next -> k_State next = StateNext ->
  ring_keys (Rotate r nextID).2 !! id =
    if bool_decide (id = nextID) then Some (with_state next StateActive)
    else (fun key => if is_active key then with_state key StateRetired else key) <$> ring_keys r !! id.
Proof.
  intros Hn Hs. unfold Rotate. rewrite Hn, bool_decide_true by done. cbn [snd ring_keys].
  case_bool_decide as Hid; [subst; apply lookup_insert_eq|]. rewrite lookup_insert_ne by done.
  rewrite retire_active_lookup; [|apply range_nodup|intros e; apply range_elem].
  destruct (ring_keys r !! id) as [key|] eqn:E; cbn [fmap option_fmap option_map]; [|done].
  rewrite bool_decide_true; [by destruct (is_active key)|].
  apply (list_elem_of_fmap_2' fst _ (id, key)); [by apply range_elem|done].
Qed.

Lemma Active_spec r key :
  Active r = Ok key -> exists id, ring_keys r !! id = Some key /\ k_State key = StateActive.
Proof.
  unfold Active. destruct (List.find _ _) as [k|] eqn:E; [|done]. intros [= <-].
  apply find_some in E as [E Ha]. apply list_elem_of_In, list_elem_of_fmap in E as ([id k'] & -> & E).
  apply range_elem in E. exists id. split; [done|]. unfold is_active in Ha. by bool_prop.
Qed.

Lemma Active_total r id key :
  ring_keys r !! id = Some key -> k_State key = StateActive -> exists key', Active r = Ok key'.
Proof.
  intros Hk Hs. unfold Active. destruct (List.find _ _) as [k|] eqn:E; [by eexists|].
  eapply find_none in E; [|apply list_elem_of_In, (list_elem_of_fmap_2' snd _ (id, key));
    [by apply range_elem|done]]. cbn [snd] in E. unfold is_active in E. by bool_prop.
Qed.

(** Exactly one key of the ring is active, the one under [id]. *)
Definition one_active (r : Ring) (id : string) : Prop :=
  exists key, ring_keys r !! id = Some key /\ k_State key = StateActive /\
  forall id' key', ring_keys r !! id' = Some key' -> k_State key' = StateActive -> id' = id.

Lemma Rotate_one_active r nextID next :
  ring_keys r !! nextID = Some next -> k_State next = StateNext -> one_active (Rotate r nextID).2 nextID.
Proof.
  intros E Hs. pose proof (fun id => Rotate_lookup r nextID _ id E Hs) as Hl.
  eexists. rewrite Hl, bool_decide_true by done. split_and!; [done..|]. intros id' key'. rewrite Hl.
  case_bool_decide; [done|]. destruct (ring_keys r !! id') as [k|]; [|done]. cbn. intros [= <-].
  destruct (is_active k) eqn:Ea; [done|]. unfold is_active in Ea. by bool_prop.
Qed.

(** Rotation: a rotation to a key that is waiting leaves exactly that key active,
    which is the one [Active] then returns in whatever order the map is walked;
    the keys that were active are retired and still found (so that what they
    signed can be checked), no key is lost or otherwise changed; a rotation to
    any other key fails and changes nothing. *)
Theorem rotate_one_active r nextID :
  match ring_keys r !! nextID with
  | Some (mkKey kid StateNext priv pub) =>
      let r' := (Rotate r nextID).2 in
      (Rotate r nextID).1 = Ok tt /\ one_active r' nextID /\ Active r' = Ok (mkKey kid StateActive priv pub) /\
      (forall id key, id <> nextID -> ring_keys r !! id = Some key -> k_State key = StateActive ->
         Get r' id = Ok (with_state key StateRetired)) /\
      (forall id key, id <> nextID -> ring_keys r !! id = Some key -> k_State key <> StateActive ->
         ring_keys r' !! id = Some key) /\
      dom (ring_keys r') = dom (ring_keys r)
  | _ => Rotate r nextID = (Err (New CodeKeyInvalid "next key not found"), r)
  end.
Proof.
  destruct (ring_keys r !! nextID) as [[kid st priv pub]|] eqn:E; [|unfold Rotate; by rewrite E].
  destruct st; [|unfold Rotate; rewrite E, bool_decide_false by done; done..].
  pose proof (fun id => Rotate_lookup r nextID _ id E eq_refl) as Hl.
  pose proof (Rotate_one_active r nextID _ E eq_refl) as Hone.
  cbv zeta. split_and!.
  - unfold Rotate. by rewrite E, bool_decide_true.
  - exact Hone.
  - destruct Hone as (key & Hk & Hs & Hu). rewrite Hl, bool_decide_true in Hk by done. injection Hk as <-.
    destruct (Active_total _ _ _ (eq_trans (Hl nextID) ltac:(by rewrite bool_decide_true)) Hs) as [key' Ha].
    rewrite Ha. apply Active_spec in Ha as (id' & Hk' & Hs'). pose proof (Hu _ _ Hk' Hs') as ->.
    rewrite Hl, bool_decide_true in Hk' by done. by injection Hk' as <-.
  - intros id key Hne Hk Hs. unfold Get. rewrite Hl, bool_decide_false, Hk by done. cbn.
    unfold is_active. by rewrite (bool_decide_true (k_State key = StateActive)).
  - intros id key Hne Hk Hs. rewrite Hl, bool_decide_false, Hk by done. cbn. unfold is_active.
    by rewrite bool_decide_false.
  - apply set_eq. intros id. rewrite !elem_of_dom, Hl. case_bool_decide; [subst; rewrite E; split; by eexists|].
    by rewrite fmap_is_Some.
Qed.

End ring.

(** One order of iteration. *)
#[export] Instance key_order : MapRange := { map_range A m := map_to_list m }.

#[export] Instance key_order_laws : MapRangeLaws key_order.
Proof. split. done. Qed.

Definition toy_key (id : string) (s : KeyState) : Key := mkKey id s (mkEdPriv []) (mkEdPub []).

Lemma rotate_one_active_witness :
  Active (Rotate (AddKey (AddKey NewRing (toy_key "a" StateActive)) (toy_key "b" StateNext)) "b").2
  = Ok (toy_key "b" StateActive).
Proof.
  exact (proj1 (proj2 (proj2
    (rotate_one_active (AddKey (AddKey NewRing (toy_key "a" StateActive)) (toy_key "b" StateNext)) "b")))).
Defined.

(** [Add] alone keeps no such promise: a second active key can be added, and which
    one [Active] returns is then up to the iteration order. *)
Example Add_two_active :
  let r := AddKey (AddKey NewRing (toy_key "a" StateActive)) (toy_key "b" StateActive) in
  length (List.filter is_active (Keys r)) = 2%nat.
Proof. vm_compute. reflexivity. Qed.

(** ** Policy *)

Record PermissionRule := mkPermissionRule {
  pr_Permission : string;
  pr_RiskClass : string;
  pr_MaxTTL : Z;
  pr_MaxCacheStaleness : Z;
  pr_RequiresAuthorizedDevice : bool
}.

Record Engine := mkEngine { rules : gmap string PermissionRule }.

Definition NewDefault : Engine :=
  mkEngine {[
    "text" := mkPermissionRule "text" "normal" Hour (30 * Second) true;
    "audio.frame" := mkPermissionRule "audio.frame" "sensitive" (5 * Minute) (5 * Second) true
  ]}.

Definition Rule (e : Engine) (permission : string) : result PermissionRule :=
  match rules e !! permission with
  | Some rule => Ok rule
  | None => Err (New CodeTrustInvalid "permission is not allowed by policy")
  end.

(** Every rule of the default policy names its permission and allows at most an hour. *)
Lemma NewDefault_rules permission rule :
  Rule NewDefault permission = Ok rule ->
  pr_Permission rule = permission /\ 0 < pr_MaxTTL rule <= Hour.
Proof.
  unfold Rule. cbn [rules NewDefault].
  destruct (decide (permission = "text")) as [->|H1]; [|destruct (decide (permission = "audio.frame")) as [->|H2]].
  - rewrite lookup_insert_eq. intros [= <-]. split; [done|]. cbn. unfold Hour, Minute, Second. lia.
  - rewrite lookup_insert_ne, lookup_singleton_eq by done. intros [= <-]. split; [done|]. cbn.
    unfold Hour, Minute, Second. lia.
  - rewrite lookup_insert_ne, lookup_singleton_ne by done. done.
Qed.
