(* ===== verification/Sql.v ===== *)
(** * The database as the repositories see it: [pkg/server/repository/domain.go]

    The statements the repositories send ([Queryer.Exec], [Query], [QueryRow]) act
    on tables: lists of rows, with the columns and constraints of
    [pkg/server/postgres/migrations/0001_init.sql].  One statement is one atomic
    step.  The server itself is outside the repository: any statement may fail, as
    the stream of coming failures says, and then changes nothing; how the server
    rounds a timestamp, normalises a JSON column and orders rows it was not asked
    to order are the operations of the class [Postgres]. *)
From Stdlib Require Import ZArith Lia Strings.Byte.
From stdpp Require Import numbers gmap strings base list.
From S2P Require Import Prelude Errors GoTime Sorting.
Open Scope Z_scope.

(** ** What is left to the server *)

Class Postgres := {
  (** a time as a timestamptz column or parameter holds it *)
  timestamptz : Time -> Time;
  (** the text of a jsonb column; [None] for text that is not JSON *)
  jsonb_text : bytes -> option bytes;
  (** the order of rows without ORDER BY *)
  row_order {A : Type} : list A -> list A;
  (** ORDER BY, ties in any order *)
  order_by : SortSlice
}.

Class PostgresLaws (P : Postgres) := {
  timestamptz_mono t u : ns t <= ns u -> ns (timestamptz t) <= ns (timestamptz u);
  timestamptz_micros t : ns (timestamptz t) <= ns t < ns (timestamptz t) + 1000;
  row_order_perm {A} (l : list A) : Permutation (row_order l) l;
  order_by_laws : SortLaws order_by
}.

Definition order_rows {P : Postgres} {A} (less : A -> A -> bool) (rows : list A) : list A :=
  @sort_slice order_by A less rows.

(** ** Statements *)

(** A database: its tables, and the failures of the coming statements. *)
Record DB (T : Type) := mkDB { db_tables : T; db_faults : nat -> option error }.
Arguments mkDB {T} _ _.
Arguments db_tables {T} _.
Arguments db_faults {T} _ _.

(** A repository method: a computation on the database that may stop with an error. *)
Definition Q (T A : Type) : Type := DB T -> result A * DB T.

#[export] Instance Q_ret {T} : MRet (Q T) := fun A a db => (Ok a, db).

#[export] Instance Q_bind {T} : MBind (Q T) := fun A B f m db =>
  match m db with
  | (Ok a, db) => f a db
  | (Err e, db) => (Err e, db)
  end.

(** A check that does not touch the database. *)
Definition check {T A} (r : result A) : Q T A := fun db => (r, db).

(** One statement. *)
Definition statement {T A} (f : T -> result (A * T)) : Q T A := fun db =>
  let later := fun n => db_faults db (S n) in
  match db_faults db O with
  | Some e => (Err e, mkDB (db_tables db) later)
  | None =>
      match f (db_tables db) with
      | Ok (a, t) => (Ok a, mkDB t later)
      | Err e => (Err e, mkDB (db_tables db) later)
      end
  end.

Definition RequireDomain (domainID : string) : result unit :=
  reject_if (bool_decide (domainID = "")) (New CodeStorageInvalid "domain_id is required").

(** SQLSTATE codes. *)
Definition uniqueViolation : string := "23505".
Definition checkViolation : string := "23514".
Definition outOfRange : string := "22003".
Definition invalidText : string := "22P02".

(** ** Rows *)

Section rows.
  Context {R : Type}.

Definition select_where (p : R -> bool) (t : list R) : list R := List.filter p t.

Definition update_where (p : R -> bool) (f : R -> R) (t : list R) : list R :=
  map (fun r => if p r then f r else r) t.

Definition delete_where (p : R -> bool) (t : list R) : list R := List.filter (fun r => negb (p r)) t.

(** INSERT under the table's unique constraints and checks. *)
Definition insert_row (clashes : R -> R -> bool) (valid : R -> bool) (r : R) (t : list R) : result (list R) :=
  if negb (valid r) then Err (PgError checkViolation)
  else if existsb (clashes r) t then Err (PgError uniqueViolation)
  else Ok (t ++ [r]).

(** INSERT ... ON CONFLICT (key) DO UPDATE: [merge old excluded]. *)
Definition upsert_row (same_key clashes : R -> R -> bool) (valid : R -> bool) (merge : R -> R -> R) (r : R) (t : list R)
    : result (list R) :=
  if negb (valid r) then Err (PgError checkViolation)
  else if existsb (same_key r) t then Ok (update_where (same_key r) (fun old => merge old r) t)
  else insert_row clashes valid r t.

(** [QueryRow(...).Scan]. *)
Definition query_row (rows : list R) : result R :=
  match rows with
  | r :: _ => Ok r
  | [] => Err ErrNoRows
  end.

(** *** Lemmas *)

Lemma update_where_lookup p f t r' :
  r' ∈ update_where p f t <-> exists r, r ∈ t /\ r' = if p r then f r else r.
Proof. unfold update_where. rewrite list_elem_of_fmap. naive_solver. Qed.

Lemma select_where_elem p t r : r ∈ select_where p t <-> p r = true /\ r ∈ t.
Proof. unfold select_where. rewrite !list_elem_of_In, filter_In. tauto. Qed.

Lemma delete_where_elem p t r : r ∈ delete_where p t <-> p r = false /\ r ∈ t.
Proof. unfold delete_where. rewrite !list_elem_of_In, filter_In, negb_true_iff. tauto. Qed.

Lemma update_where_map {K} (key : R -> K) p f t :
  (forall r, key (f r) = key r) -> map key (update_where p f t) = map key t.
Proof.
  intros Hk. unfold update_where. rewrite map_map. apply map_ext. intros r. by destruct (p r).
Qed.

Lemma insert_row_Ok clashes valid r t t' :
  insert_row clashes valid r t = Ok t' <->
  valid r = true /\ (forall r', r' ∈ t -> clashes r r' = false) /\ t' = t ++ [r].
Proof.
  unfold insert_row. destruct (valid r); cbn [negb]; [|naive_solver].
  destruct (existsb (clashes r) t) eqn:E.
  - split; [done|]. intros (_ & Hc & _). apply existsb_exists in E as (r' & Hin & Hr').
    apply list_elem_of_In in Hin. by rewrite Hc in Hr'.
  - split; [|by intros (_ & _ & ->)]. intros [= <-]. split_and!; [done| |done]. intros r' Hin.
    destruct (clashes r r') eqn:Er; [|done]. exfalso.
    assert (existsb (clashes r) t = true) by (apply existsb_exists; exists r'; by rewrite <- list_elem_of_In). congruence.
Qed.

Lemma upsert_row_Ok same_key clashes valid merge r t t' :
  upsert_row same_key clashes valid merge r t = Ok t' ->
  valid r = true /\
  ((t' = update_where (same_key r) (fun old => merge old r) t) \/
   (forall r', r' ∈ t -> same_key r r' = false) /\ (forall r', r' ∈ t -> clashes r r' = false) /\ t' = t ++ [r]).
Proof.
  unfold upsert_row. destruct (valid r) eqn:Ev; cbn [negb]; [|done].
  destruct (existsb (same_key r) t) eqn:E; [intros [= <-]; by split; [|left]|].
  intros (_ & Hc & ->)%insert_row_Ok. split; [done|right]. split_and!; [|done..]. intros r' Hin.
  destruct (same_key r r') eqn:Er; [|done].
  assert (existsb (same_key r) t = true) by (apply existsb_exists; exists r'; by rewrite <- list_elem_of_In). congruence.
Qed.

Lemma query_row_Ok rows r : query_row rows = Ok r -> r ∈ rows.
Proof. destruct rows; [done|]. intros [= ->]. left. Qed.

Lemma query_row_none rows : rows = [] -> query_row rows = Err ErrNoRows.
Proof. by intros ->. Qed.

End rows.

(** A row kept by every statement of a table is found after it. *)
Lemma NoDup_snoc {A} (l : list A) x : NoDup l -> x ∉ l -> NoDup (l ++ [x]).
Proof.
  intros Hl Hx. apply NoDup_app. split_and!; [done|set_solver|]. apply NoDup_singleton.
Qed.

(** ** Running *)

Section running.
  Context {T : Type}.

Lemma check_run {A} (r : result A) (db : DB T) : check r db = (r, db).
Proof. done. Qed.

Lemma Q_bind_Ok {A B} (m : Q T A) (f : A -> Q T B) db b db' :
  (m ≫= f) db = (Ok b, db') <-> exists a db1, m db = (Ok a, db1) /\ f a db1 = (Ok b, db').
Proof. unfold mbind, Q_bind. destruct (m db) as [[a|e] db1]; naive_solver. Qed.

(** A statement that goes through. *)
Lemma statement_Ok {A} (f : T -> result (A * T)) db a db' :
  statement f db = (Ok a, db') <->
  db_faults db O = None /\ exists t, f (db_tables db) = Ok (a, t) /\ db' = mkDB t (fun n => db_faults db (S n)).
Proof.
  unfold statement. destruct (db_faults db O) as [e|]; [naive_solver|].
  destruct (f (db_tables db)) as [[a' t]|e]; naive_solver.
Qed.

(** What a property of the tables needs to survive a method, whether it succeeds
    or stops half way. *)
Definition keeps {A} (P : T -> Prop) (q : Q T A) : Prop :=
  forall db, P (db_tables db) -> P (db_tables (q db).2).

Lemma keeps_check {A} P (r : result A) : keeps P (check r).
Proof. by intros db. Qed.

Lemma keeps_ret {A} P (a : A) : keeps P (mret a).
Proof. by intros db. Qed.

Lemma keeps_bind {A B} P (m : Q T A) (f : A -> Q T B) :
  keeps P m -> (forall a, keeps P (f a)) -> keeps P (m ≫= f).
Proof.
  intros Hm Hf db HP. unfold mbind, Q_bind. specialize (Hm db HP).
  destruct (m db) as [[a|e] db1]; [by apply Hf|done].
Qed.

Lemma keeps_statement {A} P (f : T -> result (A * T)) :
  (forall t a t', P t -> f t = Ok (a, t') -> P t') -> keeps P (statement f).
Proof.
  intros Hf db HP. unfold statement. destruct (db_faults db O); [done|].
  destruct (f (db_tables db)) as [[a t]|e] eqn:E; [by eapply Hf|done].
Qed.

End running.

Create HintDb sql.
#[export] Hint Resolve keeps_check keeps_ret keeps_bind keeps_statement : sql.

(** A server that truncates to microseconds. *)
Module TruncatingServer.
Definition micros (t : Time) : Time := mkTime (ns t - ns t mod 1000) 0.

#[export] Instance truncating_server : Postgres := {
  timestamptz := micros;
  jsonb_text b := Some b;
  row_order A l := l;
  order_by := InsertionSort.insertion_sort
}.

#[export] Instance truncating_laws : PostgresLaws truncating_server.
Proof.
  split; cbn.
  - intros t u H. divmod_lia.
  - intros t. divmod_lia.
  - done.
  - apply InsertionSort.insertion_laws.
Qed.

End TruncatingServer.
