(* ===== verification/Repository.v ===== *)
(** * Repositories: [pkg/server/repository] and [pkg/server/cleanup]

    The rows of the relay's and the trust root's tables and one definition per
    repository method, each made of the SQL statements the method sends. *)
From Stdlib Require Import ZArith Lia Strings.Byte.
From stdpp Require Import numbers gmap strings base list.
From S2P Require Import Prelude Errors GoTime Crypto GoStrings Sorting Uuid Sql.
Open Scope Z_scope.

(** ** Proof nonces: [proof_nonce.go] *)

(** A row of [pop_replay_cache]. *)
Record NonceRow := mkNonceRow { nr_DomainID : string; nr_DeviceID : string; nr_Nonce : string; nr_ExpiresAt : Time }.

Definition proofNonceStorageKey (audience nonce : string) : string :=
  Base64URL (SHA256 (go_bytes (audience +:+ go_string [x00] +:+ nonce))).

Definition nonce_clashes (a b : NonceRow) : bool :=
  bool_decide (nr_DomainID a = nr_DomainID b) && bool_decide (nr_DeviceID a = nr_DeviceID b) &&
  bool_decide (nr_Nonce a = nr_Nonce b).

(** [strings.TrimSpace(s) == ""]. *)
Definition blank (s : string) : bool := bool_decide (TrimSpace s = "").

Section proof_nonce.
  Context {P : Postgres} {T : Type} (table : T -> list NonceRow) (set_table : list NonceRow -> T -> T).

(** The INSERT: a unique violation means that the nonce is known. *)
Definition insert_nonce (row : NonceRow) : Q T bool := fun db =>
  match statement (fun t =>
          rows ← insert_row nonce_clashes (fun _ => true) row (table t);
          Ok (tt, set_table rows t)) db with
  | (Ok _, db) => (Ok true, db)
  | (Err e, db) => if bool_decide (as_pg_error e = Some uniqueViolation) then (Ok false, db) else (Err e, db)
  end.

Definition useProofNonce (domainID deviceID audience nonce : string) (expiresAt now : Time) : Q T bool :=
  _ ← check (RequireDomain domainID);
  _ ← check (reject_if (blank deviceID || blank audience || blank nonce)
               (New CodeStorageInvalid "proof nonce scope is required"));
  _ ← statement (fun t =>
        Ok (tt, set_table (delete_where (fun r => bool_decide (nr_DomainID r = domainID) &&
                                                  negb (After (nr_ExpiresAt r) (timestamptz now))) (table t)) t));
  insert_nonce (mkNonceRow domainID deviceID (proofNonceStorageKey audience nonce) (timestamptz expiresAt)).

End proof_nonce.

(** ** The relay's tables: [relay.go] *)

Record RelayDevice := mkRelayDevice {
  rd_ID : string;
  rd_DomainID : string;
  rd_DeviceID : string;
  rd_IdentityRaw : bytes;
  rd_IdentityCanonical : bytes;
  rd_PublicKeyThumbprint : string;
  rd_Status : string;
  rd_CreatedAt : Time;
  rd_UpdatedAt : Time
}.

Record RelayCredential := mkRelayCredential {
  rc_ID : string;
  rc_DomainID : string;
  rc_DeviceID : string;
  rc_Hash : bytes;
  rc_IssuedAt : Time;
  rc_ExpiresAt : Time
}.

(** A row of [access_tokens] or [refresh_tokens]: a credential and its revocation. *)
Record TokenRow := mkTokenRow { tk_cred : RelayCredential; tk_revoked_at : option Time }.

Record RelayMessage := mkRelayMessage {
  rm_ID : string;
  rm_DomainID : string;
  rm_MessageID : string;
  rm_SenderDeviceID : string;
  rm_RecipientDeviceID : string;
  rm_SessionID : string;
  rm_PayloadType : string;
  rm_RouteMetadata : bytes;
  rm_EnvelopeRaw : bytes;
  rm_EnvelopeCanonical : bytes;
  rm_Priority : Z;
  rm_QueuedAt : Time;
  rm_ExpiresAt : Time
}.

(** A row of [messages]: a message and its delivery state. *)
Record MessageRow := mkMessageRow {
  mr_msg : RelayMessage;
  mr_delivered_at : option Time;
  mr_claimed_until : option Time;
  mr_attempts : Z
}.

Record RelayReceipt := mkRelayReceipt {
  rr_ID : string;
  rr_DomainID : string;
  rr_ReceiptID : string;
  rr_MessageID : string;
  rr_RelayID : string;
  rr_Status : string;
  rr_ReceiptRaw : bytes;
  rr_ReceiptCanonical : bytes;
  rr_IssuedAt : Time
}.

Record RelayTables := mkRelayTables {
  rt_devices : list RelayDevice;
  rt_access : list TokenRow;
  rt_refresh : list TokenRow;
  rt_nonces : list NonceRow;
  rt_messages : list MessageRow;
  rt_receipts : list RelayReceipt
}.

Definition set_devices l t :=
  mkRelayTables l (rt_access t) (rt_refresh t) (rt_nonces t) (rt_messages t) (rt_receipts t).
Definition set_access l t :=
  mkRelayTables (rt_devices t) l (rt_refresh t) (rt_nonces t) (rt_messages t) (rt_receipts t).
Definition set_refresh l t :=
  mkRelayTables (rt_devices t) (rt_access t) l (rt_nonces t) (rt_messages t) (rt_receipts t).
Definition set_nonces l t :=
  mkRelayTables (rt_devices t) (rt_access t) (rt_refresh t) l (rt_messages t) (rt_receipts t).
Definition set_messages l t :=
  mkRelayTables (rt_devices t) (rt_access t) (rt_refresh t) (rt_nonces t) l (rt_receipts t).
Definition set_receipts l t :=
  mkRelayTables (rt_devices t) (rt_access t) (rt_refresh t) (rt_nonces t) (rt_messages t) l.

Definition empty_relay : RelayTables := mkRelayTables [] [] [] [] [] [].

(** Keys, unique constraints and checks of the tables. *)

Definition device_key (d : RelayDevice) : string * string := (rd_DomainID d, rd_DeviceID d).

Definition token_key (r : TokenRow) : string * bytes := (rc_DomainID (tk_cred r), rc_Hash (tk_cred r)).

Definition message_key (r : MessageRow) : string * string := (rm_DomainID (mr_msg r), rm_MessageID (mr_msg r)).

Definition receipt_key (r : RelayReceipt) : string * string := (rr_DomainID r, rr_ReceiptID r).

Definition mr_ID (r : MessageRow) : string := rm_ID (mr_msg r).

Definition tk_ID (r : TokenRow) : string := rc_ID (tk_cred r).

(** Two rows with the same value of [f]. *)
Definition same {R K} `{EqDecision K} (f : R -> K) (a b : R) : bool := bool_decide (f a = f b).

(** Two rows that violate a primary key [id] or a unique constraint [key]. *)
Definition clash {R K} `{EqDecision K} (id : R -> string) (key : R -> K) (a b : R) : bool :=
  same id a b || same key a b.

Definition one_of (l : list string) (s : string) : bool := bool_decide (s ∈ l).

Definition relay_device_valid (d : RelayDevice) : bool := one_of ["active"; "revoked"; "disabled"] (rd_Status d).

Definition message_valid (r : MessageRow) : bool :=
  (0 <=? rm_Priority (mr_msg r)) && (rm_Priority (mr_msg r) <=? 9) && (0 <=? mr_attempts r).

Definition receipt_valid (r : RelayReceipt) : bool :=
  one_of ["accepted"; "queued"; "delivered_to_connection"; "expired"; "rejected"] (rr_Status r).

Section relay.
  Context {P : Postgres}.

Definition InsertDevice (d : RelayDevice) : Q RelayTables unit :=
  _ ← check (RequireDomain (rd_DomainID d));
  statement (fun t =>
    rows ← upsert_row (same device_key) (clash rd_ID device_key) relay_device_valid
             (fun old new =>
                mkRelayDevice (rd_ID old) (rd_DomainID old) (rd_DeviceID old) (rd_IdentityRaw new)
                  (rd_IdentityCanonical new) (rd_PublicKeyThumbprint new) (rd_Status new) (rd_CreatedAt old)
                  (rd_UpdatedAt new))
             (mkRelayDevice (rd_ID d) (rd_DomainID d) (rd_DeviceID d) (rd_IdentityRaw d) (rd_IdentityCanonical d)
                (rd_PublicKeyThumbprint d) (rd_Status d) (timestamptz (rd_CreatedAt d)) (timestamptz (rd_UpdatedAt d)))
             (rt_devices t);
    Ok (tt, set_devices rows t)).

Definition GetRelayDevice (domainID deviceID : string) : Q RelayTables RelayDevice :=
  _ ← check (RequireDomain domainID);
  statement (fun t =>
    d ← query_row (row_order (select_where
          (fun d => bool_decide (rd_DomainID d = domainID) && bool_decide (rd_DeviceID d = deviceID)) (rt_devices t)));
    Ok (d, t)).

Definition RevokeRelayDevice (domainID deviceID : string) (now : Time) : Q RelayTables unit :=
  _ ← check (RequireDomain domainID);
  statement (fun t =>
    Ok (tt, set_devices (update_where
      (fun d => bool_decide (rd_DomainID d = domainID) && bool_decide (rd_DeviceID d = deviceID))
      (fun d => mkRelayDevice (rd_ID d) (rd_DomainID d) (rd_DeviceID d) (rd_IdentityRaw d) (rd_IdentityCanonical d)
                  (rd_PublicKeyThumbprint d) "revoked" (rd_CreatedAt d) (timestamptz now)) (rt_devices t)) t)).

(** The row of a fresh token. *)
Definition token_row (id domainID deviceID : string) (hash : bytes) (issuedAt expiresAt : Time) : TokenRow :=
  mkTokenRow (mkRelayCredential id domainID deviceID hash (timestamptz issuedAt) (timestamptz expiresAt)) None.

Definition StoreRefreshHash (id domainID deviceID : string) (refreshHash : bytes) (issuedAt expiresAt : Time)
    : Q RelayTables unit :=
  _ ← check (RequireDomain domainID);
  statement (fun t =>
    rows ← insert_row (clash tk_ID token_key) (fun _ => true)
             (token_row id domainID deviceID refreshHash issuedAt expiresAt) (rt_refresh t);
    Ok (tt, set_refresh rows t)).

Definition StoreAccessHash (id domainID deviceID : string) (accessHash : bytes) (issuedAt expiresAt : Time)
    : Q RelayTables unit :=
  _ ← check (RequireDomain domainID);
  statement (fun t =>
    rows ← insert_row (clash tk_ID token_key) (fun _ => true)
             (token_row id domainID deviceID accessHash issuedAt expiresAt) (rt_access t);
    Ok (tt, set_access rows t)).

(** revoked_at IS NULL AND expires_at > now, for a token of the domain with the hash. *)
Definition live_token (domainID : string) (hash : bytes) (now : Time) (r : TokenRow) : bool :=
  bool_decide (rc_DomainID (tk_cred r) = domainID) && bool_decide (rc_Hash (tk_cred r) = hash) &&
  bool_decide (tk_revoked_at r = None) && After (rc_ExpiresAt (tk_cred r)) (timestamptz now).

Definition GetRefreshByHash (domainID : string) (refreshHash : bytes) (now : Time) : Q RelayTables RelayCredential :=
  _ ← check (RequireDomain domainID);
  statement (fun t =>
    r ← query_row (row_order (select_where (live_token domainID refreshHash now) (rt_refresh t)));
    Ok (tk_cred r, t)).

Definition GetAccessByHash (domainID : string) (accessHash : bytes) (now : Time) : Q RelayTables RelayCredential :=
  _ ← check (RequireDomain domainID);
  statement (fun t =>
    r ← query_row (row_order (select_where (live_token domainID accessHash now) (rt_access t)));
    Ok (tk_cred r, t)).

(** SET revoked_at=now WHERE ... AND revoked_at IS NULL. *)
Definition revoke_tokens (p : RelayCredential -> bool) (now : Time) (rows : list TokenRow) : list TokenRow :=
  update_where (fun r => p (tk_cred r) && bool_decide (tk_revoked_at r = None))
    (fun r => mkTokenRow (tk_cred r) (Some (timestamptz now))) rows.

Definition RevokeRefreshByHash (domainID : string) (refreshHash : bytes) (now : Time) : Q RelayTables unit :=
  _ ← check (RequireDomain domainID);
  statement (fun t =>
    Ok (tt, set_refresh (revoke_tokens
      (fun c => bool_decide (rc_DomainID c = domainID) && bool_decide (rc_Hash c = refreshHash)) now (rt_refresh t)) t)).

Definition RevokeDeviceCredentials (domainID deviceID : string) (now : Time) : Q RelayTables unit :=
  let mine c := bool_decide (rc_DomainID c = domainID) && bool_decide (rc_DeviceID c = deviceID) in
  _ ← check (RequireDomain domainID);
  _ ← statement (fun t => Ok (tt, set_access (revoke_tokens mine now (rt_access t)) t));
  statement (fun t => Ok (tt, set_refresh (revoke_tokens mine now (rt_refresh t)) t)).

(** The message a row holds with the columns [StoreMessage] overwrites. *)
Definition merge_message (old new : MessageRow) : MessageRow :=
  let o := mr_msg old in let n := mr_msg new in
  mkMessageRow
    (mkRelayMessage (rm_ID o) (rm_DomainID o) (rm_MessageID o) (rm_SenderDeviceID o) (rm_RecipientDeviceID o)
       (rm_SessionID o) (rm_PayloadType o) (rm_RouteMetadata n) (rm_EnvelopeRaw n) (rm_EnvelopeCanonical n)
       (rm_Priority n) (rm_QueuedAt o) (rm_ExpiresAt n))
    (mr_delivered_at old) (mr_claimed_until old) (mr_attempts old).

Definition StoreMessage (msg : RelayMessage) : Q RelayTables unit :=
  _ ← check (RequireDomain (rm_DomainID msg));
  statement (fun t =>
    route ← of_option (PgError invalidText) (jsonb_text (rm_RouteMetadata msg));
    rows ← upsert_row (same message_key) (clash mr_ID message_key) message_valid merge_message
             (mkMessageRow
                (mkRelayMessage (rm_ID msg) (rm_DomainID msg) (rm_MessageID msg) (rm_SenderDeviceID msg)
                   (rm_RecipientDeviceID msg) (rm_SessionID msg) (rm_PayloadType msg) route (rm_EnvelopeRaw msg)
                   (rm_EnvelopeCanonical msg) (rm_Priority msg) (timestamptz (rm_QueuedAt msg))
                   (timestamptz (rm_ExpiresAt msg)))
                None None 0)
             (rt_messages t);
    Ok (tt, set_messages rows t)).

(** ORDER BY priority DESC, queued_at. *)
Definition delivery_before (a b : MessageRow) : bool :=
  if rm_Priority (mr_msg a) =? rm_Priority (mr_msg b)
  then Before (rm_QueuedAt (mr_msg a)) (rm_QueuedAt (mr_msg b))
  else rm_Priority (mr_msg b) <? rm_Priority (mr_msg a).

(** The rows a claim may take. *)
Definition claimable (domainID recipient : string) (now : Time) (r : MessageRow) : bool :=
  bool_decide (rm_DomainID (mr_msg r) = domainID) && bool_decide (rm_RecipientDeviceID (mr_msg r) = recipient) &&
  bool_decide (mr_delivered_at r = None) && After (rm_ExpiresAt (mr_msg r)) (timestamptz now) &&
  match mr_claimed_until r with
  | None => true
  | Some until => negb (After until (timestamptz now))
  end.

(** What a claim writes to a row. *)
Definition claim_row (until : Time) (r : MessageRow) : MessageRow :=
  mkMessageRow (mr_msg r) (mr_delivered_at r) (Some (timestamptz until)) (mr_attempts r + 1).

(** The rows a claim takes: SELECT ... ORDER BY ... LIMIT. *)
Definition claim_rows (domainID recipient : string) (now : Time) (limit : Z) (rows : list MessageRow) : list MessageRow :=
  take (Z.to_nat limit) (order_rows delivery_before (select_where (claimable domainID recipient now) rows)).

Definition maxInteger : Z := 2 ^ 31 - 1.

Definition ClaimPendingMessagesFor (domainID recipientDeviceID : string) (now : Time) (lease limit : Z)
    : Q RelayTables (list RelayMessage) :=
  _ ← check (RequireDomain domainID);
  _ ← check (reject_if (blank recipientDeviceID) (New CodeStorageInvalid "recipient device id is required"));
  if limit <=? 0 then mret []
  else
    _ ← check (reject_if (lease <=? 0) (New CodeStorageInvalid "delivery lease must be positive"));
    statement (fun t =>
      let claim := claim_rows domainID recipientDeviceID now limit (rt_messages t) in
      let claimed r := bool_decide (mr_ID r ∈ map mr_ID claim) in
      _ ← reject_if (existsb (fun r => maxInteger <=? mr_attempts r) claim) (PgError outOfRange);
      let rows := update_where claimed (claim_row (Add now lease)) (rt_messages t) in
      Ok (map mr_msg (row_order (select_where claimed rows)), set_messages rows t)).

Definition ListPendingMessages (domainID : string) (now : Time) (limit : Z) : Q RelayTables (list RelayMessage) :=
  _ ← check (RequireDomain domainID);
  if limit <=? 0 then mret []
  else
    statement (fun t =>
      Ok (map mr_msg (take (Z.to_nat limit) (order_rows delivery_before (select_where
            (fun r => bool_decide (rm_DomainID (mr_msg r) = domainID) && bool_decide (mr_delivered_at r = None) &&
                      After (rm_ExpiresAt (mr_msg r)) (timestamptz now)) (rt_messages t)))), t)).

Definition StoreReceipt (receipt : RelayReceipt) : Q RelayTables unit :=
  _ ← check (RequireDomain (rr_DomainID receipt));
  statement (fun t =>
    rows ← upsert_row (same receipt_key) (clash rr_ID receipt_key) receipt_valid
             (fun old new =>
                mkRelayReceipt (rr_ID old) (rr_DomainID old) (rr_ReceiptID old) (rr_MessageID old) (rr_RelayID old)
                  (rr_Status new) (rr_ReceiptRaw new) (rr_ReceiptCanonical new) (rr_IssuedAt old))
             (mkRelayReceipt (rr_ID receipt) (rr_DomainID receipt) (rr_ReceiptID receipt) (rr_MessageID receipt)
                (rr_RelayID receipt) (rr_Status receipt) (rr_ReceiptRaw receipt) (rr_ReceiptCanonical receipt)
                (timestamptz (rr_IssuedAt receipt)))
             (rt_receipts t);
    Ok (tt, set_receipts rows t)).

Definition MarkMessageDelivered (domainID messageID : string) (now : Time) : Q RelayTables unit :=
  _ ← check (RequireDomain domainID);
  _ ← statement (fun t =>
        Ok (tt, set_messages (update_where
          (fun r => bool_decide (rm_DomainID (mr_msg r) = domainID) && bool_decide (rm_MessageID (mr_msg r) = messageID))
          (fun r => mkMessageRow (mr_msg r) (Some (timestamptz now)) None (mr_attempts r)) (rt_messages t)) t));
  statement (fun t =>
    Ok (tt, set_receipts (update_where
      (fun r => bool_decide (rr_DomainID r = domainID) && bool_decide (rr_MessageID r = messageID) &&
                bool_decide (rr_Status r = "queued"))
      (fun r => mkRelayReceipt (rr_ID r) (rr_DomainID r) (rr_ReceiptID r) (rr_MessageID r) (rr_RelayID r)
                  "delivered_to_connection" (rr_ReceiptRaw r) (rr_ReceiptCanonical r) (rr_IssuedAt r))
      (rt_receipts t)) t)).

Definition RelayUseProofNonce (domainID deviceID audience nonce : string) (expiresAt now : Time) : Q RelayTables bool :=
  useProofNonce rt_nonces set_nonces domainID deviceID audience nonce expiresAt now.

(** ** [cleanup.go] *)

Record CleanupResult := mkCleanupResult { cr_Name : string; cr_DryRun : bool; cr_WouldDelete : Z; cr_Deleted : Z }.

Definition ExpiredRelayMessages (domainID : string) (now : Time) (dryRun : bool) : Q RelayTables CleanupResult :=
  let expired r := bool_decide (rm_DomainID (mr_msg r) = domainID) && Before (rm_ExpiresAt (mr_msg r)) (timestamptz now) in
  _ ← check (RequireDomain domainID);
  if dryRun then
    statement (fun t =>
      Ok (mkCleanupResult "expired_relay_messages" true
            (Z.of_nat (length (select_where expired (rt_messages t)))) 0, t))
  else
    statement (fun t =>
      Ok (mkCleanupResult "expired_relay_messages" false 0
            (Z.of_nat (length (select_where expired (rt_messages t)))),
          set_messages (delete_where expired (rt_messages t)) t)).

End relay.

(** ** The trust root's tables: [trust.go] *)

Record TrustDevice := mkTrustDevice {
  td_ID : string;
  td_DomainID : string;
  td_DeviceID : string;
  td_IdentityRaw : bytes;
  td_IdentityCanonical : bytes;
  td_PublicKeyThumbprint : string;
  td_Status : string;
  td_DeviceRecordVersion : Z;
  td_RevocationEpoch : Z;
  td_CreatedAt : Time;
  td_UpdatedAt : Time
}.

Record TrustGrant := mkTrustGrant {
  tg_ID : string;
  tg_DomainID : string;
  tg_GrantID : string;
  tg_SubjectDeviceID : string;
  tg_Audience : string;
  tg_ConfirmationThumbprint : string;
  tg_GrantRaw : bytes;
  tg_GrantCanonical : bytes;
  tg_NotBefore : Time;
  tg_ExpiresAt : Time;
  tg_RevocationEpoch : Z;
  tg_RevokedAt : option Time
}.

Record TrustRevocation := mkTrustRevocation {
  tr_ID : string;
  tr_DomainID : string;
  tr_SubjectType : string;
  tr_SubjectID : string;
  tr_RevocationEpoch : Z;
  tr_Reason : string;
  tr_CreatedAt : Time
}.

Record TrustTables := mkTrustTables {
  tt_devices : list TrustDevice;
  tt_grants : list TrustGrant;
  tt_revocations : list TrustRevocation;
  tt_nonces : list NonceRow
}.

Definition set_trust_devices l t := mkTrustTables l (tt_grants t) (tt_revocations t) (tt_nonces t).
Definition set_grants l t := mkTrustTables (tt_devices t) l (tt_revocations t) (tt_nonces t).
Definition set_revocations l t := mkTrustTables (tt_devices t) (tt_grants t) l (tt_nonces t).
Definition set_trust_nonces l t := mkTrustTables (tt_devices t) (tt_grants t) (tt_revocations t) l.

Definition empty_trust : TrustTables := mkTrustTables [] [] [] [].

Definition trust_device_key (d : TrustDevice) : string * string := (td_DomainID d, td_DeviceID d).

Definition grant_key (g : TrustGrant) : string * string := (tg_DomainID g, tg_GrantID g).

Definition revocation_key (r : TrustRevocation) : string * string * string * Z :=
  (tr_DomainID r, tr_SubjectType r, tr_SubjectID r, tr_RevocationEpoch r).

Definition trust_device_valid (d : TrustDevice) : bool :=
  one_of ["submitted"; "authorized"; "revoked"; "disabled"] (td_Status d) &&
  (0 <? td_DeviceRecordVersion d) && (0 <=? td_RevocationEpoch d).

Definition revocation_valid (r : TrustRevocation) : bool := one_of ["device"; "grant"] (tr_SubjectType r).

(** [d] with a new status, version and epoch. *)
Definition with_status (d : TrustDevice) (status : string) (version epoch : Z) (updated : Time) : TrustDevice :=
  mkTrustDevice (td_ID d) (td_DomainID d) (td_DeviceID d) (td_IdentityRaw d) (td_IdentityCanonical d)
    (td_PublicKeyThumbprint d) status version epoch (td_CreatedAt d) updated.

Section trust.
  Context {P : Postgres}.

Definition SubmitDevice (d : TrustDevice) : Q TrustTables unit :=
  _ ← check (RequireDomain (td_DomainID d));
  statement (fun t =>
    rows ← upsert_row (same trust_device_key) (clash td_ID trust_device_key) trust_device_valid
             (fun old new =>
                mkTrustDevice (td_ID old) (td_DomainID old) (td_DeviceID old) (td_IdentityRaw new)
                  (td_IdentityCanonical new) (td_PublicKeyThumbprint new) (td_Status old) (td_DeviceRecordVersion old)
                  (td_RevocationEpoch old) (td_CreatedAt old) (td_UpdatedAt new))
             (mkTrustDevice (td_ID d) (td_DomainID d) (td_DeviceID d) (td_IdentityRaw d) (td_IdentityCanonical d)
                (td_PublicKeyThumbprint d) (td_Status d) (td_DeviceRecordVersion d) (td_RevocationEpoch d)
                (timestamptz (td_CreatedAt d)) (timestamptz (td_UpdatedAt d)))
             (tt_devices t);
    Ok (tt, set_trust_devices rows t)).

(** WHERE domain_id=$1 AND device_id=$2. *)
Definition is_device (domainID deviceID : string) (d : TrustDevice) : bool :=
  bool_decide (td_DomainID d = domainID) && bool_decide (td_DeviceID d = deviceID).

Definition GetTrustDevice (domainID deviceID : string) : Q TrustTables TrustDevice :=
  _ ← check (RequireDomain domainID);
  statement (fun t => d ← query_row (row_order (select_where (is_device domainID deviceID) (tt_devices t))); Ok (d, t)).

(** A bigint column incremented for the rows of an UPDATE. *)
Definition increments {R} (p : R -> bool) (columns : R -> list Z) (rows : list R) : result unit :=
  reject_if (existsb (fun r => p r && existsb (fun z => negb (in_i64 (z + 1))) (columns r)) rows) (PgError outOfRange).

Definition AuthorizeDevice (domainID deviceID : string) (now : Time) : Q TrustTables TrustDevice :=
  let p d := is_device domainID deviceID d && negb (bool_decide (td_Status d = "revoked")) in
  let authorize d :=
    with_status d "authorized" (td_DeviceRecordVersion d + 1) (td_RevocationEpoch d) (timestamptz now) in
  _ ← check (RequireDomain domainID);
  statement (fun t =>
    _ ← increments p (fun d => [td_DeviceRecordVersion d]) (tt_devices t);
    d ← query_row (row_order (map authorize (select_where p (tt_devices t))));
    Ok (d, set_trust_devices (update_where p authorize (tt_devices t)) t)).

(** INSERT ... SELECT: the rows one after the other. *)
Fixpoint insert_revocations (new : list TrustRevocation) (rows : list TrustRevocation) : result (list TrustRevocation) :=
  match new with
  | [] => Ok rows
  | r :: new => rows ← insert_row (clash tr_ID revocation_key) revocation_valid r rows; insert_revocations new rows
  end.

Definition RevokeTrustDevice (revocationID domainID deviceID reason : string) (now : Time) : Q TrustTables unit :=
  _ ← check (RequireDomain domainID);
  _ ← statement (fun t =>
        _ ← increments (is_device domainID deviceID) (fun d => [td_DeviceRecordVersion d; td_RevocationEpoch d])
              (tt_devices t);
        Ok (tt, set_trust_devices (update_where (is_device domainID deviceID)
                  (fun d => with_status d "revoked" (td_DeviceRecordVersion d + 1) (td_RevocationEpoch d + 1)
                              (timestamptz now)) (tt_devices t)) t));
  statement (fun t =>
    rows ← insert_revocations
             (map (fun d => mkTrustRevocation revocationID (td_DomainID d) "device" (td_DeviceID d)
                              (td_RevocationEpoch d) reason (timestamptz now))
                (select_where (is_device domainID deviceID) (tt_devices t)))
             (tt_revocations t);
    Ok (tt, set_revocations rows t)).

Definition StoreGrant (g : TrustGrant) : Q TrustTables unit :=
  _ ← check (RequireDomain (tg_DomainID g));
  statement (fun t =>
    rows ← upsert_row (same grant_key) (clash tg_ID grant_key) (fun _ => true)
             (fun old new =>
                mkTrustGrant (tg_ID old) (tg_DomainID old) (tg_GrantID old) (tg_SubjectDeviceID old) (tg_Audience old)
                  (tg_ConfirmationThumbprint old) (tg_GrantRaw new) (tg_GrantCanonical new) (tg_NotBefore old)
                  (tg_ExpiresAt new) (tg_RevocationEpoch new) (tg_RevokedAt old))
             (mkTrustGrant (tg_ID g) (tg_DomainID g) (tg_GrantID g) (tg_SubjectDeviceID g) (tg_Audience g)
                (tg_ConfirmationThumbprint g) (tg_GrantRaw g) (tg_GrantCanonical g) (timestamptz (tg_NotBefore g))
                (timestamptz (tg_ExpiresAt g)) (tg_RevocationEpoch g) None)
             (tt_grants t);
    Ok (tt, set_grants rows t)).

Definition is_grant (domainID grantID : string) (g : TrustGrant) : bool :=
  bool_decide (tg_DomainID g = domainID) && bool_decide (tg_GrantID g = grantID).

Definition RevokeGrant (revocationID domainID grantID reason : string) (now : Time) : Q TrustTables unit :=
  let p g := is_grant domainID grantID g && bool_decide (tg_RevokedAt g = None) in
  _ ← check (RequireDomain domainID);
  affected ← statement (fun t =>
        Ok (length (select_where p (tt_grants t)),
            set_grants (update_where p
              (fun g => mkTrustGrant (tg_ID g) (tg_DomainID g) (tg_GrantID g) (tg_SubjectDeviceID g) (tg_Audience g)
                          (tg_ConfirmationThumbprint g) (tg_GrantRaw g) (tg_GrantCanonical g) (tg_NotBefore g)
                          (tg_ExpiresAt g) (tg_RevocationEpoch g) (Some (timestamptz now))) (tt_grants t)) t));
  _ ← check (reject_if (affected =? 0)%nat ErrNoRows);
  statement (fun t =>
    rows ← insert_revocations
             (map (fun g => mkTrustRevocation revocationID (tg_DomainID g) "grant" (tg_GrantID g)
                              (tg_RevocationEpoch g) reason (timestamptz now))
                (select_where (is_grant domainID grantID) (tt_grants t)))
             (tt_revocations t);
    Ok (tt, set_revocations rows t)).

(** ORDER BY id. *)
Definition revocation_before (a b : TrustRevocation) : bool := string_ltb (tr_ID a) (tr_ID b).

Definition ListRevocations (domainID afterID : string) (limit : Z) : Q TrustTables (list TrustRevocation) :=
  let limit := if (limit <=? 0) || (200 <? limit) then 100 else limit in
  _ ← check (RequireDomain domainID);
  statement (fun t =>
    Ok (take (Z.to_nat limit) (order_rows revocation_before (select_where
          (fun r => bool_decide (tr_DomainID r = domainID) &&
                    (bool_decide (afterID = "") || string_ltb afterID (tr_ID r))) (tt_revocations t))), t)).

Definition GetGrant (domainID grantID : string) : Q TrustTables TrustGrant :=
  _ ← check (RequireDomain domainID);
  statement (fun t => g ← query_row (row_order (select_where (is_grant domainID grantID) (tt_grants t))); Ok (g, t)).

Definition TrustUseProofNonce (domainID deviceID audience nonce : string) (expiresAt now : Time) : Q TrustTables bool :=
  useProofNonce tt_nonces set_trust_nonces domainID deviceID audience nonce expiresAt now.

End trust.
