(* ===== verification/RepositoryProps.v ===== *)
(** * What the repositories guarantee

    Sequences of repository calls, with statements failing anywhere: the tables'
    constraints, the life of credentials, the delivery of messages, revocations. *)
From Stdlib Require Import ZArith Lia Strings.Byte.
From stdpp Require Import sorting numbers gmap sets strings base list.
From S2P Require Import Prelude Errors GoTime Crypto GoStrings Sorting Uuid Sql Repository.
Open Scope Z_scope.

(** ** Tables under constraints *)

Lemma NoDup_map_filter {A B} (f : A -> B) p l : NoDup (map f l) -> NoDup (map f (List.filter p l)).
Proof.
  induction l as [|x l IH]; cbn [map List.filter]; [done|]. intros [Hx Hl]%NoDup_cons.
  destruct (p x); [|by apply IH]. cbn [map]. apply NoDup_cons. split; [|by apply IH].
  intros (y & Hy & Hin)%list_elem_of_fmap. apply Hx. rewrite Hy. apply list_elem_of_fmap_2.
  apply list_elem_of_In, filter_In in Hin as [Hin _]. by apply list_elem_of_In.
Qed.

Lemma NoDup_map_inj {A B} (f : A -> B) l x y : NoDup (map f l) -> x ∈ l -> y ∈ l -> f x = f y -> x = y.
Proof.
  induction l as [|z l IH]; cbn [map]; [set_solver|]. intros [Hz Hl]%NoDup_cons.
  intros [->|Hx]%elem_of_cons [->|Hy]%elem_of_cons Hf; [done|..|by apply IH].
  - exfalso. apply Hz. rewrite Hf. by apply list_elem_of_fmap_2.
  - exfalso. apply Hz. rewrite <- Hf. by apply list_elem_of_fmap_2.
Qed.

Definition table_ok {R K} (id : R -> string) (key : R -> K) (valid : R -> bool) (rows : list R) : Prop :=
  NoDup (map id rows) /\ NoDup (map key rows) /\ Forall (fun r => valid r = true) rows.

Section tables.
  Context {R K : Type} `{EqDecision K} (id : R -> string) (key : R -> K) (valid : R -> bool).

Lemma table_ok_insert r rows rows' :
  table_ok id key valid rows -> insert_row (clash id key) valid r rows = Ok rows' -> table_ok id key valid rows'.
Proof.
  intros (Hi & Hk & Hv) (Hr & Hc & ->)%insert_row_Ok. unfold table_ok. rewrite !map_app. cbn [map].
  assert (forall r', r' ∈ rows -> id r <> id r' /\ key r <> key r') as Hne.
  { intros r' Hin. specialize (Hc r' Hin). unfold clash, same in Hc. by bool_prop. }
  split_and!.
  - apply NoDup_snoc; [done|]. intros (r' & Heq & Hin)%list_elem_of_fmap. by destruct (Hne r' Hin).
  - apply NoDup_snoc; [done|]. intros (r' & Heq & Hin)%list_elem_of_fmap. by destruct (Hne r' Hin).
  - apply Forall_app. split; [done|]. by constructor.
Qed.

Lemma table_ok_update p f rows :
  (forall r, id (f r) = id r) -> (forall r, key (f r) = key r) ->
  (forall r, r ∈ rows -> p r = true -> valid r = true -> valid (f r) = true) ->
  table_ok id key valid rows -> table_ok id key valid (update_where p f rows).
Proof.
  intros Hi Hk Hv (Di & Dk & Vr). unfold table_ok. rewrite !update_where_map by done. split_and!; [done..|].
  rewrite Forall_forall in *. intros r' (r & Hin & ->)%update_where_lookup.
  destruct (p r) eqn:E; [by apply Hv; [..|apply Vr]|by apply Vr].
Qed.

Lemma table_ok_upsert merge r rows rows' :
  (forall o n, id (merge o n) = id o) -> (forall o n, key (merge o n) = key o) ->
  (forall o n, valid o = true -> valid n = true -> valid (merge o n) = true) ->
  table_ok id key valid rows ->
  upsert_row (same key) (clash id key) valid merge r rows = Ok rows' -> table_ok id key valid rows'.
Proof.
  intros Hi Hk Hm Hok Hu. pose proof Hu as Hu'. apply upsert_row_Ok in Hu as [Hr [->|(_ & Hc & ->)]].
  - apply table_ok_update; auto.
  - apply (table_ok_insert r rows); [done|]. by apply insert_row_Ok.
Qed.

Lemma table_ok_delete p rows : table_ok id key valid rows -> table_ok id key valid (delete_where p rows).
Proof.
  intros (Di & Dk & Vr). unfold delete_where. split_and!; [by apply NoDup_map_filter..|].
  rewrite Forall_forall in *. intros r Hr. apply Vr. apply list_elem_of_In, filter_In in Hr as [? _].
  by apply list_elem_of_In.
Qed.

(** Rows are determined by their key. *)
Lemma table_ok_key rows r r' :
  table_ok id key valid rows -> r ∈ rows -> r' ∈ rows -> key r = key r' -> r = r'.
Proof. intros (_ & Dk & _) H1 H2 Hk. by eapply NoDup_map_inj. Qed.

End tables.

(** ** The relay's tables *)

Section relay.
  Context {P : Postgres} {PL : PostgresLaws P}.

(** The calls that can change the relay's tables. *)
Inductive relay_op :=
| OpInsertDevice (d : RelayDevice)
| OpRevokeDevice (domainID deviceID : string) (now : Time)
| OpStoreRefresh (id domainID deviceID : string) (hash : bytes) (issuedAt expiresAt : Time)
| OpStoreAccess (id domainID deviceID : string) (hash : bytes) (issuedAt expiresAt : Time)
| OpRevokeRefresh (domainID : string) (hash : bytes) (now : Time)
| OpRevokeCredentials (domainID deviceID : string) (now : Time)
| OpStoreMessage (msg : RelayMessage)
| OpClaim (domainID recipient : string) (now : Time) (lease limit : Z)
| OpStoreReceipt (receipt : RelayReceipt)
| OpMarkDelivered (domainID messageID : string) (now : Time)
| OpUseNonce (domainID deviceID audience nonce : string) (expiresAt now : Time)
| OpCleanup (domainID : string) (now : Time) (dryRun : bool).

Definition run_op (op : relay_op) : Q RelayTables unit :=
  match op with
  | OpInsertDevice d => InsertDevice d
  | OpRevokeDevice domainID deviceID now => RevokeRelayDevice domainID deviceID now
  | OpStoreRefresh id domainID deviceID hash i e => StoreRefreshHash id domainID deviceID hash i e
  | OpStoreAccess id domainID deviceID hash i e => StoreAccessHash id domainID deviceID hash i e
  | OpRevokeRefresh domainID hash now => RevokeRefreshByHash domainID hash now
  | OpRevokeCredentials domainID deviceID now => RevokeDeviceCredentials domainID deviceID now
  | OpStoreMessage msg => StoreMessage msg
  | OpClaim domainID recipient now lease limit =>
      _ ← ClaimPendingMessagesFor domainID recipient now lease limit; mret tt
  | OpStoreReceipt receipt => StoreReceipt receipt
  | OpMarkDelivered domainID messageID now => MarkMessageDelivered domainID messageID now
  | OpUseNonce domainID deviceID audience nonce e now =>
      _ ← RelayUseProofNonce domainID deviceID audience nonce e now; mret tt
  | OpCleanup domainID now dryRun => _ ← ExpiredRelayMessages domainID now dryRun; mret tt
  end.

(** Any sequence of calls, whatever they return. *)
Definition run_ops (ops : list relay_op) (db : DB RelayTables) : DB RelayTables :=
  foldl (fun db op => (run_op op db).2) db ops.

Lemma run_ops_keeps Inv ops db :
  (forall op, op ∈ ops -> keeps Inv (run_op op)) -> Inv (db_tables db) -> Inv (db_tables (run_ops ops db)).
Proof.
  revert db. induction ops as [|op ops IH]; intros db Hk Hi; [done|]. cbn.
  apply IH; [intros op' Hop'; apply Hk; by right|]. apply Hk; [left|done].
Qed.

Definition nonce_key (r : NonceRow) : string * string * string := (nr_DomainID r, nr_DeviceID r, nr_Nonce r).

Definition relay_ok (t : RelayTables) : Prop :=
  table_ok rd_ID device_key relay_device_valid (rt_devices t) /\
  table_ok tk_ID token_key (fun _ => true) (rt_access t) /\
  table_ok tk_ID token_key (fun _ => true) (rt_refresh t) /\
  NoDup (map nonce_key (rt_nonces t)) /\
  table_ok mr_ID message_key message_valid (rt_messages t) /\
  table_ok rr_ID receipt_key receipt_valid (rt_receipts t).

End relay.

(** Opens a method into its statements. *)
Ltac statements :=
  repeat match goal with
  | |- keeps _ (if ?b then _ else _) => destruct b
  | |- keeps _ (check _) => apply keeps_check
  | |- keeps _ (mret _) => apply keeps_ret
  | |- keeps _ (_ ≫= _) => apply keeps_bind; [|intros ?]
  | |- keeps _ (statement _) => apply keeps_statement; intros ? ? ? Hok Hf
  end.

(** Leaves the tables a statement writes. *)
Ltac tables := cbv beta in *; inv_ok; cbn [rt_devices rt_access rt_refresh rt_nonces rt_messages rt_receipts
  set_devices set_access set_refresh set_nonces set_messages set_receipts] in *; try assumption.
Ltac written := match goal with H : relay_ok _ |- _ => destruct H as (? & ? & ? & ? & ? & ?) end; tables; unfold relay_ok; tables; split_and!; try assumption.

(** Every statement of every call. *)
Ltac each_statement op :=
  destruct op; cbn [run_op];
  unfold InsertDevice, RevokeRelayDevice, StoreRefreshHash, StoreAccessHash, RevokeRefreshByHash,
    RevokeDeviceCredentials, StoreMessage, StoreReceipt, MarkMessageDelivered, ExpiredRelayMessages,
    ClaimPendingMessagesFor, RelayUseProofNonce; cbv zeta; statements; tables.

Section facts.
  Context {P : Postgres} {PL : PostgresLaws P}.

(** The nonce table under the two statements of [useProofNonce]. *)
Lemma nonces_keep {T} (table : T -> list NonceRow) set_table d v a n e now (Inv : T -> Prop) :
  (forall t rows, Inv t -> (NoDup (map nonce_key (table t)) -> NoDup (map nonce_key rows)) -> Inv (set_table rows t)) ->
  keeps Inv (useProofNonce table set_table d v a n e now).
Proof.
  intros Hset. unfold useProofNonce. do 2 (apply keeps_bind; [apply keeps_check|intros _]).
  apply keeps_bind; [|intros _].
  - apply keeps_statement. intros t x t' Ht [= _ <-]. apply Hset; [done|]. apply NoDup_map_filter.
  - intros db Ht. unfold insert_nonce.
    set (f := fun t : T => rows ← insert_row _ _ _ (table t); Ok (tt, set_table rows t)).
    assert (keeps Inv (statement f)) as Hk.
    { apply keeps_statement. intros t x t' Hi Hf. unfold f in Hf. inv_ok.
      apply insert_row_Ok in E as (_ & Hc & ->). apply Hset; [done|]. intros Hd.
      rewrite map_app. apply NoDup_snoc; [done|]. intros (r & Hr & Hin)%list_elem_of_fmap.
      specialize (Hc r Hin). unfold nonce_clashes in Hc. unfold nonce_key in Hr. injection Hr as H1 H2 H3.
      by rewrite H1, H2, H3, !bool_decide_true in Hc. }
    specialize (Hk db Ht). destruct (statement f db) as [[?|e'] db']; [done|]. by destruct (bool_decide _).
Qed.

Lemma claim_row_valid until r :
  mr_attempts r < maxInteger -> message_valid r = true -> message_valid (claim_row until r) = true.
Proof. unfold message_valid. cbn. intros. bool_prop. rewrite !andb_true_iff. lia. Qed.

Lemma revoke_tokens_ok p now rows :
  table_ok tk_ID token_key (fun _ => true) rows -> table_ok tk_ID token_key (fun _ => true) (revoke_tokens p now rows).
Proof. by apply table_ok_update. Qed.

Lemma order_rows_perm {A} (less : A -> A -> bool) rows : Permutation (order_rows less rows) rows.
Proof. unfold order_rows. destruct order_by_laws as [Hp _]. apply Hp. Qed.

Lemma claim_rows_elem domainID recipient now limit rows r :
  r ∈ claim_rows domainID recipient now limit rows -> claimable domainID recipient now r = true /\ r ∈ rows.
Proof.
  unfold claim_rows. intros Hr. apply subseteq_take in Hr. rewrite order_rows_perm in Hr. by apply select_where_elem in Hr.
Qed.

(** A row is claimed by its identifier only if it was selected. *)
Lemma claimed_row domainID recipient now limit rows r :
  NoDup (map mr_ID rows) -> r ∈ rows ->
  mr_ID r ∈ map mr_ID (claim_rows domainID recipient now limit rows) <->
  r ∈ claim_rows domainID recipient now limit rows.
Proof.
  intros Hd Hr. split.
  - intros (r' & Hid & Hin)%list_elem_of_fmap. destruct (claim_rows_elem _ _ _ _ _ _ Hin) as [_ Hin'].
    by rewrite (NoDup_map_inj mr_ID rows r r').
  - apply list_elem_of_fmap_2.
Qed.

(** Every call keeps the constraints of every table. *)
Lemma run_op_ok op : keeps relay_ok (run_op op).
Proof.
  destruct op; cbn [run_op].
  - unfold InsertDevice. statements. written. eapply table_ok_upsert; [..|eassumption]; try done.
  - unfold RevokeRelayDevice. statements. written. by apply table_ok_update.
  - unfold StoreRefreshHash. statements. written. by eapply table_ok_insert; [|eassumption].
  - unfold StoreAccessHash. statements. written. by eapply table_ok_insert; [|eassumption].
  - unfold RevokeRefreshByHash. statements. written. by apply revoke_tokens_ok.
  - unfold RevokeDeviceCredentials. cbv zeta. statements; written; by apply revoke_tokens_ok.
  - unfold StoreMessage. statements. written. eapply table_ok_upsert; [..|eassumption]; try done.
    intros o n Ho Hn. unfold message_valid in *. cbn. bool_prop. by rewrite !andb_true_iff.
  - unfold ClaimPendingMessagesFor. cbv zeta. statements. written. apply table_ok_update; try done.
    match goal with H : table_ok mr_ID _ _ _ |- _ => destruct H as (Hd & _ & _) end.
    intros r Hr Hc. apply bool_decide_eq_true, claimed_row in Hc; [|done..]. apply claim_row_valid.
    match goal with H : existsb _ _ = false |- _ => rename H into He end.
    destruct (decide (mr_attempts r < maxInteger)) as [|Hm]; [done|]. exfalso.
    rewrite (proj2 (existsb_exists _ _)) in He; [done|]. exists r. rewrite <- list_elem_of_In. split; [done|lia].
  - unfold StoreReceipt. statements. written. eapply table_ok_upsert; [..|eassumption]; try done.
  - unfold MarkMessageDelivered. statements; written; apply table_ok_update; done.
  - apply keeps_bind; [|auto with sql]. unfold RelayUseProofNonce. apply (nonces_keep rt_nonces set_nonces). intros t rows Hok Hn. written. auto.
  - unfold ExpiredRelayMessages. cbv zeta. statements; written. by apply table_ok_delete.
Qed.

Lemma run_ops_ok ops faults : relay_ok (db_tables (run_ops ops (mkDB empty_relay faults))).
Proof.
  apply run_ops_keeps; [intros op _; apply run_op_ok|].
  unfold relay_ok, table_ok. cbn. split_and!; constructor.
Qed.


(** ** Credentials *)

(** A token of the domain with the hash is on record as revoked. *)
Definition spent (domainID : string) (hash : bytes) (rows : list TokenRow) : Prop :=
  exists r, r ∈ rows /\ token_key r = (domainID, hash) /\ tk_revoked_at r <> None.

Lemma spent_not_live domainID hash now rows :
  table_ok tk_ID token_key (fun _ => true) rows -> spent domainID hash rows ->
  select_where (live_token domainID hash now) rows = [].
Proof.
  intros Hok (r & Hr & Hk & Hrev). destruct (select_where _ rows) as [|r' l] eqn:E; [done|]. exfalso.
  assert (r' ∈ select_where (live_token domainID hash now) rows) as Hr' by (rewrite E; left).
  apply select_where_elem in Hr' as [Hl Hr']. unfold live_token in Hl. bool_prop.
  assert (r = r') as -> by (eapply table_ok_key; [exact Hok|done..|]; unfold token_key in *; congruence). done.
Qed.

Lemma row_order_nil {A} : row_order (A := A) [] = [].
Proof. apply Permutation_nil_r, row_order_perm. Qed.

Lemma spent_insert domainID hash r rows rows' :
  insert_row (clash tk_ID token_key) (fun _ => true) r rows = Ok rows' -> spent domainID hash rows ->
  spent domainID hash rows'.
Proof. intros (_ & _ & ->)%insert_row_Ok (r' & ? & ? & ?). exists r'. split; [apply elem_of_app; by left|done]. Qed.

Lemma spent_revoke domainID hash p now rows :
  spent domainID hash rows -> spent domainID hash (revoke_tokens p now rows).
Proof.
  intros (r & Hr & Hk & Hrev). exists r. split; [|done]. apply update_where_lookup. exists r.
  split; [done|]. by rewrite (bool_decide_false (tk_revoked_at r = None)), andb_false_r.
Qed.

(** Once spent, spent whatever is called. *)
Lemma spent_refresh_keeps domainID hash op : keeps (fun t => spent domainID hash (rt_refresh t)) (run_op op).
Proof.
  each_statement op; try (by apply spent_revoke); try (by eapply spent_insert); [].
  by apply (nonces_keep rt_nonces set_nonces).
Qed.

Lemma spent_access_keeps domainID hash op : keeps (fun t => spent domainID hash (rt_access t)) (run_op op).
Proof.
  each_statement op; try (by apply spent_revoke); try (by eapply spent_insert); [].
  by apply (nonces_keep rt_nonces set_nonces).
Qed.

(** A lookup of a live token, in the refresh or the access table. *)
Lemma GetRefreshByHash_Ok domainID hash now db c db' :
  GetRefreshByHash domainID hash now db = (Ok c, db') ->
  db_tables db' = db_tables db /\
  exists r, r ∈ rt_refresh (db_tables db) /\ live_token domainID hash now r = true /\ c = tk_cred r.
Proof.
  unfold GetRefreshByHash. intros (? & ? & [= _ <-] & (_ & t & Hf & ->)%statement_Ok)%Q_bind_Ok. inv_ok.
  split; [done|]. apply query_row_Ok in E. rewrite row_order_perm in E. apply select_where_elem in E as [? ?]. eauto.
Qed.

Lemma GetAccessByHash_Ok domainID hash now db c db' :
  GetAccessByHash domainID hash now db = (Ok c, db') ->
  db_tables db' = db_tables db /\
  exists r, r ∈ rt_access (db_tables db) /\ live_token domainID hash now r = true /\ c = tk_cred r.
Proof.
  unfold GetAccessByHash. intros (? & ? & [= _ <-] & (_ & t & Hf & ->)%statement_Ok)%Q_bind_Ok. inv_ok.
  split; [done|]. apply query_row_Ok in E. rewrite row_order_perm in E. apply select_where_elem in E as [? ?]. eauto.
Qed.

Lemma live_not_spent domainID hash now rows r :
  table_ok tk_ID token_key (fun _ => true) rows -> spent domainID hash rows ->
  r ∈ rows -> live_token domainID hash now r = true -> False.
Proof.
  intros Hok Hs Hr Hl. assert (r ∈ select_where (live_token domainID hash now) rows) as Hin
    by (by apply select_where_elem). rewrite spent_not_live in Hin by done. set_solver.
Qed.

Lemma revoke_tokens_spent p now rows r domainID hash :
  r ∈ rows -> p (tk_cred r) = true -> token_key r = (domainID, hash) ->
  spent domainID hash (revoke_tokens p now rows).
Proof.
  intros Hr Hp Hk. exists (if bool_decide (tk_revoked_at r = None) then mkTokenRow (tk_cred r) (Some (timestamptz now)) else r).
  split; [|by case_bool_decide]. apply update_where_lookup. exists r. split; [done|]. by rewrite Hp.
Qed.

Lemma spent_forever ops db domainID hash :
  relay_ok (db_tables db) ->
  (spent domainID hash (rt_refresh (db_tables db)) ->
     forall now c, (GetRefreshByHash domainID hash now (run_ops ops db)).1 <> Ok c) /\
  (spent domainID hash (rt_access (db_tables db)) ->
     forall now c, (GetAccessByHash domainID hash now (run_ops ops db)).1 <> Ok c).
Proof.
  intros Hok. assert (relay_ok (db_tables (run_ops ops db))) as (_ & Ha & Hr & _)
    by (apply run_ops_keeps; [intros; apply run_op_ok|done]).
  split; intros Hs now c.
  - apply (run_ops_keeps (fun t => spent domainID hash (rt_refresh t)) ops db) in Hs; [|intros; apply spent_refresh_keeps].
    destruct (GetRefreshByHash domainID hash now (run_ops ops db)) as [r db'] eqn:E. cbn [fst]. intros ->.
    apply GetRefreshByHash_Ok in E as (_ & r & Hin & Hl & _). exact (live_not_spent _ _ _ _ _ Hr Hs Hin Hl).
  - apply (run_ops_keeps (fun t => spent domainID hash (rt_access t)) ops db) in Hs; [|intros; apply spent_access_keeps].
    destruct (GetAccessByHash domainID hash now (run_ops ops db)) as [r db'] eqn:E. cbn [fst]. intros ->.
    apply GetAccessByHash_Ok in E as (_ & r & Hin & Hl & _). exact (live_not_spent _ _ _ _ _ Ha Hs Hin Hl).
Qed.

(** A refresh credential is good for one rotation: once it has been looked up and
    revoked, no later call ever finds it, whatever is stored or revoked in
    between (the rows are kept, so that the same hash cannot be stored again). *)
Theorem refresh_single_use domainID hash now0 now1 now2 db c db1 db2 ops c' :
  relay_ok (db_tables db) ->
  GetRefreshByHash domainID hash now0 db = (Ok c, db1) ->
  RevokeRefreshByHash domainID hash now1 db1 = (Ok tt, db2) ->
  (GetRefreshByHash domainID hash now2 (run_ops ops db2)).1 <> Ok c'.
Proof.
  intros Hok (Ht & r & Hr & Hl & ->)%GetRefreshByHash_Ok Hrev.
  pose proof (run_op_ok (OpRevokeRefresh domainID hash now1) db1) as Hok2. cbn [run_op] in Hok2.
  rewrite Hrev, Ht in Hok2. apply spent_forever; [by apply Hok2|].
  unfold RevokeRefreshByHash in Hrev. apply Q_bind_Ok in Hrev as (? & ? & [= _ <-] & (_ & t & Hf & ->)%statement_Ok).
  tables. rewrite Ht. unfold live_token in Hl. bool_prop.
  eapply revoke_tokens_spent; [exact Hr| |unfold token_key; congruence]. by rewrite !bool_decide_true.
Qed.

(** Revoking a device's credentials locks the device out for good: no access or
    refresh token it held is ever accepted again, whatever happens later. *)
Theorem revoked_device_locked_out domainID deviceID now db db' r ops now' c :
  relay_ok (db_tables db) ->
  RevokeDeviceCredentials domainID deviceID now db = (Ok tt, db') ->
  rc_DomainID (tk_cred r) = domainID -> rc_DeviceID (tk_cred r) = deviceID ->
  (r ∈ rt_access (db_tables db) -> (GetAccessByHash domainID (rc_Hash (tk_cred r)) now' (run_ops ops db')).1 <> Ok c) /\
  (r ∈ rt_refresh (db_tables db) -> (GetRefreshByHash domainID (rc_Hash (tk_cred r)) now' (run_ops ops db')).1 <> Ok c).
Proof.
  intros Hok Hrev Hd Hv. pose proof (run_op_ok (OpRevokeCredentials domainID deviceID now) db Hok) as Hok2.
  cbn [run_op] in Hok2. rewrite Hrev in Hok2. cbn [snd] in Hok2.
  unfold RevokeDeviceCredentials in Hrev. apply Q_bind_Ok in Hrev as (? & ? & [= _ <-] & Hrev).
  apply Q_bind_Ok in Hrev as (? & ? & (_ & t & Hf & ->)%statement_Ok & (_ & t' & Hf' & ->)%statement_Ok). tables.
  split; intros Hin; apply spent_forever; try exact Hok2; cbn;
    (eapply revoke_tokens_spent; [exact Hin|by rewrite !bool_decide_true|unfold token_key; congruence]).
Qed.

End facts.

(** ** Concrete tables *)

Import TruncatingServer.

Definition no_faults (n : nat) : option error := None.

Definition at_second (s : Z) : Time := mkTime ((unixToInternal + s) * Second) 0.

(** A relay that has issued device d1 an access and a refresh token. *)
Definition toy_tokens : DB RelayTables :=
  run_ops [OpStoreAccess "i1" "dom" "d1" [x01] (at_second 0) (at_second 900);
           OpStoreRefresh "i2" "dom" "d1" [x02] (at_second 0) (at_second 86400)] (mkDB empty_relay no_faults).

Lemma toy_tokens_ok : relay_ok (db_tables toy_tokens).
Proof. apply run_ops_ok. Qed.

(** Two access tokens with one hash: the second insertion fails. *)
Definition toy_duplicate : list relay_op :=
  [OpStoreAccess "i1" "dom" "d1" [x01] (at_second 0) (at_second 900);
   OpStoreAccess "i2" "dom" "d2" [x01] (at_second 1) (at_second 901);
   OpStoreRefresh "i3" "dom" "d1" [x02] (at_second 0) (at_second 86400)].


Lemma refresh_single_use_witness :
  is_ok (GetRefreshByHash "dom" [x02] (at_second 10) toy_tokens).1 = true /\
  (GetRefreshByHash "dom" [x02] (at_second 20)
     (run_ops [OpStoreRefresh "i3" "dom" "d1" [x02] (at_second 12) (at_second 86400)]
        (RevokeRefreshByHash "dom" [x02] (at_second 11) toy_tokens).2)).1
  <> Ok (mkRelayCredential "i3" "dom" "d1" [x02] (at_second 12) (at_second 86400)).
Proof.
  split; [vm_compute; reflexivity|].
  eapply (refresh_single_use "dom" [x02] (at_second 10) (at_second 11) (at_second 20) toy_tokens);
    [apply toy_tokens_ok|vm_compute; reflexivity|vm_compute; reflexivity].
Defined.

Lemma revoked_device_locked_out_witness :
  is_ok (GetAccessByHash "dom" [x01] (at_second 10) toy_tokens).1 = true /\
  is_ok (GetAccessByHash "dom" [x01] (at_second 12)
           (run_ops [] (RevokeDeviceCredentials "dom" "d1" (at_second 11) toy_tokens).2)).1 = false.
Proof.
  split; [vm_compute; reflexivity|].
  set (r := token_row "i1" "dom" "d1" [x01] (at_second 0) (at_second 900)).
  destruct (GetAccessByHash "dom" [x01] (at_second 12) (run_ops [] _)) as [[c|e] db2] eqn:E; [|done]. exfalso.
  apply (proj1 (revoked_device_locked_out "dom" "d1" (at_second 11) toy_tokens
    (RevokeDeviceCredentials "dom" "d1" (at_second 11) toy_tokens).2 r [] (at_second 12) c
    toy_tokens_ok ltac:(vm_compute; reflexivity) eq_refl eq_refl)).
  - vm_compute. left.
  - change (rc_Hash (tk_cred r)) with [x01]. by rewrite E.
Defined.
