(* ===== verification/Delivery.v ===== *)
(** * Delivery of stored messages

    What the relay's message table guarantees: claims hand out the pending
    messages of a recipient in order of priority, under a lease; a delivered
    message is not handed out again; repeated claims drain the table. *)
From Stdlib Require Import ZArith Lia Strings.Byte.
From stdpp Require Import sorting numbers gmap sets strings base list.
From S2P Require Import Prelude Errors GoTime Crypto GoStrings Sorting Uuid Sql Repository RepositoryProps.
Open Scope Z_scope.

(** ** Splitting a list by the identifiers of a part *)

Lemma filter_perm {A} (p : A -> bool) l l' : Permutation l l' -> Permutation (List.filter p l) (List.filter p l').
Proof.
  induction 1 as [|x l l' _ IH|x y l|l l' l'' _ IH1 _ IH2]; cbn; [done|..].
  - destruct (p x); [by constructor|done].
  - destruct (p x), (p y); try done. apply Permutation_swap.
  - by etransitivity.
Qed.

Lemma filter_all {A} (p : A -> bool) l : (forall x, x ∈ l -> p x = true) -> List.filter p l = l.
Proof.
  induction l as [|x l IH]; intros H; cbn; [done|]. rewrite (H x) by left. f_equal. apply IH. intros y Hy.
  apply H. by right.
Qed.

Lemma filter_none {A} (p : A -> bool) l : (forall x, x ∈ l -> p x = false) -> List.filter p l = [].
Proof.
  induction l as [|x l IH]; intros H; cbn; [done|]. rewrite (H x) by left. apply IH. intros y Hy. apply H. by right.
Qed.

Section split.
  Context {R : Type} (id : R -> string).

Definition picked (a : list R) (r : R) : bool := bool_decide (id r ∈ map id a).

Lemma picked_split a b l :
  Permutation l (a ++ b) -> NoDup (map id l) ->
  Permutation (List.filter (picked a) l) a /\ Permutation (List.filter (fun r => negb (picked a r)) l) b.
Proof.
  intros Hp Hd. assert (NoDup (map id (a ++ b))) as Hd' by (by rewrite <- Hp).
  rewrite map_app in Hd'. apply NoDup_app in Hd' as (_ & Hab & _).
  assert (forall x, x ∈ a -> picked a x = true) as Ha
    by (intros x Hx; apply bool_decide_eq_true; by apply list_elem_of_fmap_2).
  assert (forall x, x ∈ b -> picked a x = false) as Hb.
  { intros x Hx. apply bool_decide_eq_false. intros Hin. apply (Hab _ Hin). by apply list_elem_of_fmap_2. }
  split; rewrite (filter_perm _ _ _ Hp), List.filter_app.
  - rewrite (filter_all _ a) by done. rewrite (filter_none _ b) by done. by rewrite app_nil_r.
  - rewrite (filter_none _ a) by (intros x Hx; by rewrite Ha). rewrite (filter_all _ b); [done|].
    intros x Hx. by rewrite Hb.
Qed.

End split.

(** ** Claims *)

Section delivery.
  Context {P : Postgres} {PL : PostgresLaws P}.

Lemma delivery_weak_order : weak_order delivery_before.
Proof.
  unfold weak_order, delivery_before, Before. split_and!.
  - intros x. rewrite Z.eqb_refl. lia.
  - intros x y. rewrite (Z.eqb_sym (rm_Priority (mr_msg y))). destruct (Z.eqb_spec (rm_Priority (mr_msg x)) (rm_Priority (mr_msg y))); lia.
  - intros x y z.
    destruct (Z.eqb_spec (rm_Priority (mr_msg x)) (rm_Priority (mr_msg y))), (Z.eqb_spec (rm_Priority (mr_msg y)) (rm_Priority (mr_msg z))),
      (Z.eqb_spec (rm_Priority (mr_msg x)) (rm_Priority (mr_msg z))); lia.
Qed.

Lemma order_rows_sorted {A} (less : A -> A -> bool) rows :
  weak_order less -> StronglySorted (not_after less) (order_rows less rows).
Proof. unfold order_rows. destruct order_by_laws as [_ Hs]. apply Hs. Qed.

(** The pending rows of a recipient. *)
Definition pending (domainID recipient : string) (now : Time) (t : RelayTables) : list MessageRow :=
  select_where (claimable domainID recipient now) (rt_messages t).

(** The pending rows a claim leaves. *)
Definition left_rows (domainID recipient : string) (now : Time) (limit : Z) (rows : list MessageRow) : list MessageRow :=
  drop (Z.to_nat limit) (order_rows delivery_before (select_where (claimable domainID recipient now) rows)).

Lemma claim_left domainID recipient now limit rows :
  Permutation (select_where (claimable domainID recipient now) rows)
    (claim_rows domainID recipient now limit rows ++ left_rows domainID recipient now limit rows).
Proof. unfold claim_rows, left_rows. rewrite take_drop. symmetry. apply order_rows_perm. Qed.

(** What a claim that goes through returns and writes. *)
Lemma Claim_Ok domainID recipient now lease limit db out db' :
  0 < limit -> NoDup (map mr_ID (rt_messages (db_tables db))) ->
  ClaimPendingMessagesFor domainID recipient now lease limit db = (Ok out, db') ->
  let rows := rt_messages (db_tables db) in
  let claim := claim_rows domainID recipient now limit rows in
  Permutation out (map mr_msg claim) /\ 0 < lease /\
  db_tables db' = set_messages (update_where (picked mr_ID claim) (claim_row (Add now lease)) rows) (db_tables db) /\
  db_faults db' = fun n => db_faults db (S n).
Proof.
  intros Hlim Hd. unfold ClaimPendingMessagesFor. replace (limit <=? 0) with false by lia.
  intros (? & ? & [= _ <-] & Hq)%Q_bind_Ok. apply Q_bind_Ok in Hq as (? & ? & [= _ <-] & Hq).
  apply Q_bind_Ok in Hq as (? & ? & Hl & (_ & t & Hf & ->)%statement_Ok). unfold check in Hl. injection Hl as Hl <-.
  apply reject_if_Ok in Hl. cbv zeta in *. inv_ok. cbn [db_tables db_faults].
  set (rows := rt_messages (db_tables db)) in *. split_and!; [|lia|done..].
  rewrite row_order_perm. unfold select_where, update_where.
  fold (picked mr_ID (claim_rows domainID recipient now limit rows)).
  assert (forall l, map mr_msg (List.filter (picked mr_ID (claim_rows domainID recipient now limit rows))
    (map (fun r => if picked mr_ID (claim_rows domainID recipient now limit rows) r then claim_row (Add now lease) r else r) l))
    = map mr_msg (List.filter (picked mr_ID (claim_rows domainID recipient now limit rows)) l)) as Hw.
  { set (a := claim_rows _ _ _ _ _). clearbody a. induction l as [|r l IH]; [done|]. cbn [map List.filter].
    destruct (picked mr_ID a r) eqn:Er; [|by rewrite Er].
    replace (picked mr_ID a (claim_row (Add now lease) r)) with true by (symmetry; exact Er). cbn [map]. by f_equal. }
  rewrite Hw. apply Permutation_map. clear Hw.
  set (rest := List.filter (fun r => negb (claimable domainID recipient now r)) rows).
  apply (picked_split mr_ID _ (left_rows domainID recipient now limit rows ++ rest)); [|done].
  rewrite app_assoc, <- claim_left. unfold select_where, rest. clear.
  induction rows as [|r rows IH]; [done|]. cbn. destruct (claimable _ _ _ r); cbn [negb app]; [by constructor|].
  rewrite IH at 1. apply Permutation_middle.
Qed.

(** A claim hands a recipient its pending messages, at most [limit] of them and
    each once: none that is pending and not handed out has a higher priority, or
    the same priority and an earlier arrival, than one that is. *)
Theorem claim_highest_first domainID recipient now lease limit db out db' :
  0 < limit -> relay_ok (db_tables db) ->
  ClaimPendingMessagesFor domainID recipient now lease limit db = (Ok out, db') ->
  exists taken rest,
    Permutation (pending domainID recipient now (db_tables db)) (taken ++ rest) /\
    Permutation out (map mr_msg taken) /\ NoDup (map rm_ID out) /\
    length out = Nat.min (Z.to_nat limit) (length (pending domainID recipient now (db_tables db))) /\
    forall r r', r ∈ taken -> r' ∈ rest -> delivery_before r' r = false.
Proof.
  intros Hlim (_ & _ & _ & _ & (Hd & _) & _) Hc. destruct (Claim_Ok _ _ _ _ _ _ _ _ Hlim Hd Hc) as (Hout & _ & _ & _).
  set (rows := rt_messages (db_tables db)) in *.
  exists (claim_rows domainID recipient now limit rows), (left_rows domainID recipient now limit rows).
  split_and!; [apply claim_left|exact Hout|..].
  - rewrite Hout, map_map. change (fun x => rm_ID (mr_msg x)) with mr_ID. unfold claim_rows.
    set (l := order_rows _ _). assert (NoDup (map mr_ID l)) as Hl.
    { unfold l. rewrite order_rows_perm. by apply NoDup_map_filter. }
    rewrite <- (take_drop (Z.to_nat limit) l), map_app in Hl. by apply NoDup_app in Hl as (? & _).
  - rewrite Hout, length_map. unfold claim_rows, pending. rewrite length_take. by rewrite order_rows_perm.
  - intros r r' Hr Hr'. pose proof (order_rows_sorted delivery_before
      (select_where (claimable domainID recipient now) rows) delivery_weak_order) as Hs.
    rewrite <- (take_drop (Z.to_nat limit) (order_rows _ _)) in Hs.
    by apply (StronglySorted_app_1_elem_of _ _ _ r r' Hs).
Qed.

(** A row under a lease that is still running cannot be claimed. *)
Lemma claim_row_leased domainID recipient until now r :
  ns (timestamptz now) < ns (timestamptz until) -> claimable domainID recipient now (claim_row until r) = false.
Proof. intros Hlt. unfold claimable. cbn. unfold After.
  replace (ns (timestamptz now) <? ns (timestamptz until)) with true by lia. apply andb_false_r. Qed.

(** The pending rows once a claim has been made, while its lease runs. *)
Lemma pending_after_claim domainID recipient now limit until rows now' :
  NoDup (map mr_ID rows) -> ns (timestamptz now') < ns (timestamptz until) ->
  let claim := claim_rows domainID recipient now limit rows in
  select_where (claimable domainID recipient now') (update_where (picked mr_ID claim) (claim_row until) rows)
  = List.filter (fun r => negb (picked mr_ID claim r)) (select_where (claimable domainID recipient now') rows).
Proof.
  intros Hd Hlt claim. clearbody claim. unfold select_where, update_where. induction rows as [|r rows IH]; [done|].
  apply NoDup_cons in Hd as [_ Hd]. cbn [map List.filter]. rewrite IH by done.
  destruct (picked mr_ID claim r) eqn:E.
  - rewrite claim_row_leased by done. destruct (claimable domainID recipient now' r); cbn [List.filter]; [by rewrite E|done].
  - destruct (claimable domainID recipient now' r); cbn [List.filter]; [by rewrite E|done].
Qed.

(** C16. Leases are exclusive: while the lease of a claim runs, a further claim by the
    same recipient returns none of its messages. *)
Theorem claims_exclusive domainID recipient now lease limit db out db' now' lease' limit' out' db'' :
  0 < limit -> 0 < limit' -> relay_ok (db_tables db) ->
  ClaimPendingMessagesFor domainID recipient now lease limit db = (Ok out, db') ->
  ns (timestamptz now') < ns (timestamptz (Add now lease)) ->
  ClaimPendingMessagesFor domainID recipient now' lease' limit' db' = (Ok out', db'') ->
  map rm_ID out ## map rm_ID out'.
Proof.
  intros Hlim Hlim' Hok Hc Hlt Hc'. pose proof (run_op_ok (OpClaim domainID recipient now lease limit) db Hok) as Hok'.
  cbn [run_op] in Hok'. unfold mbind, Q_bind in Hok'. rewrite Hc in Hok'. cbn [snd mret Q_ret] in Hok'.
  destruct Hok as (_ & _ & _ & _ & (Hd & _) & _), Hok' as (_ & _ & _ & _ & (Hd' & _) & _).
  destruct (Claim_Ok _ _ _ _ _ _ _ _ Hlim Hd Hc) as (Hout & _ & Ht & _).
  destruct (Claim_Ok _ _ _ _ _ _ _ _ Hlim' Hd' Hc') as (Hout' & _ & _ & _).
  rewrite Ht in Hout', Hd'. cbn [rt_messages set_messages] in Hout', Hd'.
  set (rows := rt_messages (db_tables db)) in *. set (claim := claim_rows domainID recipient now limit rows) in *.
  intros x Hx Hx'. rewrite Hout, map_map in Hx. rewrite Hout', map_map in Hx'.
  apply list_elem_of_fmap in Hx' as (r & Hxr & Hr). unfold claim_rows in Hr. apply subseteq_take in Hr.
  rewrite order_rows_perm in Hr. unfold claim in Hr. rewrite pending_after_claim in Hr by done.
  apply list_elem_of_In, filter_In in Hr as [_ Hr]. unfold picked in Hr. bool_prop. apply Hr.
  change (rm_ID (mr_msg r)) with (mr_ID r) in Hxr. by rewrite <- Hxr.
Qed.

(** ** Draining *)

(** [n] claims in a row at time [now], and what they return. *)
Fixpoint claim_rounds (n : nat) (domainID recipient : string) (now : Time) (lease limit : Z) (db : DB RelayTables)
    : list RelayMessage * DB RelayTables :=
  match n with
  | O => ([], db)
  | S n =>
      match ClaimPendingMessagesFor domainID recipient now lease limit db with
      | (Ok out, db) => let '(more, db) := claim_rounds n domainID recipient now lease limit db in (out ++ more, db)
      | (Err _, db) => ([], db)
      end
  end.

(** A claim on a database that answers goes through. *)
Lemma Claim_total domainID recipient now lease limit db :
  domainID <> "" -> blank recipient = false -> 0 < limit -> 0 < lease -> db_faults db O = None ->
  (forall r, r ∈ rt_messages (db_tables db) -> mr_attempts r < maxInteger) ->
  exists out db', ClaimPendingMessagesFor domainID recipient now lease limit db = (Ok out, db').
Proof.
  intros Hdom Hrec Hlim Hlease Hf Ha. unfold ClaimPendingMessagesFor, RequireDomain.
  rewrite bool_decide_false, Hrec by done. replace (limit <=? 0) with false by lia. replace (lease <=? 0) with false by lia.
  unfold mbind, Q_bind. cbn [check reject_if]. unfold statement. rewrite Hf. cbv zeta.
  destruct (existsb _ _) eqn:E; [|cbn; by eexists _, _]. exfalso.
  apply existsb_exists in E as (r & Hin & Hr). apply list_elem_of_In, claim_rows_elem in Hin as [_ Hin].
  specialize (Ha r Hin). lia.
Qed.


(** ** Delivered messages *)

(** The message is on record as delivered. *)
Definition delivered (domainID messageID : string) (rows : list MessageRow) : Prop :=
  exists r, r ∈ rows /\ message_key r = (domainID, messageID) /\ mr_delivered_at r <> None.

(** The calls that delete no rows. *)
Definition no_cleanup (op : relay_op) : bool :=
  match op with
  | OpCleanup _ _ dryRun => dryRun
  | _ => true
  end.

Lemma delivered_update domainID messageID p f rows :
  (forall r, message_key (f r) = message_key r) ->
  (forall r, mr_delivered_at r <> None -> mr_delivered_at (f r) <> None) ->
  delivered domainID messageID rows -> delivered domainID messageID (update_where p f rows).
Proof.
  intros Hk Hd (r & Hr & Hm & Hdel). exists (if p r then f r else r). split; [apply update_where_lookup; eauto|].
  destruct (p r); [rewrite Hk; auto|done].
Qed.

Lemma delivered_keeps domainID messageID op :
  no_cleanup op = true -> keeps (fun t => delivered domainID messageID (rt_messages t)) (run_op op).
Proof.
  intros Hop. each_statement op; try (by apply delivered_update); try (by apply (nonces_keep rt_nonces set_nonces)); [|done].
  match goal with H : upsert_row _ _ _ _ _ _ = Ok _ |- _ => apply upsert_row_Ok in H as [_ [->|(_ & _ & ->)]] end; [by apply delivered_update|].
  destruct Hok as (r & Hr & Hk). exists r. split; [apply elem_of_app; by left|done].
Qed.

(** A delivered message is never handed out again, whatever is stored, claimed or
    revoked afterwards, as long as its row is kept: storing a message under the
    same identifier again is accepted, but is not delivered either. *)
Theorem delivered_never_claimed domainID messageID now db db' ops recipient now' lease limit out db'' m :
  relay_ok (db_tables db) ->
  (exists r, r ∈ rt_messages (db_tables db) /\ message_key r = (domainID, messageID)) ->
  MarkMessageDelivered domainID messageID now db = (Ok tt, db') ->
  Forall (fun op => no_cleanup op = true) ops -> 0 < limit ->
  ClaimPendingMessagesFor domainID recipient now' lease limit (run_ops ops db') = (Ok out, db'') ->
  m ∈ out -> rm_MessageID m <> messageID.
Proof.
  intros Hok (r & Hr & Hk) Hm Hops Hlim Hc Hin Heq.
  pose proof (run_op_ok (OpMarkDelivered domainID messageID now) db Hok) as Hok1. cbn [run_op] in Hok1.
  rewrite Hm in Hok1. cbn [snd] in Hok1.
  assert (delivered domainID messageID (rt_messages (db_tables db'))) as Hdel.
  { unfold MarkMessageDelivered in Hm. apply Q_bind_Ok in Hm as (? & ? & [= _ <-] & Hm).
    apply Q_bind_Ok in Hm as (? & ? & (_ & t & Hf & ->)%statement_Ok & (_ & t' & Hf' & ->)%statement_Ok). tables.
    eexists. split; [apply update_where_lookup; exists r; split; [exact Hr|reflexivity]|].
    unfold message_key in Hk. injection Hk as Hk1 Hk2. rewrite !bool_decide_true by done. cbn.
    unfold message_key. cbn. by rewrite Hk1, Hk2. }
  assert (relay_ok (db_tables (run_ops ops db'))) as (_ & _ & _ & _ & Hmsg & _)
    by (apply run_ops_keeps; [intros; apply run_op_ok|done]).
  apply (run_ops_keeps (fun t => delivered domainID messageID (rt_messages t)) ops db') in Hdel.
  2: { intros op Hop. apply delivered_keeps. rewrite Forall_forall in Hops. by apply Hops. }
  destruct (Claim_Ok _ _ _ _ _ _ _ _ Hlim (proj1 Hmsg) Hc) as (Hout & _). rewrite Hout in Hin.
  apply list_elem_of_fmap in Hin as (r1 & -> & [Hcl Hr1]%claim_rows_elem). unfold claimable in Hcl. bool_prop.
  destruct Hdel as (r2 & Hr2 & Hk2 & Hdel).
  assert (r1 = r2) as -> by (eapply table_ok_key; [exact Hmsg|done..|]; rewrite Hk2; unfold message_key; congruence). done.
Qed.

(** The message table is keyed by message identifier alone: a message stored
    under an identifier already in use replaces the envelope waiting there, which
    keeps the sender and recipient it had, whoever the new sender is. *)
Theorem StoreMessage_replaces_envelope msg db db' r :
  r ∈ rt_messages (db_tables db) -> message_key r = (rm_DomainID msg, rm_MessageID msg) ->
  StoreMessage msg db = (Ok tt, db') ->
  exists r', r' ∈ rt_messages (db_tables db') /\ message_key r' = message_key r /\
    rm_SenderDeviceID (mr_msg r') = rm_SenderDeviceID (mr_msg r) /\
    rm_RecipientDeviceID (mr_msg r') = rm_RecipientDeviceID (mr_msg r) /\
    rm_EnvelopeRaw (mr_msg r') = rm_EnvelopeRaw msg /\ rm_Priority (mr_msg r') = rm_Priority msg /\
    mr_delivered_at r' = mr_delivered_at r.
Proof.
  intros Hr Hk Hs. unfold StoreMessage in Hs.
  apply Q_bind_Ok in Hs as (? & ? & [= _ <-] & (_ & t & Hf & ->)%statement_Ok). tables.
  match goal with H : upsert_row _ _ _ _ _ _ = Ok _ |- _ => apply upsert_row_Ok in H as [_ [->|(Hn & _)]] end.
  - eexists. split; [apply update_where_lookup; exists r; split; [exact Hr|reflexivity]|].
    unfold same. rewrite bool_decide_true by (unfold message_key in *; cbn; congruence). done.
  - specialize (Hn r Hr). unfold same in Hn. bool_prop. exfalso. apply Hn. rewrite Hk. done.
Qed.

End delivery.

(** ** Concrete messages *)

Import TruncatingServer.

Definition toy_stored (id message sender : string) (priority queued : Z) : RelayMessage :=
  mkRelayMessage id "dom" message sender "bob" "s" "text" [x7b; x7d] [x01] [x01] priority (at_second queued)
    (at_second 1000).

Definition toy_messages_db : DB RelayTables :=
  run_ops [OpStoreMessage (toy_stored "i1" "m1" "alice" 0 1); OpStoreMessage (toy_stored "i2" "m2" "alice" 5 2)]
    (mkDB empty_relay no_faults).

Lemma toy_messages_ok : relay_ok (db_tables toy_messages_db).
Proof. apply run_ops_ok. Qed.

Lemma toy_messages_rows : rt_messages (db_tables toy_messages_db) =
  [mkMessageRow (toy_stored "i1" "m1" "alice" 0 1) None None 0; mkMessageRow (toy_stored "i2" "m2" "alice" 5 2) None None 0].
Proof. vm_compute. reflexivity. Qed.

Lemma claim_highest_first_witness :
  exists taken rest,
    Permutation (pending "dom" "bob" (at_second 10) (db_tables toy_messages_db)) (taken ++ rest) /\
    Permutation [toy_stored "i2" "m2" "alice" 5 2] (map mr_msg taken).
Proof.
  destruct (claim_highest_first "dom" "bob" (at_second 10) Minute 1 toy_messages_db [toy_stored "i2" "m2" "alice" 5 2]
    (ClaimPendingMessagesFor "dom" "bob" (at_second 10) Minute 1 toy_messages_db).2) as (taken & rest & H1 & H2 & _);
    [lia|apply toy_messages_ok|vm_compute; reflexivity|by exists taken, rest].
Defined.

Lemma claims_exclusive_witness :
  ["i2"] ## ["i1"].
Proof.
  apply (claims_exclusive "dom" "bob" (at_second 10) Minute 1 toy_messages_db [toy_stored "i2" "m2" "alice" 5 2]
    (ClaimPendingMessagesFor "dom" "bob" (at_second 10) Minute 1 toy_messages_db).2 (at_second 11) Minute 2
    [toy_stored "i1" "m1" "alice" 0 1]
    (ClaimPendingMessagesFor "dom" "bob" (at_second 11) Minute 2
       (ClaimPendingMessagesFor "dom" "bob" (at_second 10) Minute 1 toy_messages_db).2).2);
    [lia|lia|apply toy_messages_ok|vm_compute; reflexivity..].
Defined.


Lemma delivered_never_claimed_witness :
  forall m, m ∈ [toy_stored "i1" "m1" "alice" 0 1] -> rm_MessageID m <> "m2".
Proof.
  intros m. apply (delivered_never_claimed "dom" "m2" (at_second 10) toy_messages_db
    (MarkMessageDelivered "dom" "m2" (at_second 10) toy_messages_db).2
    [OpStoreMessage (toy_stored "i3" "m2" "alice" 5 12)] "bob" (at_second 20) Minute 10
    [toy_stored "i1" "m1" "alice" 0 1]
    (ClaimPendingMessagesFor "dom" "bob" (at_second 20) Minute 10 (run_ops [OpStoreMessage (toy_stored "i3" "m2" "alice" 5 12)]
       (MarkMessageDelivered "dom" "m2" (at_second 10) toy_messages_db).2)).2 m);
    [apply toy_messages_ok| |vm_compute; reflexivity|repeat constructor|lia|vm_compute; reflexivity].
  rewrite toy_messages_rows. eexists. split; [right; left|reflexivity].
Defined.

Lemma StoreMessage_replaces_envelope_witness :
  exists r', r' ∈ rt_messages (db_tables (StoreMessage (toy_stored "i9" "m1" "mallory" 9 5) toy_messages_db).2) /\
    rm_SenderDeviceID (mr_msg r') = "alice" /\ rm_Priority (mr_msg r') = 9.
Proof.
  destruct (StoreMessage_replaces_envelope (toy_stored "i9" "m1" "mallory" 9 5) toy_messages_db
    (StoreMessage (toy_stored "i9" "m1" "mallory" 9 5) toy_messages_db).2
    (mkMessageRow (toy_stored "i1" "m1" "alice" 0 1) None None 0)) as (r' & Hin & _ & Hs & _ & _ & Hp & _);
    [rewrite toy_messages_rows; left|reflexivity|vm_compute; reflexivity|by exists r'].
Defined.
