(* ===== verification/TrustStore.v ===== *)
(** * What the trust root's tables guarantee

    Constraints, revocation that is never undone, and the feed of revocations. *)
From Stdlib Require Import ZArith Lia Strings.Byte.
From stdpp Require Import sorting numbers gmap sets strings base list.
From S2P Require Import Prelude Errors GoTime Crypto GoStrings Sorting Uuid Sql Repository RepositoryProps Delivery.
Open Scope Z_scope.

Section ops.
  Context {P : Postgres}.

(** The calls that can change the trust root's tables. *)
Inductive trust_op :=
| OpSubmit (d : TrustDevice)
| OpAuthorize (domainID deviceID : string) (now : Time)
| OpRevokeTrustDevice (revocationID domainID deviceID reason : string) (now : Time)
| OpStoreGrant (g : TrustGrant)
| OpRevokeGrant (revocationID domainID grantID reason : string) (now : Time)
| OpTrustNonce (domainID deviceID audience nonce : string) (expiresAt now : Time).

Definition run_trust_op (op : trust_op) : Q TrustTables unit :=
  match op with
  | OpSubmit d => SubmitDevice d
  | OpAuthorize domainID deviceID now => _ ← AuthorizeDevice domainID deviceID now; mret tt
  | OpRevokeTrustDevice id domainID deviceID reason now => RevokeTrustDevice id domainID deviceID reason now
  | OpStoreGrant g => StoreGrant g
  | OpRevokeGrant id domainID grantID reason now => RevokeGrant id domainID grantID reason now
  | OpTrustNonce d v a n e now => _ ← TrustUseProofNonce d v a n e now; mret tt
  end.

Definition run_trust_ops (ops : list trust_op) (db : DB TrustTables) : DB TrustTables :=
  foldl (fun db op => (run_trust_op op db).2) db ops.

Lemma run_trust_ops_keeps Inv ops db :
  (forall op, op ∈ ops -> keeps Inv (run_trust_op op)) -> Inv (db_tables db) -> Inv (db_tables (run_trust_ops ops db)).
Proof.
  revert db. induction ops as [|op ops IH]; intros db Hk Hi; [done|]. cbn.
  apply IH; [intros op' Hop'; apply Hk; by right|]. apply Hk; [left|done].
Qed.

End ops.

Definition trust_ok (t : TrustTables) : Prop :=
  table_ok td_ID trust_device_key trust_device_valid (tt_devices t) /\
  table_ok tg_ID grant_key (fun _ => true) (tt_grants t) /\
  table_ok tr_ID revocation_key revocation_valid (tt_revocations t) /\
  NoDup (map nonce_key (tt_nonces t)).

(** Every statement of every call on the trust root's tables. *)
Ltac trust_tables := cbv beta in *; inv_ok; cbn [tt_devices tt_grants tt_revocations tt_nonces
  set_trust_devices set_grants set_revocations set_trust_nonces] in *; try assumption.
Ltac each_trust_statement op :=
  destruct op; cbn [run_trust_op];
  unfold SubmitDevice, AuthorizeDevice, RevokeTrustDevice, StoreGrant, RevokeGrant, TrustUseProofNonce; cbv zeta;
  statements; trust_tables.

Section facts.
  Context {P : Postgres} {PL : PostgresLaws P}.

Lemma insert_revocations_ok new rows rows' :
  table_ok tr_ID revocation_key revocation_valid rows -> insert_revocations new rows = Ok rows' ->
  table_ok tr_ID revocation_key revocation_valid rows'.
Proof.
  revert rows. induction new as [|r new IH]; intros rows Hok Hi; cbn in Hi; [by injection Hi as <-|].
  inv_ok. eapply IH; [|eassumption]. by eapply table_ok_insert.
Qed.

Lemma run_trust_op_ok op : keeps trust_ok (run_trust_op op).
Proof.
  each_trust_statement op; try (destruct Hok as (? & ? & ? & ?); unfold trust_ok; trust_tables; split_and!; try assumption).
  - by eapply table_ok_upsert; [..|eassumption].
  - apply table_ok_update; try done. intros d Hd Hp Hv. unfold trust_device_valid in *. cbn. bool_prop.
    rewrite !andb_true_iff. split_and!; [done|lia|lia].
  - apply table_ok_update; try done. intros d Hd Hp Hv. unfold trust_device_valid in *. cbn. bool_prop.
    rewrite !andb_true_iff. split_and!; [done|lia|lia].
  - by eapply insert_revocations_ok.
  - by eapply table_ok_upsert; [..|eassumption].
  - by apply table_ok_update.
  - by eapply insert_revocations_ok.
  - apply (nonces_keep tt_nonces set_trust_nonces). intros t rows Hok Hn.
    destruct Hok as (? & ? & ? & ?); unfold trust_ok; trust_tables; split_and!; auto.
Qed.

Lemma run_trust_ops_ok ops faults : trust_ok (db_tables (run_trust_ops ops (mkDB empty_trust faults))).
Proof.
  apply run_trust_ops_keeps; [intros op _; apply run_trust_op_ok|].
  unfold trust_ok, table_ok. cbn. split_and!; constructor.
Qed.

(** ** Revocation is final *)

(** The device is on record as revoked, under an epoch of at least [epoch]. *)
Definition revoked_at_least (domainID deviceID : string) (epoch : Z) (t : TrustTables) : Prop :=
  exists d, d ∈ tt_devices t /\ trust_device_key d = (domainID, deviceID) /\ td_Status d = "revoked" /\
            epoch <= td_RevocationEpoch d.

Lemma revoked_update domainID deviceID epoch t p f :
  (forall d, trust_device_key (f d) = trust_device_key d) ->
  (forall d, d ∈ tt_devices t -> p d = true -> td_Status d = "revoked" ->
     td_Status (f d) = "revoked" /\ td_RevocationEpoch d <= td_RevocationEpoch (f d)) ->
  revoked_at_least domainID deviceID epoch t ->
  revoked_at_least domainID deviceID epoch (set_trust_devices (update_where p f (tt_devices t)) t).
Proof.
  intros Hk Hs (d & Hd & Hkd & Hst & He). exists (if p d then f d else d). cbn [tt_devices set_trust_devices].
  split; [apply update_where_lookup; eauto|]. destruct (p d) eqn:Hp; [|done]. rewrite Hk.
  destruct (Hs d Hd Hp Hst). split_and!; [done..|lia].
Qed.

Lemma revoked_keeps domainID deviceID epoch op :
  keeps (revoked_at_least domainID deviceID epoch) (run_trust_op op).
Proof.
  each_trust_statement op.
  - match goal with H : upsert_row _ _ _ _ _ _ = Ok _ |- _ => apply upsert_row_Ok in H as [_ [->|(_ & _ & ->)]] end.
    + by apply revoked_update.
    + destruct Hok as (r & Hr & Hk). exists r. split; [apply elem_of_app; by left|done].
  - apply revoked_update; [done| |done]. intros d' _ Hp Hs. by rewrite Hs, andb_false_r in Hp.
  - apply revoked_update; [done| |done]. intros d' _ _ _. cbn. split; [done|lia].
  - apply (nonces_keep tt_nonces set_trust_nonces). by intros.
Qed.

(** Revocation is final in the trust root's tables: once a device has been revoked,
    it stays revoked, under an epoch that never falls below the one the revocation
    set, whatever is submitted, authorized or revoked afterwards, and it cannot be
    authorized again. *)
Theorem revocation_final revocationID domainID deviceID reason now db db' d ops now' :
  d ∈ tt_devices (db_tables db) -> trust_device_key d = (domainID, deviceID) -> trust_ok (db_tables db) ->
  RevokeTrustDevice revocationID domainID deviceID reason now db = (Ok tt, db') ->
  let later := run_trust_ops ops db' in
  revoked_at_least domainID deviceID (td_RevocationEpoch d + 1) (db_tables later) /\
  forall d', (AuthorizeDevice domainID deviceID now' later).1 <> Ok d'.
Proof.
  intros Hd Hk Hok Hr. cbv zeta.
  assert (revoked_at_least domainID deviceID (td_RevocationEpoch d + 1) (db_tables db')) as Hrev.
  { unfold RevokeTrustDevice in Hr. apply Q_bind_Ok in Hr as (? & ? & [= _ <-] & Hr).
    apply Q_bind_Ok in Hr as (? & ? & (_ & t & Hf & ->)%statement_Ok & (_ & t' & Hf' & ->)%statement_Ok). trust_tables.
    unfold trust_device_key in Hk. injection Hk as Hk1 Hk2.
    eexists. cbn [tt_devices set_trust_devices set_revocations db_tables] in *.
    split; [apply update_where_lookup; exists d; split; [exact Hd|reflexivity]|].
    unfold is_device. rewrite !bool_decide_true by done. cbn. unfold trust_device_key. cbn. rewrite Hk1, Hk2.
    split_and!; [done..|lia]. }
  pose proof (run_trust_op_ok (OpRevokeTrustDevice revocationID domainID deviceID reason now) db Hok) as Hok1.
  cbn [run_trust_op] in Hok1. rewrite Hr in Hok1. cbn [snd] in Hok1.
  apply (run_trust_ops_keeps _ ops db') in Hrev; [|intros op _; apply revoked_keeps].
  assert (trust_ok (db_tables (run_trust_ops ops db'))) as (Hdev & _)
    by (apply run_trust_ops_keeps; [intros; apply run_trust_op_ok|done]).
  split; [exact Hrev|]. intros d'. destruct (AuthorizeDevice _ _ _ _) as [r db2] eqn:E. cbn [fst]. intros ->.
  unfold AuthorizeDevice in E. apply Q_bind_Ok in E as (? & ? & [= _ <-] & (_ & t & Hf & ->)%statement_Ok). inv_ok.
  match goal with H : query_row _ = Ok _ |- _ => apply query_row_Ok in H as Hin end. rewrite row_order_perm in Hin.
  apply list_elem_of_fmap in Hin as (d2 & _ & [Hp Hd2]%select_where_elem). unfold is_device in Hp. bool_prop.
  destruct Hrev as (d3 & Hd3 & Hk3 & Hs3 & _).
  assert (d2 = d3) as -> by (eapply table_ok_key; [exact Hdev|done..|]; rewrite Hk3; unfold trust_device_key; congruence). done.
Qed.

(** ** The feed of revocations *)

Lemma revocation_weak_order : weak_order revocation_before.
Proof. exact (string_weak_order tr_ID). Qed.

(** The revocations of a domain in the order of their identifiers. *)
Definition feed (domainID : string) (t : TrustTables) : list TrustRevocation :=
  order_rows revocation_before (select_where (fun r => bool_decide (tr_DomainID r = domainID)) (tt_revocations t)).

Lemma feed_ids domainID t : NoDup (map tr_ID (tt_revocations t)) -> NoDup (map tr_ID (feed domainID t)).
Proof. intros Hd. unfold feed. rewrite order_rows_perm. by apply NoDup_map_filter. Qed.

Lemma filter_sorted {A} (R : A -> A -> Prop) (p : A -> bool) l : StronglySorted R l -> StronglySorted R (List.filter p l).
Proof.
  induction 1 as [|x l Hs IH Hx]; cbn; [constructor|]. destruct (p x); [|done]. constructor; [done|].
  rewrite Forall_forall in *. intros y Hy. apply Hx. apply list_elem_of_In, filter_In in Hy as [Hy _].
  by apply list_elem_of_In.
Qed.

(** Selecting from the feed is selecting from the table. *)
Lemma feed_select domainID (p : TrustRevocation -> bool) t :
  NoDup (map tr_ID (tt_revocations t)) ->
  order_rows revocation_before (select_where (fun r => bool_decide (tr_DomainID r = domainID) && p r) (tt_revocations t))
  = List.filter p (feed domainID t).
Proof.
  intros Hd.
  assert (Permutation (select_where (fun r => bool_decide (tr_DomainID r = domainID) && p r) (tt_revocations t))
    (List.filter p (feed domainID t))) as Hp.
  { unfold feed. rewrite (filter_perm p _ _ (order_rows_perm _ _)). unfold select_where. clear Hd.
    induction (tt_revocations t) as [|r rows IH]; [done|]. cbn.
    destruct (bool_decide (tr_DomainID r = domainID)); cbn; [|done]. destruct (p r); [by constructor|done]. }
  apply (StronglySorted_unique_strong (not_after revocation_before)).
  - intros a b Ha Hb Hab Hba. pose proof (feed_ids domainID t Hd) as Hn.
    rewrite order_rows_perm, Hp in Ha. apply list_elem_of_In, filter_In in Ha as [Ha _], Hb as [Hb _].
    apply list_elem_of_In in Ha, Hb. apply (NoDup_map_inj tr_ID (feed domainID t)); [done..|].
    unfold not_after, revocation_before in *. by apply string_ltb_total.
  - apply order_rows_sorted, revocation_weak_order.
  - apply filter_sorted. apply order_rows_sorted, revocation_weak_order.
  - by rewrite order_rows_perm.
Qed.

(** What follows an element of an increasing list. *)
Lemma filter_after l a r b :
  l = a ++ r :: b -> StronglySorted (not_after revocation_before) l -> NoDup (map tr_ID l) ->
  List.filter (fun x => string_ltb (tr_ID r) (tr_ID x)) l = b.
Proof.
  intros -> Hs Hd. rewrite List.filter_app. cbn [List.filter]. rewrite string_ltb_irrefl.
  rewrite (filter_none _ a), (filter_all _ b); [done|..].
  - intros x Hx. apply StronglySorted_app_1_r in Hs. apply StronglySorted_inv in Hs as [_ Hs].
    rewrite Forall_forall in Hs. specialize (Hs x Hx). unfold not_after, revocation_before in Hs.
    destruct (string_ltb (tr_ID r) (tr_ID x)) eqn:E; [done|]. exfalso.
    rewrite map_app in Hd. apply NoDup_app in Hd as (_ & _ & Hd). cbn in Hd. apply NoDup_cons in Hd as [Hd _].
    apply Hd. rewrite (string_ltb_total _ _ E Hs). by apply list_elem_of_fmap_2.
  - intros x Hx. apply (StronglySorted_app_1_elem_of _ _ _ x r Hs); [done|left].
Qed.

(** A reader that follows the cursors: the pages of at most [limit] revocations, the
    next after the last identifier of a full one. *)
Fixpoint follow (n : nat) (domainID cursor : string) (limit : Z) (db : DB TrustTables) : list TrustRevocation :=
  match n with
  | O => []
  | S n =>
      match ListRevocations domainID cursor limit db with
      | (Ok page, db) =>
          page ++ match last page with
                  | Some r => if (length page =? Z.to_nat limit)%nat then follow n domainID (tr_ID r) limit db else []
                  | None => []
                  end
      | (Err _, _) => []
      end
  end.

Lemma ListRevocations_run domainID cursor limit db :
  domainID <> "" -> 0 < limit <= 200 -> db_faults db O = None -> NoDup (map tr_ID (tt_revocations (db_tables db))) ->
  ListRevocations domainID cursor limit db =
    (Ok (take (Z.to_nat limit) (List.filter (fun r => bool_decide (cursor = "") || string_ltb cursor (tr_ID r))
           (feed domainID (db_tables db)))),
     mkDB (db_tables db) (fun n => db_faults db (S n))).
Proof.
  intros Hdom Hlim Hf Hd. unfold ListRevocations, RequireDomain. rewrite (bool_decide_false (domainID = "")) by done.
  replace ((limit <=? 0) || (200 <? limit)) with false by lia.
  unfold mbind, Q_bind. cbn [check reject_if]. unfold statement. rewrite Hf. by rewrite feed_select.
Qed.

(** The pages from a position of the feed on. *)
Lemma follow_from n domainID cursor limit db done_ rest :
  domainID <> "" -> 0 < limit <= 200 -> (forall k, db_faults db k = None) ->
  NoDup (map tr_ID (tt_revocations (db_tables db))) -> feed domainID (db_tables db) = done_ ++ rest ->
  List.filter (fun r => bool_decide (cursor = "") || string_ltb cursor (tr_ID r)) (feed domainID (db_tables db)) = rest ->
  Forall (fun r => tr_ID r <> "") (feed domainID (db_tables db)) ->
  (length rest < n)%nat -> follow n domainID cursor limit db = rest.
Proof.
  intros Hdom Hlim. revert cursor db done_ rest. induction n as [|n IH]; intros cursor db done_ rest Hf Hd Hsplit Hrest Hne Hn; [lia|].
  cbn [follow]. rewrite ListRevocations_run, Hrest by done. set (k := Z.to_nat limit) in *.
  assert (0 < k)%nat as Hk by lia. destruct (last (take k rest)) as [r|] eqn:El.
  2: { apply last_None in El. destruct rest; [by rewrite take_nil|]. destruct k; [lia|done]. }
  destruct (Nat.eqb_spec (length (take k rest)) k) as [Hfull|Hshort].
  - apply last_Some in El as [l' El]. transitivity (take k rest ++ drop k rest); [|apply take_drop]. f_equal.
    apply (IH _ _ (done_ ++ take k rest)); cbn [db_tables db_faults]; [done|done|..].
    + rewrite <- app_assoc, take_drop. exact Hsplit.
    + assert (r ∈ feed domainID (db_tables db)) as Hr.
      { rewrite Hsplit, <- (take_drop k rest), El. rewrite !elem_of_app. right. left. right. left. }
      rewrite Forall_forall in Hne. pose proof (Hne r Hr) as Hr0.
      rewrite (filter_ext _ (fun x => string_ltb (tr_ID r) (tr_ID x))) by (intros x; by rewrite bool_decide_false).
      apply (filter_after _ (done_ ++ l')); [|apply order_rows_sorted, revocation_weak_order|by apply feed_ids].
      rewrite Hsplit, <- (take_drop k rest) at 1. by rewrite El, <- !app_assoc.
    + exact Hne.
    + rewrite length_take in Hfull. rewrite length_drop. lia.
  - rewrite length_take in Hshort. rewrite app_nil_r. apply take_ge. lia.
Qed.

(** The feed of revocations is complete: a reader that starts without a cursor and
    follows the last identifier of every full page sees every revocation of the
    domain exactly once, in the order of identifiers, provided none is added while
    it reads. *)
Theorem revocation_feed_complete n domainID limit db :
  domainID <> "" -> 0 < limit <= 200 -> trust_ok (db_tables db) -> (forall k, db_faults db k = None) ->
  Forall (fun r => tr_ID r <> "") (tt_revocations (db_tables db)) ->
  (length (tt_revocations (db_tables db)) < n)%nat ->
  follow n domainID "" limit db = feed domainID (db_tables db) /\
  Permutation (feed domainID (db_tables db))
    (select_where (fun r => bool_decide (tr_DomainID r = domainID)) (tt_revocations (db_tables db))).
Proof.
  intros Hdom Hlim (_ & _ & (Hd & _) & _) Hf Hne Hn. split; [|apply order_rows_perm].
  apply (follow_from n domainID "" limit db []); [done..| | |].
  - apply filter_all. intros r _. by rewrite bool_decide_true.
  - unfold feed. rewrite order_rows_perm. rewrite Forall_forall in *. intros r [_ Hr]%select_where_elem. by apply Hne.
  - unfold feed. rewrite order_rows_perm. unfold select_where. pose proof (List.filter_length_le
      (fun r => bool_decide (tr_DomainID r = domainID)) (tt_revocations (db_tables db))). lia.
Qed.

End facts.

(** ** Concrete tables *)

Import TruncatingServer.

Definition toy_trust_device (id device : string) : TrustDevice :=
  mkTrustDevice id "dom" device [] [] "tp" "submitted" 1 0 (at_second 0) (at_second 0).

Definition toy_trust : DB TrustTables :=
  run_trust_ops [OpSubmit (toy_trust_device "i1" "d1"); OpSubmit (toy_trust_device "i2" "d2");
                 OpRevokeTrustDevice "r1" "dom" "d1" "lost" (at_second 5);
                 OpRevokeTrustDevice "r2" "dom" "d2" "lost" (at_second 6)] (mkDB empty_trust no_faults).

Lemma toy_trust_ok : trust_ok (db_tables toy_trust).
Proof. apply run_trust_ops_ok. Qed.

(** The trust root's tables keep the constraints of their schema through any
    sequence of calls, failing or not. *)
Theorem trust_tables_typed {P : Postgres} ops faults :
  trust_ok (db_tables (run_trust_ops ops (mkDB empty_trust faults))).
Proof. apply run_trust_ops_ok. Qed.

Lemma revocation_final_witness :
  is_ok (AuthorizeDevice "dom" "d1" (at_second 20)
    (run_trust_ops [OpSubmit (toy_trust_device "i3" "d1")]
       (RevokeTrustDevice "r3" "dom" "d1" "again" (at_second 9) toy_trust).2)).1 = false.
Proof.
  destruct (AuthorizeDevice "dom" "d1" (at_second 20) _) as [[d'|e] db2] eqn:E; [|done]. exfalso.
  refine (proj2 (revocation_final "r3" "dom" "d1" "again" (at_second 9) toy_trust
    (RevokeTrustDevice "r3" "dom" "d1" "again" (at_second 9) toy_trust).2
    (with_status (toy_trust_device "i1" "d1") "revoked" 2 1 (at_second 5)) [OpSubmit (toy_trust_device "i3" "d1")]
    (at_second 20) _ eq_refl toy_trust_ok _) d' _).
  - vm_compute. left.
  - vm_compute. reflexivity.
  - by rewrite E.
Defined.

Lemma toy_trust_ids : Forall (fun r => tr_ID r <> "") (tt_revocations (db_tables toy_trust)).
Proof.
  assert (map tr_ID (tt_revocations (db_tables toy_trust)) = ["r1"; "r2"]) as H by (vm_compute; reflexivity).
  apply Forall_forall. intros r Hr. apply (list_elem_of_fmap_2 tr_ID) in Hr. change (tr_ID <$> ?l) with (map tr_ID l) in Hr.
  rewrite H in Hr. intros Hn. rewrite Hn in Hr. set_solver.
Qed.

Lemma revocation_feed_complete_witness :
  map tr_ID (follow 3 "dom" "" 1 toy_trust) = ["r1"; "r2"].
Proof.
  destruct (revocation_feed_complete 3 "dom" 1 toy_trust) as [-> _];
    [done|lia|apply toy_trust_ok|done|apply toy_trust_ids|vm_compute; lia|].
  vm_compute. reflexivity.
Defined.

(** The cursor is an identifier, and identifiers made in one millisecond are not
    ordered by arrival: a revocation stored after a page was read, under a smaller
    identifier, is on no later page of that reader. *)
Theorem revocation_cursor_skips :
  let db := run_trust_ops [OpSubmit (toy_trust_device "i1" "d1"); OpSubmit (toy_trust_device "i2" "d2");
              OpRevokeTrustDevice "0190-b" "dom" "d1" "" (at_second 5)] (mkDB empty_trust no_faults) in
  let db' := run_trust_ops [OpRevokeTrustDevice "0190-a" "dom" "d2" "" (at_second 5)] db in
  map tr_ID (follow 9 "dom" "" 100 db) = ["0190-b"] /\ follow 9 "dom" "0190-b" 100 db' = [] /\
  map tr_ID (feed "dom" (db_tables db')) = ["0190-a"; "0190-b"].
Proof. vm_compute. done. Qed.

(** Revoking a grant is two statements, not one transaction: when the second fails,
    the grant is revoked but missing from the feed, and trying again reports that
    there is no such grant. *)
Theorem RevokeGrant_half_done :
  let grant := mkTrustGrant "i1" "dom" "g1" "d1" "" "" [] [] (at_second 0) (at_second 9) 0 None in
  let faults n := match n with 2%nat => Some (PlainError "connection reset") | _ => None end in
  let db := (StoreGrant grant (mkDB empty_trust faults)).2 in
  let '(r1, db1) := RevokeGrant "r1" "dom" "g1" "" (at_second 1) db in
  let '(r2, db2) := RevokeGrant "r2" "dom" "g1" "" (at_second 2) db1 in
  r1 = Err (PlainError "connection reset") /\ r2 = Err ErrNoRows /\
  map tg_RevokedAt (tt_grants (db_tables db2)) = [Some (at_second 1)] /\ tt_revocations (db_tables db2) = [].
Proof. vm_compute. done. Qed.
