(* ===== verification/NonceStore.v ===== *)
(** * Proof nonces: one specification, two stores

    A server remembers the nonces of the proofs it has accepted, in memory
    ([replay.Cache]) or in its database ([useProofNonce]).  The specification is a
    map from nonces to expiry times that is never cleaned up; both stores, which
    forget expired nonces on every call, refine it. *)
From Stdlib Require Import ZArith Lia Strings.Byte.
From stdpp Require Import sorting numbers gmap sets strings base list.
From S2P Require Import Prelude Errors GoTime Crypto GoStrings Sql Repository RepositoryProps Replay.
Open Scope Z_scope.

(** ** The specification *)

(** What identifies a use: domain, device, audience and nonce of a proof. *)
Record Scope := mkScope { sc_domain : string; sc_device : string; sc_audience : string; sc_nonce : string }.

Section spec.
  Context {K : Type} `{Countable K}.

Definition remembered (m : gmap K Time) (k : K) (now : Time) : bool :=
  match m !! k with
  | Some expiresAt => Before now expiresAt
  | None => false
  end.

Definition spec_use (m : gmap K Time) (k : K) (expiresAt now : Time) : bool * gmap K Time :=
  if remembered m k now then (false, m) else (true, <[k := expiresAt]> m).

Lemma remembered_insert m k k' e now :
  remembered (<[k := e]> m) k' now = if bool_decide (k' = k) then Before now e else remembered m k' now.
Proof.
  unfold remembered. case_bool_decide; subst; [by rewrite lookup_insert_eq|by rewrite lookup_insert_ne].
Qed.

End spec.

(** A store of nonces, as the servers' proof checks use it. *)
Class NonceStore (S : Type) := { nonce_use : S -> Scope -> Time -> Time -> result bool * S }.

(** What a store promises: it simulates the specification, over its own keys and
    clock resolution.  A call that fails with a storage error forgets nothing. *)
Class NonceStoreLaws (S : Type) `{NonceStore S} := {
  nonce_K : Type;
  nonce_K_eq :: EqDecision nonce_K;
  nonce_K_countable :: Countable nonce_K;
  nonce_key_of : Scope -> nonce_K;
  nonce_time : Time -> Time;
  nonce_time_mono t u : ns t <= ns u -> ns (nonce_time t) <= ns (nonce_time u);
  nonce_sim : Time -> S -> gmap nonce_K Time -> Prop;
  nonce_step t s m sc e now :
    nonce_sim t s m -> ns t <= ns now ->
    match nonce_use s sc e now with
    | (Ok b, s') =>
        let spec := spec_use m (nonce_key_of sc) (nonce_time e) (nonce_time now) in
        b = spec.1 /\ nonce_sim now s' spec.2
    | (Err _, s') => nonce_sim now s' m
    end
}.

(** ** Sequences of uses *)

(** A call: scope, expiry and the time of the call. *)
Record nonce_call := mkCall { nc_scope : Scope; nc_expires : Time; nc_now : Time }.

(** Calls at times that do not go back, from [t] on. *)
Fixpoint ordered (t : Time) (calls : list nonce_call) : Prop :=
  match calls with
  | [] => True
  | c :: calls => ns t <= ns (nc_now c) /\ ordered (nc_now c) calls
  end.

Section runs.
  Context {S : Type} `{NonceStoreLaws S}.

Fixpoint use_nonces (s : S) (calls : list nonce_call) : list (result bool) * S :=
  match calls with
  | [] => ([], s)
  | c :: calls =>
      let '(r, s) := nonce_use s (nc_scope c) (nc_expires c) (nc_now c) in
      let '(rs, s) := use_nonces s calls in (r :: rs, s)
  end.

(** The answers are those of the specification; calls that failed do not count. *)
Fixpoint spec_answers (m : gmap nonce_K Time) (calls : list nonce_call) (rs : list (result bool)) : Prop :=
  match calls, rs with
  | [], [] => True
  | c :: calls, Ok b :: rs =>
      let spec := spec_use m (nonce_key_of (nc_scope c)) (nonce_time (nc_expires c)) (nonce_time (nc_now c)) in
      b = spec.1 /\ spec_answers spec.2 calls rs
  | _ :: calls, Err _ :: rs => spec_answers m calls rs
  | _, _ => False
  end.

Lemma use_nonces_refines t s m calls :
  nonce_sim t s m -> ordered t calls -> spec_answers m calls (use_nonces s calls).1.
Proof.
  revert t s m. induction calls as [|c calls IH]; intros t s m Hs Ho; [done|]. destruct Ho as [Ht Ho].
  cbn [use_nonces]. pose proof (nonce_step t s m (nc_scope c) (nc_expires c) (nc_now c) Hs Ht) as Hstep.
  destruct (nonce_use s (nc_scope c) (nc_expires c) (nc_now c)) as [[b|e] s1].
  - destruct Hstep as [Hb Hs1]. specialize (IH _ _ _ Hs1 Ho). destruct (use_nonces s1 calls) as [rs s2]. by split.
  - specialize (IH _ _ _ Hstep Ho). destruct (use_nonces s1 calls) as [rs s2]. done.
Qed.

(** Once remembered, remembered by the specification until it expires. *)
Lemma spec_keeps m calls rs c j k e :
  (forall u, ns (nonce_time u) < ns e -> remembered m k (nonce_time u) = true) ->
  spec_answers m calls rs -> calls !! j = Some c -> nonce_key_of (nc_scope c) = k ->
  Forall (fun c' => ns (nonce_time (nc_now c')) <= ns (nonce_time (nc_now c))) (take j calls) ->
  ns (nonce_time (nc_now c)) < ns e -> rs !! j <> Some (Ok true).
Proof.
  revert m calls rs. induction j as [|j IH]; intros m [|c0 calls] [|[b|er] rs] Hm Ha Hc Hk Hbefore Hlive; try done.
  - injection Hc as ->. destruct Ha as [-> _]. cbn. unfold spec_use. rewrite Hk, Hm by done. done.
  - destruct Ha as [-> Ha]. cbn [take] in Hbefore. apply Forall_cons in Hbefore as [Hb0 Hbefore]. cbn.
    eapply IH; [|exact Ha|exact Hc|exact Hk|exact Hbefore|exact Hlive].
    intros u Hu. unfold spec_use.
    destruct (remembered m (nonce_key_of (nc_scope c0)) (nonce_time (nc_now c0))) eqn:E; [by apply Hm|]. cbn.
    rewrite remembered_insert. case_bool_decide as Heq; [|by apply Hm]. subst k.
    rewrite <- Heq, Hm in E; [done|lia].
  - cbn [take] in Hbefore. apply Forall_cons in Hbefore as [_ Hbefore]. cbn. by eapply IH.
Qed.

(** A nonce accepted once is refused until it expires. *)
Lemma spec_accepts_once m c calls rs j c' :
  spec_answers m (c :: calls) (Ok true :: rs) -> calls !! j = Some c' ->
  nonce_key_of (nc_scope c') = nonce_key_of (nc_scope c) -> ordered (nc_now c) calls ->
  ns (nonce_time (nc_now c')) < ns (nonce_time (nc_expires c)) -> rs !! j <> Some (Ok true).
Proof.
  intros [Hb Ha] Hj Hk Ho Hlive.
  apply (spec_keeps (spec_use m (nonce_key_of (nc_scope c)) (nonce_time (nc_expires c)) (nonce_time (nc_now c))).2
    calls rs c' j (nonce_key_of (nc_scope c)) (nonce_time (nc_expires c))); [|done..| |done].
  - intros u Hu. unfold spec_use in *. destruct (remembered m _ _); [done|]. cbn.
    rewrite remembered_insert, bool_decide_true by done. unfold Before. lia.
  - revert Ho Hj. generalize (nc_now c). clear. revert j. induction calls as [|c0 calls IH]; intros j t Ho Hj; [done|].
    destruct j as [|j]; [constructor|]. destruct Ho as [_ Ho]. cbn [take]. constructor; [|by eapply IH].
    apply nonce_time_mono. revert Ho Hj. clear. revert j. generalize (nc_now c0).
    induction calls as [|c1 calls IH]; intros t j Ho Hj; [done|]. destruct Ho as [H1 Ho]. destruct j as [|j].
    + injection Hj as ->. done.
    + specialize (IH _ _ Ho Hj). lia.
Qed.

End runs.

(** ** The cache in memory *)

(** The key of the servers' proof checks. *)
Definition cache_key (sc : Scope) : string :=
  Join [sc_domain sc; sc_device sc; sc_audience sc; sc_nonce sc] (go_string [x00]).

#[export] Instance cache_store : NonceStore Cache := {
  nonce_use c sc e now := let '(b, c) := Use c (cache_key sc) e now in (Ok b, c)
}.

Lemma Use_answer c key e now : (Use c key e now).1 = negb (remembered (items c) key now).
Proof.
  unfold Use, remembered. cbv zeta. destruct (items c !! key) as [x|] eqn:E.
  - destruct (Before now x) eqn:Eb.
    + erewrite map_lookup_filter_Some_2; [by rewrite Eb|exact E|]. cbn. unfold After, Before in *. lia.
    + destruct (filter _ _ !! key) as [y|] eqn:Ef; [|done]. apply map_lookup_filter_Some in Ef as [Ef _].
      assert (x = y) as <- by congruence. by rewrite Eb.
  - rewrite map_lookup_filter_None_2 by (by left). done.
Qed.

#[export, refine] Instance cache_laws : NonceStoreLaws Cache := {
  nonce_K := string;
  nonce_key_of := cache_key;
  nonce_time t := t;
  nonce_sim t c m := forall k u, ns t <= ns u -> remembered (items c) k u = remembered m k u
}.
Proof.
  - done.
  - intros t c m sc e now Hs Ht. cbn [nonce_use cache_store].
    pose proof (Use_answer c (cache_key sc) e now) as Ha. pose proof (Use_lookup c (cache_key sc) e now) as Hl.
    destruct (Use c (cache_key sc) e now) as [b c1]. cbn [fst snd] in Ha, Hl. cbv zeta. unfold spec_use.
    rewrite <- (Hs (cache_key sc) now Ht).
    split; [rewrite Ha; by destruct (remembered (items c) (cache_key sc) now)|].
    intros k u Hu. specialize (Hs k u ltac:(lia)). specialize (Hl k). unfold remembered at 1. rewrite Hl, Ha.
    assert (match (match items c !! k with Some exp => if After now exp then None else Some exp | None => None end) with
            | Some x => Before u x | None => false end = remembered (items c) k u) as Hkeep.
    { unfold remembered. destruct (items c !! k) as [x|]; [|done]. destruct (After now x) eqn:Eaf; [|done].
      unfold After, Before in *. lia. }
    destruct (remembered (items c) (cache_key sc) now) eqn:Er; cbn [negb andb snd]; rewrite ?andb_false_r, ?andb_true_r.
    + by rewrite Hkeep.
    + rewrite remembered_insert. case_bool_decide; [done|]. by rewrite Hkeep.
Defined.

(** ** The table *)

Section table.
  Context {P : Postgres} {PL : PostgresLaws P} {T : Type} (table : T -> list NonceRow) (set_table : list NonceRow -> T -> T).
  Hypothesis table_set : forall rows t, table (set_table rows t) = rows.

Definition row_key (sc : Scope) : string * string * string :=
  (sc_domain sc, sc_device sc, proofNonceStorageKey (sc_audience sc) (sc_nonce sc)).

Definition on_record (rows : list NonceRow) (k : string * string * string) (now : Time) : bool :=
  existsb (fun r => bool_decide (nonce_key r = k) && Before now (nr_ExpiresAt r)) rows.

(** The table and the specification agree from [t] on, and the server does not
    report a unique violation when there is none. *)
Definition table_sim (t : Time) (db : DB T) (m : gmap (string * string * string) Time) : Prop :=
  NoDup (map nonce_key (table (db_tables db))) /\
  (forall n e, db_faults db n = Some e -> as_pg_error e <> Some uniqueViolation) /\
  forall k u, ns (timestamptz t) <= ns u -> on_record (table (db_tables db)) k u = remembered m k u.

Lemma table_sim_later t t' db db' m :
  table_sim t db m -> ns t <= ns t' -> db_tables db' = db_tables db ->
  (forall n, db_faults db' n = db_faults db (S n) \/ db_faults db' n = db_faults db n) -> table_sim t' db' m.
Proof.
  intros (Hd & Hf & Hs) Ht Htab Hfault. split_and!; [by rewrite Htab| |].
  - intros n e He. destruct (Hfault n) as [Hn|Hn]; rewrite Hn in He; by eapply Hf.
  - intros k u Hu. rewrite Htab. apply Hs. pose proof (timestamptz_mono t t' Ht). lia.
Qed.

Lemma on_record_iff rows k u :
  on_record rows k u = true <-> exists r, r ∈ rows /\ nonce_key r = k /\ Before u (nr_ExpiresAt r) = true.
Proof.
  unfold on_record. rewrite existsb_exists. split.
  - intros (r & Hr & Hb). bool_prop. exists r. by rewrite list_elem_of_In.
  - intros (r & Hr & Hk & Hb). exists r. rewrite <- list_elem_of_In, Hb, bool_decide_true by done. done.
Qed.

(** Dropping a domain's expired rows does not show at a later time. *)
Lemma on_record_delete rows domainID now k u :
  ns now <= ns u ->
  on_record (delete_where (fun r => bool_decide (nr_DomainID r = domainID) && negb (After (nr_ExpiresAt r) now)) rows) k u
  = on_record rows k u.
Proof.
  intros Hu. apply eq_true_iff_eq. rewrite !on_record_iff. split.
  - intros (r & [_ Hr]%delete_where_elem & ?). eauto.
  - intros (r & Hr & Hk & Hb). exists r. split; [|done]. apply delete_where_elem. split; [|done].
    apply andb_false_iff. right. unfold After, Before in *. lia.
Qed.

Lemma insert_row_err {R} (clashes : R -> R -> bool) valid r rows e :
  insert_row clashes valid r rows = Err e -> valid r = true ->
  e = PgError uniqueViolation /\ exists r', r' ∈ rows /\ clashes r r' = true.
Proof.
  unfold insert_row. intros Hi Hv. rewrite Hv in Hi. cbn [negb] in Hi.
  destruct (existsb (clashes r) rows) eqn:E; [|done]. injection Hi as <-. split; [done|].
  apply existsb_exists in E as (r' & Hin & Hc). exists r'. by rewrite list_elem_of_In.
Qed.

(** The insertion of the nonce, once the expired rows are gone. *)
Lemma insert_nonce_step now db m sc e :
  table_sim now db m ->
  (forall r, r ∈ table (db_tables db) -> nr_DomainID r = sc_domain sc -> ns (timestamptz now) < ns (nr_ExpiresAt r)) ->
  match insert_nonce table set_table (mkNonceRow (sc_domain sc) (sc_device sc)
          (proofNonceStorageKey (sc_audience sc) (sc_nonce sc)) (timestamptz e)) db with
  | (Ok b, db') =>
      let spec := spec_use m (row_key sc) (timestamptz e) (timestamptz now) in
      b = spec.1 /\ table_sim now db' spec.2
  | (Err _, db') => table_sim now db' m
  end.
Proof.
  intros Hsim Hfresh. pose proof Hsim as (Hd & Hf & Hs). unfold insert_nonce.
  set (row := mkNonceRow _ _ _ _). unfold statement.
  destruct (db_faults db O) as [er|] eqn:Ef.
  { rewrite bool_decide_false by (by eapply Hf). eapply table_sim_later; [exact Hsim|lia|done|by left]. }
  destruct (insert_row nonce_clashes (fun _ => true) row (table (db_tables db))) as [rows|er] eqn:Ei; cbn [mbind result_bind].
  - apply insert_row_Ok in Ei as (_ & Hc & ->). cbv zeta. unfold spec_use.
    assert (forall r, r ∈ table (db_tables db) -> nonce_key r <> row_key sc) as Hnew.
    { intros r Hr Hk. specialize (Hc r Hr). unfold nonce_clashes in Hc. unfold nonce_key, row_key in Hk. injection Hk as H1 H2 H3.
      cbn in Hc. by rewrite H1, H2, H3, !bool_decide_true in Hc. }
    replace (remembered m (row_key sc) (timestamptz now)) with false.
    2: { symmetry. rewrite <- Hs by lia. apply not_true_iff_false. rewrite on_record_iff. intros (r & Hr & Hk & _).
         by apply (Hnew r). }
    split; [done|]. cbn [snd]. split_and!.
    + cbn [db_tables]. rewrite table_set, map_app. apply NoDup_snoc; [done|].
      intros (r & Hr & Hin)%list_elem_of_fmap. apply (Hnew r Hin). by rewrite <- Hr.
    + intros n er. apply Hf.
    + intros k u Hu. cbn [db_tables]. rewrite table_set, remembered_insert, <- Hs by done.
      unfold on_record. rewrite existsb_app. cbn [existsb]. rewrite orb_false_r.
      change (nonce_key row) with (row_key sc). change (nr_ExpiresAt row) with (timestamptz e).
      case_bool_decide as Hk; [subst k|].
      * rewrite bool_decide_true by done. cbn [andb]. destruct (existsb _ _) eqn:Ex; [|done]. exfalso.
        apply existsb_exists in Ex as (r & Hr & Hb). bool_prop. apply list_elem_of_In in Hr. by apply (Hnew r).
      * rewrite bool_decide_false by done. cbn [andb]. apply orb_false_r.
  - apply insert_row_err in Ei as [-> (r & Hr & Hc)]; [|done]. cbn [as_pg_error].
    rewrite bool_decide_true by done. cbv zeta. unfold nonce_clashes in Hc. cbn in Hc. bool_prop.
    assert (nonce_key r = row_key sc) as Hk by (unfold nonce_key, row_key; congruence).
    unfold spec_use. replace (remembered m (row_key sc) (timestamptz now)) with true.
    + split; [done|]. eapply table_sim_later; [exact Hsim|lia|done|by left].
    + symmetry. rewrite <- Hs by lia. apply on_record_iff. exists r. split_and!; [done..|].
      unfold Before. specialize (Hfresh r Hr ltac:(congruence)). lia.
Qed.

Lemma useProofNonce_step t db m sc e now :
  table_sim t db m -> ns t <= ns now ->
  match useProofNonce table set_table (sc_domain sc) (sc_device sc) (sc_audience sc) (sc_nonce sc) e now db with
  | (Ok b, db') =>
      let spec := spec_use m (row_key sc) (timestamptz e) (timestamptz now) in
      b = spec.1 /\ table_sim now db' spec.2
  | (Err _, db') => table_sim now db' m
  end.
Proof.
  intros Hsim Ht. assert (table_sim now db m) as Hnow by (eapply table_sim_later; [exact Hsim|done|done|by right]).
  unfold useProofNonce, mbind, Q_bind. cbn [check].
  destruct (RequireDomain (sc_domain sc)); [|exact Hnow].
  destruct (reject_if _ _); [|exact Hnow]. unfold statement at 1.
  destruct (db_faults db O) as [er|] eqn:Ef; [eapply table_sim_later; [exact Hnow|lia|done|by left]|].
  apply insert_nonce_step.
  - destruct Hnow as (Hd & Hf & Hs). split_and!.
    + cbn [db_tables]. rewrite table_set. by apply NoDup_map_filter.
    + intros n er. apply Hf.
    + intros k u Hu. cbn [db_tables]. rewrite table_set, on_record_delete by done. by apply Hs.
  - cbn [db_tables]. rewrite table_set. intros r [Hp _]%delete_where_elem Hdom.
    rewrite bool_decide_true in Hp by done. cbn [andb] in Hp. bool_prop. unfold After in Hp. lia.
Qed.

End table.

Section stores.
  Context {P : Postgres} {PL : PostgresLaws P}.

#[export] Instance relay_nonces : NonceStore (DB RelayTables) := {
  nonce_use db sc e now := RelayUseProofNonce (sc_domain sc) (sc_device sc) (sc_audience sc) (sc_nonce sc) e now db
}.

#[export] Instance trust_nonces : NonceStore (DB TrustTables) := {
  nonce_use db sc e now := TrustUseProofNonce (sc_domain sc) (sc_device sc) (sc_audience sc) (sc_nonce sc) e now db
}.

#[export, refine] Instance relay_nonces_laws : NonceStoreLaws (DB RelayTables) := {
  nonce_K := string * string * string;
  nonce_key_of := row_key;
  nonce_time := timestamptz;
  nonce_sim := table_sim rt_nonces
}.
Proof.
  - apply timestamptz_mono.
  - intros t db m sc e now Hs Ht. cbn [nonce_use relay_nonces]. unfold RelayUseProofNonce.
    exact (useProofNonce_step rt_nonces set_nonces (fun _ _ => eq_refl) t db m sc e now Hs Ht).
Defined.

#[export, refine] Instance trust_nonces_laws : NonceStoreLaws (DB TrustTables) := {
  nonce_K := string * string * string;
  nonce_key_of := row_key;
  nonce_time := timestamptz;
  nonce_sim := table_sim tt_nonces
}.
Proof.
  - apply timestamptz_mono.
  - intros t db m sc e now Hs Ht. cbn [nonce_use trust_nonces]. unfold TrustUseProofNonce.
    exact (useProofNonce_step tt_nonces set_trust_nonces (fun _ _ => eq_refl) t db m sc e now Hs Ht).
Defined.

End stores.

(** ** The refinement *)

Section refinement.
  Context {P : Postgres} {PL : PostgresLaws P}.

Definition honest_faults (faults : nat -> option error) : Prop :=
  forall n e, faults n = Some e -> as_pg_error e <> Some uniqueViolation.

(** C15. Both stores of proof nonces implement the same abstract store, a map from
    nonces to expiry times that never forgets: for every sequence of calls at
    times that do not go back, the cache in memory answers as the specification
    does, and so do the relay's and the trust root's tables, at the resolution of
    the database's clock, a call that fails with a database error counting as not
    made. *)
Theorem nonce_stores_refine t calls faults :
  ordered t calls -> honest_faults faults ->
  spec_answers (S := Cache) ∅ calls (use_nonces NewCache calls).1 /\
  spec_answers (S := DB RelayTables) ∅ calls (use_nonces (mkDB empty_relay faults) calls).1 /\
  spec_answers (S := DB TrustTables) ∅ calls (use_nonces (mkDB empty_trust faults) calls).1.
Proof.
  intros Ho Hf. split_and!; apply (use_nonces_refines t); try exact Ho.
  - intros k u _. unfold remembered. cbn [NewCache items]. by rewrite !lookup_empty.
  - split_and!; [constructor|exact Hf|]. intros k u _. unfold remembered. by rewrite lookup_empty.
  - split_and!; [constructor|exact Hf|]. intros k u _. unfold remembered. by rewrite lookup_empty.
Qed.

End refinement.

(** Whichever store a server uses, a proof nonce is accepted once in its lifetime:
    after an accepted use, every use of the same domain, device, audience and nonce
    before the expiry is refused or fails, whatever is used in between. *)
Theorem nonce_accepted_once {S : Type} `{NonceStoreLaws S} t (s : S) m c calls j c' :
  nonce_sim t s m -> ordered t (c :: calls) ->
  (nonce_use s (nc_scope c) (nc_expires c) (nc_now c)).1 = Ok true ->
  calls !! j = Some c' -> nc_scope c' = nc_scope c ->
  ns (nonce_time (nc_now c')) < ns (nonce_time (nc_expires c)) ->
  (use_nonces s (c :: calls)).1 !! (1 + j)%nat <> Some (Ok true).
Proof.
  intros Hsim Ho Hacc Hj Hsc Hlive. pose proof (use_nonces_refines t s m (c :: calls) Hsim Ho) as Ha.
  cbn [use_nonces] in *. destruct (nonce_use s (nc_scope c) (nc_expires c) (nc_now c)) as [r s1]. cbn [fst] in Hacc. subst r.
  destruct (use_nonces s1 calls) as [rs s2]. cbn [fst] in *. change ((?x :: rs) !! (1 + j)%nat) with (rs !! j).
  destruct Ho as [_ Ho]. apply (spec_accepts_once m c calls rs j c' Ha Hj); [by rewrite Hsc|exact Ho|exact Hlive].
Qed.

Import TruncatingServer.

Definition toy_scope (nonce : string) : Scope := mkScope "dom" "alice" "relay" nonce.

Definition toy_calls : list nonce_call :=
  [mkCall (toy_scope "n1") (at_second 60) (at_second 0); mkCall (toy_scope "n2") (at_second 61) (at_second 1);
   mkCall (toy_scope "n1") (at_second 70) (at_second 10); mkCall (toy_scope "n1") (at_second 130) (at_second 60)].

Lemma toy_calls_ordered : ordered (at_second 0) toy_calls.
Proof. vm_compute. split_and!; try discriminate. done. Qed.

Lemma nonce_stores_refine_witness :
  spec_answers (S := DB RelayTables) ∅ toy_calls (use_nonces (mkDB empty_relay no_faults) toy_calls).1.
Proof. exact (proj1 (proj2 (nonce_stores_refine (at_second 0) toy_calls no_faults toy_calls_ordered ltac:(done)))). Defined.

(** The same calls, run: the replay within the minute is refused, the use at its
    end is not. *)
Example toy_calls_answers :
  (use_nonces NewCache toy_calls).1 = [Ok true; Ok true; Ok false; Ok true] /\
  (use_nonces (mkDB empty_relay no_faults) toy_calls).1 = [Ok true; Ok true; Ok false; Ok true].
Proof. vm_compute. done. Qed.

Lemma nonce_accepted_once_witness :
  (use_nonces NewCache toy_calls).1 !! 2%nat <> Some (Ok true).
Proof.
  apply (nonce_accepted_once (at_second 0) NewCache ∅ (mkCall (toy_scope "n1") (at_second 60) (at_second 0))
    (drop 1 toy_calls) 1 (mkCall (toy_scope "n1") (at_second 70) (at_second 10)));
    [|apply toy_calls_ordered|vm_compute; reflexivity|reflexivity|reflexivity|vm_compute; reflexivity].
  intros k u _. unfold remembered. cbn [NewCache items]. by rewrite !lookup_empty.
Defined.
