(* ===== verification/Http.v ===== *)
(** * Requests, responses and the world a handler runs in

    [pkg/server/httpx/httpx.go] and the request helpers both services share
    ([bearerToken], [adminAuthorized], [clientKey] of their [server.go]).

    A handler is a computation over the server's own state, its repository if it
    has one, the clock and the source of randomness; writing a response ends it.
    Every reading of the clock ([time.Now().UTC()]) takes the next instant of a
    stream, so that the readings of one handler may differ. *)
From Stdlib Require Import ZArith Lia Strings.Byte.
From stdpp Require Import numbers gmap strings base list.
From S2P Require Import Prelude Errors GoTime Crypto GoStrings GoJson Sql Uuid.
Open Scope Z_scope.

(** ** Requests *)

(** The query holds the first value of each parameter, the headers are under their
    canonical names. *)
Record Request := mkRequest {
  rq_Method : string;
  rq_Path : string;
  rq_Query : gmap string string;
  rq_Header : gmap string string;
  rq_RemoteAddr : string;
  rq_Body : bytes
}.

(** [r.URL.Query().Get], [r.Header.Get]. *)
Definition QueryGet (r : Request) (k : string) : string := default "" (rq_Query r !! k).

Definition HeaderGet (r : Request) (k : string) : string := default "" (rq_Header r !! k).

(** ** Responses: [httpx.go] *)

Record ErrorResponse := mkErrorResponse {
  er_Type : string;
  er_Code : Code;
  er_Message : string;
  er_Retryable : bool
}.

Inductive Response (B : Type) :=
| StatusOnly (status : Z)
| PlainText (status : Z) (text : string)
| JSON (status : Z) (value : B)
| ErrorJSON (status : Z) (value : ErrorResponse).
Arguments StatusOnly {B} _.
Arguments PlainText {B} _ _.
Arguments JSON {B} _ _.
Arguments ErrorJSON {B} _ _.

Definition WriteJSON {B} (status : Z) (value : B) : Response B := JSON status value.

Definition WriteError {B} (status : Z) (err : error) : Response B :=
  ErrorJSON status
    match err with
    | ISCPError code message retryable _ => mkErrorResponse "iscp.error.v2" code message retryable
    | _ => mkErrorResponse "iscp.error.v2" CodeAccessInvalid "request failed" false
    end.

Definition response_status {B} (r : Response B) : Z :=
  match r with
  | StatusOnly s | PlainText s _ | JSON s _ | ErrorJSON s _ => s
  end.

Definition StatusOK : Z := 200.
Definition StatusAccepted : Z := 202.
Definition StatusBadRequest : Z := 400.
Definition StatusUnauthorized : Z := 401.
Definition StatusForbidden : Z := 403.
Definition StatusNotFound : Z := 404.
Definition StatusMethodNotAllowed : Z := 405.
Definition StatusConflict : Z := 409.
Definition StatusRequestEntityTooLarge : Z := 413.
Definition StatusTooManyRequests : Z := 429.
Definition StatusInternalServerError : Z := 500.
Definition StatusServiceUnavailable : Z := 503.

(** ** Request helpers *)

Definition bearerToken (r : Request) : string :=
  let value := TrimSpace (HeaderGet r "Authorization") in
  let prefix := "Bearer " in
  if bool_decide (value = "") then ""
  else if (length (go_bytes value) <? 7)%nat || negb (EqualFold (go_string (take 7 (go_bytes value))) "bearer ") then ""
  else TrimSpace (go_string (drop 7 (go_bytes value))).

(** [net.SplitHostPort]: the host, when the address is well formed. *)
Definition last_index (c : byte) (s : bytes) : option nat :=
  match list_find (fun b => b = c) (rev s) with
  | Some (n, _) => Some (length s - 1 - n)%nat
  | None => None
  end.

Definition has_byte (c : byte) (s : bytes) : bool := bool_decide (c ∈ s).

Definition SplitHost (hostport : bytes) : option bytes :=
  match last_index ":"%byte hostport with
  | None => None
  | Some i =>
      match hostport with
      | "["%byte :: _ =>
          match list_find (fun b => b = "]"%byte) hostport with
          | None => None
          | Some (e, _) =>
              if bool_decide ((e + 1)%nat = i) &&
                 negb (has_byte "["%byte (drop 1 hostport)) && negb (has_byte "]"%byte (drop (e + 1) hostport))
              then Some (take (e - 1) (drop 1 hostport))
              else None
          end
      | _ =>
          let host := take i hostport in
          if has_byte ":"%byte host || has_byte "["%byte hostport || has_byte "]"%byte hostport then None else Some host
      end
  end.

Definition clientKey (r : Request) : string :=
  let forwarded := TrimSpace (HeaderGet r "X-Forwarded-For") in
  if negb (bool_decide (forwarded = "")) then
    match cut_byte ","%byte (go_bytes forwarded) with
    | Some (first, _) => TrimSpace (go_string first)
    | None => forwarded
    end
  else
    match SplitHost (go_bytes (rq_RemoteAddr r)) with
    | Some (b :: host) => go_string (b :: host)
    | _ => if bool_decide (rq_RemoteAddr r = "") then "unknown" else rq_RemoteAddr r
    end.

Definition adminAuthorized (adminToken : string) (r : Request) : bool :=
  let expected := TrimSpace adminToken in
  if bool_decide (expected = "") then true
  else
    let token := bearerToken r in
    let token := if bool_decide (token = "") then TrimSpace (HeaderGet r "X-Iscp-Admin-Token") else token in
    if bool_decide (token = "") || negb (length (go_bytes token) =? length (go_bytes expected))%nat then false
    else bool_decide (go_bytes token = go_bytes expected).

Example clientKey_forwarded :
  clientKey (mkRequest "GET" "/" ∅ {["X-Forwarded-For" := " 10.0.0.1 , 10.0.0.2"]} "192.0.2.7:99" []) = "10.0.0.1" /\
  clientKey (mkRequest "GET" "/" ∅ ∅ "192.0.2.7:99" []) = "192.0.2.7" /\
  clientKey (mkRequest "GET" "/" ∅ ∅ "[2001:db8::1]:99" []) = "2001:db8::1" /\
  clientKey (mkRequest "GET" "/" ∅ ∅ "2001:db8::1" []) = "2001:db8::1".
Proof. vm_compute. done. Qed.

Example bearerToken_folds :
  bearerToken (mkRequest "GET" "/" ∅ {["Authorization" := "  bEARER   tok "]} "" []) = "tok".
Proof. vm_compute. reflexivity. Qed.

(** [strconv.Atoi]. *)
Definition Atoi (s : string) : option Z :=
  let digits := fix go (acc : Z) (l : bytes) : option Z :=
    match l with
    | [] => Some acc
    | b :: l => if (48 <=? b2z b) && (b2z b <=? 57) then go (acc * 10 + (b2z b - 48)) l else None
    end in
  let num l := match l with [] => None | _ => digits 0 l end in
  let v := match go_bytes s with
           | "-"%byte :: l => Z.opp <$> num l
           | "+"%byte :: l => num l
           | l => num l
           end in
  match v with
  | Some z => if in_i64 z then Some z else None
  | None => None
  end.

(** ** The world of a handler *)

Record World (S T : Type) := mkWorld {
  w_srv : S;
  w_repo : option (DB T);
  w_clock : nat -> Time;
  w_rand : reader
}.
Arguments mkWorld {S T} _ _ _ _.
Arguments w_srv {S T} _.
Arguments w_repo {S T} _.
Arguments w_clock {S T} _ _.
Arguments w_rand {S T} _.

Inductive outcome (B A : Type) :=
| Next (a : A)
| Reply (r : Response B).
Arguments Next {B A} _.
Arguments Reply {B A} _.

Definition H (S T B A : Type) : Type := World S T -> outcome B A * World S T.

#[export] Instance H_ret {S T B} : MRet (H S T B) := fun A a w => (Next a, w).

#[export] Instance H_bind {S T B} : MBind (H S T B) := fun A A' f m w =>
  match m w with
  | (Next a, w) => f a w
  | (Reply r, w) => (Reply r, w)
  end.

Section effects.
  Context {S T B : Type}.

(** [httpx.WriteError(w, ...); return]. *)
Definition reply {A} (r : Response B) : H S T B A := fun w => (Reply r, w).

Definition now_utc : H S T B Time := fun w =>
  (Next (UTC (w_clock w O)), mkWorld (w_srv w) (w_repo w) (fun n => w_clock w (1 + n)%nat) (w_rand w)).

Definition gets {A} (f : S -> A) : H S T B A := fun w => (Next (f (w_srv w)), w).

Definition modify (f : S -> S) : H S T B unit := fun w =>
  (Next tt, mkWorld (f (w_srv w)) (w_repo w) (w_clock w) (w_rand w)).

(** [s.repo != nil]. *)
Definition has_repo : H S T B bool := fun w =>
  (Next (match w_repo w with Some _ => true | None => false end), w).

(** A repository call; reached only when there is a repository. *)
Definition query {A} (q : Q T A) : H S T B (result A) := fun w =>
  match w_repo w with
  | Some db => let '(r, db) := q db in (Next r, mkWorld (w_srv w) (Some db) (w_clock w) (w_rand w))
  | None => (Next (Err (PlainError "nil pointer dereference")), w)
  end.

(** Reading from the source of randomness. *)
Definition draw {A} (f : reader -> A * reader) : H S T B A := fun w =>
  let '(a, rand) := f (w_rand w) in (Next a, mkWorld (w_srv w) (w_repo w) (w_clock w) rand).

(** [postgres.UUIDString] of a fresh [postgres.NewUUIDv7Like(now)]. *)
Definition fresh_uuid (now : Time) : H S T B (result string) :=
  id ← draw (NewUUIDv7Like now);
  mret (UUIDString <$> id).

(** A Go function returning an error: the rest runs if there is none. *)
Definition rbind {A A'} (m : H S T B (result A)) (f : A -> H S T B (result A')) : H S T B (result A') :=
  r ← m;
  match r with
  | Ok a => f a
  | Err e => mret (Err e)
  end.

(** [if err != nil { httpx.WriteError(w, status, err); return }]. *)
Definition or_reply {A} (status : Z) (m : H S T B (result A)) : H S T B A :=
  r ← m;
  match r with
  | Ok a => mret a
  | Err e => reply (WriteError status e)
  end.

Definition DecodeJSON {A} `{Decode A} (r : Request) : H S T B A := or_reply StatusBadRequest (mret (decode (rq_Body r))).

(** [if r.Method != method { w.WriteHeader(405); return }]. *)
Definition require_method (method : string) (r : Request) : H S T B unit :=
  if bool_decide (rq_Method r = method) then mret tt else reply (StatusOnly StatusMethodNotAllowed).

(** A handler runs until it replies. *)
Definition handle (h : H S T B (Response B)) (w : World S T) : Response B * World S T :=
  match h w with
  | (Next r, w) => (r, w)
  | (Reply r, w) => (r, w)
  end.

End effects.

Notation "x ←? m ; k" := (rbind m (fun x => k)) (at level 20, m at level 100, k at level 200, right associativity).

(** ** Reasoning about handlers *)

Section facts.
  Context {S T B : Type}.

Lemma H_bind_Next {A A'} (m : H S T B A) (f : A -> H S T B A') w b w' :
  (m ≫= f) w = (Next b, w') <-> exists a w1, m w = (Next a, w1) /\ f a w1 = (Next b, w').
Proof. unfold mbind, H_bind. destruct (m w) as [[a|r] w1]; naive_solver. Qed.

Lemma Next_inj {A} (a b : A) (w w' : World S T) : (@Next B A a, w) = (Next b, w') -> a = b /\ w = w'.
Proof. by intros [= -> ->]. Qed.

(** A property of the server's state that a computation keeps, whatever it answers. *)
Definition srv_keeps {A} (P : S -> Prop) (h : H S T B A) : Prop :=
  forall w, P (w_srv w) -> P (w_srv (h w).2).

Lemma srv_keeps_bind {A A'} P (m : H S T B A) (f : A -> H S T B A') :
  srv_keeps P m -> (forall a, srv_keeps P (f a)) -> srv_keeps P (m ≫= f).
Proof.
  intros Hm Hf w HP. unfold mbind, H_bind. specialize (Hm w HP). destruct (m w) as [[a|r] w1]; [by apply Hf|done].
Qed.

Lemma srv_keeps_ret {A} P (a : A) : srv_keeps P (mret a : H S T B A).
Proof. by intros w. Qed.

Lemma srv_keeps_reply {A} P r : srv_keeps P (reply r : H S T B A).
Proof. by intros w. Qed.

Lemma srv_keeps_now P : srv_keeps P (now_utc : H S T B Time).
Proof. by intros w. Qed.

Lemma srv_keeps_gets {A} P (f : S -> A) : srv_keeps P (gets f : H S T B A).
Proof. by intros w. Qed.

Lemma srv_keeps_has_repo P : srv_keeps P (has_repo : H S T B bool).
Proof. by intros w. Qed.

Lemma srv_keeps_query {A} P (q : Q T A) : srv_keeps P (query q : H S T B (result A)).
Proof. intros w HP. unfold query. destruct (w_repo w) as [db|]; [|done]. by destruct (q db). Qed.

Lemma srv_keeps_draw {A} P (f : reader -> A * reader) : srv_keeps P (draw f : H S T B A).
Proof. intros w HP. unfold draw. by destruct (f (w_rand w)). Qed.

Lemma srv_keeps_modify P (f : S -> S) : (forall s, P s -> P (f s)) -> srv_keeps P (modify f : H S T B unit).
Proof. intros Hf w HP. by apply Hf. Qed.

Lemma srv_keeps_or_reply {A} P status (m : H S T B (result A)) : srv_keeps P m -> srv_keeps P (or_reply status m).
Proof.
  intros Hm. unfold or_reply. apply srv_keeps_bind; [done|]. intros [a|e]; [apply srv_keeps_ret|apply srv_keeps_reply].
Qed.

Lemma srv_keeps_rbind {A A'} P (m : H S T B (result A)) (f : A -> H S T B (result A')) :
  srv_keeps P m -> (forall a, srv_keeps P (f a)) -> srv_keeps P (rbind m f).
Proof.
  intros Hm Hf. unfold rbind. apply srv_keeps_bind; [done|]. intros [a|e]; [apply Hf|apply srv_keeps_ret].
Qed.

Lemma srv_keeps_uuid P now : srv_keeps P (fresh_uuid now : H S T B (result string)).
Proof. apply srv_keeps_bind; [apply srv_keeps_draw|intros; apply srv_keeps_ret]. Qed.

Lemma srv_keeps_decode {A} `{Decode A} P r : srv_keeps P (DecodeJSON r : H S T B A).
Proof. apply srv_keeps_or_reply, srv_keeps_ret. Qed.

Lemma srv_keeps_method P m r : srv_keeps P (require_method m r : H S T B unit).
Proof. unfold require_method. destruct (bool_decide _); [apply srv_keeps_ret|apply srv_keeps_reply]. Qed.

Lemma srv_keeps_handle P (h : H S T B (Response B)) w :
  srv_keeps P h -> P (w_srv w) -> P (w_srv (handle h w).2).
Proof. intros Hk HP. specialize (Hk w HP). unfold handle. by destruct (h w) as [[r|r] w1]. Qed.

(** *** Triples

    From a state in [P], a computation that goes on leaves one in [Q], and one that
    replies leaves one in [R]. *)

Definition triple {A} (P : S -> Prop) (h : H S T B A) (Q : A -> S -> Prop) (R : S -> Prop) : Prop :=
  forall w, P (w_srv w) ->
  match h w with
  | (Next a, w') => Q a (w_srv w')
  | (Reply _, w') => R (w_srv w')
  end.

(** A computation that does not write the server's state. *)
Definition read_only {A} (h : H S T B A) : Prop := forall w, w_srv (h w).2 = w_srv w.

Lemma triple_keeps {A} P (h : H S T B A) : triple P h (fun _ => P) P -> srv_keeps P h.
Proof. intros Ht w HP. specialize (Ht w HP). by destruct (h w) as [[a|r] w1]. Qed.

Lemma keeps_triple {A} (P R : S -> Prop) (h : H S T B A) :
  srv_keeps P h -> (forall s, P s -> R s) -> triple P h (fun _ => P) R.
Proof. intros Hk HR w HP. specialize (Hk w HP). destruct (h w) as [[a|r] w1]; auto. Qed.

Lemma triple_bind {A A'} P Q Q' R (m : H S T B A) (f : A -> H S T B A') :
  triple P m Q R -> (forall a, triple (Q a) (f a) Q' R) -> triple P (m ≫= f) Q' R.
Proof.
  intros Hm Hf w HP. unfold mbind, H_bind. specialize (Hm w HP). destruct (m w) as [[a|r] w1]; [by apply Hf|done].
Qed.

Lemma triple_read {A A'} P Q R (m : H S T B A) (f : A -> H S T B A') :
  read_only m -> (forall s, P s -> R s) -> (forall a, triple P (f a) Q R) -> triple P (m ≫= f) Q R.
Proof.
  intros Hm HR Hf. apply (triple_bind P (fun _ => P)); [|done]. apply keeps_triple; [|done].
  intros w HP. by rewrite Hm.
Qed.

Lemma triple_inv {A A'} P Inv Q R (m : H S T B A) (f : A -> H S T B A') :
  srv_keeps Inv m -> (forall s, P s -> Inv s) -> (forall s, Inv s -> R s) -> (forall a, triple Inv (f a) Q R) ->
  triple P (m ≫= f) Q R.
Proof.
  intros Hm HP HR Hf w Hw. apply (triple_bind Inv (fun _ => Inv) Q R m f); [|done|by apply HP].
  by apply keeps_triple.
Qed.

Lemma triple_gets {A A'} P Q R (g : S -> A) (f : A -> H S T B A') :
  (forall a, triple (fun s => P s /\ a = g s) (f a) Q R) -> triple P (gets g ≫= f) Q R.
Proof. intros Hf. apply (triple_bind P (fun a s => P s /\ a = g s)); [by intros w HP|done]. Qed.

Lemma triple_decode {A A'} `{Decode A} P Q R r (a : A) (f : A -> H S T B A') :
  decode (rq_Body r) = Ok a -> triple P (f a) Q R -> triple P (DecodeJSON r ≫= f) Q R.
Proof.
  intros Hd Hf w HP. unfold mbind, H_bind, DecodeJSON, or_reply. unfold mbind, H_bind, mret, H_ret. rewrite Hd.
  by apply Hf.
Qed.

Lemma triple_modify {A'} P P' Q R (g : S -> S) (f : unit -> H S T B A') :
  (forall s, P s -> P' (g s)) -> triple P' (f tt) Q R -> triple P (modify g ≫= f) Q R.
Proof. intros Hg Hf. apply (triple_bind P (fun _ => P')); [intros w HP; by apply Hg|by intros []]. Qed.

Lemma triple_ret {A} P (Q : A -> S -> Prop) R (a : A) :
  (forall s, P s -> Q a s) -> triple P (mret a : H S T B A) Q R.
Proof. intros HQ w HP. by apply HQ. Qed.

Lemma triple_reply {A} P (Q : A -> S -> Prop) (R : S -> Prop) r :
  (forall s, P s -> R s) -> triple P (reply r : H S T B A) Q R.
Proof. intros HR w HP. by apply HR. Qed.

Lemma triple_weaken {A} P P' (h : H S T B A) Q R : (forall s, P s -> P' s) -> triple P' h Q R -> triple P h Q R.
Proof. intros HP Ht w Hw. by apply Ht, HP. Qed.

Lemma read_only_bind {A A'} (m : H S T B A) (f : A -> H S T B A') :
  read_only m -> (forall a, read_only (f a)) -> read_only (m ≫= f).
Proof.
  intros Hm Hf w. unfold mbind, H_bind. specialize (Hm w). destruct (m w) as [[a|r] w1]; cbn in *; [by rewrite Hf|done].
Qed.

Lemma read_only_query {A} (q : Q T A) : read_only (query q : H S T B (result A)).
Proof. intros w. unfold query. destruct (w_repo w) as [db|]; [|done]. by destruct (q db). Qed.

Lemma read_only_draw {A} (f : reader -> A * reader) : read_only (draw f : H S T B A).
Proof. intros w. unfold draw. by destruct (f (w_rand w)). Qed.

Lemma read_only_rbind {A A'} (m : H S T B (result A)) (f : A -> H S T B (result A')) :
  read_only m -> (forall a, read_only (f a)) -> read_only (rbind m f).
Proof. intros Hm Hf. apply read_only_bind; [done|]. by intros [a|e]. Qed.

Lemma read_only_or_reply {A} status (m : H S T B (result A)) : read_only m -> read_only (or_reply status m).
Proof. intros Hm. apply read_only_bind; [done|]. by intros [a|e]. Qed.

Lemma read_only_keeps {A} P (h : H S T B A) : read_only h -> srv_keeps P h.
Proof. intros Hr w HP. by rewrite Hr. Qed.

(** A computation run without a repository leaves it so. *)
Definition memory_only {A} (h : H S T B A) : Prop := forall w, w_repo w = None -> w_repo (h w).2 = None.

Lemma memory_only_bind {A A'} (m : H S T B A) (f : A -> H S T B A') :
  memory_only m -> (forall a, memory_only (f a)) -> memory_only (m ≫= f).
Proof.
  intros Hm Hf w Hw. unfold mbind, H_bind. specialize (Hm w Hw).
  destruct (m w) as [[a|r] w1]; cbn in *; [by apply Hf|done].
Qed.

Lemma memory_only_query {A} (q : Q T A) : memory_only (query q : H S T B (result A)).
Proof. intros w Hw. unfold query. by rewrite Hw. Qed.

Lemma memory_only_draw {A} (f : reader -> A * reader) : memory_only (draw f : H S T B A).
Proof. intros w Hw. unfold draw. by destruct (f (w_rand w)). Qed.

Lemma memory_only_handle (h : H S T B (Response B)) w :
  memory_only h -> w_repo w = None -> w_repo (handle h w).2 = None.
Proof. intros Hh Hw. specialize (Hh w Hw). unfold handle. by destruct (h w) as [[r|r] w1]. Qed.

(** *** Handlers that succeed *)

(** A computation that ends a handler early only with an error status. *)
Definition fails_only {A} (h : H S T B A) : Prop :=
  forall w r w', h w = (Reply r, w') -> 300 <= response_status r.

Lemma fails_only_bind {A A'} (m : H S T B A) (f : A -> H S T B A') :
  fails_only m -> (forall a, fails_only (f a)) -> fails_only (m ≫= f).
Proof.
  intros Hm Hf w r w'. unfold mbind, H_bind. destruct (m w) as [[a|r1] w1] eqn:E.
  - apply Hf.
  - intros [= <- <-]. by eapply Hm.
Qed.

Lemma fails_only_next {A} (h : H S T B A) : (forall w, exists a w', h w = (Next a, w')) -> fails_only h.
Proof. intros Hn w r w' E. destruct (Hn w) as (a & w1 & E'). congruence. Qed.

Lemma fails_only_ret {A} (a : A) : fails_only (mret a : H S T B A).
Proof. apply fails_only_next. intros w. by eexists _, _. Qed.

Lemma fails_only_reply {A} r : 300 <= response_status r -> fails_only (reply r : H S T B A).
Proof. intros Hr w r' w' [= <- _]. done. Qed.

Lemma fails_only_query {A} (q : Q T A) : fails_only (query q : H S T B (result A)).
Proof.
  apply fails_only_next. intros w. unfold query. destruct (w_repo w) as [db|]; [|by eexists _, _].
  destruct (q db). by eexists _, _.
Qed.

Lemma fails_only_draw {A} (f : reader -> A * reader) : fails_only (draw f : H S T B A).
Proof. apply fails_only_next. intros w. unfold draw. destruct (f (w_rand w)). by eexists _, _. Qed.

Lemma fails_only_or_reply {A} status (m : H S T B (result A)) :
  300 <= status -> fails_only m -> fails_only (or_reply status m).
Proof.
  intros Hs Hm. apply fails_only_bind; [done|]. intros [a|e]; [apply fails_only_ret|].
  apply fails_only_reply. by destruct e.
Qed.

Lemma fails_only_rbind {A A'} (m : H S T B (result A)) (f : A -> H S T B (result A')) :
  fails_only m -> (forall a, fails_only (f a)) -> fails_only (rbind m f).
Proof. intros Hm Hf. apply fails_only_bind; [done|]. intros [a|e]; [apply Hf|apply fails_only_ret]. Qed.

Lemma fails_only_uuid now : fails_only (fresh_uuid now : H S T B (result string)).
Proof. apply fails_only_bind; [apply fails_only_draw|intros; apply fails_only_ret]. Qed.

Lemma fails_only_decode {A} `{Decode A} r : fails_only (DecodeJSON r : H S T B A).
Proof. apply fails_only_or_reply; [done|apply fails_only_ret]. Qed.

Lemma fails_only_method m r : fails_only (require_method m r : H S T B unit).
Proof. unfold require_method. destruct (bool_decide _); [apply fails_only_ret|by apply fails_only_reply]. Qed.

(** A handler whose answer is a success has run to its end. *)
Lemma handle_success (h : H S T B (Response B)) w r w' :
  fails_only h -> handle h w = (r, w') -> response_status r < 300 -> h w = (Next r, w').
Proof.
  intros Hf. unfold handle. destruct (h w) as [[r1|r1] w1] eqn:E; intros [= <- <-] Hr; [done|].
  specialize (Hf w r1 w1 E). lia.
Qed.

Lemma or_reply_Next {A} status (m : H S T B (result A)) w a w' :
  or_reply status m w = (Next a, w') <-> m w = (Next (Ok a), w').
Proof.
  unfold or_reply. rewrite H_bind_Next. split; [intros ([x|e] & w1 & Hm & Hr); [|done]|intros Hm; by eexists _, _].
  injection Hr as <- <-. done.
Qed.

Lemma DecodeJSON_Next {A} `{Decode A} r w (a : A) w' :
  (DecodeJSON r : H S T B A) w = (Next a, w') <-> decode (rq_Body r) = Ok a /\ w' = w.
Proof.
  unfold DecodeJSON. rewrite or_reply_Next. unfold mret, H_ret. split; [intros E; by simplify_eq|by intros [-> ->]].
Qed.

Lemma require_method_Next m r w a w' :
  (require_method m r : H S T B unit) w = (Next a, w') <-> rq_Method r = m /\ w' = w.
Proof.
  unfold require_method. case_bool_decide; [|split; [done|tauto]]. destruct a. unfold mret, H_ret.
  split; [by intros [= <-]|by intros [_ ->]].
Qed.

Lemma rbind_Next {A A'} (m : H S T B (result A)) (f : A -> H S T B (result A')) w b w' :
  rbind m f w = (Next (Ok b), w') <-> exists a w1, m w = (Next (Ok a), w1) /\ f a w1 = (Next (Ok b), w').
Proof.
  unfold rbind. rewrite H_bind_Next. split.
  - intros ([a|e] & w1 & Hm & Hr); [eauto|done].
  - intros (a & w1 & Hm & Hr). by exists (Ok a), w1.
Qed.

End facts.

(** Follows the statements of a handler. *)
Ltac handler_step :=
  match goal with
  | |- srv_keeps _ (_ ≫= _) => apply srv_keeps_bind; [|intros ?]
  | |- srv_keeps _ (rbind _ _) => apply srv_keeps_rbind; [|intros ?]
  | |- srv_keeps _ (mret _) => apply srv_keeps_ret
  | |- srv_keeps _ (reply _) => apply srv_keeps_reply
  | |- srv_keeps _ now_utc => apply srv_keeps_now
  | |- srv_keeps _ (gets _) => apply srv_keeps_gets
  | |- srv_keeps _ has_repo => apply srv_keeps_has_repo
  | |- srv_keeps _ (query _) => apply srv_keeps_query
  | |- srv_keeps _ (draw _) => apply srv_keeps_draw
  | |- srv_keeps _ (fresh_uuid _) => apply srv_keeps_uuid
  | |- srv_keeps _ (or_reply _ _) => apply srv_keeps_or_reply
  | |- srv_keeps _ (DecodeJSON _) => apply srv_keeps_decode
  | |- srv_keeps _ (require_method _ _) => apply srv_keeps_method
  | |- srv_keeps _ (if ?b then _ else _) => destruct b eqn:?
  | |- srv_keeps _ (match ?x with _ => _ end) => destruct x eqn:?
  | |- srv_keeps _ (let _ := _ in _) => cbv zeta
  end.
Ltac handler := repeat handler_step.

Ltac read_step :=
  match goal with
  | |- read_only (_ ≫= _) => apply read_only_bind; [|intros ?]
  | |- read_only (rbind _ _) => apply read_only_rbind; [|intros ?]
  | |- read_only (mret _) => done
  | |- read_only (reply _) => done
  | |- read_only now_utc => done
  | |- read_only (gets _) => done
  | |- read_only has_repo => done
  | |- read_only (query _) => apply read_only_query
  | |- read_only (draw _) => apply read_only_draw
  | |- read_only (fresh_uuid _) => unfold fresh_uuid
  | |- read_only (or_reply _ _) => apply read_only_or_reply
  | |- read_only (DecodeJSON _) => unfold DecodeJSON
  | |- read_only (require_method _ _) => unfold require_method
  | |- read_only (if ?b then _ else _) => destruct b eqn:?
  | |- read_only (match ?x with _ => _ end) => destruct x eqn:?
  | |- read_only (let _ := _ in _) => cbv zeta
  end.
Ltac reads := repeat read_step.

Ltac memory_step :=
  match goal with
  | |- memory_only (_ ≫= _) => apply memory_only_bind; [|intros ?]
  | |- memory_only (rbind _ _) => unfold rbind
  | |- memory_only (mret _) => by intros ? ?
  | |- memory_only (reply _) => by intros ? ?
  | |- memory_only now_utc => by intros ? ?
  | |- memory_only (gets _) => by intros ? ?
  | |- memory_only (modify _) => by intros ? ?
  | |- memory_only has_repo => by intros ? ?
  | |- memory_only (query _) => apply memory_only_query
  | |- memory_only (draw _) => apply memory_only_draw
  | |- memory_only (fresh_uuid _) => unfold fresh_uuid
  | |- memory_only (or_reply _ _) => unfold or_reply
  | |- memory_only (DecodeJSON _) => unfold DecodeJSON
  | |- memory_only (require_method _ _) => unfold require_method
  | |- memory_only (if ?b then _ else _) => destruct b eqn:?
  | |- memory_only (match ?x with _ => _ end) => destruct x eqn:?
  | |- memory_only (let _ := _ in _) => cbv zeta
  end.
Ltac in_memory := repeat memory_step.

Ltac fails_step :=
  match goal with
  | |- fails_only (_ ≫= _) => apply fails_only_bind; [|intros ?]
  | |- fails_only (rbind _ _) => apply fails_only_rbind; [|intros ?]
  | |- fails_only (mret _) => apply fails_only_ret
  | |- fails_only (reply _) => apply fails_only_reply; by vm_compute
  | |- fails_only now_utc => apply fails_only_next; intros ?; by eexists _, _
  | |- fails_only (gets _) => apply fails_only_next; intros ?; by eexists _, _
  | |- fails_only (modify _) => apply fails_only_next; intros ?; by eexists _, _
  | |- fails_only has_repo => apply fails_only_next; intros ?; by eexists _, _
  | |- fails_only (query _) => apply fails_only_query
  | |- fails_only (draw _) => apply fails_only_draw
  | |- fails_only (fresh_uuid _) => apply fails_only_uuid
  | |- fails_only (or_reply _ _) => apply fails_only_or_reply; [by vm_compute|]
  | |- fails_only (DecodeJSON _) => apply fails_only_decode
  | |- fails_only (require_method _ _) => apply fails_only_method
  | |- fails_only (if ?b then _ else _) => destruct b eqn:?
  | |- fails_only (match ?x with _ => _ end) => destruct x eqn:?
  | |- fails_only (let _ := _ in _) => cbv zeta
  end.
Ltac fails := repeat fails_step.

(** Opens the steps of a handler that ran to its end. *)
Ltac inv_next :=
  repeat match goal with
  | H : (_ ≫= _) _ = (Next _, _) |- _ =>
      let a := fresh "a" in let w := fresh "w" in let H1 := fresh "E" in let H2 := fresh "E" in
      apply H_bind_Next in H as (a & w & H1 & H2); cbv beta in H2
  | H : or_reply _ _ _ = (Next _, _) |- _ => apply or_reply_Next in H
  | H : DecodeJSON _ _ = (Next _, _) |- _ => apply DecodeJSON_Next in H as [? ->]
  | H : require_method _ _ _ = (Next _, _) |- _ => apply require_method_Next in H as [? ->]
  | H : rbind _ _ _ = (Next (Ok _), _) |- _ =>
      let a := fresh "a" in let w := fresh "w" in let H1 := fresh "E" in let H2 := fresh "E" in
      apply rbind_Next in H as (a & w & H1 & H2); cbv beta in H2
  | H : gets _ _ = (Next _, _) |- _ => unfold gets in H; injection H as <- <-
  | H : modify _ _ = (Next _, _) |- _ => unfold modify in H; injection H as _ <-
  | H : now_utc _ = (Next _, _) |- _ => unfold now_utc in H; injection H as <- <-
  | H : has_repo _ = (Next _, _) |- _ => unfold has_repo in H; injection H as <- <-
  | H : mret _ _ = (Next _, _) |- _ => unfold mret, H_ret in H
  | H : reply _ _ = (Next _, _) |- _ => discriminate H
  end.

(** ** Requests for concrete runs *)

Module ToyRequests.

(** The value of a key in a body of [key=value] lines. *)
Definition toy_field (k : string) (body : bytes) : string :=
  let lines := map (cut_byte "="%byte) (split_bytes x0a body) in
  match List.find (fun l => match l with Some (k', _) => bool_decide (k' = go_bytes k) | None => false end) lines with
  | Some (Some (_, v)) => go_string v
  | _ => ""
  end.

Definition toy_post (path : string) (body : list string) : Request :=
  mkRequest "POST" path ∅ ∅ "192.0.2.7:99" (go_bytes (Join body (go_string [x0a]))).

End ToyRequests.
