(* ===== verification/TrustServer.v ===== *)
(** * The trust root service: [services/trust-root-reference/internal/trust/server.go]

    The server's state and one definition per handler.  With a repository
    ([Config.DB]) the tables of [Repository] stand beside the maps in memory, as in
    the code; without one the maps are all there is. *)
From Stdlib Require Import ZArith Lia Strings.Byte.
From stdpp Require Import numbers gmap sets strings base list.
From S2P Require Import Prelude Errors Utf8 GoJson Canonical GoTime Crypto Signed Identity Trust GoStrings Config.
From S2P Require Import Descriptor Uuid Keyring Sql Repository Replay NonceStore Http.
Open Scope Z_scope.

(** ** Data *)

Record TrustConfig := mkTrustConfig {
  tc_DomainID : string;
  tc_TrustRootID : string;
  tc_BaseURL : string;
  tc_ProfileGate : Gate;
  tc_AdminToken : string
}.

Record deviceRecord := mkDeviceRecord {
  dr_Identity : DeviceIdentity;
  dr_Status : string;
  dr_DeviceRecordVersion : Z;  (** uint64 *)
  dr_RevocationEpoch : Z       (** uint64 *)
}.

Record revocationItem := mkRevocationItem {
  ri_RevocationID : string;
  ri_DomainID : string;
  ri_DeviceID : string;
  ri_GrantID : string;
  ri_ReasonCode : string;
  ri_EffectiveAt : Time
}.

Record auditEntry := mkAuditEntry { ae_EventType : string; ae_SubjectID : string; ae_CreatedAt : Time }.

Record TrustServer := mkTrustServer {
  ts_cfg : TrustConfig;
  ts_signer : Device;
  ts_limiter : Limiter;
  ts_replay : Cache;
  ts_policy : Engine;
  ts_keys : Ring;
  ts_devices : gmap string deviceRecord;
  ts_grants : gmap string Grant;
  ts_revokedGrants : gset string;
  ts_revocationLog : list revocationItem;
  ts_audit : list auditEntry
}.

Definition set_ts_limiter x s := mkTrustServer (ts_cfg s) (ts_signer s) x (ts_replay s) (ts_policy s) (ts_keys s)
  (ts_devices s) (ts_grants s) (ts_revokedGrants s) (ts_revocationLog s) (ts_audit s).
Definition set_ts_replay x s := mkTrustServer (ts_cfg s) (ts_signer s) (ts_limiter s) x (ts_policy s) (ts_keys s)
  (ts_devices s) (ts_grants s) (ts_revokedGrants s) (ts_revocationLog s) (ts_audit s).
Definition set_ts_keys x s := mkTrustServer (ts_cfg s) (ts_signer s) (ts_limiter s) (ts_replay s) (ts_policy s) x
  (ts_devices s) (ts_grants s) (ts_revokedGrants s) (ts_revocationLog s) (ts_audit s).
Definition set_ts_signer x s := mkTrustServer (ts_cfg s) x (ts_limiter s) (ts_replay s) (ts_policy s) (ts_keys s)
  (ts_devices s) (ts_grants s) (ts_revokedGrants s) (ts_revocationLog s) (ts_audit s).
Definition set_ts_devices x s := mkTrustServer (ts_cfg s) (ts_signer s) (ts_limiter s) (ts_replay s) (ts_policy s)
  (ts_keys s) x (ts_grants s) (ts_revokedGrants s) (ts_revocationLog s) (ts_audit s).
Definition set_ts_grants x s := mkTrustServer (ts_cfg s) (ts_signer s) (ts_limiter s) (ts_replay s) (ts_policy s)
  (ts_keys s) (ts_devices s) x (ts_revokedGrants s) (ts_revocationLog s) (ts_audit s).
Definition set_ts_revokedGrants x s := mkTrustServer (ts_cfg s) (ts_signer s) (ts_limiter s) (ts_replay s) (ts_policy s)
  (ts_keys s) (ts_devices s) (ts_grants s) x (ts_revocationLog s) (ts_audit s).
Definition log_revocation item s := mkTrustServer (ts_cfg s) (ts_signer s) (ts_limiter s) (ts_replay s) (ts_policy s)
  (ts_keys s) (ts_devices s) (ts_grants s) (ts_revokedGrants s) (ts_revocationLog s ++ [item]) (ts_audit s).
Definition log_audit entry s := mkTrustServer (ts_cfg s) (ts_signer s) (ts_limiter s) (ts_replay s) (ts_policy s)
  (ts_keys s) (ts_devices s) (ts_grants s) (ts_revokedGrants s) (ts_revocationLog s) (ts_audit s ++ [entry]).

(** The zero values of missing map entries. *)
Definition zeroRecord : deviceRecord := mkDeviceRecord zeroIdentity "" 0 0.
Definition zeroGrant : Grant := mkGrant "" "" "" "" "" "" None [] zeroTime zeroTime 0 noSignature.

(** Requests. *)
Record submitRequest := mkSubmitRequest { sr_Identity : DeviceIdentity; sr_Proof : DeviceProof }.

Record authorizeRequest := mkAuthorizeRequest {
  ar_DeviceID : string;
  ar_Audience : string;
  ar_Permissions : Slice;
  ar_RelayID : string;
  ar_TTLSeconds : Z  (** int *)
}.

Record verifyRequest := mkVerifyRequest {
  vr_Grant : Grant;
  vr_Audience : string;
  vr_SubjectDeviceID : string;
  vr_ConfirmationThumbprint : string;
  vr_Permission : string;
  vr_RelayID : string
}.

Record revokeGrantRequest := mkRevokeGrantRequest { rg_GrantID : string; rg_Reason : string }.

Record revokeDeviceRequest := mkRevokeDeviceRequest { rv_DeviceID : string; rv_Reason : string }.

(** Response bodies. *)
Record deviceStatusResponse := mkDeviceStatusResponse {
  ds_Type : string;
  ds_Identity : DeviceIdentity;
  ds_DomainID : string;
  ds_DeviceID : string;
  ds_Status : string;
  ds_PublicKey : PublicKey;
  ds_DeviceRecordVersion : Z;
  ds_RevocationEpoch : Z
}.

Record grantStatusResponse := mkGrantStatusResponse { gs_Type : string; gs_Status : string; gs_Grant : bytes }.

Record revocationsResponse := mkRevocationsResponse {
  rs_Type : string;
  rs_Items : list revocationItem;
  rs_NextCursor : string
}.

Inductive TrustBody :=
| TStatus (status : string)
| TVersion (version protocol : string)
| TDescriptor (d : SignedDescriptor)
| TDevice (rec : deviceRecord)
| TAuthorized (rec : deviceRecord) (grant : Grant)
| TDeviceStatus (r : deviceStatusResponse)
| TGrantStatus (r : grantStatusResponse)
| TRevocations (r : revocationsResponse)
| TActiveKey (kid : string)
| TAudit (entries : list auditEntry).

Definition TypeDeviceStatus : string := "iscp.trust.device_status.v2".
Definition TypeGrantStatus : string := "iscp.trust.grant_status.v2".
Definition TypeRevocations : string := "iscp.trust.revocations.v2".

(** [Time.String] of a UTC time. *)
Definition time_String (t : Time) : bytes :=
  let secs := ns t / Second in
  let '(y, m, d) := civil (secs / 86400) in
  let sod := secs mod 86400 in
  (if (0 <=? y) && (y <=? 9999) then pad 4 y else format_int y) ++ "-"%byte :: pad 2 m ++ "-"%byte :: pad 2 d ++
  " "%byte :: pad 2 (sod / 3600) ++ ":"%byte :: pad 2 (sod / 60 mod 60) ++ ":"%byte :: pad 2 (sod mod 60) ++
  format_fraction (ns t mod Second) ++ go_bytes " +0000 UTC".

Definition int64ToUint64 (value : Z) : option Z := if value <? 0 then None else Some value.

Definition uint64ToInt64 (value : Z) : result Z :=
  if value <? 2 ^ 63 then Ok value else Err (New CodeTrustInvalid "revocation epoch exceeds storage range").

(** [fmt.Sprintf]-free pieces of the handlers. *)
Definition grant_id (deviceID : string) (now : Time) : string :=
  "grant-" +:+ go_string (take 16 (go_bytes (Base64URL (SHA256 (go_bytes deviceID ++ time_String now))))).

Section server.
  Context {C : CryptoOps} {P : Postgres} {R : MapRange} `{UnmarshalInto DeviceIdentity} `{UnmarshalInto Grant}.
  Context `{Decode submitRequest} `{Decode authorizeRequest} `{Decode verifyRequest} `{Decode revokeGrantRequest}
    `{Decode revokeDeviceRequest}.

Abbreviation TH := (H TrustServer TrustTables TrustBody).

(** ** Construction *)

Definition NewTrustServer (cfg : TrustConfig) (repo : option (DB TrustTables)) (rand : reader) (clock : nat -> Time)
    : result (World TrustServer TrustTables) :=
  let now := UTC (clock O) in
  let '(dev, rand) := NewDevice rand (tc_DomainID cfg) (tc_TrustRootID cfg +:+ "-signer") now in
  signer ← dev;
  let gate := if bool_decide (gt_Profile (tc_ProfileGate cfg) = "") then DefaultGate ProfileLocalLab else tc_ProfileGate cfg in
  let cfg := mkTrustConfig (tc_DomainID cfg) (tc_TrustRootID cfg) (tc_BaseURL cfg) gate (tc_AdminToken cfg) in
  _ ← ValidateGate gate;
  _ ← reject_if (bool_decide (gt_Profile gate = ProfileProduction) && blank (tc_AdminToken cfg))
        (New CodeConfigInvalid "production trust root requires ISCP_ADMIN_TOKEN");
  let ring := AddKey NewRing (mkKey (pk_KID (di_PublicKey (dev_Identity signer))) StateActive (dev_Private signer)
                                (Public (dev_Private signer))) in
  Ok (mkWorld (mkTrustServer cfg signer (NewLimiter 120 Minute) NewCache NewDefault ring ∅ ∅ ∅ [] []) repo
        (fun n => clock (1 + n)%nat) rand).

(** ** Helpers *)

Definition deviceRecordFromRepository (device : TrustDevice) : deviceRecord * bool :=
  match int64ToUint64 (td_DeviceRecordVersion device), int64ToUint64 (td_RevocationEpoch device),
        unmarshal_into zeroIdentity (td_IdentityRaw device) with
  | Some version, Some epoch, Ok id => (mkDeviceRecord id (td_Status device) version epoch, true)
  | _, _, _ => (zeroRecord, false)
  end.

Definition requireAdmin (r : Request) : TH unit :=
  cfg ← gets ts_cfg;
  if adminAuthorized (tc_AdminToken cfg) r then mret tt
  else reply (WriteError StatusUnauthorized (New CodeAccessInvalid "admin credential is required")).

Definition domainScopeMismatch (r : Request) : TH bool :=
  cfg ← gets ts_cfg;
  let domainID := QueryGet r "domain_id" in
  mret (negb (bool_decide (domainID = "")) && negb (bool_decide (domainID = tc_DomainID cfg))).

(** The identity a key of the ring signs under. *)
Definition signer_identity (cfg : TrustConfig) (key : Key) (now : Time) : DeviceIdentity :=
  mkDeviceIdentity TypeDeviceIdentity (tc_DomainID cfg) (tc_TrustRootID cfg +:+ "-signer")
    (mkPublicKey "Ed25519" "identity-signature" (k_ID key) (Base64URL (edpub (k_Public key)))) now ∅.

Definition activeSigner : TH (result Device) :=
  cfg ← gets ts_cfg;
  ring ← gets ts_keys;
  match Active ring with
  | Err e => mret (Err e)
  | Ok key => now ← now_utc; mret (Ok (mkDevice (signer_identity cfg key now) (k_Private key)))
  end.

Definition issuerForGrant (grant : Grant) : TH (result DeviceIdentity) :=
  if blank (sig_KID (gr_Signature grant)) then
    mret (Err (New CodeTrustInvalid "trust grant signature kid is required"))
  else
    cfg ← gets ts_cfg;
    ring ← gets ts_keys;
    match Get ring (sig_KID (gr_Signature grant)) with
    | Err e => mret (Err e)
    | Ok key => now ← now_utc; mret (Ok (signer_identity cfg key now))
    end.

Definition verifyProof (id : DeviceIdentity) (proof : DeviceProof) (audience challenge : string) (ttl : Z)
    : TH (result unit) :=
  if blank (dp_Nonce proof) then mret (Err (New CodeReplayDetected "proof nonce is required"))
  else
    now ← now_utc;
    _ ←? mret (VerifyProof id proof audience challenge now ttl);
    let scope := mkScope (dp_DomainID proof) (dp_DeviceID proof) (dp_Audience proof) (dp_Nonce proof) in
    let expiresAt := Add (dp_IssuedAt proof) ttl in
    db ← has_repo;
    if (db : bool) then
      used ←? query (TrustUseProofNonce (dp_DomainID proof) (dp_DeviceID proof) (dp_Audience proof) (dp_Nonce proof)
                       expiresAt now);
      mret (reject_if (negb used) (New CodeReplayDetected "proof nonce replay detected"))
    else
      cache ← gets ts_replay;
      let '(used, cache) := Use cache (cache_key scope) expiresAt now in
      _ ← modify (set_ts_replay cache);
      mret (reject_if (negb used) (New CodeReplayDetected "proof nonce replay detected")).

Definition persistSubmittedDevice (id : DeviceIdentity) : TH (result unit) :=
  db ← has_repo;
  if negb db then mret (Ok tt)
  else
    raw ←? mret (encode <$> DeviceIdentity_json id);
    canon ←? mret (Marshal raw);
    tp ←? mret (IdentityThumbprint id);
    now ← now_utc;
    uuid ←? fresh_uuid now;
    query (SubmitDevice (mkTrustDevice uuid (di_DomainID id) (di_DeviceID id) raw canon tp "submitted" 1 0 now now)).

Definition persistGrant (grant : Grant) : TH (result unit) :=
  db ← has_repo;
  if negb db then mret (Ok tt)
  else
    raw ←? mret (marshal grant);
    canon ←? mret (Marshal raw);
    epoch ←? mret (uint64ToInt64 (gr_RevocationEpoch grant));
    now ← now_utc;
    uuid ←? fresh_uuid now;
    cfg ← gets ts_cfg;
    query (StoreGrant (mkTrustGrant uuid (tc_DomainID cfg) (gr_GrantID grant) (gr_SubjectDeviceID grant)
                         (gr_Audience grant) (gr_ConfirmationThumbprint grant) raw canon (gr_NotBefore grant)
                         (gr_ExpiresAt grant) epoch None)).

(** A device the maps do not have, from the repository: its record and whether there
    is one. *)
Definition lookup_device (deviceID : string) (rec : deviceRecord) (ok : bool) (missing : bool)
    : TH (deviceRecord * bool) :=
  db ← has_repo;
  if missing && db then
    cfg ← gets ts_cfg;
    r ← query (GetTrustDevice (tc_DomainID cfg) deviceID);
    match r with
    | Ok dbDevice => mret (deviceRecordFromRepository dbDevice)
    | Err ErrNoRows => mret (rec, ok)
    | Err e => reply (WriteError StatusInternalServerError e)
    end
  else mret (rec, ok).

(** ** Handlers *)

Definition health (r : Request) : TH (Response TrustBody) := mret (WriteJSON StatusOK (TStatus "ok")).

Definition LF : string := go_string [x0a].

Definition metrics (r : Request) : TH (Response TrustBody) :=
  mret (PlainText StatusOK ("# HELP iscp_trust_up Trust process status" +:+ LF +:+
    "# TYPE iscp_trust_up gauge" +:+ LF +:+ "iscp_trust_up 1" +:+ LF)).

Definition version (r : Request) : TH (Response TrustBody) := mret (WriteJSON StatusOK (TVersion "0.2.0-dev" "v2")).

Definition wellKnown (r : Request) : TH (Response TrustBody) :=
  now ← now_utc;
  cfg ← gets ts_cfg;
  ring ← gets ts_keys;
  signer ← gets ts_signer;
  let keys := map (fun key => mkDescriptorKey "Ed25519" "grant-signature" (k_ID key) (Base64URL (edpub (k_Public key)))
                                (state_string (k_State key))) (Keys ring) in
  let desc := mkTrustRootDescriptor "iscp.trust_root.descriptor.v2" (tc_TrustRootID cfg) (tc_DomainID cfg)
                (tc_BaseURL cfg) (Some keys) now (Add now (24 * Hour)) ∅ in
  signed ← or_reply StatusInternalServerError
             (mret (SignDescriptor signer (tdesc_Type desc) (TrustRootDescriptor_json desc) now));
  mret (WriteJSON StatusOK (TDescriptor signed)).

Definition submitDevice (r : Request) : TH (Response TrustBody) :=
  _ ← require_method "POST" r;
  req ← DecodeJSON r;
  cfg ← gets ts_cfg;
  _ ← or_reply StatusUnauthorized
        (verifyProof (sr_Identity req) (sr_Proof req) (tc_TrustRootID cfg) (dp_Challenge (sr_Proof req)) (5 * Minute));
  _ ← or_reply StatusInternalServerError (persistSubmittedDevice (sr_Identity req));
  devices ← gets ts_devices;
  let deviceID := di_DeviceID (sr_Identity req) in
  let rec := default zeroRecord (devices !! deviceID) in
  let rec := if bool_decide (dr_Status rec = "")
             then mkDeviceRecord (sr_Identity req) "submitted" 1 (dr_RevocationEpoch rec)
             else mkDeviceRecord (sr_Identity req) (dr_Status rec) (dr_DeviceRecordVersion rec) (dr_RevocationEpoch rec) in
  _ ← modify (set_ts_devices (<[deviceID := rec]> devices));
  now ← now_utc;
  _ ← modify (log_audit (mkAuditEntry "device.submit" deviceID now));
  mret (WriteJSON StatusOK (TDevice rec)).

Definition err_not_authorized : error := New CodeTrustInvalid "device is not authorized".

Definition authorizeDevice (r : Request) : TH (Response TrustBody) :=
  _ ← require_method "POST" r;
  _ ← requireAdmin r;
  req ← DecodeJSON r;
  cfg ← gets ts_cfg;
  devices ← gets ts_devices;
  let deviceID := ar_DeviceID req in
  let known := devices !! deviceID in
  found ← lookup_device deviceID (default zeroRecord known) (bool_decide (known <> None)) (bool_decide (known = None));
  let '(rec, ok) := found in
  if negb ok || bool_decide (dr_Status rec = "revoked") then reply (WriteError StatusForbidden err_not_authorized)
  else
    let rec := mkDeviceRecord (dr_Identity rec) "authorized" (wrap_u64 (dr_DeviceRecordVersion rec + 1))
                 (dr_RevocationEpoch rec) in
    _ ← modify (set_ts_devices (<[deviceID := rec]> devices));
    db ← has_repo;
    rec ← (if (db : bool) then
             now ← now_utc;
             d ← query (AuthorizeDevice (tc_DomainID cfg) deviceID now);
             match d with
             | Ok d => mret (deviceRecordFromRepository d).1
             | Err _ => reply (WriteError StatusForbidden err_not_authorized)
             end
           else mret rec);
    let permissions := match elems (ar_Permissions req) with [] => ["text"] | l => l end in
    let permission := default "text" (head permissions) in
    policy ← gets ts_policy;
    rule ← or_reply StatusForbidden (mret (Rule policy permission));
    let ttl := wrap_i64 (ar_TTLSeconds req * Second) in
    let ttl := if (ttl <=? 0) || (pr_MaxTTL rule <? ttl) then pr_MaxTTL rule else ttl in
    let tp := match IdentityThumbprint (dr_Identity rec) with Ok tp => tp | Err _ => "" end in
    now ← now_utc;
    signer ← or_reply StatusInternalServerError activeSigner;
    grant ← or_reply StatusInternalServerError
              (mret (SignGrant signer
                 (mkGrant "" (grant_id deviceID now) "" deviceID (ar_Audience req) tp (Some permissions) [ar_RelayID req]
                    (Add now (- Second)) (Add now ttl) (dr_RevocationEpoch rec) noSignature)));
    _ ← or_reply StatusInternalServerError (persistGrant grant);
    grants ← gets ts_grants;
    _ ← modify (set_ts_grants (<[gr_GrantID grant := grant]> grants));
    _ ← modify (log_audit (mkAuditEntry "device.authorize" deviceID now));
    mret (WriteJSON StatusOK (TAuthorized rec grant)).

Definition verifyGrant (r : Request) : TH (Response TrustBody) :=
  _ ← require_method "POST" r;
  req ← DecodeJSON r;
  devices ← gets ts_devices;
  let rec := default zeroRecord (devices !! vr_SubjectDeviceID req) in
  found ← lookup_device (vr_SubjectDeviceID req) rec false (bool_decide (di_DeviceID (dr_Identity rec) = ""));
  let rec := found.1 in
  issuer ← or_reply StatusForbidden (issuerForGrant (vr_Grant req));
  now ← now_utc;
  _ ← or_reply StatusForbidden
        (mret (VerifyGrant (vr_Grant req) issuer
                 (mkVerifyOptions (vr_Audience req) (vr_SubjectDeviceID req) (vr_ConfirmationThumbprint req)
                    (vr_Permission req) (vr_RelayID req) (dr_RevocationEpoch rec) now)));
  mret (WriteJSON StatusOK (TStatus "valid")).

Definition deviceStatus (r : Request) : TH (Response TrustBody) :=
  _ ← require_method "GET" r;
  let deviceID := QueryGet r "device_id" in
  devices ← gets ts_devices;
  let known := devices !! deviceID in
  found ← lookup_device deviceID (default zeroRecord known) (bool_decide (known <> None)) (bool_decide (known = None));
  let '(rec, ok) := found in
  mismatch ← domainScopeMismatch r;
  if negb ok || mismatch then
    reply (WriteError StatusNotFound (New CodeTrustInvalid "device not found"))
  else
    let id := dr_Identity rec in
    let publicIdentity := mkDeviceIdentity (di_Type id) (di_DomainID id) (di_DeviceID id) (di_PublicKey id)
                            (di_CreatedAt id) ∅ in
    mret (WriteJSON StatusOK (TDeviceStatus (mkDeviceStatusResponse TypeDeviceStatus publicIdentity (di_DomainID id)
            (di_DeviceID id) (dr_Status rec) (di_PublicKey id) (dr_DeviceRecordVersion rec) (dr_RevocationEpoch rec)))).

Definition grantStatus (r : Request) : TH (Response TrustBody) :=
  _ ← require_method "GET" r;
  let grantID := QueryGet r "grant_id" in
  grants ← gets ts_grants;
  revokedGrants ← gets ts_revokedGrants;
  let revoked := bool_decide (grantID ∈ revokedGrants) in
  db ← has_repo;
  found ← match grants !! grantID with
          | Some grant => mret (Some (grant, revoked))
          | None =>
              if (db : bool) then
                cfg ← gets ts_cfg;
                g ← query (GetGrant (tc_DomainID cfg) grantID);
                match g with
                | Ok dbGrant =>
                    grant ← or_reply StatusInternalServerError (mret (unmarshal_into zeroGrant (tg_GrantRaw dbGrant)));
                    mret (Some (grant, revoked || bool_decide (tg_RevokedAt dbGrant <> None)))
                | Err ErrNoRows => mret None
                | Err e => reply (WriteError StatusInternalServerError e)
                end
              else mret None
          end;
  mismatch ← domainScopeMismatch r;
  match found with
  | None => reply (WriteError StatusNotFound (New CodeTrustInvalid "grant not found"))
  | Some (grant, revoked) =>
      if (mismatch : bool) then reply (WriteError StatusNotFound (New CodeTrustInvalid "grant not found"))
      else
        devices ← gets ts_devices;
        let stale := match devices !! gr_SubjectDeviceID grant with
                     | Some rec => gr_RevocationEpoch grant <? dr_RevocationEpoch rec
                     | None => false
                     end in
        status ← (if revoked || stale then mret "revoked"
                  else now ← now_utc; mret (if negb (Before now (gr_ExpiresAt grant)) then "expired" else "active"));
        raw ← or_reply StatusInternalServerError (mret (marshal grant));
        mret (WriteJSON StatusOK (TGrantStatus (mkGrantStatusResponse TypeGrantStatus status raw)))
  end.

Definition err_grant_not_found : error := New CodeTrustInvalid "grant not found".

Definition revokeGrant (r : Request) : TH (Response TrustBody) :=
  _ ← require_method "POST" r;
  _ ← requireAdmin r;
  req ← DecodeJSON r;
  now ← now_utc;
  cfg ← gets ts_cfg;
  grants ← gets ts_grants;
  let grantID := rg_GrantID req in
  db ← has_repo;
  if bool_decide (grants !! grantID = None) && negb db then
    reply (WriteError StatusNotFound err_grant_not_found)
  else
    revocationID ← or_reply StatusInternalServerError (fresh_uuid now);
    _ ← (if (db : bool) then
           e ← query (RevokeGrant revocationID (tc_DomainID cfg) grantID (rg_Reason req) now);
           match e with
           | Ok _ => mret tt
           | Err ErrNoRows => reply (WriteError StatusNotFound err_grant_not_found)
           | Err e => reply (WriteError StatusInternalServerError e)
           end
         else mret tt);
    revokedGrants ← gets ts_revokedGrants;
    _ ← modify (set_ts_revokedGrants ({[grantID]} ∪ revokedGrants));
    _ ← modify (log_revocation (mkRevocationItem revocationID (tc_DomainID cfg) "" grantID (rg_Reason req) now));
    _ ← modify (log_audit (mkAuditEntry "grant.revoke" grantID now));
    raw ← or_reply StatusInternalServerError (mret (marshal (default zeroGrant (grants !! grantID))));
    mret (WriteJSON StatusOK (TGrantStatus (mkGrantStatusResponse TypeGrantStatus "revoked" raw))).

Definition revokeDevice (r : Request) : TH (Response TrustBody) :=
  _ ← require_method "POST" r;
  _ ← requireAdmin r;
  req ← DecodeJSON r;
  now ← now_utc;
  revocationID ← or_reply StatusInternalServerError (fresh_uuid now);
  cfg ← gets ts_cfg;
  devices ← gets ts_devices;
  let deviceID := rv_DeviceID req in
  let rec := default zeroRecord (devices !! deviceID) in
  db ← has_repo;
  if bool_decide (di_DeviceID (dr_Identity rec) = "") && negb db then
    reply (WriteError StatusNotFound (New CodeTrustInvalid "device not found"))
  else
    let rec := mkDeviceRecord (dr_Identity rec) "revoked" (wrap_u64 (dr_DeviceRecordVersion rec + 1))
                 (wrap_u64 (dr_RevocationEpoch rec + 1)) in
    _ ← modify (set_ts_devices (<[deviceID := rec]> devices));
    _ ← modify (log_revocation (mkRevocationItem revocationID (tc_DomainID cfg) deviceID "" (rv_Reason req) now));
    _ ← modify (log_audit (mkAuditEntry "device.revoke" deviceID now));
    rec ← (if (db : bool) then
             _ ← or_reply StatusInternalServerError
                   (query (RevokeTrustDevice revocationID (tc_DomainID cfg) deviceID (rv_Reason req) now));
             d ← query (GetTrustDevice (tc_DomainID cfg) deviceID);
             match d with
             | Ok d => mret (deviceRecordFromRepository d).1
             | Err _ => mret rec
             end
           else mret rec);
    mret (WriteJSON StatusOK (TDevice rec)).

(** The item of the feed a row becomes. *)
Definition item_of (rec : TrustRevocation) : revocationItem :=
  if bool_decide (tr_SubjectType rec = "grant")
  then mkRevocationItem (tr_ID rec) (tr_DomainID rec) "" (tr_SubjectID rec) (tr_Reason rec) (tr_CreatedAt rec)
  else mkRevocationItem (tr_ID rec) (tr_DomainID rec) (tr_SubjectID rec) "" (tr_Reason rec) (tr_CreatedAt rec).

(** Where a cursor points to in the log: after its item, at the start if it has none. *)
Definition cursor_start (cursor : string) (log : list revocationItem) : nat :=
  if bool_decide (cursor = "") then O
  else match list_find (fun item => ri_RevocationID item = cursor) log with
       | Some (i, _) => S i
       | None => O
       end.

Definition last_id (items : list revocationItem) : string :=
  match last items with Some item => ri_RevocationID item | None => "" end.

Definition revocations (r : Request) : TH (Response TrustBody) :=
  _ ← require_method "GET" r;
  mismatch ← domainScopeMismatch r;
  if (mismatch : bool) then mret (WriteJSON StatusOK (TRevocations (mkRevocationsResponse TypeRevocations [] "")))
  else
    let raw := QueryGet r "limit" in
    limit ← (if bool_decide (raw = "") then mret 100
             else match Atoi raw with
                  | Some parsed =>
                      if (parsed <=? 0) || (200 <? parsed)
                      then reply (WriteError StatusBadRequest (New CodeTrustInvalid "limit must be between 1 and 200"))
                      else mret parsed
                  | None => reply (WriteError StatusBadRequest (New CodeTrustInvalid "limit must be between 1 and 200"))
                  end);
    let cursor := QueryGet r "cursor" in
    cfg ← gets ts_cfg;
    db ← has_repo;
    if (db : bool) then
      records ← or_reply StatusInternalServerError (query (ListRevocations (tc_DomainID cfg) cursor limit));
      let items := map item_of records in
      let next := if (length items =? Z.to_nat limit)%nat then last_id items else "" in
      mret (WriteJSON StatusOK (TRevocations (mkRevocationsResponse TypeRevocations items next)))
    else
      log ← gets ts_revocationLog;
      let start := cursor_start cursor log in
      let items := take (Z.to_nat limit) (drop start log) in
      let next := if (length items =? Z.to_nat limit)%nat && (start + length items <? length log)%nat
                  then last_id items else "" in
      mret (WriteJSON StatusOK (TRevocations (mkRevocationsResponse TypeRevocations items next))).

Definition rotateKeys (r : Request) : TH (Response TrustBody) :=
  _ ← require_method "POST" r;
  _ ← requireAdmin r;
  pair ← or_reply StatusInternalServerError (draw GenerateIdentityKey);
  let '(priv, pub) := pair in
  let kid := Thumbprint "Ed25519" (edpub pub) in
  cfg ← gets ts_cfg;
  ring ← gets ts_keys;
  let ring := AddKey ring (mkKey kid StateNext priv pub) in
  let '(rotated, ring) := Rotate ring kid in
  _ ← modify (set_ts_keys ring);
  _ ← or_reply StatusInternalServerError (mret rotated);
  now ← now_utc;
  _ ← modify (set_ts_signer (mkDevice (signer_identity cfg (mkKey kid StateActive priv pub) now) priv));
  mret (WriteJSON StatusOK (TActiveKey kid)).

Definition adminAudit (r : Request) : TH (Response TrustBody) :=
  _ ← require_method "GET" r;
  _ ← requireAdmin r;
  audit ← gets ts_audit;
  mret (WriteJSON StatusOK (TAudit audit)).

(** ** Routing *)

Definition routes (path : string) : option (Request -> TH (Response TrustBody)) :=
  if bool_decide (path ∈ ["/healthz"; "/readyz"; "/livez"]) then Some health
  else if bool_decide (path = "/metrics") then Some metrics
  else if bool_decide (path = "/version") then Some version
  else if bool_decide (path = "/.well-known/iscp/trust-root") then Some wellKnown
  else if bool_decide (path = "/v2/trust/devices/submit") then Some submitDevice
  else if bool_decide (path = "/v2/trust/devices/authorize") then Some authorizeDevice
  else if bool_decide (path = "/v2/trust/devices/revoke") then Some revokeDevice
  else if bool_decide (path = "/v2/trust/devices/status") then Some deviceStatus
  else if bool_decide (path = "/v2/trust/grants/verify") then Some verifyGrant
  else if bool_decide (path = "/v2/trust/grants/status") then Some grantStatus
  else if bool_decide (path = "/v2/trust/grants/revoke") then Some revokeGrant
  else if bool_decide (path = "/v2/trust/revocations") then Some revocations
  else if bool_decide (path = "/v2/trust/keys/rotate") then Some rotateKeys
  else if bool_decide (path = "/v2/trust/admin/audit") then Some adminAudit
  else None.

(** [Handler]: the rate limit, then the handler of the path. *)
Definition serve (r : Request) : TH (Response TrustBody) :=
  limiter ← gets ts_limiter;
  now ← now_utc;
  let '(allowed, limiter) := Allow limiter (clientKey r) now in
  _ ← modify (set_ts_limiter limiter);
  if negb allowed then
    reply (WriteError StatusTooManyRequests (Retryable CodeAccessInvalid "rate limit exceeded"))
  else
    match routes (rq_Path r) with
    | Some h => h r
    | None => mret (StatusOnly StatusNotFound)
    end.

(** Requests served one after the other. *)
Definition serve_all (rs : list Request) (w : World TrustServer TrustTables) : World TrustServer TrustTables :=
  foldl (fun w r => (handle (serve r) w).2) w rs.

End server.
