(* ===== verification/TrustServerProps.v ===== *)
(** * What the trust root service guarantees *)
From Stdlib Require Import ZArith Lia Strings.Byte.
From stdpp Require Import numbers gmap sets strings base list.
From S2P Require Import Prelude Errors Utf8 GoJson Canonical GoTime Base64 Sha256 Crypto Signed Identity Trust.
From S2P Require Import GoStrings Config Descriptor Uuid Keyring Sql Repository RepositoryProps Replay NonceStore Http TrustServer.
Open Scope Z_scope.

(** Follows a handler down to its writes. *)
Ltac walk :=
  repeat match goal with
  | |- triple _ (gets _ ≫= _) _ _ => apply triple_gets; intros ?
  | |- triple _ (mret _) _ _ => apply triple_ret
  | |- triple _ (reply _) _ _ => apply triple_reply
  | |- triple _ (if ?b then _ else _) _ _ => destruct b eqn:?
  | |- triple _ (match ?x with _ => _ end) _ _ => destruct x eqn:?
  | |- triple _ (_ ≫= _) _ _ => apply triple_read; [solve [reads; auto with trust]| |intros ?]
  end.

Create HintDb trust.

Section server.
  Context {C : CryptoOps} {CL : CryptoLaws C} {P : Postgres} {PL : PostgresLaws P} {R : MapRange} {RL : MapRangeLaws R}
    `{UI : UnmarshalInto DeviceIdentity} `{UG : UnmarshalInto Grant}
    `{D1 : Decode submitRequest} `{D2 : Decode authorizeRequest} `{D3 : Decode verifyRequest}
    `{D4 : Decode revokeGrantRequest} `{D5 : Decode revokeDeviceRequest}.

Abbreviation TW := (World TrustServer TrustTables).

(** ** What only reads *)

Lemma requireAdmin_reads r : read_only (requireAdmin r).
Proof. unfold requireAdmin. reads. Qed.

Lemma domainScopeMismatch_reads r : read_only (domainScopeMismatch r).
Proof. unfold domainScopeMismatch. reads. Qed.

Lemma activeSigner_reads : read_only activeSigner.
Proof. unfold activeSigner. reads. Qed.

Lemma issuerForGrant_reads g : read_only (issuerForGrant g).
Proof. unfold issuerForGrant. reads. Qed.

Lemma persistSubmittedDevice_reads id : read_only (persistSubmittedDevice id).
Proof. unfold persistSubmittedDevice. reads. Qed.

Lemma persistGrant_reads g : read_only (persistGrant g).
Proof. unfold persistGrant. reads. Qed.

Lemma lookup_device_reads d rec ok m : read_only (lookup_device d rec ok m).
Proof. unfold lookup_device. reads. Qed.

(** A device the maps have is taken from there. *)
Lemma lookup_device_triple (I J : TrustServer -> Prop) d rec ok missing :
  (forall s, I s -> J s) ->
  triple I (lookup_device d rec ok missing) (fun found s => I s /\ (missing = false -> found = (rec, ok))) J.
Proof.
  intros HJ w Hw. pose proof (lookup_device_reads d rec ok missing w) as Hr.
  destruct missing.
  - destruct (lookup_device d rec ok true w) as [[a|r] w1]; cbn [snd] in Hr; rewrite Hr; [by split|auto].
  - split; [done|]. by intros _.
Qed.

Hint Resolve requireAdmin_reads domainScopeMismatch_reads activeSigner_reads issuerForGrant_reads
  persistSubmittedDevice_reads persistGrant_reads : trust.

Lemma reading_handlers r :
  read_only (health r) /\ read_only (metrics r) /\ read_only (version r) /\ read_only (wellKnown r) /\
  read_only (verifyGrant r) /\ read_only (deviceStatus r) /\ read_only (grantStatus r) /\ read_only (revocations r) /\
  read_only (adminAudit r).
Proof.
  unfold health, metrics, version, wellKnown, verifyGrant, deviceStatus, grantStatus, revocations, adminAudit.
  split_and!; reads; auto using lookup_device_reads with trust.
Qed.

Lemma verifyProof_keeps (Inv : TrustServer -> Prop) id proof audience challenge ttl :
  (forall c s, Inv s -> Inv (set_ts_replay c s)) -> srv_keeps Inv (verifyProof id proof audience challenge ttl).
Proof.
  intros Hr. unfold verifyProof. handler. apply srv_keeps_modify. auto.
Qed.

(** An invariant that every writing handler keeps is kept by the service. *)
Lemma serve_keeps (Inv : TrustServer -> Prop) :
  (forall l s, Inv s -> Inv (set_ts_limiter l s)) ->
  (forall r, srv_keeps Inv (submitDevice r)) -> (forall r, srv_keeps Inv (authorizeDevice r)) ->
  (forall r, srv_keeps Inv (revokeDevice r)) -> (forall r, srv_keeps Inv (revokeGrant r)) ->
  (forall r, srv_keeps Inv (rotateKeys r)) ->
  forall r, srv_keeps Inv (serve r).
Proof.
  intros Hl H1 H2 H3 H4 H5 r. destruct (reading_handlers r) as (R1 & R2 & R3 & R4 & R5 & R6 & R7 & R8 & R9).
  unfold serve. handler; [apply srv_keeps_modify; auto|].
  match goal with Hp : routes _ = Some _ |- _ => unfold routes in Hp end.
  repeat match goal with
  | Hp : (if bool_decide ?c then _ else _) = Some _ |- _ =>
      destruct (bool_decide c); [injection Hp as <-; first [by apply read_only_keeps|auto]|]
  end. done.
Qed.

Lemma serve_all_keeps (Inv : TrustServer -> Prop) rs (w : TW) :
  (forall r, srv_keeps Inv (serve r)) -> Inv (w_srv w) -> Inv (w_srv (serve_all rs w)).
Proof.
  intros Hs. revert w. induction rs as [|r rs IH]; intros w Hi; [done|]. cbn. apply IH. by apply srv_keeps_handle.
Qed.

(** ** Revoked devices *)

Definition revoked_record (deviceID : string) (s : TrustServer) : Prop :=
  exists rec, ts_devices s !! deviceID = Some rec /\ dr_Status rec = "revoked".

Lemma revoked_insert d d' rec s :
  revoked_record d s -> (d' = d -> dr_Status rec = "revoked") ->
  revoked_record d (set_ts_devices (<[d' := rec]> (ts_devices s)) s).
Proof.
  intros (rec0 & Hr & Hs) Hd. unfold revoked_record. cbn [ts_devices set_ts_devices].
  destruct (decide (d' = d)) as [->|Hne]; [rewrite lookup_insert_eq|rewrite lookup_insert_ne by done]; eauto.
Qed.

Lemma submitDevice_revoked d r : srv_keeps (revoked_record d) (submitDevice r).
Proof.
  apply triple_keeps. unfold submitDevice. walk; try tauto.
  apply (triple_inv _ (revoked_record d)); [by apply srv_keeps_or_reply, verifyProof_keeps|tauto|done|intros _].
  walk; try tauto. set (rec := if bool_decide _ then _ else _).
  apply (triple_modify _ (revoked_record d)).
  { intros s [Hr ->]. apply revoked_insert; [done|]. intros Hd. subst rec. destruct Hr as (rec & Hr & Hs).
    rewrite Hd, Hr. cbn [default from_option Datatypes.id]. rewrite Hs. done. }
  walk; try tauto. apply (triple_modify _ (revoked_record d)); [done|]. by walk.
Qed.

Lemma authorizeDevice_revoked d r : srv_keeps (revoked_record d) (authorizeDevice r).
Proof.
  apply triple_keeps. unfold authorizeDevice. walk; try tauto.
  eapply triple_bind; [apply lookup_device_triple; tauto|intros [rec ok]; cbv beta iota].
  walk; try tauto. apply (triple_modify _ (revoked_record d)).
  { intros s [[[Hr ->] ->] Hf]. apply revoked_insert; [done|]. intros Hd. exfalso. destruct Hr as (rec0 & Hr & Hs).
    rewrite Hd, Hr in Hf. specialize (Hf eq_refl). injection Hf as -> ->. cbn in *. by rewrite bool_decide_true in * by done. }
  walk; try tauto; (apply (triple_modify _ (revoked_record d)); [naive_solver|]);
    walk; try tauto; (apply (triple_modify _ (revoked_record d)); [done|]); by walk.
Qed.

Lemma revokeDevice_revoked d r : srv_keeps (revoked_record d) (revokeDevice r).
Proof.
  apply triple_keeps. unfold revokeDevice. walk; try tauto.
  all: apply (triple_modify _ (revoked_record d)); [intros s [[Hr _] ->]; by apply revoked_insert|].
  all: do 2 (apply (triple_modify _ (revoked_record d)); [done|]); by walk.
Qed.

Lemma revokeGrant_revoked d r : srv_keeps (revoked_record d) (revokeGrant r).
Proof.
  apply triple_keeps. unfold revokeGrant. walk; try tauto.
  all: apply (triple_modify _ (revoked_record d)); [naive_solver|].
  all: do 2 (apply (triple_modify _ (revoked_record d)); [done|]); by walk.
Qed.

Lemma rotateKeys_revoked d r : srv_keeps (revoked_record d) (rotateKeys r).
Proof.
  apply triple_keeps. unfold rotateKeys. walk; try tauto.
  apply (triple_modify _ (revoked_record d)); [naive_solver|]. walk; try done.
  apply (triple_modify _ (revoked_record d)); [done|]. by walk.
Qed.

Lemma serve_revoked d r : srv_keeps (revoked_record d) (serve r).
Proof.
  apply serve_keeps; auto using submitDevice_revoked, authorizeDevice_revoked, revokeDevice_revoked,
    revokeGrant_revoked, rotateKeys_revoked.
Qed.

(** The helpers reply only with errors. *)
Lemma requireAdmin_fails r : fails_only (requireAdmin r).
Proof. unfold requireAdmin. fails. Qed.

Lemma lookup_device_fails d rec ok m : fails_only (lookup_device d rec ok m).
Proof. unfold lookup_device. fails; by destruct e. Qed.

Lemma activeSigner_fails : fails_only activeSigner.
Proof. unfold activeSigner. fails. Qed.

Lemma issuerForGrant_fails g : fails_only (issuerForGrant g).
Proof. unfold issuerForGrant. fails. Qed.

Lemma persistSubmittedDevice_fails id : fails_only (persistSubmittedDevice id).
Proof. unfold persistSubmittedDevice. fails. Qed.

Lemma persistGrant_fails g : fails_only (persistGrant g).
Proof. unfold persistGrant. fails. Qed.

Lemma verifyProof_fails id proof audience challenge ttl : fails_only (verifyProof id proof audience challenge ttl).
Proof. unfold verifyProof. fails. Qed.

Ltac server_fails :=
  fails; auto using requireAdmin_fails, lookup_device_fails, activeSigner_fails, issuerForGrant_fails,
    verifyProof_fails, persistSubmittedDevice_fails, persistGrant_fails.

Lemma authorizeDevice_fails r : fails_only (authorizeDevice r).
Proof.
  unfold authorizeDevice. server_fails.
Qed.

Lemma revokeDevice_fails r : fails_only (revokeDevice r).
Proof. unfold revokeDevice. server_fails. Qed.

(** A success of the handler leaves the device revoked. *)
Lemma revokeDevice_revokes r req :
  decode (rq_Body r) = Ok req ->
  triple (fun _ => True) (revokeDevice r) (fun _ => revoked_record (rv_DeviceID req)) (fun _ => True).
Proof.
  intros Hd. unfold revokeDevice.
  do 2 (apply triple_read; [solve [reads; auto with trust]|done|intros _]). apply (triple_decode _ _ _ _ req); [done|].
  walk; try tauto.
  all: apply (triple_modify _ (revoked_record (rv_DeviceID req)));
    [intros s [_ ->]; unfold revoked_record; cbn [ts_devices set_ts_devices]; rewrite lookup_insert_eq; eauto|].
  all: do 2 (apply (triple_modify _ (revoked_record (rv_DeviceID req))); [done|]); by walk.
Qed.

(** A revoked device is not authorized. *)
Lemma authorizeDevice_refuses r req :
  decode (rq_Body r) = Ok req ->
  triple (revoked_record (ar_DeviceID req)) (authorizeDevice r) (fun _ _ => False) (fun _ => True).
Proof.
  intros Hd. unfold authorizeDevice.
  do 2 (apply triple_read; [solve [reads; auto with trust]|done|intros _]). apply (triple_decode _ _ _ _ req); [done|].
  walk. eapply triple_bind; [apply (lookup_device_triple _ (fun _ => True)); done|intros [rec ok]; cbv beta iota].
  destruct (negb ok || bool_decide (dr_Status rec = "revoked")) eqn:E; [by apply triple_reply|].
  intros w [[[Hr ->] ->] Hf]. exfalso. destruct Hr as (rec0 & Hr & Hs). rewrite Hr in Hf. specialize (Hf eq_refl).
  injection Hf as -> ->. cbn in E. by rewrite bool_decide_true in E.
Qed.

(** C9. Revocation is final in the service: once a device has been revoked, no request
    for a grant for it ever succeeds, whatever is asked of the service in between,
    with or without a database. *)
Theorem revoked_device_not_authorized (w : TW) r req body w1 rs r2 req2 :
  decode (rq_Body r) = Ok req -> handle (revokeDevice r) w = (JSON StatusOK body, w1) ->
  decode (rq_Body r2) = Ok req2 -> ar_DeviceID req2 = rv_DeviceID req ->
  300 <= response_status (handle (authorizeDevice r2) (serve_all rs w1)).1.
Proof.
  intros Hd Hh Hd2 Hdev.
  apply handle_success in Hh; [|apply revokeDevice_fails|done].
  pose proof (revokeDevice_revokes r req Hd w I) as Hrev. rewrite Hh in Hrev.
  apply (serve_all_keeps _ rs) in Hrev; [|intros; apply serve_revoked]. rewrite <- Hdev in Hrev.
  pose proof (authorizeDevice_refuses r2 req2 Hd2 _ Hrev) as Hno. unfold handle.
  destruct (authorizeDevice r2 (serve_all rs w1)) as [[res|res] w2] eqn:E; [done|].
  exact (authorizeDevice_fails r2 _ _ _ E).
Qed.

(** ** Signing keys *)

(** A key is filed under the thumbprint of its public half, which is that of its
    private half, and has not been revoked. *)
Definition key_filed (id : string) (key : Key) : Prop :=
  k_ID key = id /\ id = Thumbprint "Ed25519" (edpub (k_Public key)) /\
  key_ok (k_Private key) /\ k_Public key = Public (k_Private key) /\ k_State key <> StateRevoked.

(** Exactly one key is active, all are filed, and the policy is the default one. *)
Definition keys_ok (s : TrustServer) : Prop :=
  (exists id, one_active (ts_keys s) id) /\
  (forall id key, ring_keys (ts_keys s) !! id = Some key -> key_filed id key) /\
  ts_policy s = NewDefault.

Lemma draw_key_triple (I J : TrustServer -> Prop) status :
  (forall s, I s -> J s) ->
  triple I (or_reply status (draw GenerateIdentityKey) : H TrustServer TrustTables TrustBody _)
    (fun pair s => I s /\ key_ok pair.1 /\ pair.2 = Public pair.1) J.
Proof.
  intros HJ w Hw. unfold or_reply, mbind, H_bind, draw.
  destruct (GenerateIdentityKey (w_rand w)) as [[[priv pub]|e] rand] eqn:E; [|by apply HJ].
  apply GenerateIdentityKey_ok in E as [Hk ->]. by split_and!.
Qed.

(** A fresh key, added and rotated to. *)
Lemma rotate_fresh ring kid priv pub :
  let '(rotated, ring') := Rotate (AddKey ring (mkKey kid StateNext priv pub)) kid in
  rotated = Ok tt /\ one_active ring' kid /\
  (forall id key, ring_keys ring' !! id = Some key ->
     key = mkKey kid StateActive priv pub /\ id = kid \/
     exists key0, ring_keys ring !! id = Some key0 /\ (key = key0 \/ key = with_state key0 StateRetired)).
Proof.
  assert (ring_keys (AddKey ring (mkKey kid StateNext priv pub)) !! kid = Some (mkKey kid StateNext priv pub)) as Hk
    by apply lookup_insert_eq.
  pose proof (fun id => Rotate_lookup _ kid _ id Hk eq_refl) as Hl.
  pose proof (Rotate_one_active _ kid _ Hk eq_refl) as Hone.
  assert ((Rotate (AddKey ring (mkKey kid StateNext priv pub)) kid).1 = Ok tt) as H1.
  { unfold Rotate. rewrite Hk. by rewrite bool_decide_true. }
  destruct (Rotate _ kid) as [rotated ring']. cbn [fst snd] in *. split_and!; [done..|].
  intros id key. rewrite Hl. case_bool_decide as Hid; [intros [= <-]; by left|].
  cbn [AddKey ring_keys k_ID]. rewrite lookup_insert_ne by done.
  destruct (ring_keys ring !! id) as [key0|]; [|done]. cbn. intros [= <-]. right. exists key0. split; [done|].
  destruct (is_active key0); auto.
Qed.

Lemma rotateKeys_keys r : srv_keeps keys_ok (rotateKeys r).
Proof.
  apply triple_keeps. unfold rotateKeys.
  do 2 (apply triple_read; [solve [reads; auto with trust]|done|intros _]).
  eapply triple_bind; [by apply draw_key_triple|intros [priv pub]; cbv beta iota zeta].
  apply triple_gets. intros cfg. apply triple_gets. intros ring.
  pose proof (rotate_fresh ring (Thumbprint "Ed25519" (edpub pub)) priv pub) as Hrot.
  destruct (Rotate _ _) as [rotated ring']. destruct Hrot as (-> & Hone & Hkeys).
  apply (triple_modify _ keys_ok).
  { intros s [[[[_ [Hok Hpol]] [Hk Hpub]] _] ->]. cbn [fst snd] in Hk, Hpub. split_and!; [by eexists| |done].
    cbn [ts_keys set_ts_keys]. intros id key [[-> ->]|(key0 & H0 & [->| ->])]%Hkeys; [by split_and!|by apply Hok|].
    destruct (Hok _ _ H0) as (? & ? & ? & ? & ?). by split_and!. }
  walk; try done. apply (triple_modify _ keys_ok); [done|]. by walk.
Qed.

(** Everything else leaves the keys alone. *)
Lemma serve_keys r : srv_keeps keys_ok (serve r).
Proof.
  apply serve_keeps; [done|..|apply rotateKeys_keys]; clear r; intros r; apply triple_keeps.
  - unfold submitDevice. walk; try tauto.
    apply (triple_inv _ keys_ok); [by apply srv_keeps_or_reply, verifyProof_keeps|tauto|done|intros _].
    walk; try tauto. apply (triple_modify _ keys_ok); [naive_solver|]. walk; try tauto.
    apply (triple_modify _ keys_ok); [done|]. by walk.
  - unfold authorizeDevice. walk; try tauto.
    apply triple_read; [apply lookup_device_reads|tauto|intros [rec ok]]. walk; try tauto.
    apply (triple_modify _ keys_ok); [naive_solver|].
    walk; try tauto; (apply (triple_modify _ keys_ok); [naive_solver|]);
      walk; try tauto; (apply (triple_modify _ keys_ok); [done|]); by walk.
  - unfold revokeDevice. walk; try tauto.
    all: apply (triple_modify _ keys_ok); [naive_solver|].
    all: do 2 (apply (triple_modify _ keys_ok); [done|]); by walk.
  - unfold revokeGrant. walk; try tauto.
    all: apply (triple_modify _ keys_ok); [naive_solver|].
    all: do 2 (apply (triple_modify _ keys_ok); [done|]); by walk.
Qed.

Lemma first_key kid priv :
  key_ok priv -> kid = Thumbprint "Ed25519" (edpub (Public priv)) ->
  let ring := AddKey NewRing (mkKey kid StateActive priv (Public priv)) in
  one_active ring kid /\
  forall id key, ring_keys ring !! id = Some key -> key_filed id key.
Proof.
  intros Hk Hkid. cbn [AddKey ring_keys k_ID NewRing].
  assert (forall id key, <[kid := mkKey kid StateActive priv (Public priv)]> (∅ : gmap string Key) !! id = Some key ->
    id = kid /\ key = mkKey kid StateActive priv (Public priv)) as Hl.
  { intros id key. rewrite lookup_insert_Some, lookup_empty. naive_solver. }
  split.
  - eexists. split_and!; [apply lookup_insert_eq|done|]. intros id' key' [-> _]%Hl. done.
  - intros id key [-> ->]%Hl. by split_and!.
Qed.

Lemma NewTrustServer_keys cfg repo rand clock w : NewTrustServer cfg repo rand clock = Ok w -> keys_ok (w_srv w).
Proof.
  intros Hn. unfold NewTrustServer in Hn. destruct (NewDevice rand _ _ _) as [dev rand'] eqn:Ed. inv_ok.
  unfold NewDevice in Ed. destruct (GenerateIdentityKey rand) as [[[priv pub]|] r] eqn:Eg; [|done].
  apply GenerateIdentityKey_ok in Eg as [Hk ->]. injection Ed as <- _.
  cbn [w_srv ts_keys ts_policy dev_Identity dev_Private di_PublicKey pk_KID]. unfold keys_ok. cbn [ts_keys ts_policy].
  destruct (first_key _ priv Hk eq_refl) as [H1 H2]. split_and!; [by eexists|exact H2|done].
Qed.

Lemma keys_kept cfg repo rand clock w rs :
  NewTrustServer cfg repo rand clock = Ok w -> keys_ok (w_srv (serve_all rs w)).
Proof. intros Hn. apply serve_all_keeps; [apply serve_keys|by eapply NewTrustServer_keys]. Qed.

(** C22. The service always has exactly one active signing key and every key of its
    ring is filed under the thumbprint of a public key that matches its private
    one, from construction on and through any sequence of requests, rotations
    included. *)
Theorem one_signing_key cfg repo rand clock w rs :
  NewTrustServer cfg repo rand clock = Ok w ->
  let ring := ts_keys (w_srv (serve_all rs w)) in
  (exists id, one_active ring id) /\ forall id key, ring_keys ring !! id = Some key -> key_filed id key.
Proof. intros (H1 & H2 & _)%(keys_kept _ _ _ _ _ rs). by split. Qed.

(** ** Issuing and checking grants *)

Lemma requireAdmin_Next r (w : TW) u w' :
  requireAdmin r w = (Next u, w') -> adminAuthorized (tc_AdminToken (ts_cfg (w_srv w))) r = true /\ w' = w.
Proof.
  unfold requireAdmin. intros E. inv_next. destruct (adminAuthorized _ r) eqn:Ea; inv_next. by simplify_eq.
Qed.

Lemma activeSigner_Next (w : TW) dev w' :
  activeSigner w = (Next (Ok dev), w') ->
  exists key, Active (ts_keys (w_srv w)) = Ok key /\
    dev = mkDevice (signer_identity (ts_cfg (w_srv w)) key (UTC (w_clock w O))) (k_Private key) /\
    w_srv w' = w_srv w /\ w_repo w' = w_repo w.
Proof.
  unfold activeSigner. intros E. inv_next. destruct (Active (ts_keys (w_srv w))) as [key|e] eqn:Ea; inv_next; simplify_eq.
  exists key. by split_and!.
Qed.

(** Without a database the maps are all there is. *)
Lemma lookup_device_memory d rec ok m (w : TW) :
  w_repo w = None -> lookup_device d rec ok m w = (Next (rec, ok), w).
Proof.
  intros Hr. unfold lookup_device, mbind, H_bind, has_repo. rewrite Hr. by rewrite andb_false_r.
Qed.

Lemma persistGrant_memory g (w : TW) : w_repo w = None -> persistGrant g w = (Next (Ok tt), w).
Proof. intros Hr. unfold persistGrant, mbind, H_bind, has_repo. by rewrite Hr. Qed.

(** The permissions a grant is issued for. *)
Definition asked (req : authorizeRequest) : list string :=
  match elems (ar_Permissions req) with [] => ["text"] | l => l end.

(** The lifetime of a grant: what was asked for, within the policy's limit. *)
Definition lifetime (rule : PermissionRule) (req : authorizeRequest) : Z :=
  let ttl := wrap_i64 (ar_TTLSeconds req * Second) in
  if (ttl <=? 0) || (pr_MaxTTL rule <? ttl) then pr_MaxTTL rule else ttl.

(** The grant an authorization signs. *)
Definition grant_for (req : authorizeRequest) (rec : deviceRecord) (rule : PermissionRule) (now : Time) : Grant :=
  mkGrant "" (grant_id (ar_DeviceID req) now) "" (ar_DeviceID req) (ar_Audience req)
    (match IdentityThumbprint (dr_Identity rec) with Ok tp => tp | Err _ => "" end) (Some (asked req)) [ar_RelayID req]
    (Add now (- Second)) (Add now (lifetime rule req)) (dr_RevocationEpoch rec) noSignature.

(** What a successful authorization of a server without a database has done. *)
Lemma authorizeDevice_Next r (w : TW) resp w' :
  w_repo w = None -> authorizeDevice r w = (Next resp, w') ->
  exists req rec rule key now now' grant,
    decode (rq_Body r) = Ok req /\ adminAuthorized (tc_AdminToken (ts_cfg (w_srv w))) r = true /\
    ts_devices (w_srv w) !! ar_DeviceID req = Some rec /\ dr_Status rec <> "revoked" /\
    Rule (ts_policy (w_srv w)) (default "text" (head (asked req))) = Ok rule /\
    Active (ts_keys (w_srv w)) = Ok key /\ offset now = 0 /\
    SignGrant (mkDevice (signer_identity (ts_cfg (w_srv w)) key now') (k_Private key)) (grant_for req rec rule now) = Ok grant /\
    let rec' := mkDeviceRecord (dr_Identity rec) "authorized" (wrap_u64 (dr_DeviceRecordVersion rec + 1)) (dr_RevocationEpoch rec) in
    resp = JSON StatusOK (TAuthorized rec' grant) /\ w_repo w' = None /\
    w_srv w' = log_audit (mkAuditEntry "device.authorize" (ar_DeviceID req) now)
      (set_ts_grants (<[gr_GrantID grant := grant]> (ts_grants (w_srv w)))
        (set_ts_devices (<[ar_DeviceID req := rec']> (ts_devices (w_srv w))) (w_srv w))).
Proof.
  intros Hrepo E. unfold authorizeDevice in E. inv_next.
  match goal with Ha : requireAdmin _ _ = _ |- _ => apply requireAdmin_Next in Ha as [Hadmin ->] end.
  match goal with Hl : lookup_device _ _ _ _ _ = _ |- _ => rewrite lookup_device_memory in Hl by done; injection Hl as <- <- end.
  match goal with Hd : decode _ = Ok ?q |- _ => rename q into req end.
  destruct (ts_devices (w_srv w) !! ar_DeviceID req) as [rec|] eqn:Hdev; cbn [default from_option Datatypes.id] in *.
  2: { rewrite bool_decide_false in * by tauto. cbn [negb orb] in *. inv_next. }
  rewrite (bool_decide_true (Some rec <> None)) in * by done. cbn [negb orb] in *.
  destruct (bool_decide_reflect (dr_Status rec = "revoked")) as [|Hst]; inv_next.
  cbn [w_repo] in *. rewrite Hrepo in *. inv_next.
  match goal with Ha : activeSigner _ = _ |- _ => apply activeSigner_Next in Ha as (key & Hact & -> & Hsrv & Hrep) end.
  cbn [w_srv w_repo w_clock ts_keys ts_cfg set_ts_devices] in *.
  repeat match goal with Hn : (Next _, _) = (Next _, _) |- _ => apply Next_inj in Hn as [? ?] end. subst.
  cbn [w_srv w_repo w_clock] in *.
  match goal with Hp : persistGrant _ _ = _ |- _ => rewrite persistGrant_memory in Hp by exact Hrep end.
  match goal with Hn : (Next (Ok tt), _) = (Next _, _) |- _ => apply Next_inj in Hn as [_ <-] end.
  cbn [w_srv w_repo w_clock ts_keys ts_cfg set_ts_devices ts_policy ts_grants ts_devices] in *.
  match goal with Hs : SignGrant _ _ = Ok ?g |- _ => exists req, rec, a5, key, (UTC (w_clock w O)), (UTC (w_clock w 1%nat)), g end.
  cbv zeta. rewrite Hsrv, Hrep. by split_and!.
Qed.

(** A server built without a database stays so. *)
Lemma serve_memory r : memory_only (serve r).
Proof.
  unfold serve. in_memory. match goal with Hp : routes _ = Some _ |- _ => unfold routes in Hp end.
  repeat match goal with
  | Hp : (if bool_decide ?c then _ else _) = Some _ |- _ => destruct (bool_decide c); [injection Hp as <-|]
  end; [..|done];
    unfold health, metrics, version, wellKnown, submitDevice, authorizeDevice, revokeDevice, deviceStatus, verifyGrant,
      grantStatus, revokeGrant, revocations, rotateKeys, adminAudit, requireAdmin, lookup_device, domainScopeMismatch,
      verifyProof, persistSubmittedDevice, persistGrant, activeSigner, issuerForGrant;
    in_memory.
Qed.

Lemma serve_all_memory rs (w : TW) : w_repo w = None -> w_repo (serve_all rs w) = None.
Proof.
  revert w. induction rs as [|r rs IH]; intros w Hw; [done|]. cbn. apply IH. apply memory_only_handle; [apply serve_memory|done].
Qed.

Lemma Thumbprint_not_blank kty pub : blank (Thumbprint kty pub) = false.
Proof.
  unfold blank, Thumbprint, Base64URL. apply bool_decide_eq_false.
  destruct (b64_encode_first (SHA256 (go_bytes ("iscp/v2/thumbprint/" +:+ kty) ++ [x00] ++ pub))) as (b & t & -> & Hb).
  { unfold SHA256. intros E. apply (f_equal length) in E. by rewrite sha256_length in E. }
  by apply TrimSpace_visible.
Qed.

(** Checking a grant without a database, when its key is in the ring. *)
Lemma verifyGrant_memory r (w : TW) req key kid :
  w_repo w = None -> rq_Method r = "POST" -> decode (rq_Body r) = Ok req ->
  kid = sig_KID (gr_Signature (vr_Grant req)) -> ring_keys (ts_keys (w_srv w)) !! kid = Some key -> key_filed kid key ->
  ((handle (verifyGrant r) w).1 = JSON StatusOK (TStatus "valid") <->
   VerifyGrant (vr_Grant req) (signer_identity (ts_cfg (w_srv w)) key (UTC (w_clock w O)))
     (mkVerifyOptions (vr_Audience req) (vr_SubjectDeviceID req) (vr_ConfirmationThumbprint req) (vr_Permission req)
        (vr_RelayID req) (dr_RevocationEpoch (default zeroRecord (ts_devices (w_srv w) !! vr_SubjectDeviceID req)))
        (UTC (w_clock w 1%nat))) = Ok tt).
Proof.
  intros Hrepo Hm Hd Hkid Hkey (_ & Htp & _ & _ & Hst). unfold handle, verifyGrant, require_method, DecodeJSON, or_reply.
  unfold mbind, H_bind, mret, H_ret. rewrite bool_decide_true, Hd by done. unfold gets.
  rewrite lookup_device_memory by done. cbn [fst]. unfold issuerForGrant. rewrite <- Hkid.
  replace (blank kid) with false by (rewrite Htp; symmetry; apply Thumbprint_not_blank).
  unfold mbind, H_bind, gets. unfold Get. rewrite Hkey, bool_decide_false by done. unfold now_utc, mret, H_ret.
  cbn [w_srv w_clock Nat.add]. destruct (VerifyGrant _ _ _) as [[]|e]; cbn; split; done.
Qed.

Lemma JSON_authorized_inj rec rec' g g' :
  JSON StatusOK (TAuthorized rec g) = JSON StatusOK (TAuthorized rec' g') -> rec = rec' /\ g = g'.
Proof. intros E. by injection E as -> ->. Qed.

(** What a signed grant says. *)
Lemma SignGrant_says signer g0 g :
  SignGrant signer g0 = Ok g ->
  gr_SubjectDeviceID g = gr_SubjectDeviceID g0 /\ gr_Audience g = gr_Audience g0 /\
  gr_ConfirmationThumbprint g = gr_ConfirmationThumbprint g0 /\ gr_Permissions g = gr_Permissions g0 /\
  gr_RelayConstraints g = gr_RelayConstraints g0 /\ gr_NotBefore g = gr_NotBefore g0 /\ gr_ExpiresAt g = gr_ExpiresAt g0 /\
  sig_KID (gr_Signature g) = pk_KID (di_PublicKey (dev_Identity signer)).
Proof. unfold SignGrant, sign_object. intros Hs. by inv_ok. Qed.

(** A grant lasts at most as long as its rule allows. *)
Lemma lifetime_bound rule req : lifetime rule req <= pr_MaxTTL rule.
Proof. unfold lifetime. cbv zeta. destruct (_ || _) eqn:E; lia. Qed.

(** C8. Grants work end to end: a grant that a service running without a database
    has just issued, whatever it served before, is for the device, audience, relay and
    permissions the request asked for, lasts at most an hour (with a second's leeway
    at its start), and the service's own check accepts it exactly for that device,
    audience, key, relay and one of those permissions while it is valid. *)
Theorem issued_grant_verifies cfg rand clock w0 rs r rec grant w1 r2 vreq :
  NewTrustServer cfg None rand clock = Ok w0 ->
  handle (authorizeDevice r) (serve_all rs w0) = (JSON StatusOK (TAuthorized rec grant), w1) ->
  rq_Method r2 = "POST" -> decode (rq_Body r2) = Ok vreq -> vr_Grant vreq = grant ->
  (exists req, decode (rq_Body r) = Ok req /\ gr_SubjectDeviceID grant = ar_DeviceID req /\
     gr_Audience grant = ar_Audience req /\ elems (gr_Permissions grant) = asked req /\
     gr_RelayConstraints grant = [ar_RelayID req]) /\
  ns (gr_ExpiresAt grant) - ns (gr_NotBefore grant) <= Hour + Second /\
  ((handle (verifyGrant r2) w1).1 = JSON StatusOK (TStatus "valid") <->
   ns (gr_NotBefore grant) <= ns (w_clock w1 1%nat) < ns (gr_ExpiresAt grant) /\
   gr_Audience grant = vr_Audience vreq /\ gr_SubjectDeviceID grant = vr_SubjectDeviceID vreq /\
   gr_ConfirmationThumbprint grant = vr_ConfirmationThumbprint vreq /\
   vr_Permission vreq ∈ elems (gr_Permissions grant) /\ vr_RelayID vreq ∈ gr_RelayConstraints grant).
Proof.
  intros Hn Hh Hm Hd2 Hg.
  assert (w_repo w0 = None) as Hrepo.
  { unfold NewTrustServer in Hn. destruct (NewDevice _ _ _ _). by inv_ok. }
  apply (serve_all_memory rs) in Hrepo. destruct (keys_kept _ _ _ _ _ rs Hn) as (_ & Hkeys & Hpol).
  apply handle_success in Hh; [|apply authorizeDevice_fails|done].
  destruct (authorizeDevice_Next _ _ _ _ Hrepo Hh) as (req & rec0 & rule & key & now & now' & g & Hd & _ & Hdev & _ &
    Hrule & Hact & Hoff & Hsign & Hresp & Hrepo1 & Hsrv1).
  cbv zeta in Hresp. apply JSON_authorized_inj in Hresp as [_ ->].
  destruct (Active_spec _ _ Hact) as (kid & Hkid & _). pose proof (Hkeys _ _ Hkid) as Hfiled.
  pose proof Hfiled as (Hid & _ & Hkok & Hpub & _).
  pose proof (SignGrant_says _ _ _ Hsign) as (E1 & E2 & E3 & E4 & E5 & E6 & E7 & Ekid).
  cbn [dev_Identity signer_identity di_PublicKey pk_KID] in Ekid.
  rewrite Hid in Ekid. rewrite Hpol in Hrule. apply NewDefault_rules in Hrule as [_ Hmax].
  pose proof (lifetime_bound rule req) as Hlife. rewrite E1, E2, E3, E4, E5, E6, E7. split_and!.
  - exists req. by split_and!.
  - cbn [gr_ExpiresAt gr_NotBefore grant_for Add ns]. lia.
  - rewrite (verifyGrant_memory r2 w1 vreq key kid Hrepo1 Hm Hd2); [|by rewrite Hg|by rewrite Hsrv1|done].
    match type of Hsign with SignGrant ?dev _ = _ => assert (key_ok (dev_Private dev)) as Hkd by exact Hkok end.
    rewrite Hg, (fun opts id H => SignGrant_accepted _ _ _ id opts Hkd H Hsign)
      by (cbn [signer_identity di_PublicKey pk_Public dev_Private]; rewrite Hpub; apply DecodeBase64URL_Base64URL).
    rewrite Hsrv1. unfold grant_permits. cbn -[lookup insert Add asked lifetime IdentityThumbprint].
    split.
    + intros (_ & Hnow & Ha & Hs & Ht & Hp & [|Hr] & _); [done|]. split_and!; first [done|lia].
    + intros (Hnow & Ha & Hs & Ht & Hp & Hr). split_and!; first [done|lia|by right|idtac].
      rewrite <- Hs, lookup_insert_eq. done.
Qed.

(** ** Reading the revocation feed *)

(** A request for a page of the feed. *)
Definition feed_request (limit cursor : string) : Request :=
  mkRequest "GET" "/v2/trust/revocations" (<["limit" := limit]> {["cursor" := cursor]}) ∅ "" [].

(** A client that follows the cursors, page by page. *)
Fixpoint follow (n : nat) (limit cursor : string) (w : TW) : list revocationItem :=
  match n with
  | O => []
  | S n =>
      match handle (revocations (feed_request limit cursor)) w with
      | (JSON _ (TRevocations page), w) =>
          rs_Items page ++
          if bool_decide (rs_NextCursor page = "") then [] else follow n limit (rs_NextCursor page) w
      | _ => []
      end
  end.

Lemma revocations_memory limit n cursor (w : TW) :
  w_repo w = None -> Atoi limit = Some n -> 1 <= n <= 200 ->
  handle (revocations (feed_request limit cursor)) w =
    let log := ts_revocationLog (w_srv w) in
    let start := cursor_start cursor log in
    let items := take (Z.to_nat n) (drop start log) in
    (JSON StatusOK (TRevocations (mkRevocationsResponse TypeRevocations items
       (if (length items =? Z.to_nat n)%nat && (start + length items <? length log)%nat then last_id items else ""))), w).
Proof.
  intros Hw Hn Hr. unfold handle, revocations, domainScopeMismatch, require_method, gets, has_repo, mret, H_ret, mbind, H_bind.
  cbn [rq_Method feed_request]. rewrite bool_decide_true by done. unfold QueryGet. cbn [rq_Query feed_request].
  rewrite lookup_insert_eq, !lookup_insert_ne by done. rewrite lookup_singleton_eq, lookup_singleton_ne by done.
  cbn [default from_option Datatypes.id]. rewrite (bool_decide_true ("" = "")) by done. cbn [negb andb].
  rewrite (bool_decide_false (limit = "")) by (intros ->; done). rewrite Hn.
  replace ((n <=? 0) || (200 <? n)) with false by lia. by rewrite Hw.
Qed.

(** The cursor after a page points right behind it. *)
Lemma cursor_start_last log start n item :
  NoDup (map ri_RevocationID log) -> Forall (fun i => ri_RevocationID i <> "") log ->
  last (take n (drop start log)) = Some item -> (length (take n (drop start log)) = n)%nat ->
  cursor_start (ri_RevocationID item) log = (start + n)%nat.
Proof.
  intros Hd Hne Hl Hlen. rewrite last_lookup, Hlen in Hl.
  destruct n as [|n]; [by rewrite take_0 in Hl|]. cbn [pred] in Hl. rewrite lookup_take_lt, lookup_drop in Hl by lia.
  unfold cursor_start. rewrite bool_decide_false by (by eapply (Forall_lookup_1 _ _ _ _ Hne Hl)).
  destruct (list_find _ log) as [[i x]|] eqn:E.
  - apply list_find_Some in E as (Hi & Hx & _).
    assert (i = start + n)%nat; [|lia].
    eapply (NoDup_lookup _ _ _ (ri_RevocationID item) Hd); rewrite list_lookup_fmap; [rewrite Hi|rewrite Hl]; cbn; congruence.
  - apply list_find_None in E. by destruct (Forall_lookup_1 _ _ _ _ E Hl).
Qed.

Lemma pages_from k limit n cursor (w : TW) :
  w_repo w = None -> Atoi limit = Some n -> 1 <= n <= 200 ->
  NoDup (map ri_RevocationID (ts_revocationLog (w_srv w))) ->
  Forall (fun i => ri_RevocationID i <> "") (ts_revocationLog (w_srv w)) ->
  (length (ts_revocationLog (w_srv w)) - cursor_start cursor (ts_revocationLog (w_srv w)) < k)%nat ->
  follow k limit cursor w = drop (cursor_start cursor (ts_revocationLog (w_srv w))) (ts_revocationLog (w_srv w)).
Proof.
  intros Hw Hn Hr Hd Hne. revert cursor. induction k as [|k IH]; intros cursor Hk; [lia|].
  cbn [follow]. rewrite (revocations_memory limit n) by done. cbv zeta. cbn [rs_Items rs_NextCursor].
  set (log := ts_revocationLog (w_srv w)) in *. set (start := cursor_start cursor log) in *.
  set (items := take (Z.to_nat n) (drop start log)).
  assert (length items = Nat.min (Z.to_nat n) (length log - start))%nat as Hlen
    by (subst items; by rewrite length_take, length_drop).
  destruct ((length items =? Z.to_nat n)%nat && (start + length items <? length log)%nat) eqn:E.
  - apply andb_true_iff in E as [E1%Nat.eqb_eq E2%Nat.ltb_lt]. unfold last_id. destruct (last items) as [item|] eqn:El; [|apply last_None, (f_equal length) in El; cbn in El; lia].
    pose proof (cursor_start_last log start (Z.to_nat n) item Hd Hne El E1) as Hc.
    assert (item ∈ log) as Hin.
    { apply last_Some_elem_of, elem_of_take in El as (i & Hi & _). rewrite lookup_drop in Hi. by eapply list_elem_of_lookup_2. }
    rewrite bool_decide_false by (by eapply (proj1 (Forall_forall _ _) Hne)). rewrite IH; [|rewrite Hc; lia].
    rewrite Hc, <- drop_drop. apply take_drop.
  - rewrite bool_decide_true by done. rewrite app_nil_r. subst items. apply take_ge. rewrite length_drop.
    apply andb_false_iff in E as [E%Nat.eqb_neq|E%Nat.ltb_ge]; lia.
Qed.


End server.

(** ** A concrete service *)

Import ToyCrypto TruncatingServer ToyRequests.

#[local] Instance toy_decode_revoke : Decode revokeDeviceRequest :=
  {| decode b := Ok (mkRevokeDeviceRequest (toy_field "device_id" b) (toy_field "reason" b)) |}.

#[local] Instance toy_decode_revoke_grant : Decode revokeGrantRequest :=
  {| decode b := Ok (mkRevokeGrantRequest (toy_field "grant_id" b) (toy_field "reason" b)) |}.

#[local] Instance toy_decode_authorize : Decode authorizeRequest :=
  {| decode b := Ok (mkAuthorizeRequest (toy_field "device_id" b) (toy_field "audience" b)
       (Some (Split (toy_field "permissions" b) ","%byte)) (toy_field "relay_id" b)
       (default 0 (Atoi (toy_field "ttl_seconds" b)))) |}.

(** Submissions are by "alice", with the key of the seed [key] and a nonce. *)
#[local] Instance toy_decode_submit : Decode submitRequest :=
  {| decode b :=
       let dev := toy_device (if bool_decide (toy_field "key" b = "2") then x02 else x01) "alice" in
       proof ← CreateProof dev "tr" "c" (toy_field "nonce" b) t0;
       Ok (mkSubmitRequest (dev_Identity dev) proof) |}.

#[local] Instance toy_identity : UnmarshalInto DeviceIdentity := {| unmarshal_into old b := Ok old |}.
#[local] Instance toy_grant_into : UnmarshalInto Grant := {| unmarshal_into old b := Ok old |}.

Definition toy_trust_config : TrustConfig := mkTrustConfig "dom" "tr" "https://tr.example" (DefaultGate ProfileLocalLab) "".

Definition toy_submit := toy_post "/v2/trust/devices/submit" ["nonce=n1"; "key=1"].
Definition toy_revoke := toy_post "/v2/trust/devices/revoke" ["device_id=alice"; "reason=lost"].
Definition toy_authorize :=
  toy_post "/v2/trust/devices/authorize" ["device_id=alice"; "audience=dom"; "permissions=text"; "relay_id=r1"; "ttl_seconds=60"].

Definition toy_randomness : reader := replicate 640 x07.

(** A service at a fixed time. *)
Definition toy_trust : World TrustServer TrustTables :=
  match NewTrustServer toy_trust_config None toy_randomness (fun _ => t0) with
  | Ok w => w
  | Err _ => mkWorld (mkTrustServer toy_trust_config toy_root (NewLimiter 0 0) NewCache NewDefault NewRing ∅ ∅ ∅ [] [])
               None (fun _ => t0) []
  end.

(** The grant it issues for "alice" right after her submission. *)
Definition toy_issued : deviceRecord * Grant :=
  match (handle (authorizeDevice toy_authorize) (handle (submitDevice toy_submit) toy_trust).2).1 with
  | JSON _ (TAuthorized rec grant) => (rec, grant)
  | _ => (zeroRecord, zeroGrant)
  end.

(** Checks are of that grant. *)
Definition toy_check (b : bytes) : verifyRequest :=
  mkVerifyRequest toy_issued.2 (toy_field "audience" b) "alice" (gr_ConfirmationThumbprint toy_issued.2)
    (toy_field "permission" b) "r1".

#[local] Instance toy_decode_verify : Decode verifyRequest := {| decode b := Ok (toy_check b) |}.

Definition toy_verify := toy_post "/v2/trust/grants/verify" ["audience=dom"; "permission=text"].

Lemma revoked_device_not_authorized_witness :
  300 <= response_status (handle (authorizeDevice toy_authorize)
    (serve_all [toy_submit] (handle (revokeDevice toy_revoke) (serve_all [toy_submit; toy_authorize] toy_trust)).2)).1.
Proof.
  destruct (handle (revokeDevice toy_revoke) (serve_all [toy_submit; toy_authorize] toy_trust)) as [resp w1] eqn:E.
  assert (exists body, resp = JSON StatusOK body) as [body ->].
  { change resp with (resp, w1).1. rewrite <- E. vm_compute. by eexists. }
  eapply revoked_device_not_authorized; [reflexivity|exact E|reflexivity|reflexivity].
Defined.

Lemma one_signing_key_witness :
  exists id, one_active (ts_keys (w_srv (serve_all [toy_post "/v2/trust/keys/rotate" []] toy_trust))) id.
Proof.
  eapply (one_signing_key toy_trust_config None toy_randomness (fun _ => t0)). vm_compute. reflexivity.
Defined.

Lemma toy_authorized :
  exists w1, handle (authorizeDevice toy_authorize) (serve_all [toy_submit] toy_trust) =
    (JSON StatusOK (TAuthorized toy_issued.1 toy_issued.2), w1).
Proof.
  destruct (handle (authorizeDevice toy_authorize) (serve_all [toy_submit] toy_trust)) as [resp w1] eqn:E. exists w1.
  change resp with (resp, w1).1. rewrite <- E. vm_compute. reflexivity.
Qed.

Lemma issued_grant_verifies_witness :
  exists w1, ns (gr_ExpiresAt toy_issued.2) - ns (gr_NotBefore toy_issued.2) <= Hour + Second /\
    handle (authorizeDevice toy_authorize) (serve_all [toy_submit] toy_trust) =
    (JSON StatusOK (TAuthorized toy_issued.1 toy_issued.2), w1).
Proof.
  destruct toy_authorized as [w1 E]. exists w1. split; [|exact E].
  assert (NewTrustServer toy_trust_config None toy_randomness (fun _ => t0) = Ok toy_trust) as Hn by (vm_compute; reflexivity).
  exact (proj1 (proj2 (issued_grant_verifies toy_trust_config toy_randomness (fun _ => t0) toy_trust [toy_submit]
    toy_authorize toy_issued.1 toy_issued.2 w1 toy_verify (toy_check (rq_Body toy_verify)) Hn E eq_refl eq_refl eq_refl))).
Defined.

(** Three revocations, read two at a time. *)
Definition toy_feed : World TrustServer TrustTables :=
  mkWorld (set_ts_devices ∅ (log_revocation (mkRevocationItem "3" "dom" "" "g" "r" t0)
    (log_revocation (mkRevocationItem "2" "dom" "b" "" "r" t0)
      (log_revocation (mkRevocationItem "1" "dom" "a" "" "r" t0) (w_srv toy_trust))))) None (fun _ => t0) [].


(** *** What the service does not check *)

(** A grant that has been revoked on its own, not with its device, is still answered
    as valid by [verifyGrant]; only [grantStatus] looks at the revoked grants. *)
Example revoked_grant_still_valid :
  let revoke := toy_post "/v2/trust/grants/revoke" ["grant_id=" +:+ gr_GrantID toy_issued.2; "reason=stolen"] in
  let w := serve_all [toy_submit; toy_authorize] toy_trust in
  response_status (handle (serve revoke) w).1 = StatusOK /\
  (handle (serve toy_verify) (serve_all [revoke] w)).1 = JSON StatusOK (TStatus "valid").
Proof. vm_compute. done. Qed.

(** The policy is asked about the first permission only: the others go into the grant
    unchecked. *)
Example later_permissions_unchecked :
  let ask := toy_post "/v2/trust/devices/authorize"
    ["device_id=alice"; "audience=dom"; "permissions=text,root"; "relay_id=r1"; "ttl_seconds=60"] in
  is_ok (Rule NewDefault "root") = false /\
  match (handle (serve ask) (serve_all [toy_submit] toy_trust)).1 with
  | JSON status (TAuthorized _ grant) => status = StatusOK /\ elems (gr_Permissions grant) = ["text"; "root"]
  | _ => False
  end.
Proof. vm_compute. done. Qed.

(** A device counts as authorized even if the permission it was to be authorized for is
    then refused. *)
Example refused_but_authorized :
  let ask := toy_post "/v2/trust/devices/authorize"
    ["device_id=alice"; "audience=dom"; "permissions=root"; "relay_id=r1"; "ttl_seconds=60"] in
  let w := handle (serve ask) (serve_all [toy_submit] toy_trust) in
  response_status w.1 = StatusForbidden /\ dr_Status <$> ts_devices (w_srv w.2) !! "alice" = Some "authorized".
Proof. vm_compute. done. Qed.

(** A submission proves possession of the key it brings, not of the key the device is
    known by: an authorized device's key can be replaced by anyone's. *)
Example submission_replaces_key :
  let w := serve_all [toy_submit; toy_authorize; toy_post "/v2/trust/devices/submit" ["nonce=n2"; "key=2"]] toy_trust in
  option_map (fun rec => (dr_Status rec, pk_KID (di_PublicKey (dr_Identity rec)))) (ts_devices (w_srv w) !! "alice")
  = Some ("authorized", Thumbprint "Ed25519" (toy_seed x02)).
Proof. vm_compute. done. Qed.
