(* ===== verification/RelayServer.v ===== *)
(** * The relay service: [services/relay-reference/internal/relay/server.go]

    The server's state and one definition per handler.  With a repository
    ([Config.DB]) the tables of [Repository] stand beside the maps in memory, as in
    the code; without one the maps and the queue are all there is.

    The WebSocket library's upgrade, [url.Parse] and the lower-casing of a host are
    parameters; the client at the other end of a connection is a [Peer]. *)
From Stdlib Require Import ZArith Lia Strings.Byte.
From stdpp Require Import numbers gmap sets strings base list.
From S2P Require Import Prelude Errors Utf8 GoJson Canonical GoTime Crypto Signed Identity GoStrings Config Provisioning.
From S2P Require Import Descriptor Uuid Keyring Sql Repository Sorting Queue Replay NonceStore Http.
Open Scope Z_scope.

(** ** Data *)

Record RelayConfig := mkRelayConfig {
  rcf_DomainID : string;
  rcf_RelayID : string;
  rcf_BaseURL : string;
  rcf_WebSocketURL : string;
  rcf_ProfileGate : Gate;
  rcf_AdminToken : string;
  rcf_AllowedOrigins : list string;
  rcf_TicketIssuer : option DeviceIdentity
}.

Definition accessProofHeader : string := "X-Iscp-Access-Proof".
Definition relayMaxQueuedBytes : Z := Z.shiftl 1 20.

Record credential := mkCredential {
  cd_DomainID : string;
  cd_DeviceID : string;
  cd_Token : string;
  cd_Hash : bytes;
  cd_ExpiresAt : Time;
  cd_Revoked : bool
}.

Record ticketState := mkTicketState { tk_MaxUses : Z; tk_Uses : Z }.

Record connectionState := mkConnectionState {
  cs_ConnectionID : string;
  cs_DomainID : string;
  cs_DeviceID : string;
  cs_State : string;
  cs_ConnectedAt : Time;
  cs_LastSeenAt : Time;
  cs_ClosedAt : Time
}.

Record RelayServer := mkRelayServer {
  sv_cfg : RelayConfig;
  sv_signer : Device;
  sv_limiter : Limiter;
  sv_replay : Cache;
  sv_queue : Queue;
  sv_devices : gmap string DeviceIdentity;
  sv_access : gmap string credential;
  sv_refresh : gmap string credential;
  sv_revoked : gset string;
  sv_tickets : gmap string ticketState;
  sv_connections : gmap string connectionState
}.

Definition set_sv_limiter x s := mkRelayServer (sv_cfg s) (sv_signer s) x (sv_replay s) (sv_queue s) (sv_devices s)
  (sv_access s) (sv_refresh s) (sv_revoked s) (sv_tickets s) (sv_connections s).
Definition set_sv_replay x s := mkRelayServer (sv_cfg s) (sv_signer s) (sv_limiter s) x (sv_queue s) (sv_devices s)
  (sv_access s) (sv_refresh s) (sv_revoked s) (sv_tickets s) (sv_connections s).
Definition set_sv_queue x s := mkRelayServer (sv_cfg s) (sv_signer s) (sv_limiter s) (sv_replay s) x (sv_devices s)
  (sv_access s) (sv_refresh s) (sv_revoked s) (sv_tickets s) (sv_connections s).
Definition set_sv_devices x s := mkRelayServer (sv_cfg s) (sv_signer s) (sv_limiter s) (sv_replay s) (sv_queue s) x
  (sv_access s) (sv_refresh s) (sv_revoked s) (sv_tickets s) (sv_connections s).
Definition set_sv_access x s := mkRelayServer (sv_cfg s) (sv_signer s) (sv_limiter s) (sv_replay s) (sv_queue s)
  (sv_devices s) x (sv_refresh s) (sv_revoked s) (sv_tickets s) (sv_connections s).
Definition set_sv_refresh x s := mkRelayServer (sv_cfg s) (sv_signer s) (sv_limiter s) (sv_replay s) (sv_queue s)
  (sv_devices s) (sv_access s) x (sv_revoked s) (sv_tickets s) (sv_connections s).
Definition set_sv_revoked x s := mkRelayServer (sv_cfg s) (sv_signer s) (sv_limiter s) (sv_replay s) (sv_queue s)
  (sv_devices s) (sv_access s) (sv_refresh s) x (sv_tickets s) (sv_connections s).
Definition set_sv_tickets x s := mkRelayServer (sv_cfg s) (sv_signer s) (sv_limiter s) (sv_replay s) (sv_queue s)
  (sv_devices s) (sv_access s) (sv_refresh s) (sv_revoked s) x (sv_connections s).
Definition set_sv_connections x s := mkRelayServer (sv_cfg s) (sv_signer s) (sv_limiter s) (sv_replay s) (sv_queue s)
  (sv_devices s) (sv_access s) (sv_refresh s) (sv_revoked s) (sv_tickets s) x.

Definition zeroCredential : credential := mkCredential "" "" "" [] zeroTime false.
Definition zeroConnection : connectionState := mkConnectionState "" "" "" "" zeroTime zeroTime zeroTime.

(** Requests. *)
Record bindSelfRequest := mkBindSelfRequest { bs_Identity : DeviceIdentity; bs_Proof : DeviceProof }.

Record registerTicketRequest := mkRegisterTicketRequest {
  rt_TicketID : string;
  rt_MaxUses : Z;
  rt_Ticket : option PairingTicketV3;
  rt_Identity : DeviceIdentity;
  rt_Proof : DeviceProof
}.

Record refreshRequest := mkRefreshRequest { rf_Refresh : string }.

Record revokeAccessRequest := mkRevokeAccessRequest { ra_DeviceID : string }.

(** [json.RawMessage]: the text of a JSON value. *)
Record RawMessage := mkRawMessage { raw_bytes : bytes }.

(** The metadata of an envelope the relay reads. *)
Record routeMeta := mkRouteMeta { ro_TTLSeconds : Z; ro_Priority : Z }.

Record envelopeMeta := mkEnvelopeMeta {
  em_DomainID : string;
  em_MessageID : string;
  em_SenderDeviceID : string;
  em_RecipientDeviceID : string;
  em_Route : routeMeta
}.

(** Responses. *)
Record deliveryReceipt := mkDeliveryReceipt {
  dl_Type : string;
  dl_ReceiptID : string;
  dl_MessageID : string;
  dl_DomainID : string;
  dl_RelayID : string;
  dl_Status : string;
  dl_IssuedAt : Time
}.

(** What a connection carries to the client. *)
Inductive Frame :=
| FChallenge (challenge : string)
| FReady
| FMessage (messageID : string) (envelope : bytes)
| FDrained (delivered : nat)
| FClosed (error : string).

Inductive RelayBody :=
| RStatus (status : string)
| RVersion (version protocol : string)
| RDescriptor (descriptor : SignedDescriptor) (pin : string)
| RCredentials (access refresh : credential)
| RReceipt (r : deliveryReceipt)
| RDevices (devices : gmap string DeviceIdentity)
| RConnections (connections : gmap string connectionState)
| RMessages (messages : list MessageMetadata)
| RFrames (frames : list Frame).

Definition StatusSwitchingProtocols : Z := 101.

(** [json.Marshal] of the receipt, a [map[string]any]: members in key order. *)
Definition receipt_json (r : deliveryReceipt) : result Value :=
  issued ← time_json (dl_IssuedAt r);
  Ok (JObj [("domain_id", JStr (dl_DomainID r)); ("issued_at", issued); ("message_id", JStr (dl_MessageID r));
            ("receipt_id", JStr (dl_ReceiptID r)); ("relay_id", JStr (dl_RelayID r)); ("status", JStr (dl_Status r));
            ("type", JStr (dl_Type r))]).

Definition route_json (r : routeMeta) : Value :=
  JObj [("ttl_seconds", JInt (ro_TTLSeconds r)); ("priority", JInt (ro_Priority r))].

(** ** Origins *)

(** [url.Parse]: the scheme and the host of a URL that parses; [strings.ToLower]. *)
Class Url := { url_parse : string -> option (string * string); to_lower : string -> string }.

Section origins.
  Context {U : Url}.

Definition normalizedOrigin (raw : string) : string :=
  let raw := TrimSpace raw in
  if bool_decide (raw = "") then ""
  else
    match url_parse raw with
    | None => ""
    | Some (scheme, host) =>
        if bool_decide (scheme = "") || bool_decide (host = "") then ""
        else
          let scheme := if bool_decide (scheme = "ws") then "http"
                        else if bool_decide (scheme = "wss") then "https" else scheme in
          scheme +:+ "://" +:+ to_lower host
    end.

Definition originAllowed (r : Request) (allowed fallbackURLs : list string) : bool :=
  let origin := TrimSpace (HeaderGet r "Origin") in
  if bool_decide (origin = "") then true
  else
    let add := fun (set : gset string) item =>
      let normalized := normalizedOrigin item in
      if negb (bool_decide (normalized = "")) then {[normalized]} ∪ set else set in
    let allowedSet := foldl add (foldl add ∅ allowed) fallbackURLs in
    bool_decide (normalizedOrigin origin ∈ allowedSet).

End origins.

(** ** Helpers without state *)

(** 32 bytes of randomness; the error of [rand.Read] is ignored, so that bytes it
    does not deliver stay zero. *)
Definition randomToken (rand : reader) : string * reader :=
  (Base64URL (take 32 (rand ++ replicate 32 x00)), drop 32 rand).

Definition accessProofChallenge (method path : string) (accessHash : bytes) : string :=
  Join ["iscp/v2/relay/access-proof"; ToUpper method; path; Base64URL accessHash] (go_string [x00]).

Definition relayMessageMetadata (messages : list RelayMessage) : list MessageMetadata :=
  map (fun msg => mkMessageMetadata (rm_DomainID msg) (rm_MessageID msg) (rm_SenderDeviceID msg)
                    (rm_RecipientDeviceID msg) (rm_Priority msg) (rm_QueuedAt msg) (rm_ExpiresAt msg)) messages.

(** The message a claimed row becomes. *)
Definition queue_message (msg : RelayMessage) : Message :=
  Queue.mkMessage (rm_DomainID msg) (rm_MessageID msg) (rm_SenderDeviceID msg) (rm_RecipientDeviceID msg)
    (rm_EnvelopeRaw msg) (rm_Priority msg) (rm_ExpiresAt msg) (rm_QueuedAt msg).

Definition revoke_credential (cred : credential) : credential :=
  mkCredential (cd_DomainID cred) (cd_DeviceID cred) (cd_Token cred) (cd_Hash cred) (cd_ExpiresAt cred) true.

(** The credential a row of the repository becomes. *)
Definition credential_of (c : RelayCredential) : credential :=
  mkCredential (rc_DomainID c) (rc_DeviceID c) "" (rc_Hash c) (rc_ExpiresAt c) false.

(** Updates of the ticket map. *)
Definition consumeTicket (tickets : gmap string ticketState) (ticketID : string) (maxUses : Z)
    : result unit * gmap string ticketState :=
  let state := default (mkTicketState 0 0) (tickets !! ticketID) in
  let state := if tk_MaxUses state =? 0 then mkTicketState maxUses (tk_Uses state) else state in
  if (tk_MaxUses state <=? 0) || (tk_MaxUses state <=? tk_Uses state)
  then (Err (New CodeProvisionInvalid "pairing ticket already consumed"), tickets)
  else (Ok tt, <[ticketID := mkTicketState (tk_MaxUses state) (wrap_i64 (tk_Uses state + 1))]> tickets).

(** The other end of a WebSocket connection: its answer to the challenge, and whether
    the n-th write to it succeeds. *)
Record Peer := mkPeer { peer_reply : string -> result DeviceProof; peer_accepts : nat -> bool }.

(** The frames that reached the peer, and the number of writes. *)
Definition Wire : Type := nat * list Frame.

Definition write_frame (peer : Peer) (f : Frame) (out : Wire) : bool * Wire :=
  if peer_accepts peer out.1 then (true, (S out.1, out.2 ++ [f])) else (false, (S out.1, out.2)).

(** [upgrader.Upgrade] with its origin check: nothing, or the status of its error. *)
Class WebSocket := { ws_upgrade : (Request -> bool) -> Request -> option Z }.

Section server.
  Context {C : CryptoOps} {P : Postgres} {R : MapRange} {SS : SortSlice} {U : Url} {WS : WebSocket}
    `{UnmarshalInto DeviceIdentity}.
  Context `{Decode bindSelfRequest} `{Decode registerTicketRequest} `{Decode refreshRequest}
    `{Decode revokeAccessRequest} `{Decode RawMessage} `{Decode envelopeMeta} `{Decode (gmap string Value)}
    `{Decode DeviceProof}.

Abbreviation RH := (H RelayServer RelayTables RelayBody).

(** ** Construction *)

Definition NewRelayServer (cfg : RelayConfig) (repo : option (DB RelayTables)) (rand : reader) (clock : nat -> Time)
    : result (World RelayServer RelayTables) :=
  let now := UTC (clock O) in
  let '(dev, rand) := NewDevice rand (rcf_DomainID cfg) (rcf_RelayID cfg +:+ "-signer") now in
  signer ← dev;
  let gate := if bool_decide (gt_Profile (rcf_ProfileGate cfg) = "") then DefaultGate ProfileLocalLab
              else rcf_ProfileGate cfg in
  let cfg := mkRelayConfig (rcf_DomainID cfg) (rcf_RelayID cfg) (rcf_BaseURL cfg) (rcf_WebSocketURL cfg) gate
               (rcf_AdminToken cfg) (rcf_AllowedOrigins cfg) (rcf_TicketIssuer cfg) in
  _ ← ValidateGate gate;
  _ ← reject_if (bool_decide (gt_Profile gate = ProfileProduction) && blank (rcf_AdminToken cfg))
        (New CodeConfigInvalid "production relay requires ISCP_ADMIN_TOKEN");
  _ ← reject_if (bool_decide (gt_Profile gate = ProfileProduction) && (length (rcf_AllowedOrigins cfg) =? 0)%nat)
        (New CodeConfigInvalid "production relay requires allowed WebSocket origins");
  Ok (mkWorld (mkRelayServer cfg signer (NewLimiter 120 Minute) NewCache (NewQueue relayMaxQueuedBytes) ∅ ∅ ∅ ∅ ∅ ∅) repo
        (fun n => clock (1 + n)%nat) rand).

(** ** Helpers *)

Definition production (cfg : RelayConfig) : bool := bool_decide (gt_Profile (rcf_ProfileGate cfg) = ProfileProduction).

Definition requireAdmin (r : Request) : RH unit :=
  cfg ← gets sv_cfg;
  if adminAuthorized (rcf_AdminToken cfg) r then mret tt
  else reply (WriteError StatusUnauthorized (New CodeAccessInvalid "admin credential is required")).

Definition verifyProof (id : DeviceIdentity) (proof : DeviceProof) (audience challenge : string) (ttl : Z)
    : RH (result unit) :=
  if blank (dp_Nonce proof) then mret (Err (New CodeReplayDetected "proof nonce is required"))
  else
    now ← now_utc;
    _ ←? mret (VerifyProof id proof audience challenge now ttl);
    let scope := mkScope (dp_DomainID proof) (dp_DeviceID proof) (dp_Audience proof) (dp_Nonce proof) in
    let expiresAt := Add (dp_IssuedAt proof) ttl in
    db ← has_repo;
    if (db : bool) then
      used ←? query (RelayUseProofNonce (dp_DomainID proof) (dp_DeviceID proof) (dp_Audience proof) (dp_Nonce proof)
                       expiresAt now);
      mret (reject_if (negb used) (New CodeReplayDetected "proof nonce replay detected"))
    else
      cache ← gets sv_replay;
      let '(used, cache) := Use cache (cache_key scope) expiresAt now in
      _ ← modify (set_sv_replay cache);
      mret (reject_if (negb used) (New CodeReplayDetected "proof nonce replay detected")).

Definition persistDevice (id : DeviceIdentity) (status : string) : RH (result unit) :=
  db ← has_repo;
  if negb db then mret (Ok tt)
  else
    raw ←? mret (encode <$> DeviceIdentity_json id);
    canon ←? mret (Marshal raw);
    tp ←? mret (IdentityThumbprint id);
    now ← now_utc;
    uuid ←? fresh_uuid now;
    query (InsertDevice (mkRelayDevice uuid (di_DomainID id) (di_DeviceID id) raw canon tp status now now)).

(** A fresh credential of the given lifetime. *)
Definition new_credential (domainID deviceID token : string) (now : Time) (ttl : Z) : credential :=
  mkCredential domainID deviceID token (SHA256 (go_bytes token)) (Add now ttl) false.

Definition issueCredentials (domainID deviceID : string) : RH (result (credential * credential)) :=
  now ← now_utc;
  accessToken ← draw randomToken;
  refreshToken ← draw randomToken;
  let access := new_credential domainID deviceID accessToken now (15 * Minute) in
  let refresh := new_credential domainID deviceID refreshToken now (24 * Hour) in
  db ← has_repo;
  _ ←? (if (db : bool) then
          accessID ←? fresh_uuid now;
          refreshID ←? fresh_uuid now;
          _ ←? query (StoreAccessHash accessID domainID deviceID (cd_Hash access) now (cd_ExpiresAt access));
          query (StoreRefreshHash refreshID domainID deviceID (cd_Hash refresh) now (cd_ExpiresAt refresh))
        else mret (Ok tt));
  accesses ← gets sv_access;
  _ ← modify (set_sv_access (<[go_string (cd_Hash access) := access]> accesses));
  refreshes ← gets sv_refresh;
  _ ← modify (set_sv_refresh (<[go_string (cd_Hash refresh) := refresh]> refreshes));
  mret (Ok (access, refresh)).

Definition bindIdentity (id : DeviceIdentity) : RH (Response RelayBody) :=
  _ ← or_reply StatusInternalServerError (persistDevice id "active");
  creds ← or_reply StatusInternalServerError (issueCredentials (di_DomainID id) (di_DeviceID id));
  devices ← gets sv_devices;
  _ ← modify (set_sv_devices (<[di_DeviceID id := id]> devices));
  mret (WriteJSON StatusOK (RCredentials creds.1 creds.2)).

(** The identity of a device that may still use the relay. *)
Definition lookupIdentity (domainID deviceID : string) : RH (result (option DeviceIdentity)) :=
  devices ← gets sv_devices;
  revoked ← gets sv_revoked;
  let known := devices !! deviceID in
  let id := default zeroIdentity known in
  if bool_decide (known <> None) && negb (bool_decide (deviceID ∈ revoked)) && bool_decide (di_DomainID id = domainID)
  then mret (Ok (Some id))
  else
    db ← has_repo;
    if negb db then mret (Ok None)
    else
      d ← query (GetRelayDevice domainID deviceID);
      match d with
      | Err ErrNoRows => mret (Ok None)
      | Err e => mret (Err e)
      | Ok dbDevice =>
          if bool_decide (rd_Status dbDevice = "revoked") then mret (Ok None)
          else mret (Some <$> unmarshal_into id (rd_IdentityRaw dbDevice))
      end.

Definition verifyAccessProof (r : Request) (cred : credential) (accessHash : bytes) : RH (result unit) :=
  cfg ← gets sv_cfg;
  if negb (production cfg) then mret (Ok tt)
  else
    let value := TrimSpace (HeaderGet r accessProofHeader) in
    if bool_decide (value = "") then
      mret (Err (New CodeAccessInvalid "production relay access requires proof of possession"))
    else
      raw ←? mret (DecodeBase64URL value);
      match decode raw with
      | Err _ => mret (Err (New CodeAccessInvalid "invalid relay access proof"))
      | Ok proof =>
          found ←? lookupIdentity (cd_DomainID cred) (cd_DeviceID cred);
          match found with
          | None => mret (Err (New CodeAccessInvalid "access proof identity is unknown"))
          | Some id =>
              verifyProof id proof (rcf_RelayID cfg) (accessProofChallenge (rq_Method r) (rq_Path r) accessHash) Minute
          end
      end.

Definition authenticateAccess (r : Request) : RH (result credential) :=
  let token := bearerToken r in
  if bool_decide (token = "") then mret (Err (New CodeAccessInvalid "access credential is required"))
  else
    let hash := SHA256 (go_bytes token) in
    let hashKey := go_string hash in
    now ← now_utc;
    cfg ← gets sv_cfg;
    accesses ← gets sv_access;
    let known := accesses !! hashKey in
    let cred := default zeroCredential known in
    let ok := bool_decide (known <> None) in
    let stale := ok && negb (cd_Revoked cred) && After now (cd_ExpiresAt cred) in
    let cred := if stale then revoke_credential cred else cred in
    _ ← (if stale then modify (set_sv_access (<[hashKey := cred]> accesses)) else mret tt);
    if ok && negb (cd_Revoked cred) && Before now (cd_ExpiresAt cred) then
      _ ←? verifyAccessProof r cred hash;
      mret (Ok cred)
    else
      db ← has_repo;
      if (db : bool) then
        c ← query (GetAccessByHash (rcf_DomainID cfg) hash now);
        match c with
        | Ok dbCred =>
            let cred := credential_of dbCred in
            _ ←? verifyAccessProof r cred hash;
            mret (Ok cred)
        | Err ErrNoRows => mret (Err (New CodeAccessInvalid "access credential invalid"))
        | Err e => mret (Err e)
        end
      else mret (Err (New CodeAccessInvalid "access credential invalid")).

Definition revokeRefreshCredential (token : string) : RH (result unit) :=
  let hash := SHA256 (go_bytes token) in
  let hashKey := go_string hash in
  cfg ← gets sv_cfg;
  refreshes ← gets sv_refresh;
  _ ← match refreshes !! hashKey with
      | Some cred => modify (set_sv_refresh (<[hashKey := revoke_credential cred]> refreshes))
      | None => mret tt
      end;
  db ← has_repo;
  if (db : bool) then
    now ← now_utc;
    query (RevokeRefreshByHash (rcf_DomainID cfg) hash now)
  else mret (Ok tt).

Definition maxTTLSeconds : Z := 24 * Hour / Second.

Definition validateEnvelopeMeta (cfg : RelayConfig) (domainID messageID senderDeviceID recipientDeviceID : string)
    (ttlSeconds priority : Z) : result unit :=
  _ ← reject_if (negb (bool_decide (domainID = rcf_DomainID cfg)))
        (New CodeEnvelopeInvalid "envelope domain does not match relay domain");
  _ ← reject_if (blank messageID || blank senderDeviceID || blank recipientDeviceID)
        (New CodeEnvelopeInvalid "envelope routing identifiers are required");
  _ ← reject_if ((ttlSeconds <=? 0) || (maxTTLSeconds <? ttlSeconds))
        (New CodeEnvelopeInvalid "envelope ttl must be between 1 second and 24 hours");
  reject_if ((priority <? 0) || (9 <? priority))
    (New CodeEnvelopeInvalid "envelope priority must be between 0 and 9").

Definition envelopeStringField (raw : bytes) (key : string) : string :=
  match decode raw with
  | Err _ => ""
  | Ok meta => match (meta : gmap string Value) !! key with Some (JStr value) => value | _ => "" end
  end.

Definition dequeueMessages (domainID recipientDeviceID : string) (now : Time) (limit : Z) : RH (result (list Message)) :=
  db ← has_repo;
  if negb db then
    q ← gets sv_queue;
    let '(out, q) := DequeueFor q domainID recipientDeviceID now limit in
    _ ← modify (set_sv_queue q);
    mret (Ok out)
  else
    claimed ←? query (ClaimPendingMessagesFor domainID recipientDeviceID now Minute limit);
    mret (Ok (map queue_message claimed)).

Definition recordConnection (state : connectionState) (s : RelayServer) : RelayServer :=
  set_sv_connections (<[cs_ConnectionID state := state]> (sv_connections s)) s.

Definition closeConnection (connectionID : string) (now : Time) (s : RelayServer) : RelayServer :=
  let state := default zeroConnection (sv_connections s !! connectionID) in
  set_sv_connections (<[connectionID := mkConnectionState (cs_ConnectionID state) (cs_DomainID state) (cs_DeviceID state)
                                          "closed" (cs_ConnectedAt state) now now]> (sv_connections s)) s.

(** ** Handlers *)

Definition health (r : Request) : RH (Response RelayBody) := mret (WriteJSON StatusOK (RStatus "ok")).

Definition metrics (r : Request) : RH (Response RelayBody) :=
  let LF := go_string [x0a] in
  mret (PlainText StatusOK ("# HELP iscp_relay_up Relay process status" +:+ LF +:+
    "# TYPE iscp_relay_up gauge" +:+ LF +:+ "iscp_relay_up 1" +:+ LF)).

Definition version (r : Request) : RH (Response RelayBody) := mret (WriteJSON StatusOK (RVersion "0.2.0-dev" "v2")).

Definition wellKnown (r : Request) : RH (Response RelayBody) :=
  now ← now_utc;
  cfg ← gets sv_cfg;
  signer ← gets sv_signer;
  let key := di_PublicKey (dev_Identity signer) in
  let relayDesc := mkRelayDescriptor "iscp.relay.descriptor.v2" (rcf_RelayID cfg) (rcf_DomainID cfg) (rcf_BaseURL cfg)
                     (rcf_WebSocketURL cfg)
                     (Some [mkDescriptorKey "Ed25519" "descriptor-signature" (pk_KID key) (pk_Public key) ""])
                     now (Add now (24 * Hour)) ∅ in
  signed ← or_reply StatusInternalServerError
             (mret (SignDescriptor signer (rdesc_Type relayDesc) (RelayDescriptor_json relayDesc) now));
  let pin := match Pin signed with Ok pin => pin | Err _ => "" end in
  mret (WriteJSON StatusOK (RDescriptor signed pin)).

Definition bindSelf (r : Request) : RH (Response RelayBody) :=
  _ ← require_method "POST" r;
  req ← DecodeJSON r;
  cfg ← gets sv_cfg;
  if production cfg && negb (adminAuthorized (rcf_AdminToken cfg) r) then
    reply (WriteError StatusUnauthorized (New CodeAccessInvalid "production bind-self requires an actor authorization"))
  else
    _ ← or_reply StatusUnauthorized
          (verifyProof (bs_Identity req) (bs_Proof req) (rcf_RelayID cfg) (dp_Challenge (bs_Proof req)) (5 * Minute));
    bindIdentity (bs_Identity req).

(** [consumeTicket] on the server's map. *)
Definition consume_ticket (ticketID : string) (maxUses : Z) : RH (result unit) :=
  tickets ← gets sv_tickets;
  let '(r, tickets) := consumeTicket tickets ticketID maxUses in
  _ ← modify (set_sv_tickets tickets);
  mret r.

Definition registerWithSignedTicket (req : registerTicketRequest) (ticket : PairingTicketV3) : RH (Response RelayBody) :=
  cfg ← gets sv_cfg;
  match rcf_TicketIssuer cfg with
  | None =>
      reply (WriteError StatusServiceUnavailable (New CodeConfigInvalid "relay has no configured ticket issuer"))
  | Some issuer =>
      now ← now_utc;
      _ ← or_reply StatusForbidden (mret (VerifyTicketV3 ticket issuer now));
      if negb (bool_decide (p3_DomainID ticket = rcf_DomainID cfg)) || negb (bool_decide (p3_RelayID ticket = rcf_RelayID cfg))
      then reply (WriteError StatusForbidden (New CodeProvisionInvalid "pairing ticket is not bound to this relay"))
      else if negb (bool_decide (dp_Challenge (rt_Proof req) = p3_TicketID ticket))
      then reply (WriteError StatusUnauthorized (New CodeProvisionInvalid "proof challenge must be the ticket id"))
      else
        _ ← or_reply StatusUnauthorized
              (verifyProof (rt_Identity req) (rt_Proof req) (rcf_RelayID cfg) (p3_TicketID ticket) (5 * Minute));
        _ ← or_reply StatusForbidden (mret (BindGrantRoles ticket (rt_Identity req)));
        _ ← or_reply StatusConflict (consume_ticket (p3_TicketID ticket) (p3_MaxUses ticket));
        bindIdentity (rt_Identity req)
  end.

Definition registerWithTicket (r : Request) : RH (Response RelayBody) :=
  _ ← require_method "POST" r;
  req ← DecodeJSON r;
  match rt_Ticket req with
  | Some ticket => registerWithSignedTicket req ticket
  | None =>
      cfg ← gets sv_cfg;
      if production cfg then
        reply (WriteError StatusBadRequest
                 (New CodeProvisionInvalid "production registration requires a signed pairing ticket"))
      else
        _ ← or_reply StatusUnauthorized
              (verifyProof (rt_Identity req) (rt_Proof req) (rcf_RelayID cfg) (dp_Challenge (rt_Proof req)) (5 * Minute));
        _ ← or_reply StatusConflict (consume_ticket (rt_TicketID req) (rt_MaxUses req));
        bindIdentity (rt_Identity req)
  end.

(** The checks of [refreshAccess], up to where the credential is revoked. *)
Definition check_refresh (token : string) : RH credential :=
  let hash := SHA256 (go_bytes token) in
  cfg ← gets sv_cfg;
  refreshes ← gets sv_refresh;
  let known := refreshes !! go_string hash in
  let cred := default zeroCredential known in
  ok ← (if bool_decide (known <> None) && negb (cd_Revoked cred) then
          now ← now_utc; mret (negb (After now (cd_ExpiresAt cred)))
        else mret (bool_decide (known <> None)));
  db ← has_repo;
  found ← (if negb ok && db then
             now ← now_utc;
             c ← query (GetRefreshByHash (rcf_DomainID cfg) hash now);
             match c with
             | Ok dbCred => mret (credential_of dbCred, true)
             | Err ErrNoRows => mret (cred, ok)
             | Err e => reply (WriteError StatusInternalServerError e)
             end
           else mret (cred, ok));
  let '(cred, ok) := found in
  usable ← (if negb ok || cd_Revoked cred then mret false
            else now ← now_utc; mret (negb (After now (cd_ExpiresAt cred))));
  if negb usable then
    reply (WriteError StatusUnauthorized (New CodeAccessInvalid "refresh credential invalid"))
  else mret cred.

(** The rest of it. *)
Definition exchange_refresh (token : string) (cred : credential) : RH (Response RelayBody) :=
  _ ← or_reply StatusInternalServerError (revokeRefreshCredential token);
  creds ← or_reply StatusInternalServerError (issueCredentials (cd_DomainID cred) (cd_DeviceID cred));
  mret (WriteJSON StatusOK (RCredentials creds.1 creds.2)).

Definition refreshAccess (r : Request) : RH (Response RelayBody) :=
  _ ← require_method "POST" r;
  req ← DecodeJSON r;
  cred ← check_refresh (rf_Refresh req);
  exchange_refresh (rf_Refresh req) cred.

(** The loop of [revokeAccess] over a map of credentials. *)
Definition revoke_device_creds (deviceID : string) (creds : gmap string credential) : gmap string credential :=
  foldl (fun m e => if bool_decide (cd_DeviceID e.2 = deviceID) then <[e.1 := revoke_credential e.2]> m else m)
    creds (map_range creds).

Definition revokeAccess (r : Request) : RH (Response RelayBody) :=
  _ ← require_method "POST" r;
  req ← DecodeJSON r;
  cfg ← gets sv_cfg;
  let deviceID := ra_DeviceID req in
  auth ← authenticateAccess r;
  _ ← match auth with
      | Err e => if negb (adminAuthorized (rcf_AdminToken cfg) r) then reply (WriteError StatusUnauthorized e) else mret tt
      | Ok cred =>
          if negb (bool_decide (cd_DeviceID cred = deviceID)) then
            reply (WriteError StatusForbidden (New CodeAccessInvalid "access credential cannot revoke another device"))
          else mret tt
      end;
  revoked ← gets sv_revoked;
  _ ← modify (set_sv_revoked ({[deviceID]} ∪ revoked));
  accesses ← gets sv_access;
  _ ← modify (set_sv_access (revoke_device_creds deviceID accesses));
  refreshes ← gets sv_refresh;
  _ ← modify (set_sv_refresh (revoke_device_creds deviceID refreshes));
  db ← has_repo;
  _ ← (if (db : bool) then
         now ← now_utc;
         _ ← or_reply StatusInternalServerError (query (RevokeRelayDevice (rcf_DomainID cfg) deviceID now));
         or_reply StatusInternalServerError (query (RevokeDeviceCredentials (rcf_DomainID cfg) deviceID now))
       else mret tt);
  mret (WriteJSON StatusOK (RStatus "revoked")).

(** The two rows the repository gets for an accepted envelope. *)
Definition store_envelope (cfg : RelayConfig) (raw canon : bytes) (meta : envelopeMeta) (receipt : deliveryReceipt)
    (now expiresAt : Time) : RH unit :=
  if relayMaxQueuedBytes <? Z.of_nat (length raw) then
    reply (WriteError StatusRequestEntityTooLarge (New CodeEnvelopeInvalid "message too large"))
  else
    msgID ← or_reply StatusInternalServerError (fresh_uuid now);
    _ ← or_reply StatusInternalServerError (query (StoreMessage
          (mkRelayMessage msgID (em_DomainID meta) (em_MessageID meta) (em_SenderDeviceID meta) (em_RecipientDeviceID meta)
             (envelopeStringField raw "session_id") (envelopeStringField raw "payload_type") (encode (route_json (em_Route meta)))
             raw canon (ro_Priority (em_Route meta)) now expiresAt)));
    let receiptRaw := match receipt_json receipt with Ok v => encode v | Err _ => [] end in
    receiptCanon ← or_reply StatusInternalServerError (mret (Marshal receiptRaw));
    receiptUUID ← or_reply StatusInternalServerError (fresh_uuid now);
    or_reply StatusInternalServerError (query (StoreReceipt
      (mkRelayReceipt receiptUUID (em_DomainID meta) (dl_ReceiptID receipt) (em_MessageID meta) (rcf_RelayID cfg) "queued"
         receiptRaw receiptCanon now))).

(** The message the queue gets for it without a repository. *)
Definition message_of (raw : bytes) (meta : envelopeMeta) (expiresAt : Time) : Message :=
  Queue.mkMessage (em_DomainID meta) (em_MessageID meta) (em_SenderDeviceID meta) (em_RecipientDeviceID meta) raw
    (ro_Priority (em_Route meta)) expiresAt zeroTime.

Definition queue_envelope (raw : bytes) (meta : envelopeMeta) (now expiresAt : Time) : RH unit :=
  q ← gets sv_queue;
  let '(queued, q) := Enqueue q (message_of raw meta expiresAt) now in
  _ ← modify (set_sv_queue q);
  if negb queued then
    reply (WriteError StatusRequestEntityTooLarge (New CodeEnvelopeInvalid "message too large"))
  else mret tt.

Definition envelopes (r : Request) : RH (Response RelayBody) :=
  _ ← require_method "POST" r;
  cred ← or_reply StatusUnauthorized (authenticateAccess r);
  msg ← DecodeJSON r;
  let raw := raw_bytes msg in
  meta ← or_reply StatusBadRequest (mret (decode raw));
  cfg ← gets sv_cfg;
  let ttl := ro_TTLSeconds (em_Route meta) in
  let priority := ro_Priority (em_Route meta) in
  _ ← or_reply StatusBadRequest
        (mret (validateEnvelopeMeta cfg (em_DomainID meta) (em_MessageID meta) (em_SenderDeviceID meta)
                 (em_RecipientDeviceID meta) ttl priority));
  if negb (bool_decide (cd_DomainID cred = em_DomainID meta)) || negb (bool_decide (cd_DeviceID cred = em_SenderDeviceID meta))
  then reply (WriteError StatusForbidden (New CodeAccessInvalid "access credential does not match envelope sender"))
  else
    canon ← or_reply StatusBadRequest (mret (Marshal raw));
    now ← now_utc;
    let expiresAt := Add now (wrap_i64 (ttl * Second)) in
    let receipt := mkDeliveryReceipt "iscp.delivery_receipt.v2" ("receipt-" +:+ em_MessageID meta) (em_MessageID meta)
                     (em_DomainID meta) (rcf_RelayID cfg) "queued" now in
    db ← has_repo;
    _ ← (if (db : bool) then store_envelope cfg raw canon meta receipt now expiresAt
         else queue_envelope raw meta now expiresAt);
    mret (WriteJSON StatusAccepted (RReceipt receipt)).

(** ** Connections *)

(** The device a proof is checked against, unless it is unknown or revoked. *)
Definition connecting_device (cfg : RelayConfig) (deviceID : string) : RH (option DeviceIdentity) :=
  devices ← gets sv_devices;
  revokedDevices ← gets sv_revoked;
  let revoked := bool_decide (deviceID ∈ revokedDevices) in
  db ← has_repo;
  found ← match devices !! deviceID with
          | Some id => mret (Some id, revoked)
          | None =>
              if (db : bool) then
                d ← query (GetRelayDevice (rcf_DomainID cfg) deviceID);
                match d with
                | Ok dbDevice =>
                    if bool_decide (rd_Status dbDevice = "revoked") then mret (None, true)
                    else
                      match unmarshal_into zeroIdentity (rd_IdentityRaw dbDevice) with
                      | Ok id => mret (Some id, revoked)
                      | Err _ => mret (None, revoked)
                      end
                | Err _ => mret (None, revoked)
                end
              else mret (None, revoked)
          end;
  let '(id, revoked) := found in
  mret (if (revoked : bool) then None else id).

(** The loop over the messages of a connection. *)
Fixpoint deliver (peer : Peer) (messages : list Message) (delivered : nat) (out : Wire) : RH Wire :=
  match messages with
  | [] => mret (write_frame peer (FDrained delivered) out).2
  | msg :: messages =>
      let '(ok, out) := write_frame peer (FMessage (qm_MessageID msg) (qm_Envelope msg)) out in
      if negb ok then mret out
      else
        db ← has_repo;
        _ ← (if (db : bool) then
               now ← now_utc;
               query (MarkMessageDelivered (qm_DomainID msg) (qm_MessageID msg) now)
             else mret (Ok tt));
        deliver peer messages (S delivered) out
  end.

(** The connection once the proof is verified, with the deferred [closeConnection]. *)
Definition ready (peer : Peer) (id : DeviceIdentity) (out : Wire) : RH Wire :=
  token ← draw randomToken;
  let connectionID := "conn-" +:+ go_string (take 16 (go_bytes token)) in
  now ← now_utc;
  _ ← modify (recordConnection (mkConnectionState connectionID (di_DomainID id) (di_DeviceID id) "ready" now now zeroTime));
  let out := (write_frame peer FReady out).2 in
  now ← now_utc;
  messages ← dequeueMessages (di_DomainID id) (di_DeviceID id) now 100;
  out ← match messages with
        | Err _ => mret (write_frame peer (FClosed "message dequeue failed") out).2
        | Ok messages => deliver peer messages O out
        end;
  closedAt ← now_utc;
  _ ← modify (closeConnection connectionID closedAt);
  mret out.

Definition connect (peer : Peer) (r : Request) : RH (Response RelayBody) :=
  _ ← require_method "GET" r;
  cfg ← gets sv_cfg;
  match ws_upgrade (fun r => originAllowed r (rcf_AllowedOrigins cfg) [rcf_BaseURL cfg; rcf_WebSocketURL cfg]) r with
  | Some status => mret (StatusOnly status)
  | None =>
      challenge ← draw randomToken;
      let '(ok, out) := write_frame peer (FChallenge challenge) (O, []) in
      out ← (if negb ok then mret out
             else
               match peer_reply peer challenge with
               | Err _ => mret out
               | Ok proof =>
                   found ← connecting_device cfg (dp_DeviceID proof);
                   match found with
                   | None => mret (write_frame peer (FClosed "access revoked or unknown") out).2
                   | Some id =>
                       verified ← verifyProof id proof (rcf_RelayID cfg) challenge Minute;
                       match verified with
                       | Err _ => mret (write_frame peer (FClosed "proof failed") out).2
                       | Ok _ => ready peer id out
                       end
                   end
               end);
      mret (JSON StatusSwitchingProtocols (RFrames out.2))
  end.

(** ** Administration *)

Definition adminDevices (r : Request) : RH (Response RelayBody) :=
  _ ← require_method "GET" r;
  _ ← requireAdmin r;
  devices ← gets sv_devices;
  mret (WriteJSON StatusOK (RDevices devices)).

Definition adminConnections (r : Request) : RH (Response RelayBody) :=
  _ ← require_method "GET" r;
  _ ← requireAdmin r;
  connections ← gets sv_connections;
  mret (WriteJSON StatusOK (RConnections connections)).

Definition adminMessages (r : Request) : RH (Response RelayBody) :=
  _ ← require_method "GET" r;
  _ ← requireAdmin r;
  now ← now_utc;
  cfg ← gets sv_cfg;
  db ← has_repo;
  if (db : bool) then
    messages ← or_reply StatusInternalServerError (query (ListPendingMessages (rcf_DomainID cfg) now 500));
    mret (WriteJSON StatusOK (RMessages (relayMessageMetadata messages)))
  else
    q ← gets sv_queue;
    let '(metadata, q) := SnapshotMetadata q now in
    _ ← modify (set_sv_queue q);
    mret (WriteJSON StatusOK (RMessages metadata)).

(** ** Routing *)

Definition routes (path : string) : option (Peer -> Request -> RH (Response RelayBody)) :=
  if bool_decide (path ∈ ["/healthz"; "/readyz"; "/livez"]) then Some (fun _ => health)
  else if bool_decide (path = "/metrics") then Some (fun _ => metrics)
  else if bool_decide (path = "/version") then Some (fun _ => version)
  else if bool_decide (path = "/.well-known/iscp/relay") then Some (fun _ => wellKnown)
  else if bool_decide (path = "/v2/relay/devices/bind-self") then Some (fun _ => bindSelf)
  else if bool_decide (path = "/v2/relay/devices/register-with-ticket") then Some (fun _ => registerWithTicket)
  else if bool_decide (path = "/v2/relay/devices/refresh-access") then Some (fun _ => refreshAccess)
  else if bool_decide (path = "/v2/relay/devices/revoke-access") then Some (fun _ => revokeAccess)
  else if bool_decide (path = "/v2/relay/envelopes") then Some (fun _ => envelopes)
  else if bool_decide (path = "/v2/relay/connect") then Some connect
  else if bool_decide (path = "/v2/relay/admin/devices") then Some (fun _ => adminDevices)
  else if bool_decide (path = "/v2/relay/admin/connections") then Some (fun _ => adminConnections)
  else if bool_decide (path = "/v2/relay/admin/messages") then Some (fun _ => adminMessages)
  else None.

(** [Handler]: the rate limit, then the handler of the path. *)
Definition serve (peer : Peer) (r : Request) : RH (Response RelayBody) :=
  limiter ← gets sv_limiter;
  now ← now_utc;
  let '(allowed, limiter) := Allow limiter (clientKey r) now in
  _ ← modify (set_sv_limiter limiter);
  if negb allowed then
    reply (WriteError StatusTooManyRequests (Retryable CodeAccessInvalid "rate limit exceeded"))
  else
    match routes (rq_Path r) with
    | Some h => h peer r
    | None => mret (StatusOnly StatusNotFound)
    end.

(** Requests served one after the other, each with the client that sends it. *)
Definition serve_all (rs : list (Peer * Request)) (w : World RelayServer RelayTables) : World RelayServer RelayTables :=
  foldl (fun w pr => (handle (serve pr.1 pr.2) w).2) w rs.

End server.
