(* ===== verification/RelaySteps.v ===== *)
(** * The relay service as a state machine

    The writes of the relay's handlers to its state, as a step relation: every
    request takes the state from one to another by such steps, so that what each
    step keeps holds throughout the service's life. *)
From Stdlib Require Import ZArith Lia Strings.Byte.
From stdpp Require Import relations numbers gmap sets strings base list.
From S2P Require Import Prelude Errors Utf8 GoJson Canonical GoTime Crypto Signed Identity GoStrings Config Provisioning.
From S2P Require Import Descriptor Uuid Keyring Sql Repository Sorting Queue Replay NonceStore Http RelayServer.
Open Scope Z_scope.

Create HintDb relay.

Section steps.
  Context {R : MapRange} {SS : SortSlice}.

(** One write to the server's state. *)
Inductive relay_step (s : RelayServer) : RelayServer -> Prop :=
| step_limiter l : relay_step s (set_sv_limiter l s)
| step_replay c : relay_step s (set_sv_replay c s)
| step_enqueue msg now : relay_step s (set_sv_queue (Enqueue (sv_queue s) msg now).2 s)
| step_dequeue domainID deviceID now limit :
    relay_step s (set_sv_queue (DequeueFor (sv_queue s) domainID deviceID now limit).2 s)
| step_snapshot now : relay_step s (set_sv_queue (SnapshotMetadata (sv_queue s) now).2 s)
| step_issue_access domainID deviceID token now :
    let cred := new_credential domainID deviceID token now (15 * Minute) in
    relay_step s (set_sv_access (<[go_string (cd_Hash cred) := cred]> (sv_access s)) s)
| step_issue_refresh domainID deviceID token now :
    let cred := new_credential domainID deviceID token now (24 * Hour) in
    relay_step s (set_sv_refresh (<[go_string (cd_Hash cred) := cred]> (sv_refresh s)) s)
| step_expire_access k cred :
    sv_access s !! k = Some cred -> relay_step s (set_sv_access (<[k := revoke_credential cred]> (sv_access s)) s)
| step_revoke_refresh k cred :
    sv_refresh s !! k = Some cred -> relay_step s (set_sv_refresh (<[k := revoke_credential cred]> (sv_refresh s)) s)
| step_bind id : relay_step s (set_sv_devices (<[di_DeviceID id := id]> (sv_devices s)) s)
| step_ticket ticketID maxUses : relay_step s (set_sv_tickets (consumeTicket (sv_tickets s) ticketID maxUses).2 s)
| step_revoked deviceID : relay_step s (set_sv_revoked ({[deviceID]} ∪ sv_revoked s) s)
| step_revoke_accesses deviceID : relay_step s (set_sv_access (revoke_device_creds deviceID (sv_access s)) s)
| step_revoke_refreshes deviceID : relay_step s (set_sv_refresh (revoke_device_creds deviceID (sv_refresh s)) s)
| step_record state : relay_step s (recordConnection state s)
| step_close connectionID now : relay_step s (closeConnection connectionID now s).

End steps.

#[export] Hint Constructors relay_step : relay.

(** A write that is one step. *)
Ltac relay_write :=
  let s := fresh "s" in let Hs := fresh "Hs" in
  intros s Hs; repeat match goal with H : _ /\ _ |- _ => destruct H end; subst; cbn [snd] in *;
  eapply rtc_r; [eassumption|eauto with relay].

(** Follows a handler whose writes are steps. *)
Ltac relay_walk s0 :=
  repeat match goal with
  | |- triple _ (gets _ ≫= _) _ _ => apply triple_gets; intros ?
  | |- triple _ (modify _ ≫= _) _ _ => apply (triple_modify _ (rtc relay_step s0)); [relay_write|]
  | |- triple _ (mret _) _ _ => apply triple_ret; tauto
  | |- triple _ (reply _) _ _ => apply triple_reply; tauto
  | |- triple _ (if ?b then _ else _) _ _ => destruct b eqn:?
  | |- triple _ (match ?x with _ => _ end) _ _ => destruct x eqn:?
  | |- triple _ (_ ≫= _) _ _ =>
      first [apply triple_read; [solve [reads; auto with relay]|tauto|intros ?]
            |apply (triple_inv _ (rtc relay_step s0)); [solve [eauto with relay]|tauto|done|intros ?]]
  end.

Section reach.
  Context {C : CryptoOps} {P : Postgres} {R : MapRange} {SS : SortSlice} {U : Url} {WS : WebSocket}
    `{UI : UnmarshalInto DeviceIdentity}
    `{D1 : Decode bindSelfRequest} `{D2 : Decode registerTicketRequest} `{D3 : Decode refreshRequest}
    `{D4 : Decode revokeAccessRequest} `{D5 : Decode RawMessage} `{D6 : Decode envelopeMeta}
    `{D7 : Decode (gmap string Value)} `{D8 : Decode DeviceProof}.

Abbreviation RW := (World RelayServer RelayTables).
Abbreviation RH := (H RelayServer RelayTables RelayBody).

(** The states the server can get to from [s0]. *)
Abbreviation reach s0 := (rtc relay_step s0).

Lemma or_reply_steps {A} s0 status (m : RH (result A)) : srv_keeps (reach s0) m -> srv_keeps (reach s0) (or_reply status m).
Proof. apply srv_keeps_or_reply. Qed.

Lemma verifyProof_steps s0 id proof audience challenge ttl :
  srv_keeps (reach s0) (verifyProof id proof audience challenge ttl).
Proof. apply triple_keeps. unfold verifyProof, rbind. relay_walk s0. Qed.

Lemma persistDevice_steps s0 id status : srv_keeps (reach s0) (persistDevice id status).
Proof. unfold persistDevice. handler. Qed.

Lemma issueCredentials_steps s0 domainID deviceID : srv_keeps (reach s0) (issueCredentials domainID deviceID).
Proof. apply triple_keeps. unfold issueCredentials, rbind. cbv zeta. relay_walk s0. Qed.

Lemma admin_reads r : read_only (requireAdmin r).
Proof. unfold requireAdmin. reads. Qed.

Lemma lookupIdentity_reads domainID deviceID : read_only (lookupIdentity domainID deviceID).
Proof. unfold lookupIdentity. reads. Qed.

Lemma connecting_device_reads cfg deviceID : read_only (connecting_device cfg deviceID).
Proof. unfold connecting_device. reads. Qed.

Lemma deliver_reads peer messages n out : read_only (deliver peer messages n out).
Proof.
  revert n out. induction messages as [|msg messages IH]; intros n out; cbn [deliver]; [done|]. reads. apply IH.
Qed.

Lemma store_envelope_reads cfg raw canon meta receipt now expiresAt :
  read_only (store_envelope cfg raw canon meta receipt now expiresAt).
Proof. unfold store_envelope. reads. Qed.

Hint Resolve or_reply_steps verifyProof_steps persistDevice_steps issueCredentials_steps admin_reads
  lookupIdentity_reads connecting_device_reads deliver_reads store_envelope_reads : relay.

Lemma bindIdentity_steps s0 id : srv_keeps (reach s0) (bindIdentity id).
Proof. apply triple_keeps. unfold bindIdentity. relay_walk s0. Qed.

Lemma consume_ticket_steps s0 ticketID maxUses : srv_keeps (reach s0) (consume_ticket ticketID maxUses).
Proof.
  apply triple_keeps. unfold consume_ticket. apply triple_gets. intros tickets.
  destruct (consumeTicket tickets ticketID maxUses) as [res tickets'] eqn:E.
  apply (triple_modify _ (reach s0)); [|apply triple_ret; tauto].
  intros s [Hr ->]. replace tickets' with (consumeTicket (sv_tickets s) ticketID maxUses).2 by (by rewrite E).
  eapply rtc_r; [done|apply step_ticket].
Qed.

Lemma verifyAccessProof_steps s0 r cred hash : srv_keeps (reach s0) (verifyAccessProof r cred hash).
Proof. unfold verifyAccessProof. handler; [apply read_only_keeps, lookupIdentity_reads|apply verifyProof_steps]. Qed.

Hint Resolve bindIdentity_steps consume_ticket_steps verifyAccessProof_steps : relay.

Lemma authenticateAccess_steps s0 r : srv_keeps (reach s0) (authenticateAccess r).
Proof.
  apply triple_keeps. unfold authenticateAccess, rbind. destruct (bool_decide (bearerToken r = "")); [apply triple_ret; tauto|].
  cbv zeta. apply triple_read; [reads|tauto|intros now]. apply triple_gets. intros cfg. apply triple_gets. intros accesses.
  apply (triple_bind _ (fun _ => reach s0)).
  - destruct (_ && After _ _) eqn:E; [|apply triple_ret; tauto]. bool_prop.
    destruct (accesses !! _) as [cred|] eqn:Ek; [|done]. intros w [[Hr _] Hacc].
    eapply rtc_r; [exact Hr|]. rewrite Hacc in Ek |- *. by apply step_expire_access.
  - intros _. relay_walk s0.
Qed.

Lemma revokeRefreshCredential_steps s0 token : srv_keeps (reach s0) (revokeRefreshCredential token).
Proof.
  apply triple_keeps. unfold revokeRefreshCredential. cbv zeta. apply triple_gets. intros cfg. apply triple_gets. intros refreshes.
  apply (triple_bind _ (fun _ => reach s0)); [|intros _; relay_walk s0].
  - destruct (refreshes !! _) as [cred|] eqn:E; [|apply triple_ret; tauto].
    intros w [[Hr _] Hre]. eapply rtc_r; [exact Hr|]. rewrite Hre in E |- *. by apply step_revoke_refresh.
  - apply keeps_triple; [apply srv_keeps_query|tauto].
Qed.

Lemma check_refresh_reads token : read_only (check_refresh token).
Proof. unfold check_refresh. reads. Qed.

Lemma exchange_refresh_steps s0 token cred : srv_keeps (reach s0) (exchange_refresh token cred).
Proof. unfold exchange_refresh. handler; auto using revokeRefreshCredential_steps with relay. Qed.

Lemma dequeueMessages_steps s0 domainID deviceID now limit : srv_keeps (reach s0) (dequeueMessages domainID deviceID now limit).
Proof.
  apply triple_keeps. unfold dequeueMessages, rbind. apply triple_read; [reads|tauto|intros db].
  destruct (negb db); [|relay_walk s0]. apply triple_gets. intros q.
  destruct (DequeueFor q domainID deviceID now limit) as [out q'] eqn:E.
  apply (triple_modify _ (reach s0)); [|apply triple_ret; tauto]. intros s [Hr ->].
  replace q' with (DequeueFor (sv_queue s) domainID deviceID now limit).2 by (by rewrite E).
  eapply rtc_r; [done|apply step_dequeue].
Qed.

Hint Resolve authenticateAccess_steps revokeRefreshCredential_steps check_refresh_reads exchange_refresh_steps
  dequeueMessages_steps : relay.

Lemma ready_steps s0 peer id out : srv_keeps (reach s0) (ready peer id out).
Proof. apply triple_keeps. unfold ready. relay_walk s0. Qed.

Hint Resolve ready_steps : relay.

Lemma connect_steps s0 peer r : srv_keeps (reach s0) (connect peer r).
Proof.
  unfold connect. handler; auto using read_only_keeps with relay.
Qed.

Lemma bindSelf_steps s0 r : srv_keeps (reach s0) (bindSelf r).
Proof. unfold bindSelf. handler; auto with relay. Qed.

Lemma registerWithTicket_steps s0 r : srv_keeps (reach s0) (registerWithTicket r).
Proof. unfold registerWithTicket, registerWithSignedTicket. handler; auto with relay. Qed.

Lemma refreshAccess_steps s0 r : srv_keeps (reach s0) (refreshAccess r).
Proof. unfold refreshAccess. handler; auto using read_only_keeps with relay. Qed.

Lemma revokeAccess_steps s0 r : srv_keeps (reach s0) (revokeAccess r).
Proof. apply triple_keeps. unfold revokeAccess. relay_walk s0. Qed.

Lemma queue_envelope_steps s0 raw meta now expiresAt : srv_keeps (reach s0) (queue_envelope raw meta now expiresAt).
Proof.
  apply triple_keeps. unfold queue_envelope. apply triple_gets. intros q.
  destruct (Enqueue q (message_of raw meta expiresAt) now) as [queued q'] eqn:E.
  apply (triple_modify _ (reach s0)); [|relay_walk s0]. intros s [Hr ->].
  replace q' with (Enqueue (sv_queue s) (message_of raw meta expiresAt) now).2 by (by rewrite E).
  eapply rtc_r; [done|apply step_enqueue].
Qed.

Lemma envelopes_steps s0 r : srv_keeps (reach s0) (envelopes r).
Proof. unfold envelopes. handler; auto using read_only_keeps, queue_envelope_steps with relay. Qed.

Lemma adminMessages_steps s0 r : srv_keeps (reach s0) (adminMessages r).
Proof.
  apply triple_keeps. unfold adminMessages. do 5 (apply triple_read; [solve [reads; auto with relay]|tauto|intros ?]).
  destruct a3; [relay_walk s0|]. apply triple_gets. intros q. destruct (SnapshotMetadata q a1) as [metadata q'] eqn:E.
  apply (triple_modify _ (reach s0)); [|apply triple_ret; tauto]. intros s [Hr ->].
  replace q' with (SnapshotMetadata (sv_queue s) a1).2 by (by rewrite E). eapply rtc_r; [done|apply step_snapshot].
Qed.

(** Every request takes the server's state along steps. *)
Lemma serve_steps s0 peer r : srv_keeps (reach s0) (serve peer r).
Proof.
  apply triple_keeps. unfold serve. relay_walk s0.
  match goal with Hp : routes _ = Some _ |- _ => unfold routes in Hp end.
  repeat match goal with
  | Hp : (if bool_decide ?c then _ else _) = Some _ |- _ => destruct (bool_decide c); [injection Hp as <-|]
  end; [..|done]; (apply keeps_triple; [|tauto]);
    auto using connect_steps, bindSelf_steps, registerWithTicket_steps, refreshAccess_steps, revokeAccess_steps,
      envelopes_steps, adminMessages_steps;
    apply read_only_keeps; unfold health, metrics, version, wellKnown, adminDevices, adminConnections; reads;
    auto with relay.
Qed.

Lemma serve_all_reach rs (w : RW) : reach (w_srv w) (w_srv (serve_all rs w)).
Proof.
  assert (forall s0 w, reach s0 (w_srv w) -> reach s0 (w_srv (serve_all rs w))) as Hs; [|by apply Hs].
  induction rs as [|[peer r] rs IH]; intros s0 w' Hw; [done|]. cbn. apply IH.
  apply srv_keeps_handle; [apply serve_steps|done].
Qed.

(** What every step keeps holds after any requests. *)
Lemma steps_keep (Inv : RelayServer -> Prop) rs (w : RW) :
  (forall s s', Inv s -> relay_step s s' -> Inv s') -> Inv (w_srv w) -> Inv (w_srv (serve_all rs w)).
Proof.
  intros Hstep Hi. pose proof (serve_all_reach rs w) as Hr. induction Hr; eauto.
Qed.

(** ** What the steps keep *)

Context {CL : CryptoLaws C} {RL : MapRangeLaws R} {SL : SortLaws SS}.

(** The loop of [revokeAccess] revokes the device's credentials and no others. *)
Lemma revoke_device_creds_lookup deviceID creds k :
  revoke_device_creds deviceID creds !! k =
    (fun c => if bool_decide (cd_DeviceID c = deviceID) then revoke_credential c else c) <$> creds !! k.
Proof.
  unfold revoke_device_creds.
  assert (forall entries (m : gmap string credential), NoDup entries.*1 -> (forall e, e ∈ entries -> m !! e.1 = Some e.2) ->
    foldl (fun m e => if bool_decide (cd_DeviceID e.2 = deviceID) then <[e.1 := revoke_credential e.2]> m else m) m entries !! k =
    (fun c => if bool_decide (k ∈ entries.*1) && bool_decide (cd_DeviceID c = deviceID) then revoke_credential c else c) <$> m !! k) as Hf.
  { induction entries as [|[i c] entries IH]; intros m Hd Hin; [cbn; by destruct (m !! k)|].
    cbn [fmap list_fmap fst] in Hd. apply NoDup_cons in Hd as [Hi Hd]. cbn [foldl fst snd].
    pose proof (Hin (i, c) ltac:(left)) as Hic. cbn [fst snd] in Hic. rewrite IH; [|done|].
    - cbn [fmap list_fmap fst]. destruct (decide (k = i)) as [->|Hne].
      + rewrite (bool_decide_false (i ∈ entries.*1)), (bool_decide_true (i ∈ i :: entries.*1)) by (done || left).
        rewrite Hic. destruct (bool_decide (cd_DeviceID c = deviceID)) eqn:Ec; [rewrite lookup_insert_eq|rewrite Hic];
          cbn; by rewrite ?Ec.
      + rewrite (bool_decide_ext (k ∈ i :: entries.*1) (k ∈ entries.*1)) by set_solver.
        destruct (bool_decide (cd_DeviceID c = deviceID)); [by rewrite lookup_insert_ne|done].
    - intros e He. assert (i <> e.1) by (intros ->; apply Hi; by apply list_elem_of_fmap_2).
      destruct (bool_decide (cd_DeviceID c = deviceID)); [rewrite lookup_insert_ne by done|]; apply Hin; by right. }
  rewrite Hf; [|apply range_nodup|intros e; apply range_elem].
  destruct (creds !! k) as [c|] eqn:E; [|done]. cbn. rewrite bool_decide_true; [done|].
  apply (list_elem_of_fmap_2' fst _ (k, c)); [by apply range_elem|done].
Qed.

(** Credentials are filed under the hash of their token. *)
Definition filed (m : gmap string credential) : Prop :=
  map_Forall (fun k c => k = go_string (cd_Hash c) /\ cd_Hash c = SHA256 (go_bytes (cd_Token c))) m.

Definition devices_filed (m : gmap string DeviceIdentity) : Prop := map_Forall (fun k id => di_DeviceID id = k) m.

Definition relay_ok (s : RelayServer) : Prop :=
  queue_ok (sv_queue s) /\ q_maxBytes (sv_queue s) = relayMaxQueuedBytes /\
  filed (sv_access s) /\ filed (sv_refresh s) /\ devices_filed (sv_devices s).

Lemma filed_insert m domainID deviceID token now ttl :
  filed m -> filed (<[go_string (cd_Hash (new_credential domainID deviceID token now ttl)) :=
                      new_credential domainID deviceID token now ttl]> m).
Proof. intros Hm. by apply map_Forall_insert_2. Qed.

Lemma filed_revoke m k c : filed m -> m !! k = Some c -> filed (<[k := revoke_credential c]> m).
Proof. intros Hm Hk. apply map_Forall_insert_2; [exact (Hm k c Hk)|done]. Qed.

Lemma filed_revoke_all m deviceID : filed m -> filed (revoke_device_creds deviceID m).
Proof.
  intros Hm k c. rewrite revoke_device_creds_lookup. intros (c0 & Hc & ->)%fmap_Some. apply Hm in Hc.
  by case_bool_decide.
Qed.

Lemma relay_ok_step s s' : relay_ok s -> relay_step s s' -> relay_ok s'.
Proof.
  intros (Hq & Hmax & Ha & Hr & Hd) Hs.
  assert (forall q, queue_step (sv_queue s) q -> relay_ok (set_sv_queue q s)) as Hqs.
  { intros q Hqs. split_and!; [|cbn; by rewrite (queue_step_max _ _ Hqs)|done..].
    eapply queue_step_ok; [exact Hq|rewrite Hmax; reflexivity|done]. }
  destruct Hs; try (apply Hqs; constructor); split_and!; try done; cbn [sv_access sv_refresh sv_devices set_sv_access
    set_sv_refresh set_sv_devices];
    auto using filed_insert, filed_revoke, filed_revoke_all.
  all: by apply map_Forall_insert_2.
Qed.

End reach.
