(* ===== verification/RelayServerProps.v ===== *)
(** * What the relay service guarantees *)
From Stdlib Require Import ZArith Lia Strings.Byte.
From stdpp Require Import relations numbers gmap sets strings base list.
From S2P Require Import Prelude Errors Utf8 GoJson Canonical GoTime Crypto Signed Identity GoStrings Config Provisioning.
From S2P Require Import Descriptor Uuid Keyring Sql Repository Sorting Queue Replay NonceStore Http RelayServer RelaySteps.
Open Scope Z_scope.

(** The value and the world a finished computation leaves. *)
Ltac take_next :=
  repeat match goal with
  | E : (Next _, _) = (Next ?x, ?w) |- _ =>
      apply Next_inj in E; let E1 := fresh "E" in let E2 := fresh "E" in destruct E as [E1 E2];
      first [subst x | idtac]; first [subst w | rewrite <- E2 in * | idtac]
  | E : Ok _ = Ok ?x |- _ => apply (inj Ok) in E; first [subst x | idtac]
  end.

Section server.
  Context {C : CryptoOps} {CL : CryptoLaws C} {P : Postgres} {R : MapRange} {RL : MapRangeLaws R} {SS : SortSlice}
    {SL : SortLaws SS} {U : Url} {WS : WebSocket} `{UI : UnmarshalInto DeviceIdentity}
    `{D1 : Decode bindSelfRequest} `{D2 : Decode registerTicketRequest} `{D3 : Decode refreshRequest}
    `{D4 : Decode revokeAccessRequest} `{D5 : Decode RawMessage} `{D6 : Decode envelopeMeta}
    `{D7 : Decode (gmap string Value)} `{D8 : Decode DeviceProof}.

Abbreviation RW := (World RelayServer RelayTables).

(** ** The invariant *)

Lemma NewRelayServer_ok cfg repo rand clock (w : RW) : NewRelayServer cfg repo rand clock = Ok w -> relay_ok (w_srv w).
Proof.
  unfold NewRelayServer. destruct (NewDevice rand _ _ _) as [dev rand']. intros Hn. inv_ok.
  split_and!; [split; [done|vm_compute; intuition discriminate]|done|apply map_Forall_empty..].
Qed.

(** C21. The relay's state stays well formed through any sequence of requests and
    connections: the queue holds at most a mebibyte, counted exactly, every
    credential is filed under the SHA-256 hash of its token (so that a lookup by
    hash finds the credential of that token, hash collisions aside), and every
    device under its identifier. *)
Theorem relay_state_ok cfg repo rand clock (w : RW) rs :
  NewRelayServer cfg repo rand clock = Ok w ->
  let s := w_srv (serve_all rs w) in
  total_bytes (q_messages (sv_queue s)) <= 2 ^ 20 /\ UsedBytes (sv_queue s) = total_bytes (q_messages (sv_queue s)) /\
  filed (sv_access s) /\ filed (sv_refresh s) /\ devices_filed (sv_devices s).
Proof.
  intros Hn s.
  assert (relay_ok s) as ([Hq1 Hq2] & Hmax & Ha & Hr & Hd).
  { apply (steps_keep relay_ok); [apply relay_ok_step|by eapply NewRelayServer_ok]. }
  unfold UsedBytes. rewrite Hmax in Hq2. split_and!; [|done..]. rewrite <- Hq1.
  change (Z.max 0 relayMaxQueuedBytes) with (2 ^ 20) in Hq2. lia.
Qed.

(** ** Tickets *)

(** The relay's ticket map and the provisioning library's ticket store agree. *)
Definition tickets_agree (m : gmap string ticketState) (s : TicketStore) : Prop :=
  forall id, limit s !! id = tk_MaxUses <$> m !! id /\ uses s !! id = tk_Uses <$> m !! id.

(** Every ticket on record was first seen with a positive number of uses. *)
Definition tickets_positive (m : gmap string ticketState) : Prop := map_Forall (fun _ t => 0 < tk_MaxUses t) m.

(** C31. The relay counts ticket uses the way the provisioning library's ticket store
    specifies: from corresponding states, consuming a ticket that may be used at
    least once succeeds in one exactly when it does in the other, and leaves them
    corresponding. *)
Theorem relay_tickets_refine m s ticketID maxUses :
  tickets_agree m s -> tickets_positive m -> 0 < maxUses ->
  let '(r, m') := consumeTicket m ticketID maxUses in
  let '(r', s') := consume s ticketID maxUses in
  r = r' /\ tickets_agree m' s' /\ tickets_positive m'.
Proof.
  intros Ha Hp Hm. destruct (Ha ticketID) as [Hl Hu]. unfold consumeTicket, consume. cbv zeta.
  replace (maxUses <=? 0) with false by lia. rewrite Hl, Hu.
  destruct (m !! ticketID) as [[mx us]|] eqn:E; cbn [fmap option_fmap option_map default from_option Datatypes.id tk_MaxUses tk_Uses].
  - pose proof (Hp _ _ E) as Hpos. cbn in Hpos. replace (mx =? 0) with false by lia.
    cbn [tk_MaxUses tk_Uses]. replace (mx <=? 0) with false by lia. cbn [orb]. rewrite Hl. cbn.
    destruct (mx <=? us) eqn:Eu; [by split_and!|]. split_and!; [done| |by apply map_Forall_insert_2].
    intros id. cbn [limit uses]. destruct (decide (ticketID = id)) as [<-|Hne].
    + by rewrite !lookup_insert_eq, Hl.
    + by rewrite !lookup_insert_ne.
  - replace (0 =? 0) with true by done. cbn [tk_MaxUses tk_Uses]. rewrite lookup_insert_eq. cbn.
    replace (maxUses <=? 0) with false by lia. cbn [orb]. split_and!; [done| |by apply map_Forall_insert_2].
    intros id. cbn [limit uses]. destruct (decide (ticketID = id)) as [<-|Hne].
    + by rewrite !lookup_insert_eq.
    + rewrite !lookup_insert_ne by done. apply Ha.
Qed.

(** ** Replies *)

Lemma relay_proof_fails id proof audience challenge ttl : fails_only (verifyProof id proof audience challenge ttl).
Proof. unfold verifyProof. fails. Qed.

Lemma persistDevice_fails id status : fails_only (persistDevice id status).
Proof. unfold persistDevice. fails. Qed.

Lemma issueCredentials_fails domainID deviceID : fails_only (issueCredentials domainID deviceID).
Proof. unfold issueCredentials. fails. Qed.

Lemma bindIdentity_fails id : fails_only (bindIdentity id).
Proof. unfold bindIdentity. fails; auto using persistDevice_fails, issueCredentials_fails. Qed.

Lemma lookupIdentity_fails domainID deviceID : fails_only (lookupIdentity domainID deviceID).
Proof. unfold lookupIdentity. fails. Qed.

Lemma verifyAccessProof_fails r cred hash : fails_only (verifyAccessProof r cred hash).
Proof. unfold verifyAccessProof. fails; auto using lookupIdentity_fails, relay_proof_fails. Qed.

Lemma authenticateAccess_fails r : fails_only (authenticateAccess r).
Proof. unfold authenticateAccess. fails; auto using verifyAccessProof_fails. Qed.

Lemma revokeAccess_fails r : fails_only (revokeAccess r).
Proof. unfold revokeAccess. fails; auto using authenticateAccess_fails. Qed.

Lemma check_refresh_fails token : fails_only (check_refresh token).
Proof. unfold check_refresh. fails; by destruct e. Qed.

Lemma refreshAccess_fails r : fails_only (refreshAccess r).
Proof.
  unfold refreshAccess, exchange_refresh, revokeRefreshCredential.
  fails; auto using check_refresh_fails, issueCredentials_fails.
Qed.

Lemma store_envelope_fails cfg raw canon meta receipt now expiresAt :
  fails_only (store_envelope cfg raw canon meta receipt now expiresAt).
Proof. unfold store_envelope. fails. Qed.

Lemma envelopes_fails r : fails_only (envelopes r).
Proof. unfold envelopes, queue_envelope. fails; auto using authenticateAccess_fails, store_envelope_fails. Qed.

Lemma registerWithTicket_fails r : fails_only (registerWithTicket r).
Proof.
  unfold registerWithTicket, registerWithSignedTicket, consume_ticket.
  fails; auto using bindIdentity_fails, relay_proof_fails.
Qed.

(** ** Revoked devices *)

Lemma revoked_step d s s' : d ∈ sv_revoked s -> relay_step s s' -> d ∈ sv_revoked s'.
Proof. intros Hd Hs. destruct Hs; cbn; set_solver. Qed.

Lemma revokeAccess_revokes r req :
  decode (rq_Body r) = Ok req ->
  triple (fun _ => True) (revokeAccess r) (fun _ s => ra_DeviceID req ∈ sv_revoked s) (fun _ => True).
Proof.
  intros Hd. unfold revokeAccess. apply triple_read; [reads|done|intros _]. apply (triple_decode _ _ _ _ req); [done|].
  apply triple_gets. intros cfg. cbv zeta.
  apply (triple_bind _ (fun _ _ => True)); [intros w _; by destruct (authenticateAccess r w) as [[? | ?] ?]|intros auth].
  apply (triple_bind _ (fun _ _ => True)).
  { destruct auth as [cred|e]; destruct (negb _); intros w _; done. }
  intros _. apply triple_gets. intros revoked.
  apply (triple_modify _ (fun s => ra_DeviceID req ∈ sv_revoked s)); [intros s [_ ->]; cbn; set_solver|].
  do 2 (apply triple_gets; intros ?; apply (triple_modify _ (fun s => ra_DeviceID req ∈ sv_revoked s));
    [by intros s [Hs _]|]).
  do 2 (apply triple_read; [reads|done|intros ?]). by apply triple_ret.
Qed.

(** A revoked device is not let in. *)
Lemma connecting_device_revoked cfg d (w : RW) o w' :
  d ∈ sv_revoked (w_srv w) -> connecting_device cfg d w = (Next o, w') -> o = None.
Proof.
  intros Hd Hc. unfold connecting_device in Hc. inv_next.
  match goal with H : (match ?x with _ => _ end) _ = (Next ?found, _) |- _ =>
    assert (found.2 = true \/ found.1 = None) as Hf; [|destruct found as [id []]; inv_next; destruct Hf; by simplify_eq/=] end.
  rewrite bool_decide_true in * by done.
  destruct (sv_devices (w_srv w) !! d); inv_next; [left; by simplify_eq|].
  destruct (w_repo w); inv_next; [|left; by simplify_eq].
  repeat case_match; inv_next; simplify_eq; auto.
Qed.

(** ** Connections *)

Definition message_frame (m : Message) : Frame := FMessage (qm_MessageID m) (qm_Envelope m).

(** The frames of the delivery loop. *)
Fixpoint deliver_wire (peer : Peer) (messages : list Message) (delivered : nat) (out : Wire) : Wire :=
  match messages with
  | [] => (write_frame peer (FDrained delivered) out).2
  | msg :: messages =>
      let '(ok, out) := write_frame peer (message_frame msg) out in
      if negb ok then out else deliver_wire peer messages (S delivered) out
  end.

Lemma deliver_eq peer messages delivered out (w : RW) :
  (deliver peer messages delivered out w).1 = Next (deliver_wire peer messages delivered out).
Proof.
  revert delivered out w. induction messages as [|msg messages IH]; intros delivered out w; [done|].
  cbn [deliver deliver_wire]. unfold message_frame. destruct (write_frame peer _ out) as [[] out'].
  2: reflexivity. cbn [negb]. unfold mbind, H_bind at 1, has_repo.
  destruct (w_repo w) as [db|] eqn:E; [|apply IH]. unfold mbind, H_bind, now_utc, query. cbn [w_repo].
  rewrite E. destruct (MarkMessageDelivered _ _ _ db) as [res db']. apply IH.
Qed.

(** What the loop writes: some of the messages, and the end once all are out. *)
Lemma deliver_wire_frames peer messages delivered out :
  exists sent rest, messages = sent ++ rest /\
    ((deliver_wire peer messages delivered out).2 = out.2 ++ map message_frame sent \/
     rest = [] /\ (deliver_wire peer messages delivered out).2 =
       out.2 ++ map message_frame sent ++ [FDrained (delivered + length sent)]).
Proof.
  revert delivered out. induction messages as [|msg messages IH]; intros delivered out; cbn [deliver_wire].
  - exists [], []. split; [done|]. unfold write_frame. rewrite Nat.add_0_r.
    destruct (peer_accepts peer out.1); cbn; rewrite ?app_nil_r; auto.
  - unfold write_frame. destruct (peer_accepts peer out.1); cbn [negb].
    2: { exists [], (msg :: messages). split; [done|]. left. cbn. by rewrite app_nil_r. }
    destruct (IH (S delivered) (S out.1, out.2 ++ [message_frame msg])) as (sent & rest & -> & Hf). cbn [snd] in Hf.
    exists (msg :: sent), rest. split; [done|]. rewrite <- !app_assoc in Hf. cbn [app] in Hf. cbn [map app].
    destruct Hf as [->|[-> ->]]; [by left|right]. split; [done|].
    by replace (delivered + length (msg :: sent))%nat with (S delivered + length sent)%nat by (cbn; lia).
Qed.

(** A client that takes every frame gets all of them. *)
Lemma deliver_wire_all peer messages delivered out :
  (forall n, peer_accepts peer n = true) ->
  (deliver_wire peer messages delivered out).2 = out.2 ++ map message_frame messages ++ [FDrained (delivered + length messages)].
Proof.
  intros Hp. revert delivered out. induction messages as [|msg messages IH]; intros delivered out; cbn [deliver_wire].
  - unfold write_frame. rewrite Hp. cbn. by rewrite Nat.add_0_r.
  - unfold write_frame. rewrite Hp. cbn [negb]. rewrite IH. cbn [snd map app]. rewrite <- !app_assoc. cbn [app].
    by replace (delivered + length (msg :: messages))%nat with (S delivered + length messages)%nat by (cbn; lia).
Qed.

Lemma verifyProof_memory id proof audience challenge ttl (w : RW) u w' :
  w_repo w = None -> verifyProof id proof audience challenge ttl w = (Next (Ok u), w') ->
  VerifyProof id proof audience challenge (UTC (w_clock w O)) ttl = Ok tt /\ w_repo w' = None /\
  (forall n, w_clock w' n = w_clock w (S n)) /\ exists c, w_srv w' = set_sv_replay c (w_srv w).
Proof.
  intros Hr Hv. unfold verifyProof in Hv. destruct (blank (dp_Nonce proof)); inv_next; [done|].
  destruct (VerifyProof id proof audience challenge (UTC (w_clock w O)) ttl) as [[]|] eqn:E; [|done]. simplify_eq.
  cbn [w_repo] in *. rewrite Hr in *. inv_next. destruct (Use _ _ _ _) as [used cache]. inv_next. simplify_eq.
  split_and!; [done..|]. by eexists.
Qed.

(** A connection of a verified device, without a database. *)
Lemma ready_memory peer id out (w : RW) out' w' :
  w_repo w = None -> ready peer id out w = (Next out', w') ->
  out' = deliver_wire peer
    (DequeueFor (sv_queue (w_srv w)) (di_DomainID id) (di_DeviceID id) (UTC (w_clock w 1%nat)) 100).1 0
    (write_frame peer FReady out).2.
Proof.
  intros Hr Hy. unfold ready, dequeueMessages in Hy. inv_next. unfold draw in *.
  destruct (randomToken (w_rand w)) as [token rand]. 
  repeat match goal with Hn : (Next _, _) = (Next _, _) |- _ => apply Next_inj in Hn as [? ?] end. subst.
  cbn [w_repo] in *. rewrite Hr in *. cbn [negb] in *. inv_next.
  cbn [w_srv w_clock recordConnection set_sv_connections sv_queue Nat.add] in *.
  destruct (DequeueFor (sv_queue (w_srv w)) (di_DomainID id) (di_DeviceID id) (UTC (w_clock w 1%nat)) 100) as [ms q'] eqn:Ed.
  inv_next. repeat match goal with Hn : (Next _, _) = (Next _, _) |- _ => apply Next_inj in Hn as [? ?] end. subst.
  match goal with Hd : deliver peer ms 0 ?o ?ww = (Next ?x, _) |- _ =>
    pose proof (deliver_eq peer ms 0 o ww) as He; rewrite Hd in He; cbn [fst] in He end.
  cbn [fst]. congruence.
Qed.

Lemma connect_fails peer r : fails_only (connect peer r).
Proof.
  unfold connect, connecting_device, ready, dequeueMessages. fails; auto using relay_proof_fails.
  apply fails_only_next. intros w0.
  match goal with |- exists a w', deliver ?p ?ms ?n ?o _ = _ => pose proof (deliver_eq p ms n o w0) as He;
    destruct (deliver p ms n o w0) as [x w1]; cbn in He; subst; by eexists _, _ end.
Qed.

(** A device that is let in without a database. *)
Lemma connecting_device_memory cfg d (w : RW) id w' :
  w_repo w = None -> connecting_device cfg d w = (Next (Some id), w') ->
  sv_devices (w_srv w) !! d = Some id /\ d ∉ sv_revoked (w_srv w) /\ w' = w.
Proof.
  intros Hr Hc. unfold connecting_device in Hc. inv_next. rewrite Hr in *.
  destruct (sv_devices (w_srv w) !! d) as [id0|] eqn:Ed; inv_next; take_next; inv_next; take_next.
  - destruct (bool_decide_reflect (d ∈ sv_revoked (w_srv w))); by simplify_eq.
  - by destruct (bool_decide _).
Qed.

(** The frames that leave the server when the proof of a device has been verified. *)
Definition served_frames (peer : Peer) (challenge : string) (messages : list Message) : list Frame :=
  (deliver_wire peer messages 0 (write_frame peer FReady (1%nat, [FChallenge challenge])).2).2.

(** A connection without a database: refused, or served to a device that proved its
    key over the fresh challenge. *)
Lemma connect_memory peer r (w : RW) fs w' :
  w_repo w = None -> connect peer r w = (Next (JSON StatusSwitchingProtocols (RFrames fs)), w') ->
  let challenge := (randomToken (w_rand w)).1 in
  (fs = [] \/ fs = [FChallenge challenge] \/ exists e, fs = [FChallenge challenge; FClosed e]) \/
  exists proof id now,
    peer_reply peer challenge = Ok proof /\ sv_devices (w_srv w) !! dp_DeviceID proof = Some id /\
    dp_DeviceID proof ∉ sv_revoked (w_srv w) /\
    VerifyProof id proof (rcf_RelayID (sv_cfg (w_srv w))) challenge now Minute = Ok tt /\
    fs = served_frames peer challenge
           (DequeueFor (sv_queue (w_srv w)) (di_DomainID id) (di_DeviceID id) (UTC (w_clock w 2%nat)) 100).1.
Proof.
  intros Hr Hc challenge. unfold connect in Hc. inv_next. destruct (ws_upgrade _ r); inv_next; [done|].
  unfold draw in *. subst challenge. destruct (randomToken (w_rand w)) as [challenge rand].
  take_next. cbn [fst]. unfold write_frame in *. cbn [fst snd] in *.
  destruct (peer_accepts peer 0%nat); cbn [negb] in *; inv_next;
    match goal with Ef : (Next (JSON _ (RFrames ?o.2)), _) = _ |- _ =>
      apply Next_inj in Ef as [Ef _]; assert (fs = o.2) as -> by (by injection Ef); clear Ef end.
  2: { take_next. left. by left. }
  destruct (peer_reply peer challenge) as [proof|e] eqn:Ep; inv_next; [|take_next; left; right; by left].
  match goal with Hc : connecting_device _ _ _ = (Next ?f, _) |- _ => destruct f as [id|] end.
  2: { inv_next. take_next. left. right. destruct (peer_accepts _ _); cbn; eauto. }
  match goal with Hc : connecting_device _ _ _ = _ |- _ => apply connecting_device_memory in Hc as (Hid & Hrev & ->); [|done] end.
  inv_next. match goal with Hv : verifyProof _ _ _ _ _ _ = (Next ?v, _) |- _ => destruct v as [[]|e] end.
  2: { inv_next. take_next. left. right. destruct (peer_accepts _ _); cbn; eauto. }
  right. match goal with Hv : verifyProof _ _ _ _ _ _ = _ |- _ => apply verifyProof_memory in Hv as (Hver & Hr' & Hclock & c & Hsrv); [|done] end.
  match goal with Hy : ready _ _ _ _ = _ |- _ => apply ready_memory in Hy; [|done]; rewrite Hy end.
  rewrite Hclock, Hsrv. eexists proof, id, _. split_and!; [done..|exact Hver|done].
Qed.

(** The conversations a connection can have with its client, writes that fail aside:
    a challenge, then a refusal, or the announcement, the messages and their
    number at the end. *)
Inductive transcript : list Frame -> Prop :=
| tr_nothing : transcript []
| tr_challenge c : transcript [FChallenge c]
| tr_refused c e : transcript [FChallenge c; FClosed e]
| tr_partial c announced messages :
    announced ∈ [[]; [FReady]] -> transcript (FChallenge c :: announced ++ map message_frame messages)
| tr_drained c announced messages :
    announced ∈ [[]; [FReady]] ->
    transcript (FChallenge c :: announced ++ map message_frame messages ++ [FDrained (length messages)]).

Lemma served_transcript peer challenge messages :
  transcript (served_frames peer challenge messages) /\
  forall f, f ∈ served_frames peer challenge messages ->
    f = FChallenge challenge \/ f = FReady \/ (exists n, f = FDrained n) \/ exists m, m ∈ messages /\ f = message_frame m.
Proof.
  unfold served_frames.
  destruct (deliver_wire_frames peer messages 0 (write_frame peer FReady (1%nat, [FChallenge challenge])).2)
    as (sent & rest & -> & Hf).
  assert (exists announced, announced ∈ [[]; [FReady]] /\
    (write_frame peer FReady (1%nat, [FChallenge challenge])).2.2 = FChallenge challenge :: announced) as (an & Han & E).
  { unfold write_frame. destruct (peer_accepts peer _); eexists; (split; [|reflexivity]); set_solver. }
  rewrite E in Hf. cbn [app] in Hf. assert (forall f, f ∈ an -> f = FReady) as Hr.
  { intros f Hfan. apply elem_of_cons in Han as [->|Han]; [by apply elem_of_nil in Hfan|].
    apply list_elem_of_singleton in Han as ->. by apply list_elem_of_singleton in Hfan. }
  split.
  - destruct Hf as [->|[_ ->]]; [by apply tr_partial|by apply tr_drained].
  - intros f Hin. destruct Hf as [Hf|[_ Hf]]; rewrite Hf in Hin;
      repeat (apply elem_of_cons in Hin as [Hin|Hin] || apply elem_of_app in Hin as [Hin|Hin] || apply elem_of_nil in Hin as []);
      eauto; try (apply list_elem_of_fmap in Hin as (m & -> & Hm); do 3 right; exists m; set_solver).
Qed.

Lemma DequeueFor_from q d r now n m :
  m ∈ (DequeueFor q d r now n).1 -> m ∈ q_messages q /\ addressed d r m = true /\ expired now m = false.
Proof.
  pose proof (DequeueFor_eq q d r now n) as E. cbv zeta in E. rewrite E. clear E. cbn [fst]. intros Hm.
  apply subseteq_take in Hm. rewrite sort_permutes in Hm. apply elem_of_list_filter in Hm as [Hf Hm].
  apply andb_true_iff in Hf as [Hf1 Hf2]. by rewrite negb_true_iff in Hf1.
Qed.

(** C7. A connection without a database follows the protocol (a challenge, then
    either a refusal or the announcement, the messages and their count), and every
    message it carries is one the queue held, not expired, for the very device
    whose registered identity verified the client's proof over the fresh
    challenge; that device is not revoked. *)
Theorem connection_serves_prover peer r (w : RW) fs w' :
  w_repo w = None -> handle (connect peer r) w = (JSON StatusSwitchingProtocols (RFrames fs), w') ->
  let challenge := (randomToken (w_rand w)).1 in
  transcript fs /\
  forall messageID envelope, FMessage messageID envelope ∈ fs ->
  exists proof id now msg,
    peer_reply peer challenge = Ok proof /\ sv_devices (w_srv w) !! dp_DeviceID proof = Some id /\
    dp_DeviceID proof ∉ sv_revoked (w_srv w) /\
    VerifyProof id proof (rcf_RelayID (sv_cfg (w_srv w))) challenge now Minute = Ok tt /\
    msg ∈ q_messages (sv_queue (w_srv w)) /\ message_frame msg = FMessage messageID envelope /\
    qm_DomainID msg = di_DomainID id /\ qm_RecipientDeviceID msg = di_DeviceID id /\
    expired (UTC (w_clock w 2%nat)) msg = false.
Proof.
  intros Hr Hh challenge. apply handle_success in Hh; [|apply connect_fails|done].
  apply connect_memory in Hh; [|done]. fold challenge in Hh.
  destruct Hh as [Hf|(proof & id & now & Hp & Hid & Hrev & Hv & ->)].
  - split; [destruct Hf as [->|[->|[e ->]]]; constructor|]. intros m e Hin. exfalso.
    destruct Hf as [->|[->|[e' ->]]]; set_solver.
  - destruct (served_transcript peer challenge
      (DequeueFor (sv_queue (w_srv w)) (di_DomainID id) (di_DeviceID id) (UTC (w_clock w 2%nat)) 100).1) as [Ht Hin].
    split; [done|]. intros m e [?|[?|[[n ?]|(msg & Hm & E)]]]%Hin; [done..|].
    apply DequeueFor_from in Hm as (Hm & Hto & Hexp). unfold addressed in Hto. bool_prop.
    exists proof, id, now, msg. by split_and!.
Qed.

(** A client that can only speak for a revoked device is refused. *)
Lemma connect_refuses peer r (w : RW) fs w' :
  (forall challenge proof, peer_reply peer challenge = Ok proof -> dp_DeviceID proof ∈ sv_revoked (w_srv w)) ->
  connect peer r w = (Next (JSON StatusSwitchingProtocols (RFrames fs)), w') ->
  forall f, f ∈ fs -> (exists c, f = FChallenge c) \/ exists e, f = FClosed e.
Proof.
  intros Hd Hc. unfold connect in Hc. inv_next. destruct (ws_upgrade _ r); inv_next; [done|].
  unfold draw in *. destruct (randomToken (w_rand w)) as [challenge rand]. take_next.
  unfold write_frame in *. cbn [fst snd] in *. destruct (peer_accepts peer 0%nat); cbn [negb] in *; inv_next;
    match goal with Ef : (Next (JSON _ (RFrames ?o.2)), _) = _ |- _ =>
      apply Next_inj in Ef as [Ef _]; assert (fs = o.2) as -> by (by injection Ef); clear Ef end.
  2: { take_next. set_solver. }
  destruct (peer_reply peer challenge) as [proof|e] eqn:Ep; inv_next; [|take_next; set_solver].
  match goal with Hc : connecting_device _ _ _ = _ |- _ => apply connecting_device_revoked in Hc as ->; [|by eapply Hd] end.
  inv_next. take_next. destruct (peer_accepts _ _); set_solver.
Qed.

(** C10. Revoking a device's access is final for connections: once a revocation has
    succeeded, no client that presents a proof of that device is ever announced
    ready or sent a message, whatever is served in between, registrations of the
    same device included, with or without a database. *)
Theorem revoked_never_connected (w : RW) r req body w1 rs peer r2 fs w2 :
  decode (rq_Body r) = Ok req -> handle (revokeAccess r) w = (JSON StatusOK body, w1) ->
  (forall challenge proof, peer_reply peer challenge = Ok proof -> dp_DeviceID proof = ra_DeviceID req) ->
  handle (connect peer r2) (serve_all rs w1) = (JSON StatusSwitchingProtocols (RFrames fs), w2) ->
  FReady ∉ fs /\ forall messageID envelope, FMessage messageID envelope ∉ fs.
Proof.
  intros Hd Hh Hp Hc. apply handle_success in Hh; [|apply revokeAccess_fails|done].
  pose proof (revokeAccess_revokes r req Hd w I) as Hrev. rewrite Hh in Hrev.
  apply (steps_keep (fun s => ra_DeviceID req ∈ sv_revoked s) rs w1 (revoked_step _)) in Hrev.
  apply handle_success in Hc; [|apply connect_fails|done].
  assert (forall f, f ∈ fs -> (exists c, f = FChallenge c) \/ exists e, f = FClosed e) as Hf.
  { eapply connect_refuses; [|exact Hc]. intros challenge proof Hpr. by rewrite (Hp _ _ Hpr). }
  split; [intros Hin|intros m e Hin]; apply Hf in Hin; naive_solver.
Qed.

(** ** Access credentials *)

Lemma set_replay_same s : set_sv_replay (sv_replay s) s = s.
Proof. by destruct s. Qed.

(** The proof of possession a production relay asks for, from a device it knows. *)
Definition possession_proved (s : RelayServer) (r : Request) (cred : credential) : Prop :=
  exists proof raw id now,
    DecodeBase64URL (TrimSpace (HeaderGet r accessProofHeader)) = Ok raw /\ decode raw = Ok proof /\
    sv_devices s !! cd_DeviceID cred = Some id /\ cd_DeviceID cred ∉ sv_revoked s /\ di_DomainID id = cd_DomainID cred /\
    VerifyProof id proof (rcf_RelayID (sv_cfg s))
      (accessProofChallenge (rq_Method r) (rq_Path r) (SHA256 (go_bytes (bearerToken r)))) now Minute = Ok tt.

Lemma verifyAccessProof_memory r cred (w : RW) u w' :
  w_repo w = None -> verifyAccessProof r cred (SHA256 (go_bytes (bearerToken r))) w = (Next (Ok u), w') ->
  w_repo w' = None /\ (exists c, w_srv w' = set_sv_replay c (w_srv w)) /\
  (production (sv_cfg (w_srv w)) = true -> possession_proved (w_srv w) r cred).
Proof.
  intros Hr Hv. unfold verifyAccessProof in Hv. inv_next. destruct (production (sv_cfg (w_srv w))) eqn:Ep; cbn [negb] in *.
  2: { inv_next. take_next. split_and!; [done| |done]. exists (sv_replay (w_srv w)). by rewrite set_replay_same. }
  destruct (bool_decide _); inv_next; [done|].
  destruct (DecodeBase64URL _) as [raw|] eqn:Eraw; [|done]. take_next.
  destruct (decode raw) as [proof|] eqn:Edec; inv_next; [|done].
  unfold lookupIdentity in *. inv_next.
  destruct (_ && _ && _) eqn:Eok; inv_next; [|rewrite Hr in *; cbn [negb] in *; inv_next; take_next; inv_next; by take_next].
  take_next. inv_next. bool_prop.
  destruct (sv_devices (w_srv w) !! cd_DeviceID cred) as [id|] eqn:Eid; [|done].
  cbn [default from_option Datatypes.id] in *.
  match goal with Hp : verifyProof _ _ _ _ _ _ = _ |- _ => apply verifyProof_memory in Hp as (Hver & Hr' & _ & Hsrv); [|done] end.
  split_and!; [done..|]. intros _. eexists proof, raw, id, _. by split_and!.
Qed.

(** An accepted credential is on record, not revoked and not expired. *)
Lemma authenticateAccess_memory r (w : RW) cred w' :
  w_repo w = None -> authenticateAccess r w = (Next (Ok cred), w') ->
  sv_access (w_srv w) !! go_string (SHA256 (go_bytes (bearerToken r))) = Some cred /\ cd_Revoked cred = false /\
  ns (w_clock w O) < ns (cd_ExpiresAt cred) /\ w_repo w' = None /\ (exists c, w_srv w' = set_sv_replay c (w_srv w)) /\
  (production (sv_cfg (w_srv w)) = true -> possession_proved (w_srv w) r cred).
Proof.
  intros Hr Ha. unfold authenticateAccess in Ha. destruct (bool_decide _); inv_next; [by take_next|].
  cbn [w_srv w_repo] in *.
  destruct (sv_access (w_srv w) !! _) as [c|] eqn:Ec; cbn [default from_option Datatypes.id] in *.
  2: { rewrite bool_decide_false in * by tauto. cbn [andb] in *. inv_next. take_next. cbn [w_repo] in *. rewrite Hr in *.
       inv_next. by take_next. }
  rewrite (bool_decide_true (Some c <> None)) in * by done. cbn [andb] in *.
  destruct (negb (cd_Revoked c) && After _ _) eqn:Est.
  - cbn [revoke_credential cd_Revoked negb andb] in *. inv_next. cbn [w_repo] in *. rewrite Hr in *. inv_next. by take_next.
  - inv_next. take_next. destruct (negb (cd_Revoked c) && Before _ _) eqn:Elive.
    2: { inv_next. cbn [w_repo] in *. rewrite Hr in *. inv_next. by take_next. }
    inv_next. match goal with Hp : verifyAccessProof _ _ _ _ = _ |- _ => apply verifyAccessProof_memory in Hp as (Hr' & Hsrv & Hprod); [|done] end.
    take_next. bool_prop. unfold Before in *. cbn [UTC ns] in *. split_and!; [done..|lia|done|done|done].
Qed.

(** ** Envelopes *)

Definition meta_ok (cfg : RelayConfig) (meta : envelopeMeta) : Prop :=
  em_DomainID meta = rcf_DomainID cfg /\ blank (em_MessageID meta) = false /\ blank (em_RecipientDeviceID meta) = false /\
  1 <= ro_TTLSeconds (em_Route meta) <= 86400 /\ 0 <= ro_Priority (em_Route meta) <= 9.

Lemma validateEnvelopeMeta_Ok cfg meta u :
  validateEnvelopeMeta cfg (em_DomainID meta) (em_MessageID meta) (em_SenderDeviceID meta) (em_RecipientDeviceID meta)
    (ro_TTLSeconds (em_Route meta)) (ro_Priority (em_Route meta)) = Ok u -> meta_ok cfg meta.
Proof.
  unfold validateEnvelopeMeta, meta_ok. change maxTTLSeconds with 86400. intros Hv. inv_ok. bool_prop.
  split_and!; try done; lia.
Qed.

(** What accepting an envelope without a database means. *)
Lemma envelopes_memory r (w : RW) rc w' :
  w_repo w = None -> envelopes r w = (Next (JSON StatusAccepted (RReceipt rc)), w') ->
  exists cred msg meta now,
    sv_access (w_srv w) !! go_string (SHA256 (go_bytes (bearerToken r))) = Some cred /\ cd_Revoked cred = false /\
    ns (w_clock w O) < ns (cd_ExpiresAt cred) /\ (production (sv_cfg (w_srv w)) = true -> possession_proved (w_srv w) r cred) /\
    decode (rq_Body r) = Ok msg /\ decode (raw_bytes msg) = Ok meta /\ meta_ok (sv_cfg (w_srv w)) meta /\
    em_DomainID meta = cd_DomainID cred /\ em_SenderDeviceID meta = cd_DeviceID cred /\
    dl_MessageID rc = em_MessageID meta /\ dl_IssuedAt rc = now /\ w_repo w' = None /\
    let message := message_of (raw_bytes msg) meta (Add now (ro_TTLSeconds (em_Route meta) * Second)) in
    (Enqueue (sv_queue (w_srv w)) message now).1 = true /\
    exists c, w_srv w' = set_sv_queue (Enqueue (sv_queue (w_srv w)) message now).2 (set_sv_replay c (w_srv w)).
Proof.
  intros Hr He. unfold envelopes in He. inv_next.
  match goal with Ha : authenticateAccess _ _ = _ |- _ =>
    apply authenticateAccess_memory in Ha as (Hcred & Hlive & Hexp & Hr' & (c & Hsrv) & Hprod); [|done] end.
  take_next. rewrite Hsrv in *. cbn [sv_cfg set_sv_replay] in *.
  match goal with Hm : validateEnvelopeMeta _ _ _ _ _ _ _ = _ |- _ => apply validateEnvelopeMeta_Ok in Hm as Hmeta end.
  match goal with Hd : decode (rq_Body r) = Ok ?m, Hm : decode (raw_bytes ?m) = Ok ?me |- _ => rename m into msg, me into meta end.
  destruct (_ || _) eqn:Ematch; inv_next. bool_prop. take_next. rewrite Hr' in *.
  unfold queue_envelope in *. inv_next. cbn [w_srv w_repo sv_queue set_sv_replay] in *. rewrite Hsrv in *.
  cbn [sv_queue set_sv_replay] in *.
  assert (wrap_i64 (ro_TTLSeconds (em_Route meta) * Second) = ro_TTLSeconds (em_Route meta) * Second) as Ew.
  { apply wrap_i64_id. destruct Hmeta as (_ & _ & _ & Httl & _). unfold in_i64, Second. lia. }
  rewrite Ew in *. destruct (Enqueue _ _ _) as [queued q] eqn:Eq. inv_next.
  destruct queued; cbn [negb] in *; inv_next. take_next.
  unfold WriteJSON in *. match goal with Hj : JSON _ _ = JSON _ _ |- _ => injection Hj as Hj; subst rc end.
  eexists _, msg, meta, _. cbn [dl_MessageID dl_IssuedAt w_srv w_repo set_sv_queue]. split_and!; try done.
  - by rewrite Eq.
  - exists c. by rewrite Eq.
Qed.


(** An accepted message is in the queue. *)
Lemma Enqueue_holds q msg now :
  queue_ok q -> q_maxBytes q < 2 ^ 62 -> (Enqueue q msg now).1 = true ->
  exists m, m ∈ q_messages (Enqueue q msg now).2 /\ message_frame m = message_frame msg /\
    qm_DomainID m = qm_DomainID msg /\ qm_RecipientDeviceID m = qm_RecipientDeviceID msg /\ qm_ExpiresAt m = qm_ExpiresAt msg.
Proof.
  intros Hq Hmax. rewrite Enqueue_eq by done. cbv zeta. destruct (_ <=? _); [|done]. intros _. cbn [snd q_messages].
  eexists. split; [apply elem_of_app; right; by left|]. by destruct (IsZero (qm_QueuedAt msg)).
Qed.

(** A dequeue with room for all of a recipient's messages takes each of them. *)
Lemma DequeueFor_takes q d r now n m :
  m ∈ q_messages q -> addressed d r m = true -> expired now m = false ->
  Z.of_nat (length (List.filter (addressed d r) (q_messages q))) <= n -> m ∈ (DequeueFor q d r now n).1.
Proof.
  intros Hm Ha He Hn. pose proof (DequeueFor_eq q d r now n) as E. cbv zeta in E. rewrite E. clear E. cbn [fst].
  assert (forall l, length (List.filter (fun m => negb (expired now m) && addressed d r m) l) <=
    length (List.filter (addressed d r) l))%nat as Hlen.
  { induction l as [|x l IH]; cbn; [lia|]. destruct (expired now x), (addressed d r x); cbn; lia. }
  specialize (Hlen (q_messages q)). rewrite take_ge.
  - rewrite sort_permutes. apply elem_of_list_filter. by rewrite He, Ha.
  - rewrite (Permutation_length (sort_permutes message_less _)). lia.
Qed.


(** ** Refresh credentials *)

Definition token_key (token : string) : string := go_string (SHA256 (go_bytes token)).

Lemma check_refresh_memory token (w : RW) cred w' :
  w_repo w = None -> check_refresh token w = (Next cred, w') ->
  sv_refresh (w_srv w) !! token_key token = Some cred /\ cd_Revoked cred = false /\ w_srv w' = w_srv w /\ w_repo w' = None.
Proof.
  intros Hr Hc. unfold check_refresh in Hc. inv_next. unfold token_key.
  destruct (sv_refresh (w_srv w) !! _) as [c|] eqn:Ec; cbn [default from_option Datatypes.id] in *.
  2: { rewrite bool_decide_false in * by tauto. cbn [andb] in *. inv_next. take_next. rewrite Hr in *. cbn [negb andb orb] in *.
       inv_next. take_next. cbn [negb orb] in *. inv_next. take_next. cbn [negb] in *. inv_next. }
  rewrite (bool_decide_true (Some c <> None)) in * by done. cbn [andb] in *. destruct (cd_Revoked c) eqn:Erev; cbn [negb] in *; inv_next; take_next;
    cbn [w_repo] in *; rewrite Hr, andb_false_r in *; inv_next; take_next; rewrite Erev in *; cbn [orb negb] in *.
  - inv_next. take_next. cbn [negb] in *. inv_next.
  - rewrite orb_false_r in *. destruct (negb (negb _)); cbn [negb] in *; inv_next; take_next; cbn [negb] in *; inv_next.
    destruct (After _ _); cbn [negb] in *; inv_next. take_next. by split_and!.
Qed.

(** A revoked credential is refused. *)
Lemma check_refresh_revoked token (w : RW) c :
  w_repo w = None -> sv_refresh (w_srv w) !! token_key token = Some c -> cd_Revoked c = true ->
  (check_refresh token w).1 =
    Reply (WriteError StatusUnauthorized (New CodeAccessInvalid "refresh credential invalid")).
Proof.
  intros Hr Hc Hrev. unfold check_refresh, mbind, H_bind, gets, has_repo, mret, H_ret. fold (token_key token).
  rewrite Hc. cbn [default from_option Datatypes.id]. rewrite Hrev. rewrite bool_decide_true by done. cbn [negb andb].
  by rewrite Hrev.
Qed.

Lemma issueCredentials_memory domainID deviceID (w : RW) a f w' :
  w_repo w = None -> issueCredentials domainID deviceID w = (Next (Ok (a, f)), w') ->
  (exists token now, a = new_credential domainID deviceID token now (15 * Minute)) /\
  (exists token now, f = new_credential domainID deviceID token now (24 * Hour)) /\ w_repo w' = None /\
  w_srv w' = set_sv_refresh (<[go_string (cd_Hash f) := f]> (sv_refresh (w_srv w)))
               (set_sv_access (<[go_string (cd_Hash a) := a]> (sv_access (w_srv w))) (w_srv w)).
Proof.
  intros Hr Hi. unfold issueCredentials in Hi. inv_next. unfold draw in *.
  repeat match goal with Ht : (let '(_, _) := randomToken ?x in _) = _ |- _ => destruct (randomToken x) as [? ?] end.
  take_next. cbn [w_repo w_rand] in *.
  repeat match goal with Ht : (let '(_, _) := randomToken ?x in _) = _ |- _ => destruct (randomToken x) as [? ?] end.
  take_next. cbn [w_repo] in *. rewrite Hr in *. inv_next. take_next. cbn [w_srv w_repo set_sv_access sv_refresh] in *.
  match goal with Hp : (_, _) = (a, f) |- _ => injection Hp as <- <- end.
  split_and!; [by eexists _, _|by eexists _, _|done|done].
Qed.


(** ** Revoking access *)

Lemma revoke_device_creds_revoked deviceID m k c :
  revoke_device_creds deviceID m !! k = Some c -> cd_DeviceID c = deviceID -> cd_Revoked c = true.
Proof.
  rewrite revoke_device_creds_lookup. intros (c0 & _ & ->)%fmap_Some. case_bool_decide; [done|]. intros. done.
Qed.

Lemma authenticateAccess_repo r (w : RW) o w' : w_repo w = None -> authenticateAccess r w = (o, w') -> w_repo w' = None.
Proof.
  intros Hr Ha. assert (memory_only (authenticateAccess r)) as Hm.
  { unfold authenticateAccess, verifyAccessProof, lookupIdentity, verifyProof. in_memory. }
  specialize (Hm w Hr). by rewrite Ha in Hm.
Qed.

Lemma envelopes_authenticated r (w : RW) resp w' :
  envelopes r w = (Next resp, w') -> exists cred w1, authenticateAccess r w = (Next (Ok cred), w1).
Proof. intros He. unfold envelopes in He. inv_next. by eexists _, _. Qed.


(** ** Registration *)

Lemma bindIdentity_memory id (w : RW) a f w' :
  w_repo w = None -> bindIdentity id w = (Next (JSON StatusOK (RCredentials a f)), w') ->
  cd_DeviceID a = di_DeviceID id /\ cd_DeviceID f = di_DeviceID id /\ sv_tickets (w_srv w') = sv_tickets (w_srv w).
Proof.
  intros Hr Hb. unfold bindIdentity, persistDevice in Hb. inv_next. rewrite Hr in *. cbn [negb] in *. inv_next. take_next.
  match goal with Hi : issueCredentials _ _ _ = (Next (Ok ?p), _) |- _ => destruct p as [a' f'] end.
  match goal with Hi : issueCredentials _ _ _ = _ |- _ =>
    apply issueCredentials_memory in Hi as ((t1 & n1 & Ea) & (t2 & n2 & Ef) & _ & Hsrv); [|done] end.
  match goal with Hj : WriteJSON _ _ = JSON _ _ |- _ => unfold WriteJSON in Hj; injection Hj as Ha Hf end.
  cbn [fst snd w_srv sv_tickets set_sv_devices] in *. rewrite Hsrv. by subst.
Qed.


End server.

(** ** A concrete relay *)

Import ToyCrypto TruncatingServer InsertionSort ToyRequests.

#[local] Instance toy_url : Url := {| url_parse s := None; to_lower s := s |}.
#[local] Instance toy_websocket : WebSocket := {| ws_upgrade check r := if check r then None else Some StatusForbidden |}.
#[local] Instance toy_relay_identity : UnmarshalInto DeviceIdentity := {| unmarshal_into old b := Ok old |}.

(** The devices "alice" and "bob" and their keys. *)
Definition toy_party (name : string) : Device := toy_device (if bool_decide (name = "bob") then x02 else x01) name.

#[local] Instance toy_decode_bind : Decode bindSelfRequest :=
  {| decode b :=
       let dev := toy_party (toy_field "device" b) in
       proof ← CreateProof dev "r1" "c" (toy_field "nonce" b) t0;
       Ok (mkBindSelfRequest (dev_Identity dev) proof) |}.

#[local] Instance toy_decode_register : Decode registerTicketRequest :=
  {| decode b :=
       let dev := toy_party (toy_field "device" b) in
       proof ← CreateProof dev "r1" "t1" (toy_field "nonce" b) t0;
       Ok (mkRegisterTicketRequest "" 0 (Some toy_signed_ticket) (dev_Identity dev) proof) |}.

#[local] Instance toy_decode_refresh : Decode refreshRequest := {| decode b := Ok (mkRefreshRequest (toy_field "refresh" b)) |}.

#[local] Instance toy_decode_revoke_access : Decode revokeAccessRequest :=
  {| decode b := Ok (mkRevokeAccessRequest (toy_field "device_id" b)) |}.

#[local] Instance toy_decode_raw : Decode RawMessage := {| decode b := Ok (mkRawMessage b) |}.

Definition toy_string (k : string) (l : list (string * Value)) : string :=
  match assoc k l with Some (JStr s) => s | _ => "" end.

#[local] Instance toy_decode_meta : Decode envelopeMeta :=
  {| decode b :=
       match ParseStrict b with
       | Ok (JObj l) => Ok (mkEnvelopeMeta (toy_string "domain_id" l) (toy_string "message_id" l)
                              (toy_string "sender_device_id" l) (toy_string "recipient_device_id" l) (mkRouteMeta 60 5))
       | _ => Err err_json
       end |}.

#[local] Instance toy_decode_map : Decode (gmap string Value) :=
  {| decode b := match ParseStrict b with Ok (JObj l) => Ok (list_to_map l) | _ => Err err_json end |}.

#[local] Instance toy_decode_proof : Decode DeviceProof := {| decode b := Err err_json |}.

Definition toy_relay_config (profile : Profile) : RelayConfig :=
  mkRelayConfig "dom" "r1" "https://r1.example" "wss://r1.example" (DefaultGate profile) "admin" ["https://app.example"]
    (Some (dev_Identity (toy_device x07 "root"))).

Definition toy_entropy : reader := flat_map (fun n => replicate 32 (z2b (Z.of_nat n))) (seq 1 12).

Definition toy_relay (profile : Profile) : World RelayServer RelayTables :=
  match NewRelayServer (toy_relay_config profile) None toy_entropy (fun _ => t0) with
  | Ok w => w
  | Err _ => mkWorld (mkRelayServer (toy_relay_config profile) (toy_device x07 "r1-signer") (NewLimiter 0 0) NewCache
                        (NewQueue relayMaxQueuedBytes) ∅ ∅ ∅ ∅ ∅ ∅) None (fun _ => t0) toy_entropy
  end.

(** A client that answers with the proof of a device and takes every frame. *)
Definition toy_peer (name : string) : Peer :=
  mkPeer (fun challenge => CreateProof (toy_party name) "r1" challenge "n9" t0) (fun _ => true).

Definition toy_call (path : string) (body : list string) : Peer * Request := (toy_peer "alice", toy_post path body).

Definition toy_bind (name nonce : string) : Peer * Request :=
  toy_call "/v2/relay/devices/bind-self" ["device=" +:+ name; "nonce=" +:+ nonce].

(** Two registered devices. *)
Definition toy_bound : World RelayServer RelayTables :=
  serve_all [toy_bind "alice" "n1"; toy_bind "bob" "n2"] (toy_relay ProfileLocalLab).

(** The tokens "alice" got: the second and third blocks of randomness. *)
Definition toy_access : string := Base64URL (replicate 32 x02).
Definition toy_refresh : string := Base64URL (replicate 32 x03).

Definition toy_envelope_text : bytes :=
  encode (JObj [("domain_id", JStr "dom"); ("message_id", JStr "m1"); ("sender_device_id", JStr "alice");
                ("recipient_device_id", JStr "bob")]).

Definition toy_send : Request :=
  mkRequest "POST" "/v2/relay/envelopes" ∅ {["Authorization" := "Bearer " +:+ toy_access]} "192.0.2.7:99" toy_envelope_text.

Definition toy_connect : Request := mkRequest "GET" "/v2/relay/connect" ∅ ∅ "192.0.2.8:99" [].

Definition toy_revoke_alice : Request :=
  mkRequest "POST" "/v2/relay/devices/revoke-access" ∅ {["Authorization" := "Bearer " +:+ toy_access]} "192.0.2.7:99"
    (go_bytes "device_id=alice").

Definition toy_refresh_request : Request :=
  toy_post "/v2/relay/devices/refresh-access" ["refresh=" +:+ toy_refresh].

Lemma pair_first {A B} (p : A * B) a : p.1 = a -> p = (a, p.2).
Proof. destruct p. by intros <-. Qed.

(** What the concrete handlers answer. *)
Definition toy_sent := handle (envelopes toy_send) toy_bound.
Definition toy_delivered := handle (connect (toy_peer "bob") toy_connect) toy_sent.2.
Definition toy_revoked := handle (revokeAccess toy_revoke_alice) toy_bound.
Definition toy_refreshed := handle (refreshAccess toy_refresh_request) toy_bound.
Definition toy_registered :=
  handle (registerWithTicket (toy_call "/v2/relay/devices/register-with-ticket" ["device=bob"; "nonce=n3"]).2)
    (toy_relay ProfileProduction).

Definition toy_frames : list Frame := [FChallenge (Base64URL (replicate 32 x06)); FReady; FMessage "m1" toy_envelope_text; FDrained 1].

Definition toy_receipt : deliveryReceipt := mkDeliveryReceipt "iscp.delivery_receipt.v2" "receipt-m1" "m1" "dom" "r1" "queued" t0.

Lemma toy_sent_ok : toy_sent = (JSON StatusAccepted (RReceipt toy_receipt), toy_sent.2).
Proof. apply pair_first. vm_compute. reflexivity. Qed.

Lemma toy_delivered_ok : toy_delivered = (JSON StatusSwitchingProtocols (RFrames toy_frames), toy_delivered.2).
Proof. apply pair_first. vm_compute. reflexivity. Qed.

Lemma toy_revoked_ok : toy_revoked = (JSON StatusOK (RStatus "revoked"), toy_revoked.2).
Proof. apply pair_first. vm_compute. reflexivity. Qed.

Lemma toy_refreshed_ok : exists a f, toy_refreshed = (JSON StatusOK (RCredentials a f), toy_refreshed.2) /\
  cd_Hash f <> SHA256 (go_bytes toy_refresh).
Proof.
  eexists _, _. split; [apply pair_first; vm_compute; reflexivity|].
  vm_compute. discriminate.
Qed.

Lemma toy_registered_ok : exists a f, toy_registered = (JSON StatusOK (RCredentials a f), toy_registered.2).
Proof. eexists _, _. apply pair_first. vm_compute. reflexivity. Qed.

Lemma toy_relay_new : NewRelayServer (toy_relay_config ProfileLocalLab) None toy_entropy (fun _ => t0) = Ok (toy_relay ProfileLocalLab).
Proof. vm_compute. reflexivity. Qed.

Lemma relay_state_ok_witness : filed (sv_access (w_srv toy_bound)).
Proof.
  exact (proj1 (proj2 (proj2 (relay_state_ok _ _ _ _ _ [toy_bind "alice" "n1"; toy_bind "bob" "n2"] toy_relay_new)))).
Defined.

Lemma relay_tickets_refine_witness :
  let '(r, m) := consumeTicket ∅ "t1" 2 in
  let '(r', s) := consume NewTicketStore "t1" 2 in
  r = r' /\ tickets_agree m s /\ tickets_positive m.
Proof. apply (relay_tickets_refine ∅ NewTicketStore "t1" 2); [done|apply map_Forall_empty|lia]. Defined.

Lemma connection_serves_prover_witness : transcript toy_frames.
Proof.
  refine (proj1 (connection_serves_prover (toy_peer "bob") toy_connect toy_sent.2 toy_frames _ _ toy_delivered_ok)).
  vm_compute. reflexivity.
Defined.

Lemma revoked_never_connected_witness :
  exists fs w2, handle (connect (toy_peer "alice") toy_connect) (serve_all [toy_bind "alice" "n3"] toy_revoked.2)
    = (JSON StatusSwitchingProtocols (RFrames fs), w2) /\ FReady ∉ fs.
Proof.
  destruct (handle (connect (toy_peer "alice") toy_connect) (serve_all [toy_bind "alice" "n3"] toy_revoked.2)) as [resp w2] eqn:E.
  assert (exists fs, resp = JSON StatusSwitchingProtocols (RFrames fs)) as [fs ->].
  { change resp with (resp, w2).1. rewrite <- E. vm_compute. by eexists. }
  exists fs, w2. split; [reflexivity|].
  refine (proj1 (revoked_never_connected toy_bound toy_revoke_alice (mkRevokeAccessRequest "alice") _ _ [toy_bind "alice" "n3"] _ _ _ _
    _ toy_revoked_ok _ E)).
  - vm_compute. reflexivity.
  - intros challenge proof. cbn [peer_reply toy_peer]. unfold CreateProof, sign_object. intros Hp. by inv_ok.
Defined.





Lemma toy_bound_ok : relay_ok (w_srv toy_bound).
Proof. apply (steps_keep relay_ok); [apply relay_ok_step|exact (NewRelayServer_ok _ _ _ _ _ toy_relay_new)]. Qed.


(** *** What the relay does not prevent *)

(** A revoked device that binds again gets new credentials, and its envelopes are
    accepted with them: only connections (and, in production, the proof of possession)
    look at the revocation. *)
Example revoked_device_sends_again :
  let w := serve_all [toy_bind "alice" "n3"] toy_revoked.2 in
  let access := Base64URL (replicate 32 x06) in
  let send := mkRequest "POST" "/v2/relay/envelopes" ∅ {["Authorization" := "Bearer " +:+ access]} "192.0.2.7:99" toy_envelope_text in
  "alice" ∈ sv_revoked (w_srv w) /\ response_status (handle (envelopes send) w).1 = StatusAccepted.
Proof. split; [apply (bool_decide_unpack _)|]; vm_compute; done. Qed.

(** Two refreshes with the same token that both pass the checks before either revokes
    it both get credentials: the checks and the exchange are not one atomic step. *)
Example refresh_race :
  match check_refresh toy_refresh toy_bound with
  | (Next cred1, w1) =>
      match check_refresh toy_refresh w1 with
      | (Next cred2, w2) =>
          let '(resp1, w3) := handle (exchange_refresh toy_refresh cred1) w2 in
          let '(resp2, _) := handle (exchange_refresh toy_refresh cred2) w3 in
          response_status resp1 = StatusOK /\ response_status resp2 = StatusOK
      | _ => False
      end
  | _ => False
  end.
Proof. vm_compute. done. Qed.

(** Anyone can take over a device identifier: a binding proves possession of the key it
    brings, and replaces the identity the relay had. *)
Example bind_replaces_identity :
  let mallory := toy_device x09 "alice" in
  forall w : World RelayServer RelayTables, sv_devices (w_srv (handle (bindIdentity (dev_Identity mallory)) (mkWorld (w_srv w) None (w_clock w) (w_rand w))).2)
    !! "alice" = Some (dev_Identity mallory).
Proof. intros mallory w. apply lookup_insert_eq. Qed.

(** Without a database a message leaves the queue before it is written: if the client
    goes away in between, the message is lost. *)
Example lost_when_client_leaves :
  let leaving := mkPeer (peer_reply (toy_peer "bob")) (fun n => (n <? 2)%nat) in
  let '(resp, w) := handle (connect leaving toy_connect) toy_sent.2 in
  length (q_messages (sv_queue (w_srv toy_sent.2))) = 1%nat /\ q_messages (sv_queue (w_srv w)) = [] /\
  resp = JSON StatusSwitchingProtocols (RFrames [FChallenge (Base64URL (replicate 32 x06)); FReady]).
Proof. vm_compute. done. Qed.
