(* ===== verification/Runner.v ===== *)
(** * Programs that run tests against the libraries and services

    What [conformance/runner.go] and the command-line tools need of the machine
    they run on: randomness, the clock, an HTTP client; and the pieces of [fmt],
    [strconv] and [strings] they format text with.

    A computation may return, fail with an error, be skipped ([skipError]) or
    panic.  The services at the other end of the HTTP client are a state [S]. *)
From Stdlib Require Import ZArith Lia Strings.Byte Floats.SpecFloat.
From stdpp Require Import numbers gmap strings base list.
From S2P Require Import Prelude Errors Utf8 GoJson GoTime Base64 Sha256 Crypto GoStrings.
Open Scope Z_scope.

(** ** Text *)

(** [unicode.IsPrint] beyond ASCII. *)
Class Unicode := { is_print : Z -> bool }.

Definition hex (n : nat) (z : Z) : bytes :=
  map (fun i => hex_digit (z / 16 ^ Z.of_nat i mod 16)) (rev (seq 0 n)).

(** [strconv.Quote], the verb [%q]. *)
Definition quote_go_rune `{Unicode} (p : Z * bytes) : bytes :=
  let r := p.1 in
  if bad_rune p then go_bytes "\x" ++ flat_map (fun b => hex 2 (b2z b)) p.2
  else if (r =? 34) || (r =? 92) then x5c :: p.2
  else if if r <? 128 then (32 <=? r) && (r <? 127) else is_print r then p.2
  else if r =? 7 then go_bytes "\a" else if r =? 8 then go_bytes "\b" else if r =? 12 then go_bytes "\f"
  else if r =? 10 then go_bytes "\n" else if r =? 13 then go_bytes "\r" else if r =? 9 then go_bytes "\t"
  else if r =? 11 then go_bytes "\v"
  else if (r <? 32) || (r =? 127) then go_bytes "\x" ++ hex 2 r
  else if r <? 0x10000 then go_bytes "\u" ++ hex 4 r
  else go_bytes "\U" ++ hex 8 r.

Definition Quote `{Unicode} (s : string) : string :=
  go_string (x22 :: flat_map quote_go_rune (runes (go_bytes s)) ++ [x22]).

(** The verb [%d], [fmt.Sprint] of an integer. *)
Definition Itoa (z : Z) : string := go_string (format_int z).

(** [strings.TrimRight(s, "/")]. *)
Fixpoint drop_byte (c : byte) (s : bytes) : bytes :=
  match s with
  | b :: s' => if bool_decide (b = c) then drop_byte c s' else s
  | [] => []
  end.

Definition TrimRightSlash (s : string) : string := go_string (rev (drop_byte "/"%byte (rev (go_bytes s)))).

(** [len(s)] of a string. *)
Definition strlen (s : string) : Z := Z.of_nat (length (go_bytes s)).

(** ** float64 *)

Definition float64 (z : Z) : spec_float := binary_normalize 53 1024 z 0 false.

Definition fdiv (a b : spec_float) : spec_float := SFdiv 53 1024 a b.

(** 0.95 *)
Definition float_095 : spec_float := S754_finite false 8556839292003942 (-53).

(** The verb [%.2f]: the exact value rounded to even. *)
Definition format_2f (f : spec_float) : string :=
  let sign (s : bool) := if s then "-" else "" in
  match f with
  | S754_zero s => sign s +:+ "0.00"
  | S754_infinity s => (if s then "-" else "+") +:+ "Inf"
  | S754_nan => "NaN"
  | S754_finite s m e =>
      let den := 2 ^ Z.max 0 (- e) in
      let num := 100 * Z.pos m * 2 ^ Z.max 0 e in
      let q := num / den in
      let r := 2 * (num mod den) in
      let q := if (den <? r) || ((r =? den) && Z.odd q) then q + 1 else q in
      sign s +:+ go_string (format_int (q / 100) ++ "."%byte :: pad 2 (q mod 100))
  end.

Example format_2f_samples :
  map (fun p => format_2f (fdiv (float64 p.1) (float64 p.2))) [(1, 3); (19, 20); (1, 8); (3, 8); (-5, 4); (7, 1)] =
  ["0.33"; "0.95"; "0.12"; "0.38"; "-1.25"; "7.00"].
Proof. vm_compute. reflexivity. Qed.

(** ** HTTP *)

Record HttpRequest := mkHttpRequest {
  hr_Method : string;
  hr_URL : string;
  hr_Header : gmap string string;
  hr_Body : bytes
}.

Record HttpResponse := mkHttpResponse { hp_Status : Z; hp_Body : bytes }.

(** Building a request ([http.NewRequestWithContext]) and performing it
    ([http.Client.Do]): either may fail; the services move on. *)
Class HttpClient (S : Type) := { http_do : HttpRequest -> S -> result HttpResponse * S }.

(** ** Computations *)

Record Machine (S : Type) := mkMachine {
  mc_rand : reader;
  mc_clock : nat -> Time;
  mc_text : nat -> string;  (** what [time.Now().String()] returns next *)
  mc_net : S
}.
Arguments mkMachine {S} _ _ _ _.
Arguments mc_rand {S} _.
Arguments mc_clock {S} _ _.
Arguments mc_text {S} _ _.
Arguments mc_net {S} _.

Inductive ran (A : Type) :=
| Returned (a : A)
| Failed (e : error)
| Skipped (reason : string)
| Panicked.
Arguments Returned {A} _.
Arguments Failed {A} _.
Arguments Skipped {A} _.
Arguments Panicked {A}.

Definition M (S A : Type) : Type := Machine S -> ran A * Machine S.

#[export] Instance M_ret {S} : MRet (M S) := fun A a m => (Returned a, m).

#[export] Instance M_bind {S} : MBind (M S) := fun A B f c m =>
  match c m with
  | (Returned a, m) => f a m
  | (Failed e, m) => (Failed e, m)
  | (Skipped r, m) => (Skipped r, m)
  | (Panicked, m) => (Panicked, m)
  end.

Section machine.
  Context {S : Type}.

(** [if err != nil { return ..., err }]. *)
Definition try {A} (r : result A) : M S A := fun m =>
  match r with
  | Ok a => (Returned a, m)
  | Err e => (Failed e, m)
  end.

(** [return ..., fmt.Errorf(...)]. *)
Definition fail {A} (what : string) : M S A := fun m => (Failed (PlainError what), m).

Definition skip {A} (reason : string) : M S A := fun m => (Skipped reason, m).

Definition ensure (b : bool) (what : string) : M S unit := if b then mret tt else fail what.

(** [if err := ...; err == nil { return ..., fmt.Errorf(what) }]. *)
Definition rejected {A} (r : result A) (what : string) : M S unit := ensure (negb (is_ok r)) what.

(** A function that reads from the provider's source of randomness. *)
Definition with_rand {A} (f : reader -> A * reader) : M S A := fun m =>
  let '(a, rand) := f (mc_rand m) in (Returned a, mkMachine rand (mc_clock m) (mc_text m) (mc_net m)).

Definition try_rand {A} (f : reader -> result A * reader) : M S A := r ← with_rand f; try r.

(** [crypto.RandomBytes]. *)
Definition RandomBytes (n : nat) : M S bytes :=
  b ← with_rand (ReadFull n);
  match b with
  | Some b => mret b
  | None => fun m => (Panicked, m)
  end.

(** [time.Now()]. *)
Definition time_now : M S Time := fun m =>
  (Returned (mc_clock m O), mkMachine (mc_rand m) (fun n => mc_clock m (1 + n)%nat) (mc_text m) (mc_net m)).

(** [time.Now().String()], with the monotonic reading it shows. *)
Definition time_now_string : M S string := fun m =>
  (Returned (mc_text m O), mkMachine (mc_rand m) (mc_clock m) (fun n => mc_text m (1 + n)%nat) (mc_net m)).

(** Runs a computation up to its error; a panic goes on. *)
Definition attempt {A} (c : M S A) : M S (A + (error + string)) := fun m =>
  match c m with
  | (Returned a, m) => (Returned (inl a), m)
  | (Failed e, m) => (Returned (inr (inl e)), m)
  | (Skipped reason, m) => (Returned (inr (inr reason)), m)
  | (Panicked, m) => (Panicked, m)
  end.

Definition send_http `{HttpClient S} (r : HttpRequest) : M S HttpResponse := fun m =>
  let '(a, net) := http_do r (mc_net m) in
  try a (mkMachine (mc_rand m) (mc_clock m) (mc_text m) net).

End machine.

(** ** Reasoning about computations *)

Section facts.
  Context {S : Type}.

Lemma M_bind_Returned {A B} (c : M S A) (f : A -> M S B) m b m' :
  (c ≫= f) m = (Returned b, m') <-> exists a m1, c m = (Returned a, m1) /\ f a m1 = (Returned b, m').
Proof. unfold mbind, M_bind. destruct (c m) as [[a|e|s|] m1]; naive_solver. Qed.

Lemma M_bind_step {A B} (c : M S A) (f : A -> M S B) m a m1 r : c m = (Returned a, m1) -> f a m1 = r -> (c ≫= f) m = r.
Proof. intros E <-. unfold mbind, M_bind. by rewrite E. Qed.

(** With [n] bytes of randomness at hand the computation returns, with a value that
    satisfies [Q], has read exactly those, and has left the services alone. *)
Definition runs {A} (n : nat) (c : M S A) (Q : A -> Prop) : Prop := forall m,
  (n <= length (mc_rand m))%nat ->
  exists a m', c m = (Returned a, m') /\ Q a /\ mc_rand m' = drop n (mc_rand m) /\ mc_net m' = mc_net m.

(** The same where the bytes to come satisfy [P]. *)
Definition runs_if {A} (P : reader -> Prop) (n : nat) (c : M S A) (Q : A -> Prop) : Prop := forall m,
  (n <= length (mc_rand m))%nat -> P (mc_rand m) ->
  exists a m', c m = (Returned a, m') /\ Q a /\ mc_rand m' = drop n (mc_rand m) /\ mc_net m' = mc_net m.

Lemma runs_runs_if {A} P n (c : M S A) Q : runs n c Q -> runs_if P n c Q.
Proof. intros H m Hm _. by apply H. Qed.

Lemma runs_if_bind {A B} P P' n k (c : M S A) (f : A -> M S B) Q R :
  runs_if P n c Q -> (forall a, Q a -> runs_if P' k (f a) R) ->
  runs_if (fun r => P r /\ P' (drop n r)) (n + k) (c ≫= f) R.
Proof.
  intros Hc Hf m Hm [HP HP']. destruct (Hc m) as (a & m1 & E & Ha & Er & En); [lia|done|].
  destruct (Hf a Ha m1) as (b & m2 & E2 & Hb & Er2 & En2); [rewrite Er, length_drop; lia|by rewrite Er|].
  exists b, m2. split_and!; [unfold mbind, M_bind; by rewrite E|done| |by rewrite En2]. by rewrite Er2, Er, drop_drop.
Qed.

Lemma runs_if_then {A B} P n k (c : M S A) (f : A -> M S B) Q R :
  runs_if P n c Q -> (forall a, Q a -> runs k (f a) R) -> runs_if P (n + k) (c ≫= f) R.
Proof.
  intros Hc Hf m Hm HP.
  apply (runs_if_bind P (fun _ => True) n k c f Q R Hc (fun a Ha => runs_runs_if _ _ _ _ (Hf a Ha)) m Hm (conj HP I)).
Qed.

Lemma runs_bind {A B} n k (c : M S A) (f : A -> M S B) Q R :
  runs n c Q -> (forall a, Q a -> runs k (f a) R) -> runs (n + k) (c ≫= f) R.
Proof.
  intros Hc Hf m Hm.
  apply (runs_if_bind (fun _ => True) (fun _ => True) n k c f Q R (runs_runs_if _ _ _ _ Hc) (fun a Ha => runs_runs_if _ _ _ _ (Hf a Ha)));
    done.
Qed.

Lemma runs_weaken {A} n (c : M S A) (Q R : A -> Prop) : runs n c Q -> (forall a, Q a -> R a) -> runs n c R.
Proof. intros Hc HQ m Hm. destruct (Hc m Hm) as (a & m' & ? & ? & ?). eauto 6. Qed.

Lemma runs_ret {A} (a : A) (Q : A -> Prop) : Q a -> runs 0 (mret a : M S A) Q.
Proof. intros H m _. exists a, m. done. Qed.

Lemma runs_try {A} r (a : A) (Q : A -> Prop) : r = Ok a -> Q a -> runs 0 (try r : M S A) Q.
Proof. intros -> H m _. exists a, m. done. Qed.

Lemma runs_ensure b what : b = true -> runs 0 (ensure b what : M S unit) (fun _ => True).
Proof. intros -> m _. by exists tt, m. Qed.

Lemma runs_rejected {A} (r : result A) what : is_ok r = false -> runs 0 (rejected r what : M S unit) (fun _ => True).
Proof. intros H. apply runs_ensure. by rewrite H. Qed.

Lemma runs_rand {A} n (f : reader -> result A * reader) (Q : A -> Prop) :
  (forall r, (n <= length r)%nat -> exists a, f r = (Ok a, drop n r) /\ Q a) -> runs n (try_rand f : M S A) Q.
Proof.
  intros Hf m Hm. destruct (Hf _ Hm) as (a & E & Ha).
  exists a, (mkMachine (drop n (mc_rand m)) (mc_clock m) (mc_text m) (mc_net m)).
  split_and!; [|done..]. unfold try_rand, mbind, M_bind, with_rand. by rewrite E.
Qed.

Lemma runs_random n : runs n (RandomBytes n : M S bytes) (fun b => length b = n).
Proof.
  intros m Hm. exists (take n (mc_rand m)), (mkMachine (drop n (mc_rand m)) (mc_clock m) (mc_text m) (mc_net m)).
  unfold RandomBytes, mbind, M_bind, with_rand, ReadFull. destruct (Nat.ltb_spec (length (mc_rand m)) n); [lia|].
  split_and!; [done|rewrite length_take; lia|done..].
Qed.

(** The same, with what follows. *)
Lemma runs_try_then {A B} n r (a : A) (f : A -> M S B) Q : r = Ok a -> runs n (f a) Q -> runs n (try r ≫= f) Q.
Proof. intros -> H. exact H. Qed.

Lemma runs_ensure_then {B} n b what (f : unit -> M S B) Q : b = true -> runs n (f tt) Q -> runs n (ensure b what ≫= f) Q.
Proof. intros -> H. exact H. Qed.

Lemma runs_rejected_then {A B} n (r : result A) what (f : unit -> M S B) Q :
  is_ok r = false -> runs n (f tt) Q -> runs n (rejected r what ≫= f) Q.
Proof. intros E. apply runs_ensure_then. by rewrite E. Qed.

Lemma runs_clock : runs 0 (time_now : M S Time) (fun _ => True).
Proof. intros m _. by eexists _, _. Qed.

(** A computation that does not panic. *)
Definition safe {A} (c : M S A) : Prop := forall m, (c m).1 <> Panicked.

Lemma safe_bind {A B} (c : M S A) (f : A -> M S B) : safe c -> (forall a, safe (f a)) -> safe (c ≫= f).
Proof. intros Hc Hf m. unfold mbind, M_bind. specialize (Hc m). destruct (c m) as [[a|e|s|] m1]; cbn; try done. apply Hf. Qed.

Lemma safe_ret {A} (a : A) : safe (mret a : M S A).
Proof. done. Qed.

Lemma safe_try {A} (r : result A) : safe (try r : M S A).
Proof. intros m. by destruct r. Qed.

Lemma safe_fail {A} what : safe (fail what : M S A).
Proof. done. Qed.

Lemma safe_skip {A} what : safe (skip what : M S A).
Proof. done. Qed.

Lemma safe_ensure b what : safe (ensure b what : M S unit).
Proof. by destruct b. Qed.

Lemma safe_rand {A} (f : reader -> result A * reader) : safe (try_rand f : M S A).
Proof. intros m. unfold try_rand, mbind, M_bind, with_rand. destruct (f (mc_rand m)) as [[a|e] r]; done. Qed.

Lemma safe_clock : safe (time_now : M S Time).
Proof. done. Qed.

Lemma safe_http `{HttpClient S} r : safe (send_http r : M S HttpResponse).
Proof. intros m. unfold send_http. destruct (http_do r (mc_net m)) as [[a|e] s]; done. Qed.

End facts.

#[export] Hint Resolve safe_ret safe_try safe_fail safe_skip safe_ensure safe_rand safe_clock safe_http : safe.
