(* ===== verification/Conformance.v ===== *)
(** * The conformance runner: [conformance/runner.go] and [conformance/runner_v02.go]

    Suites of cases that exercise the libraries and, over HTTP, the services; the
    report they produce; the checks a report must pass.  The HTTP client, the
    decoding of JSON into structs and the command-line workflows are parameters. *)
From Stdlib Require Import ZArith Lia Strings.Byte Floats.SpecFloat.
From stdpp Require Import numbers gmap strings base list.
From S2P Require Import Prelude Errors Utf8 GoJson Canonical GoTime Base64 Sha256 Crypto Signed Identity Trust.
From S2P Require Import Session Control Envelope Provisioning GoStrings Config Recovery Descriptor AuditHash Payload Logging.
From S2P Require Import Sorting Queue Keyring TrustServer Runner.
Open Scope Z_scope.

Definition ReportType : string := "iscp.conformance.report.v2".

Definition StatusPass : string := "pass".
Definition StatusFail : string := "fail".
Definition StatusSkip : string := "skip".

Definition PriorityP0 : string := "P0".
Definition PriorityP1 : string := "P1".

(** A [map[string]string]. *)
Abbreviation Evidence := (gmap string string).

Record Options (S : Type) := mkOptions {
  op_Version : string;
  op_RelayEndpoint : string;
  op_TrustEndpoint : string;
  op_AdminToken : string;
  op_CLIRunner : option (M S string);
  op_CLIWorkflows : option (M S Evidence);
  op_Now : Time
}.
Arguments mkOptions {S} _ _ _ _ _ _ _.
Arguments op_Version {S} _.
Arguments op_RelayEndpoint {S} _.
Arguments op_TrustEndpoint {S} _.
Arguments op_AdminToken {S} _.
Arguments op_CLIRunner {S} _.
Arguments op_CLIWorkflows {S} _.
Arguments op_Now {S} _.

Record Summary := mkSummary {
  sm_SuiteCount : Z; sm_CaseCount : Z; sm_Passed : Z; sm_Failed : Z; sm_Skipped : Z }.

Record CaseReport := mkCaseReport {
  cr_ID : string;
  cr_Name : string;
  cr_Status : string;
  cr_DurationMS : Z;
  cr_Error : string;
  cr_SkipReason : string;
  cr_Evidence : Evidence
}.

Record SuiteReport := mkSuiteReport {
  su_ID : string;
  su_Name : string;
  su_Priority : string;
  su_Required : bool;
  su_CaseCount : Z;
  su_Passed : Z;
  su_Failed : Z;
  su_Skipped : Z;
  su_DurationMS : Z;
  su_Cases : list CaseReport
}.

Record Report := mkReport {
  rp_Type : string;
  rp_Version : string;
  rp_Protocol : string;
  rp_GeneratedAt : Time;
  rp_DurationMS : Z;
  rp_Result : string;
  rp_ReleaseDecision : string;
  rp_Summary : Summary;
  rp_Endpoints : Evidence;
  rp_ResidualRisks : list string;
  rp_Suites : list SuiteReport
}.

Record caseDef (S : Type) := mkCaseDef { cd_id : string; cd_name : string; cd_run : Options S -> M S Evidence }.
Arguments mkCaseDef {S} _ _ _.
Arguments cd_id {S} _.
Arguments cd_name {S} _.
Arguments cd_run {S} _.

(** ** Checking a report *)

Definition summarize (suites : list SuiteReport) : Summary :=
  foldl (fun out su => mkSummary (sm_SuiteCount out) (sm_CaseCount out + su_CaseCount su) (sm_Passed out + su_Passed su)
                         (sm_Failed out + su_Failed su) (sm_Skipped out + su_Skipped su))
    (mkSummary (Z.of_nat (length suites)) 0 0 0 0) suites.

Section report.
  Context {R : MapRange} {U : Unicode}.

(** The suites [ValidateP0] asks for, with whether each has been seen. *)
Definition requiredSuites : gmap string bool := {["p0_core" := false; "p0_security_negative" := false]}.

Fixpoint check_required (required : gmap string bool) (suites : list SuiteReport) : result (gmap string bool) :=
  match suites with
  | [] => Ok required
  | suite :: suites =>
      match required !! su_ID suite with
      | None => check_required required suites
      | Some _ =>
          _ ← reject_if (su_CaseCount suite =? 0) (PlainError (su_ID suite +:+ " has no cases"));
          _ ← reject_if (0 <? su_Failed suite) (PlainError (su_ID suite +:+ " has failed cases"));
          _ ← reject_if (0 <? su_Skipped suite) (PlainError (su_ID suite +:+ " has skipped P0 cases"));
          check_required (<[su_ID suite := true]> required) suites
      end
  end.

Definition ValidateP0 (report : Report) : result unit :=
  _ ← reject_if (negb (bool_decide (rp_Type report = ReportType)))
        (PlainError ("unexpected conformance report type " +:+ Quote (rp_Type report)));
  _ ← reject_if (sm_CaseCount (rp_Summary report) =? 0) (PlainError "conformance report has no executed cases");
  required ← check_required requiredSuites (rp_Suites report);
  match List.filter (fun p : string * bool => negb p.2) (map_range required) with
  | [] => Ok tt
  | (id, _) :: _ => Err (PlainError ("missing required suite " +:+ id))
  end.

(** [float64(suite.Passed) / float64(suite.CaseCount)]. *)
Definition pass_rate (suite : SuiteReport) : spec_float := fdiv (float64 (su_Passed suite)) (float64 (su_CaseCount suite)).

Fixpoint check_release (suites : list SuiteReport) : result unit :=
  match suites with
  | [] => Ok tt
  | suite :: suites =>
      _ ← reject_if (su_CaseCount suite =? 0) (PlainError (su_ID suite +:+ " has no cases"));
      _ ← reject_if (0 <? su_Failed suite) (PlainError (su_ID suite +:+ " has failed cases"));
      _ ← reject_if (bool_decide (su_Priority suite = PriorityP1) &&
                     ((0 <? su_Skipped suite) || SFltb (pass_rate suite) float_095))
            (PlainError (su_ID suite +:+ " P1 pass rate " +:+ format_2f (pass_rate suite) +:+ " with " +:+
                         Itoa (su_Skipped suite) +:+ " skipped"));
      check_release suites
  end.

Definition ValidateRelease (report : Report) : result unit :=
  _ ← ValidateP0 report;
  _ ← reject_if (negb (bool_decide (rp_ReleaseDecision report = "go")) || negb (bool_decide (rp_Result report = StatusPass)))
        (PlainError ("release decision is " +:+ rp_ReleaseDecision report +:+ " with result " +:+ rp_Result report));
  check_release (rp_Suites report).

End report.

(** ** Running cases *)

Section run.
  Context {S : Type}.

(** [time.Since(start).Milliseconds()]. *)
Definition since_ms (start : Time) : M S Z := now ← time_now; mret (Z.quot (Sub now start) 1000000).

Definition runCase (opts : Options S) (c : caseDef S) : M S CaseReport :=
  start ← time_now;
  r ← attempt (cd_run c opts);
  ms ← since_ms start;
  let out status err reason evidence := mkCaseReport (cd_id c) (cd_name c) status ms err reason evidence in
  mret match r with
       | inl evidence => out StatusPass "" "" evidence
       | inr (inr reason) => out StatusSkip "" reason ∅
       | inr (inl e) => out StatusFail (RedactString (Error e)) "" ∅
       end.

Fixpoint runCases (opts : Options S) (cases : list (caseDef S)) : M S (list CaseReport) :=
  match cases with
  | [] => mret []
  | c :: cases => r ← runCase opts c; rs ← runCases opts cases; mret (r :: rs)
  end.

Definition count_status (status : string) (cases : list CaseReport) : Z :=
  Z.of_nat (length (List.filter (fun c => bool_decide (cr_Status c = status)) cases)).

Definition runSuite (opts : Options S) (id name priority : string) (required : bool) (cases : list (caseDef S))
    : M S SuiteReport :=
  start ← time_now;
  reports ← runCases opts cases;
  ms ← since_ms start;
  mret (mkSuiteReport id name priority required (Z.of_nat (length reports)) (count_status StatusPass reports)
          (count_status StatusFail reports) (count_status StatusSkip reports) ms reports).

(** What [Run] concludes from the suites: result, release decision, risks. *)
Definition verdict : Type := string * string * list string.

Definition judge (v : verdict) (suite : SuiteReport) : verdict :=
  let '(res, decision, risks) := v in
  if su_CaseCount suite =? 0 then (StatusFail, "no-go", risks ++ [su_ID suite +:+ " has no cases"])
  else
    let '(res, decision) := if 0 <? su_Failed suite then (StatusFail, "no-go") else (res, decision) in
    let '(res, decision, risks) :=
      if bool_decide (su_Priority suite = PriorityP0) && (0 <? su_Skipped suite)
      then (StatusFail, "no-go", risks ++ [su_ID suite +:+ " skipped required P0 cases"]) else (res, decision, risks) in
    if bool_decide (su_Priority suite = PriorityP1) && (0 <? su_Skipped suite)
    then (res, "no-go", risks ++ [su_ID suite +:+ " has skipped P1 cases"]) else (res, decision, risks).

Definition conclude (suites : list SuiteReport) : verdict :=
  let '(res, decision, risks) := foldl judge (StatusPass, "go", []) suites in
  if sm_CaseCount (summarize suites) =? 0
  then (StatusFail, "no-go", risks ++ ["no conformance cases executed"]) else (res, decision, risks).

End run.

(** ** Fixtures *)

Section fixtures.
  Context {C : CryptoOps} {S : Type}.

(** [identity.NewDevice(p, domain, id, now)]. *)
Definition new_device (domainID deviceID : string) (now : Time) : M S Device :=
  try_rand (fun rand => NewDevice rand domainID deviceID now).

Definition validGrantFixture (now : Time) : M S (Device * Device * Grant * VerifyOptions) :=
  issuer ← new_device "domain-a" "trust-root-a" now;
  subject ← new_device "domain-a" "device-a" now;
  tp ← try (IdentityThumbprint (dev_Identity subject));
  grant ← try (SignGrant issuer
    (mkGrant "" "grant-a" "" (di_DeviceID (dev_Identity subject)) "device-b" tp (Some ["text"]) ["relay-a"]
       (Add now (- Minute)) (Add now Hour) 1 noSignature));
  mret (issuer, subject, grant,
        mkVerifyOptions "device-b" (di_DeviceID (dev_Identity subject)) tp "text" "relay-a" 1 now).

Definition create_hello (dev : Device) (sessionID peer grantID : string) (now : Time) : M S LocalHello :=
  try_rand (fun rand => CreateHello rand dev sessionID peer grantID now).

Definition helloPair (now : Time) : M S (Device * Device * LocalHello * LocalHello) :=
  a ← new_device "domain-a" "device-a" now;
  b ← new_device "domain-a" "device-b" now;
  ha ← create_hello a "session-a" (di_DeviceID (dev_Identity b)) "grant-a" now;
  hb ← create_hello b "session-a" (di_DeviceID (dev_Identity a)) "grant-a" now;
  mret (a, b, ha, hb).

Definition readySessionFixture (now : Time) : M S (Device * Device * State * State) :=
  '(a, b, ha, hb) ← helloPair now;
  sa ← try (Establish ha (lh_Hello hb) (dev_Identity a) (dev_Identity b));
  sb ← try (Establish hb (lh_Hello ha) (dev_Identity b) (dev_Identity a));
  ra ← try (CreateReady sa a);
  rb ← try (CreateReady sb b);
  sa ← try (VerifyReady sa rb (dev_Identity b));
  sb ← try (VerifyReady sb ra (dev_Identity a));
  mret (a, b, sa, sb).

(** [json.RawMessage(`{"metadata_only":true}`)]. *)
Definition metadata_only : bytes := encode (JObj [("metadata_only", JBool true)]).

Definition fixture_bundle (bundleID : string) (watch : Device) (tp wrapped : string) (now : Time) (ttl : Z) : Bundle :=
  let raw := Some metadata_only in
  mkBundle "" bundleID (di_DeviceID (dev_Identity watch)) tp raw raw raw (Base64URL (go_bytes wrapped)) raw
    now (Add now ttl) noSignature.

Definition establish_channel (oob : string) : M S LocalChannel :=
  try_rand (fun rand => EstablishLocalChannel rand (go_bytes oob)).

Definition bundleFixture (now : Time) : M S (LocalChannel * Device * Device * Device * Bundle) :=
  issuer ← new_device "domain-a" "phone-a" now;
  watch ← new_device "domain-a" "watch-a" now;
  other ← new_device "domain-a" "watch-b" now;
  channel ← establish_channel "oob-secret";
  tp ← try (IdentityThumbprint (dev_Identity watch));
  bundle ← try (SignBundle issuer (fixture_bundle "bundle-a" watch tp "wrapped-refresh" now Minute));
  mret (channel, issuer, watch, other, bundle).

Definition expectGrantReject (now : Time) (mutate : VerifyOptions -> VerifyOptions) (message : string) : M S Evidence :=
  '(issuer, _, grant, opts) ← validGrantFixture now;
  _ ← rejected (VerifyGrant grant (dev_Identity issuer) (mutate opts)) message;
  mret {["rejected" := "true"]}.

End fixtures.

(** ** Cases of the libraries *)

Section cases.
  Context {C : CryptoOps} {SS : SortSlice} `{Decode Text} {S : Type} (unmarshal_expires : bytes -> result Time).

Definition did_reject : Evidence := {["rejected" := "true"]}.

Definition caseIdentityProofValid (opts : Options S) : M S Evidence :=
  dev ← new_device "domain-a" "device-a" (op_Now opts);
  proof ← try (CreateProof dev "relay-a" "challenge-a" "nonce-a" (op_Now opts));
  _ ← try (VerifyProof (dev_Identity dev) proof "relay-a" "challenge-a" (op_Now opts) Minute);
  mret {["device_id" := di_DeviceID (dev_Identity dev)]}.

Definition caseDescriptorValid (opts : Options S) : M S Evidence :=
  signer ← new_device "domain-a" "relay-a-signer" (op_Now opts);
  let key := di_PublicKey (dev_Identity signer) in
  let relayDesc := mkRelayDescriptor "iscp.relay.descriptor.v2" "relay-a" "domain-a" "https://relay-a.example.invalid"
    "wss://relay-a.example.invalid/v2/relay/connect"
    (Some [mkDescriptorKey "Ed25519" "descriptor-signature" (pk_KID key) (pk_Public key) ""])
    (op_Now opts) (Add (op_Now opts) Hour) ∅ in
  signed ← try (SignDescriptor signer (rdesc_Type relayDesc) (RelayDescriptor_json relayDesc) (op_Now opts));
  _ ← try (VerifyDescriptor unmarshal_expires signed (dev_Identity signer) (DefaultGate ProfileProduction) (op_Now opts));
  pin ← try (Pin signed);
  mret {["descriptor_type" := sd_DescriptorType signed; "pin_len" := Itoa (strlen pin)]}.

Definition caseTrustGrantValid (opts : Options S) : M S Evidence :=
  '(issuer, subject, grant, verifyOpts) ← validGrantFixture (op_Now opts);
  _ ← try (VerifyGrant grant (dev_Identity issuer) verifyOpts);
  mret {["grant_id" := gr_GrantID grant; "subject_device_id" := di_DeviceID (dev_Identity subject)]}.

Definition caseSessionReadyValid (opts : Options S) : M S Evidence :=
  '(_, _, sa, sb) ← readySessionFixture (op_Now opts);
  _ ← ensure (Ready (Some sa) && Ready (Some sb)) "session not ready";
  mret {["session_id" := st_SessionID sa]}.

(** [envelope.Encrypt] and [envelope.Decrypt] on sessions that are given by pointer. *)
Definition encrypt (s : State) (messageID payloadType : string) (route : Route) (body : bytes)
    : M S (SecureEnvelope * option State) :=
  let '(r, s) := Encrypt (Some s) messageID payloadType route body in
  env ← try r;
  mret (env, s).

Definition decrypt (s : option State) (env : SecureEnvelope) : M S (bytes * option State) :=
  let '(r, s) := Decrypt s env in
  plain ← try r;
  mret (plain, s).

Definition caseEnvelopeE2EValid (opts : Options S) : M S Evidence :=
  '(_, _, sa, sb) ← readySessionFixture (op_Now opts);
  let body := EncodeText "conformance payload" in
  '(env, _) ← encrypt sa "msg-e2e" TypeText (mkRoute "relay-a" 60 1) body;
  _ ← ensure (negb (Contains (se_Ciphertext env) "conformance payload")) "ciphertext contains plaintext payload";
  '(plain, _) ← decrypt (Some sb) env;
  decoded ← try (DecodeText plain);
  _ ← ensure (bool_decide (tx_Text decoded = "conformance payload")) "unexpected decoded payload";
  mret {["message_id" := se_MessageID env; "payload_redacted" := "true"]}.

Definition caseProvisioningValid (opts : Options S) : M S Evidence :=
  phone ← new_device "domain-a" "phone-a" (op_Now opts);
  watch ← new_device "domain-a" "watch-a" (op_Now opts);
  ticket ← try (SignTicket phone
    (mkPairingTicket "" "ticket-a" "domain-a" "relay-a" "trust-a" 1 (op_Now opts) (Add (op_Now opts) Minute) noSignature));
  _ ← try (VerifyTicket ticket (dev_Identity phone) (op_Now opts));
  let '(used, _) := Consume NewTicketStore ticket in
  _ ← try used;
  channel ← establish_channel "oob-secret";
  tp ← try (IdentityThumbprint (dev_Identity watch));
  bundle ← try (SignBundle phone (fixture_bundle "bundle-a" watch tp "wrapped-refresh" (op_Now opts) Minute));
  _ ← try (ApplyBundle channel (dev_Identity watch) bundle (dev_Identity phone) (op_Now opts));
  mret {["ticket_id" := pt_TicketID ticket; "bundle_id" := bu_BundleID bundle]}.

Definition fixture_ticketV3 (audience : string) (maxUses : Z) (issued expires : Time) : PairingTicketV3 :=
  mkPairingTicketV3 "" "ticket-1" "domain-a" "relay-a" "trust-a" PurposeInvite "service_agent" audience (Some ["text"]) 0
    maxUses issued expires noSignature.

Definition caseTicketV3Valid (opts : Options S) : M S Evidence :=
  issuer ← new_device "domain-a" "trust-signer" (op_Now opts);
  controller ← new_device "domain-a" "phone-1" (op_Now opts);
  agent ← new_device "domain-a" "agent-1" (op_Now opts);
  ticket ← try (SignTicketV3 issuer (fixture_ticketV3 (di_DeviceID (dev_Identity controller)) 1 (op_Now opts)
                                       (Add (op_Now opts) (10 * Minute))));
  _ ← try (VerifyTicketV3 ticket (dev_Identity issuer) (Add (op_Now opts) Minute));
  bindings ← try (BindGrantRoles ticket (dev_Identity agent));
  mret {["grant_subject" := rb_SubjectDeviceID bindings; "grant_audience" := rb_Audience bindings]}.

Definition create_reopen (dev : Device) (requestID peer relayID cause : string) (now : Time) : M S Reopen :=
  rnd ← RandomBytes 16;
  try (CreateReopen rnd dev requestID peer relayID cause now).

Definition caseSessionReopenValid (opts : Options S) : M S Evidence :=
  phone ← new_device "domain-a" "phone-1" (op_Now opts);
  agent ← new_device "domain-a" "agent-1" (op_Now opts);
  reopen ← create_reopen phone "reopen-1" (di_DeviceID (dev_Identity agent)) "relay-a" CauseRuntimeStarted (op_Now opts);
  _ ← try (VerifyReopen reopen (dev_Identity phone)
             (mkReopenVerifyOptions (di_DeviceID (dev_Identity agent)) "domain-a" "relay-a" (Add (op_Now opts) (2 * Second))));
  mret {["request_id" := ro_RequestID reopen]}.

(** [recovery.Seal]: a session key, then twelve random bytes. *)
Definition recovery_seal (wrapPublic : string) (transcript plaintext : bytes) : M S WrappedCredentials := fun m =>
  let nonce := take 12 (drop 32 (mc_rand m) ++ replicate 12 x00) in
  (wrapped ← try_rand (fun rand => RecoverySeal rand nonce wrapPublic transcript plaintext);
   _ ← RandomBytes 12;
   mret wrapped) m.

Definition caseRecoverySealValid (opts : Options S) : M S Evidence :=
  '(wrapPriv, wrapPub) ← try_rand GenerateSessionKey;
  let wrapPublic := Base64URL (xpub wrapPub) in
  let transcript := Transcript "domain-a" "device-a" "thumbprint-a" in
  let plaintext := encode (JObj [("access", JObj [("token", JStr "a")]); ("refresh", JObj [("token", JStr "r")])]) in
  wrapped ← recovery_seal wrapPublic transcript plaintext;
  out ← try (RecoveryOpen wrapped wrapPriv wrapPublic transcript);
  _ ← ensure (bool_decide (out = plaintext)) "sealed credential plaintext mismatch was accepted";
  mret {["ciphersuite" := wc_Ciphersuite wrapped]}.

Definition caseProductionProfileRejectsUnsafe (opts : Options S) : M S Evidence :=
  _ ← rejected (ValidateGate (mkGate ProfileProduction true true true true false false false))
        "unsafe production gate accepted";
  mret did_reject.

Definition caseUnsignedDescriptorRejected (opts : Options S) : M S Evidence :=
  signer ← new_device "domain-a" "signer-a" (op_Now opts);
  let relayDesc := mkRelayDescriptor "iscp.relay.descriptor.v2" "relay-a" "domain-a" "https://relay-a.example.invalid" ""
    None (op_Now opts) (Add (op_Now opts) Hour) ∅ in
  raw ← try (RelayDescriptor_json relayDesc);
  let unsigned := mkSignedDescriptor TypeSignedDescriptor (rdesc_Type relayDesc) (Some (encode raw))
    (di_DeviceID (dev_Identity signer)) (op_Now opts) noSignature in
  _ ← rejected (VerifyDescriptor unmarshal_expires unsigned (dev_Identity signer) (DefaultGate ProfileProduction) (op_Now opts))
        "unsigned descriptor accepted in production";
  mret did_reject.

Definition caseProofWrongChallengeRejected (opts : Options S) : M S Evidence :=
  dev ← new_device "domain-a" "device-a" (op_Now opts);
  proof ← try (CreateProof dev "relay-a" "challenge-a" "nonce-a" (op_Now opts));
  _ ← rejected (VerifyProof (dev_Identity dev) proof "relay-a" "challenge-b" (op_Now opts) Minute)
        "wrong challenge proof accepted";
  mret did_reject.

Definition caseGrantWrongAudienceRejected (opts : Options S) : M S Evidence :=
  expectGrantReject (op_Now opts)
    (fun o => mkVerifyOptions "wrong-audience" (vo_SubjectDeviceID o) (vo_ConfirmationThumbprint o) (vo_Permission o)
                (vo_RelayID o) (vo_CurrentRevocationEpoch o) (vo_Now o)) "wrong audience grant accepted".

Definition caseGrantWrongCNFRejected (opts : Options S) : M S Evidence :=
  expectGrantReject (op_Now opts)
    (fun o => mkVerifyOptions (vo_Audience o) (vo_SubjectDeviceID o) "wrong-cnf" (vo_Permission o)
                (vo_RelayID o) (vo_CurrentRevocationEpoch o) (vo_Now o)) "wrong cnf grant accepted".

Definition caseGrantWrongPermissionRejected (opts : Options S) : M S Evidence :=
  expectGrantReject (op_Now opts)
    (fun o => mkVerifyOptions (vo_Audience o) (vo_SubjectDeviceID o) (vo_ConfirmationThumbprint o) "admin"
                (vo_RelayID o) (vo_CurrentRevocationEpoch o) (vo_Now o)) "wrong permission grant accepted".

Definition caseGrantWrongRelayRejected (opts : Options S) : M S Evidence :=
  expectGrantReject (op_Now opts)
    (fun o => mkVerifyOptions (vo_Audience o) (vo_SubjectDeviceID o) (vo_ConfirmationThumbprint o) (vo_Permission o)
                "relay-b" (vo_CurrentRevocationEpoch o) (vo_Now o)) "wrong relay grant accepted".

Definition caseGrantRevokedEpochRejected (opts : Options S) : M S Evidence :=
  expectGrantReject (op_Now opts)
    (fun o => mkVerifyOptions (vo_Audience o) (vo_SubjectDeviceID o) (vo_ConfirmationThumbprint o) (vo_Permission o)
                (vo_RelayID o) 2 (vo_Now o)) "revoked epoch grant accepted".

Definition caseGrantExpiredRejected (opts : Options S) : M S Evidence :=
  expectGrantReject (op_Now opts)
    (fun o => mkVerifyOptions (vo_Audience o) (vo_SubjectDeviceID o) (vo_ConfirmationThumbprint o) (vo_Permission o)
                (vo_RelayID o) (vo_CurrentRevocationEpoch o) (Add (op_Now opts) (2 * Hour))) "expired grant accepted".

Definition casePayloadBeforeReadyRejected (opts : Options S) : M S Evidence :=
  '(a, b, ha, hb) ← helloPair (op_Now opts);
  sa ← try (Establish ha (lh_Hello hb) (dev_Identity a) (dev_Identity b));
  _ ← rejected (Encrypt (Some sa) "msg-early" TypeText (mkRoute "relay-a" 60 0) (go_bytes "early")).1
        "payload accepted before session.ready";
  mret did_reject.

(** [env.Route.Priority = 9]. *)
Definition with_priority (env : SecureEnvelope) (priority : Z) : SecureEnvelope :=
  mkSecureEnvelope (se_Type env) (se_DomainID env) (se_MessageID env) (se_SessionID env) (se_SenderDeviceID env)
    (se_RecipientDeviceID env) (se_Sequence env) (se_Nonce env) (se_PayloadType env)
    (mkRoute (rt_RelayID (se_Route env)) (rt_TTLSeconds (se_Route env)) priority) (se_Ciphertext env).

Definition caseEnvelopeAADTamperRejected (opts : Options S) : M S Evidence :=
  '(_, _, sa, sb) ← readySessionFixture (op_Now opts);
  '(env, _) ← encrypt sa "msg-tamper" TypeText (mkRoute "relay-a" 60 1) (EncodeText "tamper payload");
  _ ← rejected (Decrypt (Some sb) (with_priority env 9)).1 "AAD-tampered envelope accepted";
  mret did_reject.

Definition caseEnvelopeReplayRejected (opts : Options S) : M S Evidence :=
  '(_, _, sa, sb) ← readySessionFixture (op_Now opts);
  '(env, _) ← encrypt sa "msg-replay" TypeText (mkRoute "relay-a" 60 1) (EncodeText "replay payload");
  '(_, sb) ← decrypt (Some sb) env;
  _ ← rejected (Decrypt sb env).1 "replayed envelope accepted";
  mret did_reject.

Definition caseExpiredTicketRejected (opts : Options S) : M S Evidence :=
  issuer ← new_device "domain-a" "phone-a" (op_Now opts);
  ticket ← try (SignTicket issuer
    (mkPairingTicket "" "ticket-expired" "domain-a" "relay-a" "trust-a" 1 (Add (op_Now opts) (-2 * Minute))
       (Add (op_Now opts) (- Minute)) noSignature));
  _ ← rejected (VerifyTicket ticket (dev_Identity issuer) (op_Now opts)) "expired ticket accepted";
  mret did_reject.

Definition caseBundleBindingRejected (opts : Options S) : M S Evidence :=
  '(channel, issuer, _, other, bundle) ← bundleFixture (op_Now opts);
  _ ← rejected (ApplyBundle channel (dev_Identity other) bundle (dev_Identity issuer) (op_Now opts))
        "mismatched provisioning bundle accepted";
  mret did_reject.

Definition caseBundleNotReadyRejected (opts : Options S) : M S Evidence :=
  '(channel, issuer, watch, _, bundle) ← bundleFixture (op_Now opts);
  let channel := mkLocalChannel (lc_Key channel) (lc_TranscriptMAC channel) false in
  _ ← rejected (ApplyBundle channel (dev_Identity watch) bundle (dev_Identity issuer) (op_Now opts))
        "bundle accepted before local channel readiness";
  mret did_reject.

(** Every key must be redacted; which of those that are not is named first depends
    on the iteration over the map. *)
Definition secret_keys : Evidence :=
  {["private_key" := "secret-value"; "access_token" := "secret-value"; "refresh_credential" := "secret-value";
    "session_key" := "secret-value"; "payload_plaintext" := "secret-value"]}.

Definition is_redacted (key value : string) : bool :=
  match RedactKeyValue key (AString value) with
  | AString s => bool_decide (s = "[REDACTED]")
  | AOther => false
  end.

Definition caseSecretRedaction `{MapRange} (opts : Options S) : M S Evidence :=
  match List.filter (fun p : string * string => negb (is_redacted p.1 p.2)) (map_range secret_keys) with
  | [] => mret {["redacted" := "true"]}
  | (key, _) :: _ => fail (key +:+ " was not redacted")
  end.

Definition with_kid (id : DeviceIdentity) (kid : string) : DeviceIdentity :=
  mkDeviceIdentity (di_Type id) (di_DomainID id) (di_DeviceID id)
    (mkPublicKey (pk_KTY (di_PublicKey id)) (pk_Use (di_PublicKey id)) kid (pk_Public (di_PublicKey id)))
    (di_CreatedAt id) (di_Metadata id).

Definition caseForgedKIDRejected (opts : Options S) : M S Evidence :=
  victim ← new_device "domain-a" "device-a" (op_Now opts);
  attacker ← new_device "domain-a" "device-a" (op_Now opts);
  let kid := pk_KID (di_PublicKey (dev_Identity victim)) in
  let forged := with_kid (dev_Identity attacker) kid in
  proof ← try (CreateProof attacker "relay-a" "challenge" "nonce" (op_Now opts));
  let s := dp_Signature proof in
  let proof := set_signature (mkSignature (sig_Alg s) kid (sig_Value s)) proof in
  _ ← rejected (VerifyProof forged proof "relay-a" "challenge" (op_Now opts) Minute) "identity with forged kid was accepted";
  mret {["rejected" := "kid_thumbprint_mismatch"]}.

Definition caseTicketAudienceReversalRejected (opts : Options S) : M S Evidence :=
  controller ← new_device "domain-a" "phone-1" (op_Now opts);
  let ticket := fixture_ticketV3 (di_DeviceID (dev_Identity controller)) 0 zeroTime zeroTime in
  _ ← rejected (BindGrantRoles ticket (dev_Identity controller)) "ticket consumed by its grant audience was accepted";
  mret {["rejected" := "grant_audience_consumer"]}.

Definition caseReopenWindowRejected (opts : Options S) : M S Evidence :=
  phone ← new_device "domain-a" "phone-1" (op_Now opts);
  reopen ← create_reopen phone "reopen-1" "agent-1" "relay-a" CauseForegroundRecovery (op_Now opts);
  _ ← rejected (VerifyReopen reopen (dev_Identity phone)
                  (mkReopenVerifyOptions "agent-1" "domain-a" "relay-a" (Add (op_Now opts) (31 * Second))))
        "session reopen outside its window was accepted";
  mret {["rejected" := "control_window"]}.

Definition caseRecoveryTranscriptRejected (opts : Options S) : M S Evidence :=
  '(wrapPriv, wrapPub) ← try_rand GenerateSessionKey;
  let wrapPublic := Base64URL (xpub wrapPub) in
  wrapped ← recovery_seal wrapPublic (Transcript "domain-a" "device-a" "thumbprint-a") (go_bytes "secret");
  _ ← rejected (RecoveryOpen wrapped wrapPriv wrapPublic (Transcript "domain-a" "device-b" "thumbprint-b"))
        "recovery blob replayed against another identity was accepted";
  mret {["rejected" := "transcript_binding"]}.

Definition caseAuditHashChain (opts : Options S) : M S Evidence :=
  let entry prev := mkEntry "domain-a" "device.submit" "" "device-a" ∅ prev (op_Now opts) in
  first ← try (HashEntry (entry ""));
  second ← try (HashEntry (entry (Base64URL first)));
  _ ← ensure (negb (bool_decide (first = second))) "audit hash did not include previous hash";
  mret {["hash_chain" := "true"]}.

(** A message for [device-b] as the queue cases build it. *)
Definition fixture_message (id : string) (envelope : bytes) (priority : Z) (expires : Time) : Message :=
  mkMessage "domain-a" id "" "device-b" envelope priority expires zeroTime.

Definition id_json (id : string) : bytes := encode (JObj [("id", JStr id)]).

Definition enqueue (q : Queue) (msg : Message) (now : Time) (what : string) : M S Queue :=
  let '(ok, q) := Enqueue q msg now in
  _ ← ensure ok what;
  mret q.

Definition caseQueueTTLAndPriority (opts : Options S) : M S Evidence :=
  let now := op_Now opts in
  let soon := Add now Minute in
  q ← enqueue (NewQueue 1024) (fixture_message "low" (id_json "low") 1 soon) now "low priority enqueue failed";
  q ← enqueue q (fixture_message "high" (id_json "high") 9 soon) now "high priority enqueue failed";
  q ← enqueue q (fixture_message "expired" (id_json "expired") 10 (Add now (- Second))) now "expired enqueue failed";
  let '(out, _) := DequeueFor q "domain-a" "device-b" now 10 in
  _ ← ensure (length out =? 2)%nat ("expected 2 unexpired messages, got " +:+ Itoa (Z.of_nat (length out)));
  _ ← ensure (bool_decide (map qm_MessageID out = ["high"; "low"])) "queue priority order mismatch";
  quota ← enqueue (NewQueue 20) (fixture_message "q1" (go_bytes "1234567890") 0 soon) now "quota fixture enqueue failed";
  quota ← enqueue quota (fixture_message "q2" (go_bytes "abcdefghij") 0 soon) now "quota fixture second enqueue failed";
  let '(ok, _) := Enqueue quota (fixture_message "overflow" (go_bytes "overflow") 0 soon) now in
  _ ← ensure (negb ok) "queue accepted message beyond aggregate quota";
  mret {["delivered" := "2"; "expired_dropped" := "true"; "quota_backpressure" := "true"]}.

End cases.

(** ** Cases against running services *)

Record serviceCredential := mkServiceCredential {
  sc_DomainID : string;
  sc_DeviceID : string;
  sc_Token : string;
  sc_Hash : bytes;
  sc_ExpiresAt : Time;
  sc_Revoked : bool
}.

(** The anonymous structs responses are decoded into. *)
Record serviceCredentials := mkServiceCredentials { cs_Access : serviceCredential; cs_Refresh : serviceCredential }.
Record serviceGrant := mkServiceGrant { sg_Grant : Grant }.

(** [json.Marshal] of a signed struct, as a value. *)
Definition signed_json {A} `{Signed A} (a : A) : result Value :=
  m ← members a;
  Ok (JObj (m ++ [("signature", Signature_json (signature_of a))])).

Definition identity_proof_json (dev : Device) (proof : DeviceProof) : result Value :=
  id ← DeviceIdentity_json (dev_Identity dev);
  p ← signed_json proof;
  Ok (JObj [("identity", id); ("proof", p)]).

Definition randomID (t : Time) : string :=
  go_string (take 8 (go_bytes (Base64URL (SHA256 (time_String t))))).

Section services.
  Context {C : CryptoOps} {S : Type} `{HttpClient S}.

Definition probeEndpoint (endpoint name : string) : M S Evidence :=
  let endpoint := TrimRightSlash (TrimSpace endpoint) in
  if bool_decide (endpoint = "") then skip (name +:+ " endpoint was not configured")
  else
    let probe path :=
      resp ← send_http (mkHttpRequest "GET" (endpoint +:+ path) ∅ []);
      ensure ((200 <=? hp_Status resp) && (hp_Status resp <? 300))
        (name +:+ path +:+ " returned " +:+ Itoa (hp_Status resp)) in
    _ ← probe "/healthz";
    _ ← probe "/version";
    mret {["endpoint" := endpoint; "health" := "ok"]}.

Definition caseRelayEndpointHealth (opts : Options S) : M S Evidence := probeEndpoint (op_RelayEndpoint opts) "relay".

Definition caseTrustEndpointHealth (opts : Options S) : M S Evidence := probeEndpoint (op_TrustEndpoint opts) "trust_root".

(** [out] decodes the body of the response; [fun _ => Ok tt] where the code passes
    nil. *)
Definition postServiceJSONWithHeaders {A} (url : string) (in_ : result Value) (out : bytes -> result A) (want : Z)
    (headers : gmap string string) : M S A :=
  body ← try in_;
  let headers := filter (fun p : string * string => TrimSpace p.2 <> "") headers in
  resp ← send_http (mkHttpRequest "POST" url (headers ∪ {["Content-Type" := "application/json"]}) (encode body));
  if negb (hp_Status resp =? want)
  then fail ("POST " +:+ url +:+ " returned " +:+ Itoa (hp_Status resp) +:+ ", want " +:+ Itoa want +:+ ": " +:+
             TrimSpace (go_string (take 4096 (hp_Body resp))))
  else try (out (hp_Body resp)).

Definition postServiceJSON {A} (url : string) (in_ : result Value) (out : bytes -> result A) (want : Z) : M S A :=
  postServiceJSONWithHeaders url in_ out want ∅.

Definition postServiceJSONWithBearer {A} (url bearer : string) (in_ : result Value) (out : bytes -> result A) (want : Z)
    : M S A :=
  postServiceJSONWithHeaders url in_ out want
    (if bool_decide (bearer = "") then ∅ else {["Authorization" := "Bearer " +:+ bearer]}).

(** The header is set under its canonical name. *)
Definition postServiceJSONWithAdmin {A} (url adminToken : string) (in_ : result Value) (out : bytes -> result A) (want : Z)
    : M S A :=
  postServiceJSONWithHeaders url in_ out want
    (if bool_decide (TrimSpace adminToken = "") then ∅ else {["X-Iscp-Admin-Token" := adminToken]}).

Definition no_output (_ : bytes) : result unit := Ok tt.

(** A ready message whose error is ignored: the zero value then. *)
Definition ready_or_zero (r : result ReadyMsg) : ReadyMsg :=
  match r with Ok m => m | Err _ => mkReady "" "" "" "" "" noSignature end.

Definition serviceEnvelope (now : Time) (a : Device) : M S SecureEnvelope :=
  b ← new_device "local" ("svc-recipient-" +:+ randomID now) now;
  ha ← create_hello a ("svc-session-" +:+ randomID now) (di_DeviceID (dev_Identity b)) "grant-local" now;
  hb ← create_hello b (he_SessionID (lh_Hello ha)) (di_DeviceID (dev_Identity a)) "grant-local" now;
  sa ← try (Establish ha (lh_Hello hb) (dev_Identity a) (dev_Identity b));
  sb ← try (Establish hb (lh_Hello ha) (dev_Identity b) (dev_Identity a));
  let ra := ready_or_zero (CreateReady sa a) in
  let rb := ready_or_zero (CreateReady sb b) in
  sa ← try (VerifyReady sa rb (dev_Identity b));
  _ ← try (VerifyReady sb ra (dev_Identity a));
  '(env, _) ← encrypt sa ("svc-msg-" +:+ randomID now) TypeText (mkRoute "relay-local" 60 1) (EncodeText "service payload");
  mret env.

(** [json.Marshal] of a [map[string]any]. *)
Definition any_map_json (m : gmap string Value) : Value := JObj (sorting.merge_sort key_le (map_to_list m)).

Context `{Decode serviceCredentials} `{Decode (gmap string Value)} `{Decode serviceGrant}.

Definition caseRelayServiceWorkflow (opts : Options S) : M S Evidence :=
  let endpoint := TrimRightSlash (TrimSpace (op_RelayEndpoint opts)) in
  if bool_decide (endpoint = "") then skip "relay endpoint was not configured"
  else
    now ← time_now;
    let now := UTC now in
    dev ← new_device "local" ("conf-relay-" +:+ randomID now) now;
    proof ← try (CreateProof dev "relay-local" ("challenge-" +:+ randomID now) ("nonce-" +:+ randomID (Add now 1)) now);
    bound ← postServiceJSON (endpoint +:+ "/v2/relay/devices/bind-self") (identity_proof_json dev proof)
              (decode (A := serviceCredentials)) 200;
    _ ← ensure (negb (bool_decide (sc_Token (cs_Refresh bound) = "")) && (length (sc_Hash (cs_Refresh bound)) =? 0)%nat)
          "relay refresh credential serialization is invalid";
    refreshed ← postServiceJSON (endpoint +:+ "/v2/relay/devices/refresh-access")
                  (Ok (JObj [("refresh", JStr (sc_Token (cs_Refresh bound)))])) (decode (A := serviceCredentials)) 200;
    env ← serviceEnvelope now dev;
    receipt ← postServiceJSONWithBearer (endpoint +:+ "/v2/relay/envelopes") (sc_Token (cs_Access bound))
                (Ok (SecureEnvelope_json env)) (decode (A := gmap string Value)) 202;
    _ ← ensure (match receipt !! "status" with Some (JStr s) => bool_decide (s = "queued") | _ => false end) "relay receipt status mismatch";
    let receiptBytes := go_string (encode (any_map_json receipt)) in
    _ ← ensure (negb (Contains receiptBytes "service payload" || Contains receiptBytes "session_key"))
          "relay receipt leaked plaintext or key material";
    let device := Ok (JObj [("device_id", JStr (di_DeviceID (dev_Identity dev)))]) in
    _ ← postServiceJSONWithBearer (endpoint +:+ "/v2/relay/devices/revoke-access") (sc_Token (cs_Access refreshed)) device
          no_output 200;
    _ ← postServiceJSON (endpoint +:+ "/v2/relay/devices/refresh-access")
          (Ok (JObj [("refresh", JStr (sc_Token (cs_Refresh refreshed)))])) no_output 401;
    mret {["device_id" := di_DeviceID (dev_Identity dev); "receipt_status" := "queued"; "revocation" := "enforced"]}.

Definition caseTrustServiceWorkflow (opts : Options S) : M S Evidence :=
  let endpoint := TrimRightSlash (TrimSpace (op_TrustEndpoint opts)) in
  if bool_decide (endpoint = "") then skip "trust root endpoint was not configured"
  else
    now ← time_now;
    let now := UTC now in
    dev ← new_device "local" ("conf-trust-" +:+ randomID now) now;
    proof ← try (CreateProof dev "trust-local" ("challenge-" +:+ randomID now) ("nonce-" +:+ randomID (Add now 1)) now);
    let deviceID := di_DeviceID (dev_Identity dev) in
    _ ← postServiceJSON (endpoint +:+ "/v2/trust/devices/submit") (identity_proof_json dev proof) no_output 200;
    auth ← postServiceJSONWithAdmin (endpoint +:+ "/v2/trust/devices/authorize") (op_AdminToken opts)
             (Ok (JObj [("audience", JStr "peer-local"); ("device_id", JStr deviceID); ("permissions", strings_json ["text"]);
                        ("relay_id", JStr "relay-local"); ("ttl_seconds", JInt 60)])) (decode (A := serviceGrant)) 200;
    tp ← try (IdentityThumbprint (dev_Identity dev));
    let verifyReq := grant ← signed_json (sg_Grant auth);
      Ok (JObj [("audience", JStr "peer-local"); ("confirmation_thumbprint", JStr tp); ("grant", grant);
                ("permission", JStr "text"); ("relay_id", JStr "relay-local"); ("subject_device_id", JStr deviceID)]) in
    _ ← postServiceJSON (endpoint +:+ "/v2/trust/grants/verify") verifyReq no_output 200;
    _ ← postServiceJSONWithAdmin (endpoint +:+ "/v2/trust/devices/revoke") (op_AdminToken opts)
          (Ok (JObj [("device_id", JStr deviceID); ("reason", JStr "conformance")])) no_output 200;
    _ ← postServiceJSON (endpoint +:+ "/v2/trust/grants/verify") verifyReq no_output 403;
    mret {["device_id" := deviceID; "grant_id" := gr_GrantID (sg_Grant auth); "revocation" := "enforced"]}.

End services.

(** ** Cases of the command line *)

Section cli.
  Context {R : MapRange} {U : Unicode} {S : Type}.

(** The first of the forbidden texts that the output shows. *)
Definition leaked (out : string) (forbidden : list string) : option string :=
  head (List.filter (fun f => Contains (ToLower out) (ToLower f)) forbidden).

Definition caseCLILocalE2E (opts : Options S) : M S Evidence :=
  match op_CLIRunner opts with
  | None => skip "CLI workflow runner was not provided"
  | Some runner =>
      r ← attempt runner;
      match r with
      | inr (inl err) => fail ("CLI demo failed: " +:+ Error err)
      | inr (inr reason) => fail ("CLI demo failed: " +:+ reason)
      | inl out =>
          _ ← ensure (Contains out "local-e2e ok") "CLI demo did not report success";
          match leaked out ["hello from iscp"; "private key"; "session_key="; "access_token="; "refresh_credential="] with
          | Some f => fail ("CLI output leaked forbidden content " +:+ Quote f)
          | None => mret {["command" := "demo local-e2e"; "plaintext_redacted" := "true"]}
          end
      end
  end.

Definition cli_forbidden : list string :=
  ["hello from iscp"; "cli payload"; "private key"; "session_key"; "access_token"; "refresh_credential"].

Definition caseCLICommandSet (opts : Options S) : M S Evidence :=
  match op_CLIWorkflows opts with
  | None => skip "CLI command workflow runner was not provided"
  | Some workflows =>
      results ← workflows;
      _ ← ensure (negb (size results =? 0)%nat) "CLI workflow runner returned no commands";
      match omap (fun p => pair p.1 <$> leaked p.2 cli_forbidden) (map_range results) with
      | (name, f) :: _ => fail ("CLI workflow " +:+ name +:+ " leaked forbidden content " +:+ Quote f)
      | [] => mret {["commands" := Itoa (Z.of_nat (size results)); "secret_redaction" := "true"]}
      end
  end.

End cli.

(** ** The suites and the run *)

Section suites.
  Context {C : CryptoOps} {SS : SortSlice} {R : MapRange} {U : Unicode} `{Decode Text} {S : Type} `{HttpClient S}.
  Context `{Decode serviceCredentials} `{Decode (gmap string Value)} `{Decode serviceGrant}.
  Context (unmarshal_expires : bytes -> result Time).

Definition p0CoreCases : list (caseDef S) :=
  [mkCaseDef "P0-CORE-001" "device proof verifies with audience and challenge" caseIdentityProofValid;
   mkCaseDef "P0-CORE-002" "signed relay descriptor verifies and pins" (caseDescriptorValid unmarshal_expires);
   mkCaseDef "P0-CORE-003" "trust grant verifies all required bindings" caseTrustGrantValid;
   mkCaseDef "P0-CORE-004" "session ready confirms transcript and keys" caseSessionReadyValid;
   mkCaseDef "P0-CORE-005" "secure envelope round trips after ready" caseEnvelopeE2EValid;
   mkCaseDef "P0-CORE-006" "provisioning ticket and bundle verify" caseProvisioningValid;
   mkCaseDef "P0-CORE-007" "pairing ticket v3 binds purpose and grant roles" caseTicketV3Valid;
   mkCaseDef "P0-CORE-008" "session reopen control frame verifies" caseSessionReopenValid;
   mkCaseDef "P0-CORE-009" "credential recovery sealed blob round trips" caseRecoverySealValid].

Definition p0SecurityCases : list (caseDef S) :=
  [mkCaseDef "P0-SEC-001" "production profile rejects unsafe toggles" caseProductionProfileRejectsUnsafe;
   mkCaseDef "P0-SEC-002" "production profile rejects unsigned descriptor" (caseUnsignedDescriptorRejected unmarshal_expires);
   mkCaseDef "P0-SEC-003" "proof with wrong challenge is rejected" caseProofWrongChallengeRejected;
   mkCaseDef "P0-SEC-004" "grant wrong audience is rejected" caseGrantWrongAudienceRejected;
   mkCaseDef "P0-SEC-005" "grant wrong confirmation thumbprint is rejected" caseGrantWrongCNFRejected;
   mkCaseDef "P0-SEC-006" "grant missing permission is rejected" caseGrantWrongPermissionRejected;
   mkCaseDef "P0-SEC-007" "grant wrong relay is rejected" caseGrantWrongRelayRejected;
   mkCaseDef "P0-SEC-008" "grant below revocation epoch is rejected" caseGrantRevokedEpochRejected;
   mkCaseDef "P0-SEC-009" "expired grant is rejected" caseGrantExpiredRejected;
   mkCaseDef "P0-SEC-010" "payload before session.ready is rejected" casePayloadBeforeReadyRejected;
   mkCaseDef "P0-SEC-011" "envelope AAD tamper is rejected" caseEnvelopeAADTamperRejected;
   mkCaseDef "P0-SEC-012" "envelope replay is rejected" caseEnvelopeReplayRejected;
   mkCaseDef "P0-SEC-013" "expired pairing ticket is rejected" caseExpiredTicketRejected;
   mkCaseDef "P0-SEC-014" "bundle binding mismatch is rejected" caseBundleBindingRejected;
   mkCaseDef "P0-SEC-015" "bundle before local channel ready is rejected" caseBundleNotReadyRejected;
   mkCaseDef "P0-SEC-016" "logs redact secret-bearing fields" caseSecretRedaction;
   mkCaseDef "P0-SEC-017" "identity with forged kid is rejected" caseForgedKIDRejected;
   mkCaseDef "P0-SEC-018" "ticket consumed by its grant audience is rejected" caseTicketAudienceReversalRejected;
   mkCaseDef "P0-SEC-019" "session reopen outside window is rejected" caseReopenWindowRejected;
   mkCaseDef "P0-SEC-020" "recovery blob bound to another identity fails to open" caseRecoveryTranscriptRejected].

Definition p1FeatureCases : list (caseDef S) :=
  [mkCaseDef "P1-FEAT-001" "audit hash-chain changes with previous hash" caseAuditHashChain;
   mkCaseDef "P1-FEAT-002" "offline queue honors TTL and priority metadata" caseQueueTTLAndPriority].

Definition serviceInteropCases : list (caseDef S) :=
  [mkCaseDef "P1-SVC-001" "relay endpoint exposes health and version" caseRelayEndpointHealth;
   mkCaseDef "P1-SVC-002" "trust root endpoint exposes health and version" caseTrustEndpointHealth;
   mkCaseDef "P1-SVC-003" "relay bind refresh revoke and opaque envelope receipt" caseRelayServiceWorkflow;
   mkCaseDef "P1-SVC-004" "trust submit authorize verify and revoke workflow" caseTrustServiceWorkflow].

Definition cliWorkflowCases : list (caseDef S) :=
  [mkCaseDef "P1-CLI-001" "CLI local E2E demo completes without plaintext output" caseCLILocalE2E;
   mkCaseDef "P1-CLI-002" "CLI local workflow commands perform real SDK operations" caseCLICommandSet].

Definition Run (opts : Options S) : M S Report :=
  let version := if bool_decide (op_Version opts = "") then "0.1.0-dev" else op_Version opts in
  now ← (if IsZero (op_Now opts) then now ← time_now; mret (UTC now) else mret (op_Now opts));
  let opts := mkOptions version (op_RelayEndpoint opts) (op_TrustEndpoint opts) (op_AdminToken opts) (op_CLIRunner opts)
                (op_CLIWorkflows opts) now in
  start ← time_now;
  core ← runSuite opts "p0_core" "P0 Core" PriorityP0 true p0CoreCases;
  security ← runSuite opts "p0_security_negative" "P0 Security Negative" PriorityP0 true p0SecurityCases;
  feature ← runSuite opts "p1_feature" "P1 Feature" PriorityP1 false p1FeatureCases;
  interop ← runSuite opts "service_interop" "Service Interoperability" PriorityP1 false serviceInteropCases;
  cli ← runSuite opts "cli_workflow" "CLI Workflow" PriorityP1 false cliWorkflowCases;
  let suites := [core; security; feature; interop; cli] in
  ms ← since_ms start;
  let '(res, decision, risks) := conclude suites in
  mret (mkReport ReportType version "v2" (UTC now) ms res decision (summarize suites)
          {["relay" := op_RelayEndpoint opts; "trust_root" := op_TrustEndpoint opts]} risks suites).

End suites.
