(* ===== verification/ConformanceProps.v ===== *)
(** * What the conformance runner shows

    The suites of priority P0 pass on the libraries as modelled, for every
    cryptography that obeys its laws; the verdict of a run is the one its report
    is later judged by. *)
From Stdlib Require Import ZArith Lia Strings.Byte Floats.SpecFloat.
From stdpp Require Import numbers gmap strings base list.
From S2P Require Import Prelude Errors Utf8 GoJson RawFacts Canonical CanonicalProps GoTime Base64 Sha256 Crypto Signed Identity.
From S2P Require Import Trust Session SessionProps Control Envelope Provisioning GoStrings Config Recovery Descriptor AuditHash.
From S2P Require Import Payload Logging Sorting Queue Keyring TrustServer Runner Conformance.
Open Scope Z_scope.

(** ** Fixtures *)

(** The instant the cases run at, and those they derive from it, can be written as
    JSON; it is UTC, as [time.Now().UTC()] is. *)
Definition now_ok (now : Time) : bool :=
  (offset now =? 0) &&
  forallb representable
    [Add now (-2 * Minute); Add now (- Minute); now; Add now Minute; Add now (10 * Minute); Add now Hour;
     TruncateSecond now; Add (TruncateSecond now) ControlFrameMaxTTL].

(** No text with a space is part of a Base64 string. *)
Lemma Base64URL_not_Contains b t : " "%byte ∈ go_bytes t -> Contains (Base64URL b) t = false.
Proof.
  intros Ht. destruct (Contains _ _) eqn:E; [|done]. apply (contains_bytes_elem _ _ " "%byte) in E; [|done].
  unfold Base64URL in E. rewrite go_bytes_string in E.
  pose proof (proj1 (Forall_forall _ _) (b64_encode_visible b) _ E) as Hv. vm_compute in Hv. naive_solver.
Qed.

(** Opening fails under additional data other than what was sealed with: what
    authenticated encryption is used for. *)
Class AeadBinds (C : CryptoOps) := aead_binds k n m ad k' ad' :
  length k = 32%nat -> length k' = 32%nat -> length n = 12%nat -> ad <> ad' ->
  aead_open k' n (aead_seal k n m ad) ad' = None.

Lemma Seal_binds {C : CryptoOps} {AB : AeadBinds C} {L : CryptoLaws C} k n m ad k' m' ad' ct :
  Seal k n m ad = Ok ct -> Seal k' n m' ad' = Ok ct -> ad = ad'.
Proof.
  intros E E'%Open_Seal. unfold Seal, Open in *.
  destruct (new_aead k n) as [|] eqn:H; [|done]. destruct (new_aead k' n) as [|] eqn:H'; [|done].
  apply new_aead_Ok in H as [Hk Hn], H' as [Hk' _]. cbn in E, E'. injection E as <-. destruct (decide (ad = ad')); [done|]. by rewrite aead_binds in E'.
Qed.

Lemma not_Ok {A} (r : result A) : (forall a, r <> Ok a) -> is_ok r = false.
Proof. destruct r as [a|]; [intros H; by destruct (H a)|done]. Qed.

Lemma filter_empty {A} (f : A -> bool) l : (forall x, x ∈ l -> f x = false) -> List.filter f l = [].
Proof.
  induction l as [|x l IH]; intros Hl; [done|]. cbn. rewrite (Hl x) by set_solver. apply IH. set_solver.
Qed.

Section fixtures.
  Context {C : CryptoOps} {L : CryptoLaws C} {S : Type} (now : Time) (Hnow : now_ok now = true).

Lemma now_utc_id : UTC now = now.
Proof using Hnow. unfold now_ok in Hnow. bool_prop. destruct now as [n o]. cbn in *. unfold UTC. cbn. f_equal. lia. Qed.

Lemma now_representable t :
  t ∈ [Add now (-2 * Minute); Add now (- Minute); now; Add now Minute; Add now (10 * Minute); Add now Hour;
       TruncateSecond now; Add (TruncateSecond now) ControlFrameMaxTTL] -> representable t = true.
Proof using Hnow.
  unfold now_ok in Hnow. bool_prop. intros Ht.
  match goal with H : forallb _ _ = true |- _ => rewrite forallb_forall in H; apply H end. by apply list_elem_of_In.
Qed.

Ltac representable := apply now_representable; cbn; rewrite !elem_of_cons; tauto.

Definition fresh (domainID deviceID : string) (d : Device) : Prop :=
  device_ok d /\ di_DomainID (dev_Identity d) = domainID /\ di_DeviceID (dev_Identity d) = deviceID /\
  IdentityThumbprint (dev_Identity d) = Ok (pk_KID (di_PublicKey (dev_Identity d))) /\
  exists b, pk_KID (di_PublicKey (dev_Identity d)) = Thumbprint "Ed25519" b.

(** The device made of some randomness, and its key id. *)
Lemma NewDevice_fresh r domainID deviceID : (32 <= length r)%nat ->
  exists d, NewDevice r domainID deviceID now = (Ok d, drop 32 r) /\ fresh domainID deviceID d /\
    pk_KID (di_PublicKey (dev_Identity d)) = Thumbprint "Ed25519" (ed25519_public (take 32 r)).
Proof using L.
  intros Hr. destruct (NewDevice r domainID deviceID now) as [[d|e] r'] eqn:E.
  2: { unfold NewDevice, GenerateIdentityKey, ReadFull in E. by destruct (Nat.ltb_spec (length r) 32); [lia|]. }
  pose proof (NewDevice_device_ok r domainID deviceID now d r' E) as Hok.
  unfold NewDevice, GenerateIdentityKey, ReadFull in E. destruct (Nat.ltb_spec (length r) 32); [lia|].
  injection E as <- <-. eexists. split; [reflexivity|]. split; [|by cbn; rewrite ?drop_app_length'].
  split; [done|]. split_and!; [done..| |by eexists]. unfold IdentityThumbprint. cbn. by rewrite DecodeBase64URL_Base64URL.
Qed.

Lemma runs_device_of seed domainID deviceID :
  runs_if (fun r => take 32 r = seed) 32 (new_device domainID deviceID now : M S Device)
    (fun d => fresh domainID deviceID d /\ pk_KID (di_PublicKey (dev_Identity d)) = Thumbprint "Ed25519" (ed25519_public seed)).
Proof using L.
  intros m Hm <-. destruct (NewDevice_fresh (mc_rand m) domainID deviceID Hm) as (d & E & Hd & K).
  exists d, (mkMachine (drop 32 (mc_rand m)) (mc_clock m) (mc_text m) (mc_net m)). split_and!; [|done..].
  unfold new_device, try_rand, mbind, M_bind, with_rand. by rewrite E.
Qed.

Lemma runs_device domainID deviceID :
  runs 32 (new_device domainID deviceID now : M S Device) (fresh domainID deviceID).
Proof using L.
  intros m Hm. destruct (runs_device_of (take 32 (mc_rand m)) domainID deviceID m Hm eq_refl) as (d & m' & E & [Hd _] & Er). eauto 6.
Qed.

(** What the grant of the fixture permits. *)
Definition grant_fixture (f : Device * Device * Grant * VerifyOptions) : Prop :=
  let '(issuer, subject, grant, o) := f in
  exists b, o = mkVerifyOptions "device-b" "device-a" (Thumbprint "Ed25519" b) "text" "relay-a" 1 now /\
    forall opts, VerifyGrant grant (dev_Identity issuer) opts = Ok tt <->
      ns now - Minute <= ns (vo_Now opts) < ns now + Hour /\ vo_Audience opts = "device-b" /\
      vo_SubjectDeviceID opts = "device-a" /\ vo_ConfirmationThumbprint opts = Thumbprint "Ed25519" b /\
      vo_Permission opts = "text" /\ vo_RelayID opts = "relay-a" /\ vo_CurrentRevocationEpoch opts <= 1.

Lemma runs_grant : runs 64 (validGrantFixture now : M S _) grant_fixture.
Proof using L Hnow.
  unfold validGrantFixture. eapply (runs_bind 32 32); [apply runs_device|]. intros issuer (Hi & _).
  eapply (runs_bind 32 0); [apply runs_device|]. intros subject (Hs & _ & Hid & Htp & b & Hb).
  eapply runs_try_then; [exact Htp|]. rewrite Hid, Hb.
  set (g := mkGrant "" "grant-a" "" "device-a" "device-b" (Thumbprint "Ed25519" b) (Some ["text"]) ["relay-a"]
              (Add now (- Minute)) (Add now Hour) 1 noSignature).
  destruct (SignGrant_VerifyGrant issuer g (mkVerifyOptions "" "" "" "" "" 0 now) Hi eq_refl) as (sg & Hsg & _);
    [representable..|].
  eapply runs_try_then; [exact Hsg|]. apply runs_ret.
  exists b. split; [done|]. intros opts. destruct Hi as (Hk & Hp & _).
  rewrite (SignGrant_accepted issuer g sg _ opts Hk Hp Hsg). unfold grant_permits, g.
  cbn [issue_grant gr_Type gr_NotBefore gr_ExpiresAt gr_Audience gr_SubjectDeviceID gr_ConfirmationThumbprint
    gr_Permissions gr_RelayConstraints gr_RevocationEpoch elems default id Add ns].
  rewrite !list_elem_of_singleton. intuition (try congruence; lia).
Qed.

(** ** Sessions *)

Lemma Establish_initial l r li ri s : Establish l r li ri = Ok s -> st_sendSeq s = 0 /\ st_seenSeq s = ∅ /\ st_ready s = false.
Proof. unfold Establish. intros H. destruct (directionLabels _ _). by inv_ok. Qed.

Lemma mirrored_ready a b : mirrored a b -> mirrored (with_ready a) (with_ready b).
Proof. intros []. by split. Qed.

(** Two sessions at their start. *)
Definition paired (sa sb : State) : Prop :=
  mirrored sa sb /\ st_ready sa = true /\ st_ready sb = true /\ st_sendSeq sa = 0 /\ st_seenSeq sb = ∅.

Lemma runs_hello dev sid peer g : runs 32 (create_hello dev sid peer g now : M S _)
  (fun h => exists r r', CreateHello r dev sid peer g now = (Ok h, r')).
Proof using L Hnow.
  apply runs_rand. intros r Hl.
  destruct (CreateHello_total r dev sid peer g now Hl) as [h E]; [rewrite now_utc_id; representable|]. eauto.
Qed.

(** Two devices that exchange hellos reach sessions at their start. *)
Lemma hellos_ready dom ia ib a b sid g ha hb :
  fresh dom ia a -> fresh dom ib b -> ia <> ib ->
  (exists r r', CreateHello r a sid ib g now = (Ok ha, r')) -> (exists r r', CreateHello r b sid ia g now = (Ok hb, r')) ->
  exists sa sb ra rb,
    Establish ha (lh_Hello hb) (dev_Identity a) (dev_Identity b) = Ok sa /\
    Establish hb (lh_Hello ha) (dev_Identity b) (dev_Identity a) = Ok sb /\
    CreateReady sa a = Ok ra /\ CreateReady sb b = Ok rb /\
    VerifyReady sa rb (dev_Identity b) = Ok (with_ready sa) /\ VerifyReady sb ra (dev_Identity a) = Ok (with_ready sb) /\
    paired (with_ready sa) (with_ready sb).
Proof using L.
  intros (Ha & Da & Ia & _) (Hb & Db & Ib & _) Hne (r1 & r1' & E1) (r2 & r2' & E2). rewrite <- Ib in E1. rewrite <- Ia in E2.
  destruct (handshake_establish r1 r2 r1' r2' a b sid g g now now ha hb) as (sa & sb & Ea & Eb & Mab & Mba & _);
    [done|done|congruence|congruence|done|done|].
  destruct (CreateReady_total sa a) as [ra Ra], (CreateReady_total sb b) as [rb Rb]. exists sa, sb, ra, rb.
  pose proof (Establish_initial _ _ _ _ _ Ea) as (Sa & _ & _). pose proof (Establish_initial _ _ _ _ _ Eb) as (_ & Sb & _).
  split_and!; [done..|exact (VerifyReady_mirrored sa sb b rb Hb Mab Rb)|exact (VerifyReady_mirrored sb sa a ra Ha Mba Ra)|].
  split_and!; [by apply mirrored_ready|done..].
Qed.

Lemma runs_hellos : runs 128 (helloPair now : M S _)
  (fun '(a, b, ha, hb) => exists sa sb ra rb,
     Establish ha (lh_Hello hb) (dev_Identity a) (dev_Identity b) = Ok sa /\
     Establish hb (lh_Hello ha) (dev_Identity b) (dev_Identity a) = Ok sb /\
     CreateReady sa a = Ok ra /\ CreateReady sb b = Ok rb /\
     VerifyReady sa rb (dev_Identity b) = Ok (with_ready sa) /\ VerifyReady sb ra (dev_Identity a) = Ok (with_ready sb) /\
     paired (with_ready sa) (with_ready sb)).
Proof using L Hnow.
  unfold helloPair. eapply (runs_bind 32 96); [apply runs_device|]. intros a Ha.
  eapply (runs_bind 32 64); [apply runs_device|]. intros b Hb. destruct (proj2 Ha) as (_ & -> & _), (proj2 Hb) as (_ & -> & _).
  eapply (runs_bind 32 32); [apply runs_hello|]. intros ha Eha. eapply (runs_bind 32 0); [apply runs_hello|]. intros hb Ehb.
  apply runs_ret. by apply (hellos_ready "domain-a" "device-a" "device-b" a b "session-a" "grant-a").
Qed.

Lemma runs_session : runs 128 (readySessionFixture now : M S _) (fun '(_, _, sa, sb) => paired sa sb).
Proof using L Hnow.
  unfold readySessionFixture. eapply (runs_bind 128 0); [apply runs_hellos|].
  intros [[[a b] ha] hb] (sa & sb & ra & rb & E1 & E2 & E3 & E4 & E5 & E6 & P).
  repeat (eapply runs_try_then; [eassumption|]). by apply runs_ret.
Qed.

(** ** Cases of the core suite *)

Context {SS : SortSlice} `{Decode Text}.

(** The struct decodings that the cases exercise: a text payload is read back, and a
    relay descriptor's expiry. *)
Definition reads_text : Prop := forall s, clean_str s = s -> DecodeText (EncodeText s) = Ok (mkText s).

Definition reads_expiry (unmarshal_expires : bytes -> result Time) : Prop := forall d v,
  RelayDescriptor_json d = Ok v -> rdesc_ExpiresAt d = Add now Hour ->
  exists t, unmarshal_expires (encode v) = Ok t /\ ns t = ns (Add now Hour).

Variable (opts : Options S).
Hypothesis (Hopts : op_Now opts = now).

Abbreviation passes n case := (runs n (case opts) (fun _ => True)).

Lemma passes_proof : passes 32 caseIdentityProofValid.
Proof using L Hnow Hopts.
  unfold caseIdentityProofValid. rewrite Hopts. eapply (runs_bind 32 0); [apply runs_device|]. intros d (Hd & _).
  destruct (CreateProof_VerifyProof d "relay-a" "challenge-a" "nonce-a" now now Minute) as (p & E1 & E2);
    [done|rewrite now_utc_id; representable|by vm_compute|unfold Minute, Second; lia|].
  eapply runs_try_then; [exact E1|]. eapply runs_try_then; [exact E2|]. by apply runs_ret.
Qed.

Lemma passes_descriptor unmarshal_expires :
  reads_expiry unmarshal_expires -> passes 32 (caseDescriptorValid unmarshal_expires).
Proof using L Hnow Hopts.
  intros He. unfold caseDescriptorValid. rewrite Hopts. eapply (runs_bind 32 0); [apply runs_device|]. intros d (Hd & _).
  match goal with |- context [RelayDescriptor_json ?x] => set (desc := x) end.
  destruct (RelayDescriptor_json_good desc eq_refl) as (v & Ev & Pv & Dv); [representable..|].
  destruct (He desc v Ev eq_refl) as (t & Et & Ht). rewrite Ev.
  destruct (SignDescriptor_total d (rdesc_Type desc) v now) as (sd & Es & Er & Ety & Hn);
    [apply Hd|done|done|rewrite now_utc_id; representable|].
  eapply runs_try_then; [exact Es|]. eapply runs_try_then.
  { apply (SignDescriptor_VerifyDescriptor unmarshal_expires d (rdesc_Type desc) (Ok v) now now _ sd t);
      [done|left|done|done|done|by rewrite Er|rewrite Ht; cbn; unfold Hour, Minute, Second; lia]. }
  destruct (Marshal_encode_total v Pv) as [b Eb].
  eapply runs_try_then; [|by apply runs_ret]. unfold Pin. rewrite Er. cbn [default from_option id]. by rewrite Eb.
Qed.

Lemma passes_grant : passes 64 caseTrustGrantValid.
Proof using L Hnow Hopts.
  unfold caseTrustGrantValid. rewrite Hopts. eapply (runs_bind 64 0); [apply runs_grant|].
  intros [[[i s] g] o] (b & -> & Hg). eapply runs_try_then; [|by apply runs_ret]. apply Hg. cbn.
  unfold Hour, Minute, Second. split_and!; (done || lia).
Qed.

Lemma passes_session : passes 128 caseSessionReadyValid.
Proof using L Hnow Hopts.
  unfold caseSessionReadyValid. rewrite Hopts. eapply (runs_bind 128 0); [apply runs_session|].
  intros [[[a b] sa] sb] (_ & Ra & Rb & _). apply runs_ensure_then; [cbn; by rewrite Ra, Rb|]. by apply runs_ret.
Qed.

(** An envelope under way: sealed, with a header that carries the route. *)
Lemma runs_encrypt sa sb messageID payloadType route m (Q : SecureEnvelope * option State -> Prop) :
  paired sa sb -> in_i64 (rt_TTLSeconds route) = true -> in_i64 (rt_Priority route) = true ->
  (forall a ct s, let h := header_of sa messageID payloadType route in
     aad h = Ok a -> Seal (st_SendKey sa) (nonce_of 0) m a = Ok ct ->
     Decrypt (Some sb) (with_ciphertext h (Base64URL ct)) = (Ok m, Some (with_seenSeq sb {[0]})) ->
     Q (with_ciphertext h (Base64URL ct), s)) ->
  runs 0 (encrypt sa messageID payloadType route m : M S _) Q.
Proof using L.
  intros (Mab & Ra & Rb & Z1 & Z2) Ht Hp HQ.
  destruct (Encrypt_ready sa messageID payloadType route m) as (c & E & a & ct & Ea & -> & Es).
  { split_and!; [done|apply Mab|]. unfold header_ok. cbn. rewrite Z1, Ht, Hp. reflexivity. }
  unfold encrypt. rewrite E. eapply runs_try_then; [reflexivity|]. apply runs_ret. rewrite Z1 in Es.
  apply (HQ a ct); [done|done|].
  rewrite (Decrypt_mirrored sa sb messageID payloadType route m _ a ct); rewrite ?Z1, ?Z2; done.
Qed.

Lemma passes_envelope : reads_text -> passes 128 caseEnvelopeE2EValid.
Proof using L Hnow Hopts.
  intros Hd. unfold caseEnvelopeE2EValid. rewrite Hopts. eapply (runs_bind 128 0); [apply runs_session|].
  intros [[[a b] sa] sb] P.
  eapply (runs_bind 0 0 _ _ (fun p => exists s ct, Decrypt (Some sb) p.1 = (Ok (EncodeText "conformance payload"), s) /\
    se_Ciphertext p.1 = Base64URL ct)).
  { apply (runs_encrypt sa sb); [done..|]. intros. eauto. }
  intros [env s'] (s & ct & Ed & Ec). cbn [fst] in *. eapply runs_ensure_then.
  { rewrite Ec, Base64URL_not_Contains; [done|apply list_elem_of_In; cbn; tauto]. }
  unfold decrypt. rewrite Ed. eapply (runs_bind 0 0); [by apply (runs_try_then _ _ _ _ (fun p => p.1 = EncodeText "conformance payload") eq_refl), runs_ret|].
  intros [plain s2] Ep. cbn [fst] in Ep. subst plain. eapply runs_try_then; [apply Hd; vm_compute; reflexivity|]. apply runs_ensure_then; [done|]. by apply runs_ret.
Qed.

(** The instants of the cases lie in order. *)
Ltac order := cbn; unfold Hour, Minute, Second in *; lia.

Lemma runs_channel oob : runs 64 (establish_channel oob : M S _) (fun ch => lc_Ready ch = true).
Proof using L.
  apply runs_rand. intros r Hr. destruct (EstablishLocalChannel_total r (go_bytes oob) Hr) as (ch & _ & _ & E & Hc & _).
  eauto.
Qed.

Lemma fixture_bundle_signed issuer id watch tp wrapped :
  exists b, SignBundle issuer (fixture_bundle id watch tp wrapped now Minute) = Ok b.
Proof using Hnow.
  eapply SignBundle_total; try reflexivity; [|representable..].
  repeat (constructor; [split; [reflexivity|vm_compute; discriminate]|]). constructor.
Qed.

Lemma passes_provisioning : passes 128 caseProvisioningValid.
Proof using L Hnow Hopts.
  unfold caseProvisioningValid. rewrite Hopts. eapply (runs_bind 32 96); [apply runs_device|]. intros phone (Hp & _).
  eapply (runs_bind 32 64); [apply runs_device|]. intros watch (Hw & _ & _ & Htp & _).
  match goal with |- context [SignTicket phone ?x] => destruct (SignTicket_total phone x) as [t Et]; [done|representable..|] end.
  eapply runs_try_then; [exact Et|].
  destruct (provisioning_objects_verify phone now Hp) as (_ & Ht & Hb). eapply runs_try_then; [apply (Ht _ _ Et); order|].
  assert (exists s, Consume NewTicketStore t = (Ok tt, s)) as [s ->].
  { unfold SignTicket, sign_object in Et. inv_ok. by eexists. }
  eapply runs_try_then; [reflexivity|]. eapply (runs_bind 64 0); [apply runs_channel|]. intros ch Hc.
  eapply runs_try_then; [exact Htp|].
  match goal with |- context [SignBundle phone ?x] => destruct (fixture_bundle_signed phone "bundle-a" watch
    (pk_KID (di_PublicKey (dev_Identity watch))) "wrapped-refresh") as [b Eb] end.
  eapply runs_try_then; [exact Eb|]. eapply runs_try_then; [|by apply runs_ret].
  apply (Hb _ _ _ _ Eb). split_and!; [done|order|order|done|done].
Qed.

Lemma passes_ticketV3 : passes 96 caseTicketV3Valid.
Proof using L Hnow Hopts.
  unfold caseTicketV3Valid. rewrite Hopts. eapply (runs_bind 32 64); [apply runs_device|]. intros issuer (Hi & _).
  eapply (runs_bind 32 32); [apply runs_device|]. intros controller (_ & _ & Ic & _).
  eapply (runs_bind 32 0); [apply runs_device|]. intros agent (_ & Da & Ia & Htp & _). rewrite Ic.
  match goal with |- context [SignTicketV3 issuer ?x] =>
    destruct (SignTicketV3_total issuer x) as [t Et]; [done|done|representable..|] end.
  eapply runs_try_then; [exact Et|].
  destruct (provisioning_objects_verify issuer (Add now Minute) Hi) as (Ht & _ & _).
  eapply runs_try_then; [apply (Ht _ _ Et); unfold ticketV3_valid; split_and!; (done || order)|].
  eapply runs_try_then; [|by apply runs_ret]. unfold SignTicketV3, sign_object in Et. inv_ok.
  unfold BindGrantRoles. rewrite Da, Ia, Htp. reflexivity.
Qed.

Lemma passes_reopen : passes 80 caseSessionReopenValid.
Proof using L Hnow Hopts.
  unfold caseSessionReopenValid. rewrite Hopts. eapply (runs_bind 32 48); [apply runs_device|]. intros phone (Hp & Dp & _).
  eapply (runs_bind 32 16); [apply runs_device|]. intros agent (_ & _ & Ia & _). rewrite Ia.
  eapply (runs_bind 16 0 _ _ (fun r => VerifyReopen r (dev_Identity phone)
    (mkReopenVerifyOptions "agent-1" "domain-a" "relay-a" (Add now (2 * Second))) = Ok tt)).
  - eapply (runs_bind 16 0); [apply runs_random|]. intros rnd _. rewrite <- Dp.
    destruct (CreateReopen_VerifyReopen rnd phone "reopen-1" "agent-1" "relay-a" CauseRuntimeStarted now (Add now (2 * Second)))
      as (r & E & V); [done|done|rewrite now_utc_id; representable..| | |].
    + unfold ControlFrameClockSkew. order.
    + pose proof (TruncateSecond_bounds now). unfold ControlFrameMaxTTL. cbn -[TruncateSecond]. unfold Second in *. lia.
    + eapply runs_try; [exact E|exact V].
  - intros r V. eapply runs_try_then; [exact V|]. by apply runs_ret.
Qed.

Context {AB : AeadBinds C}.

Lemma runs_wrap_key : runs 32 (try_rand GenerateSessionKey : M S _)
  (fun '(k, p) => exists r r', GenerateSessionKey r = (Ok (k, p), r')).
Proof using L.
  apply runs_rand. intros r Hr. destruct (GenerateSessionKey_total r Hr) as (k & p & E & _). exists (k, p). eauto.
Qed.

(** What is sealed for a key opens with it, for the transcript it was sealed for. *)
Lemma runs_seal k p r r' transcript plain :
  GenerateSessionKey r = (Ok (k, p), r') ->
  runs 44 (recovery_seal (Base64URL (xpub p)) transcript plain : M S _)
    (fun w => RecoveryOpen w k (Base64URL (xpub p)) transcript = Ok plain).
Proof using L.
  intros E m Hm. unfold recovery_seal. set (nonce := take 12 _).
  destruct (recovery_roundtrip r (mc_rand m) r' k p nonce transcript plain E) as (w & Ew & Eo); [lia| |].
  { unfold nonce. rewrite length_take, length_app, length_replicate. lia. }
  destruct (runs_random 12 (mkMachine (drop 32 (mc_rand m)) (mc_clock m) (mc_text m) (mc_net m))) as (b & m' & Eb & _ & Er & En);
    [cbn; rewrite length_drop; lia|].
  exists w, m'. split_and!; [|done|by rewrite Er; cbn; rewrite drop_drop|by rewrite En].
  unfold try_rand, with_rand, mbind, M_bind in *. rewrite Ew. cbn [try]. by rewrite Eb.
Qed.

Lemma passes_seal : passes 76 caseRecoverySealValid.
Proof using L.
  unfold caseRecoverySealValid. eapply (runs_bind 32 44); [apply runs_wrap_key|]. intros [k p] (r & r' & E).
  eapply (runs_bind 44 0); [by apply (runs_seal k p r r')|]. intros w Hw.
  eapply runs_try_then; [exact Hw|]. apply runs_ensure_then; [by rewrite bool_decide_true|]. by apply runs_ret.
Qed.

(** ** Cases of the security suite *)

Lemma passes_profile : passes 0 caseProductionProfileRejectsUnsafe.
Proof using. apply runs_rejected_then; [vm_compute; reflexivity|]. by apply runs_ret. Qed.

Lemma passes_unsigned unmarshal_expires : passes 32 (caseUnsignedDescriptorRejected unmarshal_expires).
Proof using L Hnow Hopts.
  unfold caseUnsignedDescriptorRejected. rewrite Hopts. eapply (runs_bind 32 0); [apply runs_device|]. intros d _.
  match goal with |- context [RelayDescriptor_json ?x] =>
    destruct (RelayDescriptor_json_good x eq_refl) as (v & Ev & _); [representable..|] end.
  eapply runs_try_then; [exact Ev|]. apply runs_rejected_then; [reflexivity|]. by apply runs_ret.
Qed.

Lemma passes_wrong_challenge : passes 32 caseProofWrongChallengeRejected.
Proof using L Hnow Hopts.
  unfold caseProofWrongChallengeRejected. rewrite Hopts. eapply (runs_bind 32 0); [apply runs_device|]. intros d _.
  destruct (CreateProof_total d "relay-a" "challenge-a" "nonce-a" now) as [p E]; [rewrite now_utc_id; representable|].
  eapply runs_try_then; [exact E|]. apply runs_rejected_then; [|by apply runs_ret].
  apply not_Ok. intros [] V. unfold CreateProof, sign_object in E. unfold VerifyProof in V. inv_ok. bool_prop. discriminate.
Qed.

Lemma grant_reject mutate message :
  (forall b, let o := mutate (mkVerifyOptions "device-b" "device-a" (Thumbprint "Ed25519" b) "text" "relay-a" 1 now) in
     ~ (ns (vo_Now o) < ns now + Hour /\ vo_Audience o = "device-b" /\ vo_SubjectDeviceID o = "device-a" /\
        vo_ConfirmationThumbprint o = Thumbprint "Ed25519" b /\ vo_Permission o = "text" /\ vo_RelayID o = "relay-a" /\
        vo_CurrentRevocationEpoch o <= 1)) ->
  runs 64 (expectGrantReject now mutate message : M S _) (fun _ => True).
Proof using L Hnow.
  intros Ho. unfold expectGrantReject. eapply (runs_bind 64 0); [apply runs_grant|].
  intros [[[i s] g] o] (b & -> & Hg). apply runs_rejected_then; [|by apply runs_ret].
  apply not_Ok. intros [] V%Hg. apply (Ho b). tauto.
Qed.

Lemma Thumbprint_not_wrong b : "wrong-cnf" <> Thumbprint "Ed25519" b.
Proof using.
  intros E. apply (f_equal DecodeBase64URL) in E. unfold Thumbprint in E. rewrite DecodeBase64URL_Base64URL in E.
  assert (is_ok (DecodeBase64URL "wrong-cnf") = false) as H0 by (vm_compute; reflexivity). by rewrite E in H0.
Qed.

Lemma passes_grant_rejections :
  passes 64 caseGrantWrongAudienceRejected /\ passes 64 caseGrantWrongCNFRejected /\
  passes 64 caseGrantWrongPermissionRejected /\ passes 64 caseGrantWrongRelayRejected /\
  passes 64 caseGrantRevokedEpochRejected /\ passes 64 caseGrantExpiredRejected.
Proof using L Hnow Hopts.
  unfold caseGrantWrongAudienceRejected, caseGrantWrongCNFRejected, caseGrantWrongPermissionRejected,
    caseGrantWrongRelayRejected, caseGrantRevokedEpochRejected, caseGrantExpiredRejected. rewrite Hopts.
  split_and!; apply grant_reject; intros b; cbn; intros (? & ? & ? & ? & ? & ? & ?); try done.
  - by eapply Thumbprint_not_wrong.
  - unfold Hour, Minute, Second in *. cbn in *. lia.
Qed.

Lemma passes_before_ready : passes 128 casePayloadBeforeReadyRejected.
Proof using L Hnow Hopts.
  unfold casePayloadBeforeReadyRejected. rewrite Hopts. eapply (runs_bind 128 0); [apply runs_hellos|].
  intros [[[a b] ha] hb] (sa & _ & _ & _ & Ea & _). eapply runs_try_then; [exact Ea|].
  apply Establish_initial in Ea as (_ & _ & R). apply runs_rejected_then; [|by apply runs_ret].
  unfold Encrypt. cbn [Ready]. by rewrite R.
Qed.

Lemma passes_tamper : passes 128 caseEnvelopeAADTamperRejected.
Proof using L AB Hnow Hopts.
  unfold caseEnvelopeAADTamperRejected. rewrite Hopts. eapply (runs_bind 128 0); [apply runs_session|].
  intros [[[a b] sa] sb] P. assert (st_sendSeq sa = 0) as Z0 by apply P.
  eapply (runs_bind 0 0 _ _ (fun p => is_ok (Decrypt (Some sb) (with_priority p.1 9)).1 = false)).
  - apply (runs_encrypt sa sb); [done..|]. intros ad ct s h Ea Es _. cbn [fst]. apply not_Ok. intros m' E.
    destruct (Decrypt _ _) as [r st'] eqn:Ed. cbn [fst] in E. subst r.
    apply Decrypt_Ok in Ed as (s1 & n & ct' & ad' & [= <-] & _ & _ & _ & _ & _ & _ & _ & _ & En & Ec & Ea' & Eo).
    cbn in En, Ec. rewrite DecodeBase64URL_Base64URL in En, Ec. injection En as <-. injection Ec as <-.
    apply Open_Ok in Eo. rewrite Z0 in Eo. pose proof (Seal_binds _ _ _ _ _ _ _ _ Es Eo) as ->.
    change (with_priority _ 9) with (with_ciphertext (with_priority h 9) (Base64URL ct)) in Ea'. rewrite aad_ciphertext in Ea'.
    destruct (aad_inj h (with_priority h 9) ad') as (_ & _ & _ & _ & _ & _ & _ & _ & _ & _ & Hp);
      [unfold header_ok; cbn; by rewrite Z0..|exact Ea|exact Ea'|discriminate Hp].
  - intros [env s] E. apply runs_rejected_then; [exact E|]. by apply runs_ret.
Qed.

Lemma passes_replay : passes 128 caseEnvelopeReplayRejected.
Proof using L Hnow Hopts.
  unfold caseEnvelopeReplayRejected. rewrite Hopts. eapply (runs_bind 128 0); [apply runs_session|].
  intros [[[a b] sa] sb] P. assert (st_sendSeq sa = 0) as Z0 by apply P.
  eapply (runs_bind 0 0 _ _ (fun p => se_Sequence p.1 = 0 /\ exists m, Decrypt (Some sb) p.1 = (Ok m, Some (with_seenSeq sb {[0]})))).
  { apply (runs_encrypt sa sb); [done..|]. intros ad ct s h _ _ Ed. eauto. }
  intros [env s] [Es [m Ed]]. cbn [fst] in *.
  eapply (runs_bind 0 0 _ _ (fun p => p.2 = Some (with_seenSeq sb {[0]}))).
  { unfold decrypt. rewrite Ed. eapply runs_try_then; [reflexivity|]. by apply runs_ret. }
  intros [m' s'] E. cbn [snd] in E. subst s'. apply runs_rejected_then; [|by apply runs_ret].
  destruct (Decrypt_seen (with_seenSeq sb {[0]}) env) as [e ->]; [|done]. rewrite Es. cbn. set_solver.
Qed.

Lemma passes_expired_ticket : passes 32 caseExpiredTicketRejected.
Proof using L Hnow Hopts.
  unfold caseExpiredTicketRejected. rewrite Hopts. eapply (runs_bind 32 0); [apply runs_device|]. intros d (Hd & _).
  match goal with |- context [SignTicket d ?x] => destruct (SignTicket_total d x) as [t Et]; [done|representable..|] end.
  eapply runs_try_then; [exact Et|]. apply runs_rejected_then; [|by apply runs_ret].
  apply not_Ok. intros [] V. apply (proj1 (proj2 (provisioning_objects_verify d now Hd)) _ _ Et) in V.
  cbn in V. unfold Minute, Second in V. lia.
Qed.

Lemma runs_bundle : runs 160 (bundleFixture now : M S _) (fun '(ch, issuer, watch, other, b) =>
  di_DeviceID (dev_Identity other) = "watch-b" /\
  forall ch' local, ApplyBundle ch' local b (dev_Identity issuer) now = Ok tt -> lc_Ready ch' = true /\ di_DeviceID local = "watch-a").
Proof using L Hnow.
  unfold bundleFixture. eapply (runs_bind 32 128); [apply runs_device|]. intros issuer (Hi & _).
  eapply (runs_bind 32 96); [apply runs_device|]. intros watch (_ & _ & Iw & Htp & _).
  eapply (runs_bind 32 64); [apply runs_device|]. intros other (_ & _ & Io & _).
  eapply (runs_bind 64 0); [apply runs_channel|]. intros ch _. eapply runs_try_then; [exact Htp|].
  destruct (fixture_bundle_signed issuer "bundle-a" watch (pk_KID (di_PublicKey (dev_Identity watch))) "wrapped-refresh") as [b Eb].
  eapply runs_try_then; [exact Eb|]. apply runs_ret. split; [done|]. intros ch' local V.
  apply (proj2 (proj2 (provisioning_objects_verify issuer now Hi)) _ _ _ _ Eb) in V as (R & _ & E & _).
  split; [done|]. rewrite <- E. exact Iw.
Qed.

Lemma passes_bundles : passes 160 caseBundleBindingRejected /\ passes 160 caseBundleNotReadyRejected.
Proof using L Hnow Hopts.
  unfold caseBundleBindingRejected, caseBundleNotReadyRejected. rewrite Hopts.
  split; (eapply (runs_bind 160 0); [apply runs_bundle|]); intros [[[[ch i] w] o] b] [Ho V];
    (apply runs_rejected_then; [|by apply runs_ret]); apply not_Ok; intros [] [R E]%V; [congruence|done].
Qed.

Lemma passes_redaction `{MapRange} `{!MapRangeLaws _} : passes 0 caseSecretRedaction.
Proof using.
  unfold caseSecretRedaction. rewrite filter_empty; [by apply runs_ret|]. intros [k v] Hin.
  rewrite map_range_perm in Hin. apply elem_of_map_to_list in Hin. unfold secret_keys in Hin.
  repeat (apply lookup_insert_Some in Hin as [[<- <-]|[_ Hin]]; [vm_compute; reflexivity|]).
  apply lookup_singleton_Some in Hin as [<- <-]. vm_compute. reflexivity.
Qed.

(** The devices made of the next 64 random bytes have different key ids. *)
Definition different_keys (r : reader) : Prop :=
  Thumbprint "Ed25519" (ed25519_public (take 32 r)) <> Thumbprint "Ed25519" (ed25519_public (take 32 (drop 32 r))).

Lemma passes_forged_kid : runs_if different_keys 64 (caseForgedKIDRejected opts) (fun _ => True).
Proof using L Hnow Hopts.
  intros m Hm Hd. unfold different_keys in Hd. unfold caseForgedKIDRejected. rewrite Hopts.
  refine (runs_if_bind (fun r => take 32 r = take 32 (mc_rand m)) (fun r => take 32 r = take 32 (drop 32 (mc_rand m)))
    32 32 _ _ _ _ (runs_device_of _ _ _) _ m Hm (conj eq_refl eq_refl)).
  intros d1 [_ K1]. refine (runs_if_then _ 32 0 _ _ _ _ (runs_device_of _ _ _) _). intros d2 [(_ & _ & _ & T2 & _) K2].
  destruct (CreateProof_total d2 "relay-a" "challenge" "nonce" now) as [p E]; [rewrite now_utc_id; representable|].
  eapply runs_try_then; [exact E|]. apply runs_rejected_then; [|by apply runs_ret]. apply not_Ok. intros [] V.
  unfold IdentityThumbprint in T2. unfold VerifyProof in V. cbn [with_kid di_PublicKey pk_Public pk_KTY pk_KID] in V. inv_ok. bool_prop. congruence.
Qed.

Lemma passes_reversal : passes 32 caseTicketAudienceReversalRejected.
Proof using L Hopts.
  unfold caseTicketAudienceReversalRejected. rewrite Hopts. eapply (runs_bind 32 0); [apply runs_device|]. intros d (_ & Hd & Hi & _).
  rewrite Hi. apply runs_rejected_then; [|by apply runs_ret]. unfold BindGrantRoles. by rewrite Hd, Hi.
Qed.

Lemma passes_window : passes 48 caseReopenWindowRejected.
Proof using L Hnow Hopts.
  unfold caseReopenWindowRejected. rewrite Hopts. eapply (runs_bind 32 16); [apply runs_device|]. intros d _.
  eapply (runs_bind 16 0 _ _ (fun r => ro_ExpiresAt r = Add (TruncateSecond now) ControlFrameMaxTTL)).
  - eapply (runs_bind 16 0); [apply runs_random|]. intros rnd _.
    destruct (CreateReopen_total rnd d "reopen-1" "agent-1" "relay-a" CauseForegroundRecovery now) as [r E];
      [done|rewrite now_utc_id; representable..|].
    eapply runs_try; [exact E|]. unfold CreateReopen, sign_object in E. rewrite now_utc_id in E. by inv_ok.
  - intros r Hr. apply runs_rejected_then; [|by apply runs_ret]. apply not_Ok. intros [] V.
    apply VerifyReopen_spec in V as [(_ & _ & _ & _ & _ & _ & _ & (_ & Hw & _) & _) _]. rewrite Hr in Hw.
    pose proof (TruncateSecond_bounds now). unfold ControlFrameMaxTTL in Hw. cbn -[TruncateSecond] in Hw. unfold Second in *. lia.
Qed.

Lemma passes_transcript : passes 76 caseRecoveryTranscriptRejected.
Proof using L AB.
  unfold caseRecoveryTranscriptRejected. eapply (runs_bind 32 44); [apply runs_wrap_key|]. intros [k p] (r & r' & E).
  eapply (runs_bind 44 0); [by apply (runs_seal k p r r')|]. intros w Hw. apply runs_rejected_then; [|by apply runs_ret].
  apply not_Ok. intros m V. apply RecoveryOpen_sound in V as (_ & ? & ? & ? & ? & n & ct & _ & _ & _ & _ & En & Ec & V).
  apply RecoveryOpen_sound in Hw as (_ & ? & ? & ? & ? & n' & ct' & _ & _ & _ & _ & En' & Ec' & V').
  rewrite En in En'. rewrite Ec in Ec'. injection En' as <-. injection Ec' as <-.
  pose proof (Seal_binds _ _ _ _ _ _ _ _ V V') as T. vm_compute in T. discriminate T.
Qed.

End fixtures.
