(* ===== verification/ConformanceVerdict.v ===== *)
(** * The verdict of a conformance run

    A run of [conformance/runner.go] ends in a report; the cases of priority P0 pass
    on the libraries as modelled; and the release decision a run writes down is the
    one its report is judged by afterwards. *)
From Stdlib Require Import ZArith Lia Strings.Byte Floats.SpecFloat.
From stdpp Require Import numbers gmap strings base list.
From S2P Require Import Prelude Errors Utf8 GoJson RawFacts Canonical CanonicalProps GoTime Base64 Sha256 Crypto Signed Identity.
From S2P Require Import Trust Session SessionProps Control Envelope Provisioning GoStrings Config Recovery Descriptor AuditHash.
From S2P Require Import Payload Logging Sorting Queue Keyring TrustServer Runner Conformance ConformanceProps.
Open Scope Z_scope.

(** ** Cases and suites *)

Definition case_passed (c : CaseReport) : Prop := cr_Status c = StatusPass.

(** What the cases of a list need of the randomness, each after those before. *)
Fixpoint needs (l : list (nat * (reader -> Prop))) (r : reader) : Prop :=
  match l with
  | [] => True
  | (n, P) :: l => P r /\ needs l (drop n r)
  end.

Fixpoint consumed (l : list (nat * (reader -> Prop))) : nat :=
  match l with
  | [] => 0
  | (n, _) :: l => n + consumed l
  end.

(** A suite's counts are those of its cases. *)
Record suite_ok (id priority : string) (n : nat) (su : SuiteReport) : Prop := {
  so_id : su_ID su = id;
  so_priority : su_Priority su = priority;
  so_length : length (su_Cases su) = n;
  so_count : su_CaseCount su = Z.of_nat n;
  so_passed : su_Passed su = count_status StatusPass (su_Cases su);
  so_failed : su_Failed su = count_status StatusFail (su_Cases su);
  so_skipped : su_Skipped su = count_status StatusSkip (su_Cases su);
  so_status : Forall (fun c => cr_Status c = StatusPass \/ cr_Status c = StatusFail \/ cr_Status c = StatusSkip) (su_Cases su)
}.

Section run.
  Context {S : Type} (opts : Options S).

Lemma runs_case P n c :
  runs_if P n (cd_run c opts) (fun _ => True) -> runs_if P n (runCase opts c) case_passed.
Proof.
  intros Hc m Hm HP.
  destruct (Hc (mkMachine (mc_rand m) (fun n => mc_clock m (1 + n)%nat) (mc_text m) (mc_net m)) Hm HP) as (ev & m' & E & _ & Er).
  unfold runCase, attempt, since_ms, mbind, M_bind, time_now. rewrite E. eexists _, _. split; [reflexivity|]. done.
Qed.

Lemma runs_cases cases l :
  Forall2 (fun c p => runs_if p.2 p.1 (cd_run c opts) (fun _ => True)) cases l ->
  runs_if (needs l) (consumed l) (runCases opts cases) (Forall case_passed).
Proof.
  induction 1 as [|c [n P] cases l Hc _ IH]; cbn [needs consumed runCases].
  - by apply runs_runs_if, runs_ret.
  - apply (runs_if_bind P (needs l) _ _ _ _ case_passed); [by apply runs_case|]. intros r Hr.
    rewrite <- (Nat.add_0_r (consumed l)). eapply runs_if_then; [exact IH|]. intros rs Hrs. apply runs_ret. by constructor.
Qed.

(** Whatever its cases do, a suite that returns is counted correctly. *)
Lemma runCase_status c m r m' : runCase opts c m = (Returned r, m') ->
  cr_Status r = StatusPass \/ cr_Status r = StatusFail \/ cr_Status r = StatusSkip.
Proof.
  unfold runCase, attempt, since_ms, mbind, M_bind, time_now.
  destruct (cd_run c opts _) as [[ev|e|reason|] m1]; intros [= <- _] || discriminate; cbn; tauto.
Qed.

Lemma runCases_status cases : forall m rs m', runCases opts cases m = (Returned rs, m') ->
  length rs = length cases /\
  Forall (fun c => cr_Status c = StatusPass \/ cr_Status c = StatusFail \/ cr_Status c = StatusSkip) rs.
Proof.
  induction cases as [|c cases IH]; intros m rs m'; cbn [runCases].
  - intros [= <- _]. split; [done|constructor].
  - intros (r & m1 & Hr & (rs' & m2 & Hrs & [= <- _])%M_bind_Returned)%M_bind_Returned.
    apply IH in Hrs as [Hl Hs]. apply runCase_status in Hr. split; [cbn; by f_equal|by constructor].
Qed.

Lemma runSuite_ok id name priority required cases m su m' :
  runSuite opts id name priority required cases m = (Returned su, m') -> suite_ok id priority (length cases) su.
Proof.
  unfold runSuite, since_ms.
  intros (st & m1 & _ & (rs & m2 & Hrs & (ms & m3 & _ & [= <- _])%M_bind_Returned)%M_bind_Returned)%M_bind_Returned.
  apply runCases_status in Hrs as [Hl Hs]. split; cbn; congruence || done.
Qed.

Lemma runs_suite id name priority required cases l :
  Forall2 (fun c p => runs_if p.2 p.1 (cd_run c opts) (fun _ => True)) cases l ->
  runs_if (needs l) (consumed l) (runSuite opts id name priority required cases)
    (fun su => suite_ok id priority (length cases) su /\ Forall case_passed (su_Cases su)).
Proof.
  intros Hc m Hm HP.
  destruct (runs_cases cases l Hc (mkMachine (mc_rand m) (fun n => mc_clock m (1 + n)%nat) (mc_text m) (mc_net m)) Hm HP)
    as (rs & m' & E & Hrs & Er).
  destruct (runSuite opts id name priority required cases m) as [r m2] eqn:R.
  pose proof R as R'. unfold runSuite, since_ms, mbind, M_bind, time_now in R. rewrite E in R. injection R as <- <-.
  eexists _, _. split; [reflexivity|]. apply runSuite_ok in R'. split; [by split|done].
Qed.

(** A suite returns when no case panics. *)
Lemma suite_returns id name priority required cases m :
  Forall (fun c => safe (cd_run c opts)) cases ->
  exists su m', runSuite opts id name priority required cases m = (Returned su, m').
Proof.
  intros Hc. assert (forall m, exists rs m', runCases opts cases m = (Returned rs, m')) as Hcs.
  { induction Hc as [|c cases Hc _ IH]; intros m1; cbn [runCases]; [by eexists _, _|].
    assert (exists r m', runCase opts c m1 = (Returned r, m')) as (r & m2 & Er).
    { unfold runCase, attempt, since_ms, mbind, M_bind, time_now.
      specialize (Hc (mkMachine (mc_rand m1) (fun n => mc_clock m1 (1 + n)%nat) (mc_text m1) (mc_net m1))).
      destruct (cd_run c opts _) as [[ev|e|reason|] m2]; [by eexists _, _..|done]. }
    destruct (IH m2) as (rs & m3 & Ers). unfold mbind, M_bind. rewrite Er, Ers. by eexists _, _. }
  unfold runSuite, since_ms, mbind, M_bind, time_now.
  destruct (Hcs (mkMachine (mc_rand m) (fun n => mc_clock m (1 + n)%nat) (mc_text m) (mc_net m))) as (rs & m' & ->).
  by eexists _, _.
Qed.

End run.

(** ** Counting *)

Lemma count_status_all st cases :
  0 <= count_status st cases <= Z.of_nat (length cases) /\
  (count_status st cases = 0 <-> Forall (fun c => cr_Status c <> st) cases).
Proof.
  unfold count_status. induction cases as [|c cases IH]; cbn [List.filter length]; [split; [lia|split; [constructor|done]]|].
  rewrite Forall_cons. case_bool_decide; cbn [length]; split; try lia; split.
  - lia.
  - naive_solver.
  - intros E. split; [done|]. apply IH. exact E.
  - intros [_ Hc]. by apply IH.
Qed.

Lemma count_pass_all cases : Forall case_passed cases -> count_status StatusPass cases = Z.of_nat (length cases).
Proof.
  unfold count_status. induction 1 as [|c cases Hc _ IH]; [done|]. cbn [List.filter]. rewrite bool_decide_true by done.
  cbn [length]. lia.
Qed.

(** A suite has neither failed nor skipped cases exactly when all pass. *)
Lemma suite_all_pass id p n su : suite_ok id p n su ->
  ((0 <? su_Failed su) = false /\ (0 <? su_Skipped su) = false) <-> Forall case_passed (su_Cases su).
Proof.
  intros [_ _ _ _ _ Hf Hs Hst]. rewrite Hf, Hs.
  destruct (count_status_all StatusFail (su_Cases su)) as [? F], (count_status_all StatusSkip (su_Cases su)) as [? K].
  split.
  - intros [? ?]. assert (count_status StatusFail (su_Cases su) = 0) as F'%F by lia.
    assert (count_status StatusSkip (su_Cases su) = 0) as K'%K by lia.
    rewrite Forall_forall in *. intros c Hc. specialize (Hst c Hc). specialize (F' c Hc). specialize (K' c Hc). unfold case_passed. tauto.
  - intros Hp. split; apply Z.ltb_ge; [rewrite (proj2 F)|rewrite (proj2 K)]; try lia;
      (eapply Forall_impl; [exact Hp|]); intros c Hc; unfold case_passed in Hc; rewrite Hc; discriminate.
Qed.

(** ** The verdict *)

Definition no_failure (su : SuiteReport) : Prop := Forall (fun c => cr_Status c <> StatusFail) (su_Cases su).

Definition all_pass (su : SuiteReport) : Prop := Forall case_passed (su_Cases su).

Lemma no_failure_spec id p n su : suite_ok id p n su -> (0 <? su_Failed su) = false <-> no_failure su.
Proof.
  intros [_ _ _ _ _ Hf _ _]. rewrite Hf. destruct (count_status_all StatusFail (su_Cases su)) as [? F].
  unfold no_failure. rewrite <- F. lia.
Qed.

(** What a suite does to the verdict. *)
Lemma judge_spec id p n su v :
  suite_ok id p n su -> (0 < n)%nat -> p = PriorityP0 \/ p = PriorityP1 ->
  ((judge v su).1.2 = "go" <-> v.1.2 = "go" /\ all_pass su) /\
  ((judge v su).1.1 = StatusPass <-> v.1.1 = StatusPass /\ if bool_decide (p = PriorityP0) then all_pass su else no_failure su).
Proof.
  intros Hsu Hn Hp. pose proof (suite_all_pass _ _ _ _ Hsu) as Ha. pose proof (no_failure_spec _ _ _ _ Hsu) as Hf.
  fold (all_pass su) in Ha. destruct Hsu as [_ Hpr _ Hc _ _ _ _], v as [[res decision] risks].
  cbn [fst snd]. unfold judge. rewrite Hpr, Hc. destruct (Z.eqb_spec (Z.of_nat n) 0); [lia|].
  destruct (0 <? su_Failed su), (0 <? su_Skipped su), Hp as [-> | ->];
    rewrite ?(bool_decide_false (PriorityP0 = PriorityP1)), ?(bool_decide_false (PriorityP1 = PriorityP0)) by done;
    rewrite !bool_decide_true by done; cbn; unfold StatusPass, StatusFail; intuition congruence.
Qed.

(** A suite of at least one case, of either priority. *)
Definition counted (su : SuiteReport) : Prop :=
  exists id p n, suite_ok id p n su /\ (0 < n)%nat /\ (p = PriorityP0 \/ p = PriorityP1).

Lemma judged suites v : Forall counted suites ->
  ((foldl judge v suites).1.2 = "go" <-> v.1.2 = "go" /\ Forall all_pass suites) /\
  ((foldl judge v suites).1.1 = StatusPass <-> v.1.1 = StatusPass /\
   Forall (fun su => if bool_decide (su_Priority su = PriorityP0) then all_pass su else no_failure su) suites).
Proof.
  intros Hs. revert v. induction Hs as [|su suites (id & p & n & Hsu & Hn & Hp) _ IH]; intros v; cbn [foldl].
  - split; (split; [by split|by intros []]).
  - destruct (IH (judge v su)) as [-> ->], (judge_spec id p n su v Hsu Hn Hp) as [-> ->].
    rewrite !Forall_cons, (so_priority _ _ _ _ Hsu). tauto.
Qed.

Section suites.
  Context {C : CryptoOps} {SS : SortSlice} {R : MapRange} {RL : MapRangeLaws R} {U : Unicode} `{Decode Text} {S : Type} `{HttpClient S}.
  Context `{Decode serviceCredentials} `{Decode (gmap string Value)} `{Decode serviceGrant}.
  Context (unmarshal_expires : bytes -> result Time).

(** A report as [Run] makes them. *)
Definition report_ok (report : Report) : Prop :=
  exists core security feature interop cli,
    rp_Suites report = [core; security; feature; interop; cli] /\
    suite_ok "p0_core" PriorityP0 9 core /\ suite_ok "p0_security_negative" PriorityP0 20 security /\
    suite_ok "p1_feature" PriorityP1 2 feature /\ suite_ok "service_interop" PriorityP1 4 interop /\
    suite_ok "cli_workflow" PriorityP1 2 cli /\
    rp_Type report = ReportType /\ rp_Summary report = summarize (rp_Suites report) /\
    (rp_Result report, rp_ReleaseDecision report, rp_ResidualRisks report) = conclude (rp_Suites report).

Lemma Run_report opts m report m' : Run unmarshal_expires opts m = (Returned report, m') -> report_ok report.
Proof using.
  unfold Run. intros (now & m0 & _ & (st & m1 & _ & (core & m2 & Hcore & (sec & m3 & Hsec & (feat & m4 & Hfeat &
    (inter & m5 & Hint & (cli & m6 & Hcli & (ms & m7 & _ & E)%M_bind_Returned)%M_bind_Returned)%M_bind_Returned)%M_bind_Returned)
    %M_bind_Returned)%M_bind_Returned)%M_bind_Returned)%M_bind_Returned.
  destruct (conclude _) as [[res decision] risks] eqn:Ec. injection E as <- _.
  exists core, sec, feat, inter, cli. cbn [rp_Suites rp_Type rp_Summary rp_Result rp_ReleaseDecision rp_ResidualRisks].
  apply runSuite_ok in Hcore, Hsec, Hfeat, Hint, Hcli. split_and!; done.
Qed.

Lemma report_counted report : report_ok report -> Forall counted (rp_Suites report).
Proof using.
  intros (core & sec & feat & inter & cli & -> & ? & ? & ? & ? & ? & _).
  repeat (constructor; [do 3 eexists; split_and!; [eassumption|lia|by (left + right)]|]). constructor.
Qed.

Lemma report_size report : report_ok report -> sm_CaseCount (rp_Summary report) = 37.
Proof using.
  intros (core & sec & feat & inter & cli & E & [] & [] & [] & [] & [] & _ & -> & _). rewrite E.
  unfold summarize. cbn [foldl sm_CaseCount]. lia.
Qed.

(** The decision and the result of a report, by its cases. *)
Lemma report_verdict report : report_ok report ->
  (rp_ReleaseDecision report = "go" <-> Forall all_pass (rp_Suites report)) /\
  (rp_Result report = StatusPass <->
   Forall (fun su => if bool_decide (su_Priority su = PriorityP0) then all_pass su else no_failure su) (rp_Suites report)).
Proof using.
  intros Hr. pose proof (judged (rp_Suites report) (StatusPass, "go", []) (report_counted report Hr)) as [Hgo Hres].
  pose proof (report_size report Hr) as Hn. destruct Hr as (core & sec & feat & inter & cli & _ & _ & _ & _ & _ & _ & _ & Hs & Ev).
  unfold conclude in Ev. rewrite <- Hs, Hn in Ev. cbn [Z.eqb] in Ev.
  destruct (foldl judge _ _) as [[res decision] risks]. injection Ev as -> -> _. cbn [fst snd] in *. tauto.
Qed.

Definition p0_pass (report : Report) : Prop :=
  forall su, su ∈ rp_Suites report -> su_Priority su = PriorityP0 -> all_pass su.

(** One suite that [ValidateP0] asks for. *)
Lemma check_required_cons id p n su required suites out b :
  suite_ok id p n su -> (0 < n)%nat -> required !! id = Some b ->
  check_required required (su :: suites) = Ok out <-> all_pass su /\ check_required (<[id := true]> required) suites = Ok out.
Proof using.
  intros Hsu Hn Hr. pose proof (suite_all_pass _ _ _ _ Hsu) as Ha. fold (all_pass su) in Ha. cbn [check_required].
  destruct Hsu as [Hid _ _ Hc _ _ _ _]. rewrite Hid, Hr, !guard_Ok, Hc. rewrite (proj2 (Z.eqb_neq (Z.of_nat n) 0)) by lia. tauto.
Qed.

Lemma check_required_skip id p n su required suites :
  suite_ok id p n su -> required !! id = None -> check_required required (su :: suites) = check_required required suites.
Proof using. intros [Hid _ _ _ _ _ _ _] Hr. cbn [check_required]. by rewrite Hid, Hr. Qed.

Lemma ValidateP0_spec report : report_ok report -> ValidateP0 report = Ok tt <-> p0_pass report.
Proof using RL.
  intros Hr. pose proof (report_size report Hr) as Hn.
  destruct Hr as (core & sec & feat & inter & cli & Es & H1' & H2' & H3' & H4' & H5' & Ht & _ & _).
  unfold ValidateP0. rewrite Ht, Hn, !guard_Ok, bind_Ok, Es. setoid_rewrite (check_required_cons _ _ _ _ _ _ _ false H1'); [|lia|reflexivity].
  setoid_rewrite (check_required_cons _ _ _ _ _ _ _ false H2'); [|lia|reflexivity].
  rewrite (check_required_skip _ _ _ _ _ _ H3'), (check_required_skip _ _ _ _ _ _ H4'), (check_required_skip _ _ _ _ _ _ H5') by reflexivity.
  cbn [check_required]. rewrite bool_decide_true by done. split.
  - intros (_ & _ & required & (Hc & Hsec & _) & _) su Hin Hp. rewrite Es in Hin.
    repeat (apply elem_of_cons in Hin as [->|Hin]; [try done|]); [..|by apply not_elem_of_nil in Hin];
      [rewrite (so_priority _ _ _ _ H3') in Hp|rewrite (so_priority _ _ _ _ H4') in Hp|rewrite (so_priority _ _ _ _ H5') in Hp]; discriminate.
  - intros Hall. split_and!; [done|done|]. eexists. split_and!; [apply Hall..|reflexivity|].
    + rewrite Es. left.
    + apply H1'.
    + rewrite Es. right. left.
    + apply H2'.
    + rewrite filter_empty; [done|]. intros [k b] Hin. rewrite map_range_perm in Hin. apply elem_of_map_to_list in Hin.
      unfold requiredSuites in Hin. repeat (apply lookup_insert_Some in Hin as [[<- <-]|[? Hin]]; [try done|]).
      apply lookup_singleton_Some in Hin as [<- <-]. done.
Qed.

(** A suite whose cases all pass has a rate of one. *)
Lemma full_rate n : n ∈ [2; 4; 9; 20]%nat ->
  SFltb (fdiv (float64 (Z.of_nat n)) (float64 (Z.of_nat n))) float_095 = false /\ (Z.of_nat n =? 0) = false.
Proof using.
  intros Hn. assert (forallb (fun n => negb (SFltb (fdiv (float64 (Z.of_nat n)) (float64 (Z.of_nat n))) float_095) &&
    negb (Z.of_nat n =? 0)) [2; 4; 9; 20]%nat = true) as Hall by (vm_compute; reflexivity).
  rewrite forallb_forall in Hall. specialize (Hall n (proj1 (list_elem_of_In _ _) Hn)). bool_prop. done.
Qed.

Lemma check_release_cons id p n su suites :
  suite_ok id p n su -> n ∈ [2; 4; 9; 20]%nat -> all_pass su -> check_release (su :: suites) = check_release suites.
Proof using.
  intros Hsu Hn Ha. pose proof (proj2 (suite_all_pass _ _ _ _ Hsu) Ha) as [Hf Hk].
  destruct Hsu as [_ _ Hl Hc Hp _ _ _]. cbn [check_release]. unfold pass_rate.
  rewrite Hf, Hk, Hp, Hc, (count_pass_all _ Ha), Hl. destruct (full_rate n Hn) as [-> ->].
  cbn [orb reject_if]. by rewrite andb_false_r.
Qed.

Lemma ValidateRelease_spec report : report_ok report -> ValidateRelease report = Ok tt <-> Forall all_pass (rp_Suites report).
Proof using RL.
  intros Hr. destruct (report_verdict report Hr) as [Hgo Hres]. unfold ValidateRelease. rewrite bind_Ok. split.
  - intros (_ & _ & [E _]%guard_Ok). apply Hgo. bool_prop. done.
  - intros Ha. exists tt. split.
    { apply (ValidateP0_spec report Hr). intros su Hin _. by apply (proj1 (Forall_forall _ _) Ha). }
    apply guard_Ok. rewrite (bool_decide_true (_ = "go")) by by apply Hgo. rewrite (bool_decide_true (_ = StatusPass)).
    2: { apply Hres. eapply Forall_impl; [exact Ha|]. intros su Hs. cbv beta. case_bool_decide; [done|].
         eapply Forall_impl; [exact Hs|]. intros c Hc. unfold case_passed in Hc. by rewrite Hc. }
    split; [done|]. destruct Hr as (core & sec & feat & inter & cli & Es & H1' & H2' & H3' & H4' & H5' & _). rewrite Es in *.
    repeat match goal with H : Forall all_pass (_ :: _) |- _ => apply Forall_cons in H as [? H] end.
    rewrite (check_release_cons _ _ _ _ _ H1'), (check_release_cons _ _ _ _ _ H2'), (check_release_cons _ _ _ _ _ H3'),
      (check_release_cons _ _ _ _ _ H4'), (check_release_cons _ _ _ _ _ H5') by (done || (rewrite !elem_of_cons; tauto)).
    done.
Qed.

(** C34. The verdict a run writes into its report is the one the report is judged by
    afterwards, whatever the services and the command line did: the report is
    accepted for release exactly when the run decided "go", which is when every
    case passed; its result is "pass" exactly when no case failed and none of
    priority P0 was skipped; and the P0 check accepts it exactly when all cases of
    the P0 suites passed. *)
Theorem release_decision_agrees opts m report m' :
  Run unmarshal_expires opts m = (Returned report, m') ->
  (ValidateRelease report = Ok tt <-> rp_ReleaseDecision report = "go") /\
  (rp_ReleaseDecision report = "go" <-> Forall all_pass (rp_Suites report)) /\
  (rp_Result report = StatusPass <->
   Forall (fun su => if bool_decide (su_Priority su = PriorityP0) then all_pass su else no_failure su) (rp_Suites report)) /\
  (ValidateP0 report = Ok tt <-> p0_pass report).
Proof using RL.
  intros Hr%Run_report. destruct (report_verdict report Hr) as [Hgo Hres].
  split_and!; [by rewrite Hgo; apply ValidateRelease_spec|done|done|by apply ValidateP0_spec].
Qed.

(** ** The P0 suites pass *)

Ltac safety := repeat match goal with
  | |- safe (_ ≫= _) => apply safe_bind
  | |- forall _, _ => intro
  | |- safe (let '_ := ?x in _) => destruct x
  | |- safe (if ?b then _ else _) => destruct b
  | |- safe (match ?x with _ => _ end) => destruct x
  | |- safe _ => solve [auto with safe]
  end.

Lemma safe_post {A} url in_ (out : bytes -> result A) want headers :
  safe (postServiceJSONWithHeaders url in_ out want headers : M S A).
Proof using. unfold postServiceJSONWithHeaders. safety. Qed.

Lemma safe_envelope now a : safe (serviceEnvelope now a : M S SecureEnvelope).
Proof using. unfold serviceEnvelope, new_device, create_hello, encrypt. safety. Qed.

Lemma safe_feature (opts : Options S) : Forall (fun c => safe (cd_run c opts)) p1FeatureCases.
Proof using.
  unfold p1FeatureCases. repeat constructor; cbn [cd_run]; unfold caseAuditHashChain, caseQueueTTLAndPriority, enqueue; safety.
Qed.

Lemma safe_interop (opts : Options S) : Forall (fun c => safe (cd_run c opts)) serviceInteropCases.
Proof using.
  unfold serviceInteropCases. repeat constructor; cbn [cd_run];
    unfold caseRelayEndpointHealth, caseTrustEndpointHealth, caseRelayServiceWorkflow, caseTrustServiceWorkflow, probeEndpoint,
      postServiceJSON, postServiceJSONWithBearer, postServiceJSONWithAdmin, new_device;
    safety; try (apply safe_post || apply safe_envelope).
Qed.

(** The command-line workflows given to a run do not panic. *)
Definition cli_safe (opts : Options S) : Prop :=
  match op_CLIRunner opts with Some r => safe r | None => True end /\
  match op_CLIWorkflows opts with Some w => safe w | None => True end.

Lemma safe_cli (opts : Options S) : cli_safe opts -> Forall (fun c => safe (cd_run c opts)) cliWorkflowCases.
Proof using.
  intros [Hr Hw]. unfold cliWorkflowCases. repeat constructor; cbn [cd_run]; unfold caseCLILocalE2E, caseCLICommandSet.
  - destruct (op_CLIRunner opts) as [r|]; [|auto with safe]. apply safe_bind; [|safety].
    intros m. unfold attempt. specialize (Hr m). by destruct (r m) as [[| | |] ?].
  - destruct (op_CLIWorkflows opts) as [w|]; [|auto with safe]. apply safe_bind; [done|]. safety.
Qed.

Context {L : CryptoLaws C} {AB : AeadBinds C}.

Section instant.
  Context (now : Time) (Hnow : now_ok now = true) (Htext : reads_text) (Hexp : reads_expiry now unmarshal_expires).
  Context (opts : Options S) (Hopts : op_Now opts = now).

Ltac each := lazymatch goal with
  | |- Forall2 _ (_ :: _) _ => constructor; [cbn [fst snd cd_run]|each]
  | |- _ => constructor
  end.

(** What each case reads of the randomness. *)
Definition core_needs : list (nat * (reader -> Prop)) :=
  map (fun n => (n, fun _ => True)) [32; 32; 64; 128; 128; 128; 96; 80; 76]%nat.

Definition security_needs : list (nat * (reader -> Prop)) :=
  map (fun n => (n, fun _ => True)) [0; 32; 32; 64; 64; 64; 64; 64; 64; 128; 128; 128; 32; 160; 160; 0]%nat ++
  (64%nat, different_keys) :: map (fun n => (n, fun _ => True)) [32; 48; 76]%nat.

Lemma core_passes :
  Forall2 (fun c p => runs_if p.2 p.1 (cd_run c opts) (fun _ => True)) (p0CoreCases unmarshal_expires) core_needs.
Proof using L Hnow Htext Hexp Hopts.
  unfold p0CoreCases, core_needs. cbn [map].
  each; apply runs_runs_if;
    eauto using passes_proof, passes_descriptor, passes_grant, passes_session, passes_envelope, passes_provisioning,
      passes_ticketV3, passes_reopen, passes_seal.
Qed.

Lemma security_passes :
  Forall2 (fun c p => runs_if p.2 p.1 (cd_run c opts) (fun _ => True)) (p0SecurityCases unmarshal_expires) security_needs.
Proof using L AB RL Hnow Hopts.
  destruct (passes_grant_rejections now Hnow opts Hopts) as (? & ? & ? & ? & ? & ?), (passes_bundles now Hnow opts Hopts) as [? ?].
  unfold p0SecurityCases, security_needs. cbn [map app].
  each; [apply runs_runs_if..|exact (passes_forged_kid now Hnow opts Hopts)|apply runs_runs_if|apply runs_runs_if|apply runs_runs_if].
  1: exact (passes_profile opts). 1: exact (passes_unsigned now Hnow opts Hopts _).
  1: exact (passes_wrong_challenge now Hnow opts Hopts). 1-6: assumption.
  1: exact (passes_before_ready now Hnow opts Hopts). 1: exact (passes_tamper now Hnow opts Hopts).
  1: exact (passes_replay now Hnow opts Hopts). 1: exact (passes_expired_ticket now Hnow opts Hopts). 1-2: assumption.
  1: exact (passes_redaction opts). 1: exact (passes_reversal now opts Hopts). 1: exact (passes_window now Hnow opts Hopts).
  1: exact (passes_transcript opts).
Qed.

End instant.

(** The instant a run gives its cases. *)
Definition run_instant (opts : Options S) (m : Machine S) : Time :=
  if IsZero (op_Now opts) then UTC (mc_clock m O) else op_Now opts.

(** C11. The libraries conform: whatever the services at the configured endpoints do, and
    for every cryptography that obeys its laws, a run ends in a report in which
    every case of the two P0 suites passed, and which the P0 check accepts.  The
    run needs 2168 random bytes (those of the forged-key case give two different
    keys), an instant that JSON can express, and command-line workflows that do
    not panic. *)
Theorem conformance_p0_holds opts m :
  now_ok (run_instant opts m) = true -> reads_text -> reads_expiry (run_instant opts m) unmarshal_expires ->
  (2168 <= length (mc_rand m))%nat -> different_keys (drop 1948 (mc_rand m)) -> cli_safe opts ->
  exists report m', Run unmarshal_expires opts m = (Returned report, m') /\ p0_pass report /\ ValidateP0 report = Ok tt.
Proof using L AB RL.
  intros Hnow Htext Hexp Hm Hd Hcli. set (now := run_instant opts m) in *.
  enough (exists report m', Run unmarshal_expires opts m = (Returned report, m') /\ p0_pass report) as (report & m' & E & Hp).
  { exists report, m'. split_and!; [done..|]. by apply ValidateP0_spec; [eapply Run_report|]. }
  set (opts' := mkOptions (if bool_decide (op_Version opts = "") then "0.1.0-dev" else op_Version opts) (op_RelayEndpoint opts)
    (op_TrustEndpoint opts) (op_AdminToken opts) (op_CLIRunner opts) (op_CLIWorkflows opts) now).
  assert (exists m0, (if IsZero (op_Now opts) then now ← time_now; mret (UTC now) else mret (op_Now opts) : M S Time) m
    = (Returned now, m0) /\ mc_rand m0 = mc_rand m) as (m0 & E0 & R0).
  { unfold now, run_instant. destruct (IsZero (op_Now opts)); by eexists. }
  set (m1 := mkMachine (mc_rand m0) (fun n => mc_clock m0 (1 + n)%nat) (mc_text m0) (mc_net m0)).
  destruct (runs_suite opts' "p0_core" "P0 Core" PriorityP0 true _ _ (core_passes now Hnow Htext Hexp opts' eq_refl) m1)
    as (core & m2 & E1 & (S1 & P1) & R1 & _); [cbn; rewrite R0; lia|cbn; tauto|].
  assert (mc_rand m2 = drop 764 (mc_rand m)) as R2 by (rewrite R1; cbn; by rewrite R0).
  destruct (runs_suite opts' "p0_security_negative" "P0 Security Negative" PriorityP0 true _ _ (security_passes now Hnow opts' eq_refl) m2)
    as (sec & m3 & E2 & (S2 & P2) & _); [rewrite R2, length_drop; cbn; lia| |].
  { rewrite R2. cbn [needs security_needs map app]. rewrite !drop_drop. by cbn [Nat.add]. }
  destruct (suite_returns opts' "p1_feature" "P1 Feature" PriorityP1 false _ m3 (safe_feature opts')) as (feat & m4 & E3).
  destruct (suite_returns opts' "service_interop" "Service Interoperability" PriorityP1 false _ m4 (safe_interop opts')) as (inter & m5 & E4).
  destruct (suite_returns opts' "cli_workflow" "CLI Workflow" PriorityP1 false _ m5 (safe_cli opts' Hcli)) as (cli & m6 & E5).
  destruct (conclude [core; sec; feat; inter; cli]) as [[res decision] risks] eqn:Ec.
  eexists _, _. split.
  - unfold Run. eapply M_bind_step; [exact E0|]. eapply M_bind_step; [reflexivity|]. eapply M_bind_step; [exact E1|].
    eapply M_bind_step; [exact E2|]. eapply M_bind_step; [exact E3|]. eapply M_bind_step; [exact E4|].
    eapply M_bind_step; [exact E5|]. eapply M_bind_step; [reflexivity|]. rewrite Ec. reflexivity.
  - intros su Hin Hp. cbn [rp_Suites] in Hin. apply runSuite_ok in E3, E4, E5.
    repeat (apply elem_of_cons in Hin as [->|Hin]; [try done|]); [..|by apply not_elem_of_nil in Hin];
      [rewrite (so_priority _ _ _ _ E3) in Hp|rewrite (so_priority _ _ _ _ E4) in Hp|rewrite (so_priority _ _ _ _ E5) in Hp]; discriminate.
Qed.

End suites.

(** ** A run *)

Module BindingCrypto.
Import ToyCrypto InsertionSort.

(** The toy operations with a sealing that spells out the additional data. *)
Definition spell (ad : bytes) : bytes := flat_map (fun b => [x01; b]) ad ++ [x00].

Definition bound_seal (k n m ad : bytes) : bytes := spell ad ++ k ++ m.

Definition bound_open (k n c ad : bytes) : option bytes :=
  let m := drop (length (spell ad ++ k)) c in
  if bool_decide (c = bound_seal k n m ad) then Some m else None.

#[export] Instance binding_ops : CryptoOps := {
  ed25519_public := @ed25519_public toy_ops;
  ed25519_sign := @ed25519_sign toy_ops;
  ed25519_verify := @ed25519_verify toy_ops;
  x25519 := @x25519 toy_ops;
  x25519_basepoint := @x25519_basepoint toy_ops;
  hkdf_sha256 := @hkdf_sha256 toy_ops;
  aead_seal := bound_seal;
  aead_open := bound_open
}.

Lemma spell_inj ad : forall ad' r r', spell ad ++ r = spell ad' ++ r' -> ad = ad'.
Proof.
  induction ad as [|b ad IH]; intros [|b' ad'] r r'; cbn; intros E; [done|discriminate E..|].
  injection E as -> E. f_equal. by apply (IH ad' r r').
Qed.

#[export] Instance binding_laws : CryptoLaws binding_ops.
Proof.
  split; [exact (ed25519_public_length (C := toy_ops))|exact (ed25519_verify_sign (C := toy_ops))
    |exact (ed25519_sign_length (C := toy_ops))|exact (x25519_length (C := toy_ops))|exact (x25519_base_total (C := toy_ops))
    |exact (x25519_commutes (C := toy_ops))|exact (x25519_honest (C := toy_ops))|exact (hkdf_total (C := toy_ops))| |].
  - intros k n m ad _ _. cbn. unfold bound_open.
    assert (drop (length (spell ad ++ k)) (bound_seal k n m ad) = m) as ->
      by (unfold bound_seal; rewrite (app_assoc (spell ad)); by apply drop_app_length').
    by rewrite bool_decide_true.
  - intros k n c m ad _ _. cbn. unfold bound_open. case_bool_decide as E; [|done]. by intros [= <-].
Qed.

#[export] Instance binding_binds : AeadBinds binding_ops.
Proof.
  intros k n m ad k' ad' _ _ _ Hne. cbn. unfold bound_open. case_bool_decide as E; [|done].
  by apply spell_inj in E.
Qed.

(** A client that reaches nobody; decoders. *)
#[export] Instance offline : HttpClient unit := { http_do _ s := (Err (PlainError "connection refused"), s) }.
#[export] Instance ascii_only : Unicode := { is_print _ := false }.
#[export] Instance decode_text : Decode Text := {
  decode b := match ParseStrict b with
              | Ok (JObj [("text", JStr s)]) => Ok (mkText s)
              | _ => Err (PlainError "json")
              end
}.
#[export] Instance decode_credentials : Decode serviceCredentials := { decode _ := Err (PlainError "json") }.
#[export] Instance decode_any : Decode (gmap string Value) := { decode _ := Err (PlainError "json") }.
#[export] Instance decode_grant : Decode serviceGrant := { decode _ := Err (PlainError "json") }.

Definition expires_in_an_hour (_ : bytes) : result Time := Ok (Add t0 Hour).

Definition offline_machine (rand : reader) : Machine unit := mkMachine rand (fun _ => t0) (fun _ => "") tt.

Definition plain_options : Options unit := mkOptions "" "" "" "" None None t0.

Definition some_randomness : reader :=
  replicate 1948 x01 ++ replicate 32 x02 ++ replicate 32 x03 ++ replicate 156 x04.

Lemma conformance_p0_holds_witness :
  exists report m', Run expires_in_an_hour plain_options (offline_machine some_randomness) = (Returned report, m') /\
    p0_pass report /\ ValidateP0 report = Ok tt.
Proof.
  apply conformance_p0_holds; [exact binding_laws|exact binding_binds|..].
  - vm_compute. reflexivity.
  - intros s Hs. unfold DecodeText. cbn [decode decode_text]. rewrite EncodeText_parses, Hs. reflexivity.
  - intros d v _ _. exists (Add t0 Hour). split; reflexivity.
  - apply Nat.leb_le. vm_compute. reflexivity.
  - unfold different_keys. vm_compute. discriminate.
  - split; exact I.
Defined.

(** The report of a run without randomness. *)
Definition starved_run : ran Report * Machine unit := Run expires_in_an_hour plain_options (offline_machine []).

Definition starved_report : Report :=
  match starved_run with
  | (Returned r, _) => r
  | _ => mkReport "" "" "" t0 0 "" "" (mkSummary 0 0 0 0 0) ∅ [] []
  end.

Lemma release_decision_agrees_witness :
  rp_ReleaseDecision starved_report = "no-go" /\ ValidateRelease starved_report <> Ok tt /\ ~ p0_pass starved_report.
Proof.
  destruct (release_decision_agrees expires_in_an_hour plain_options (offline_machine []) starved_report starved_run.2)
    as (H1 & _ & _ & H4); [vm_compute; reflexivity|].
  split_and!; [vm_compute; reflexivity| |].
  - rewrite H1. vm_compute. discriminate.
  - rewrite <- H4. vm_compute. discriminate.
Defined.

End BindingCrypto.
