(* ===== verification/ConformanceReport.v ===== *)
(** * Conformance reports as text: [MarshalReport] and [UnmarshalReport] of
      [conformance/runner.go]

    [json.MarshalIndent] marshals, then lays the text out over lines; the layout
    changes nothing but white space between tokens. *)
From Stdlib Require Import ZArith Lia Strings.Byte.
From stdpp Require Import numbers gmap strings base list.
From S2P Require Import Prelude Errors Utf8 GoJson Canonical GoTime Signed Runner Conformance.
Open Scope Z_scope.

(** ** [json.Indent] with two spaces *)

(** Where the text is: between tokens, in a string, after a backslash in one. *)
Inductive place := Between | InString | Escaped.

Definition next_place (p : place) (c : byte) : place :=
  match p with
  | Between => if bool_decide (c = x22) then InString else Between
  | InString => if bool_decide (c = x22) then Between else if bool_decide (c = x5c) then Escaped else InString
  | Escaped => InString
  end.

Definition newline (depth : nat) : bytes := x0a :: concat (replicate depth [x20; x20]).

Definition opens (c : byte) : bool := bool_decide (c = "{"%byte) || bool_decide (c = "["%byte).
Definition closes (c : byte) : bool := bool_decide (c = "}"%byte) || bool_decide (c = "]"%byte).

(** [appendIndent]; [need] is its [needIndent]. *)
Fixpoint Indent (p : place) (need : bool) (depth : nat) (s : bytes) : bytes :=
  match s with
  | [] => []
  | c :: s =>
      let p' := next_place p c in
      match p with
      | InString | Escaped => c :: Indent p' false depth s
      | Between =>
          if is_space c then Indent p' need depth s
          else if closes c then
            if need then c :: Indent p' false depth s
            else newline (pred depth) ++ c :: Indent p' false (pred depth) s
          else
            let d := if need then S depth else depth in
            (if need then newline d else []) ++
            if opens c then c :: Indent p' true d s
            else if bool_decide (c = ","%byte) then c :: newline d ++ Indent p' false d s
            else if bool_decide (c = ":"%byte) then c :: x20 :: Indent p' false d s
            else c :: Indent p' false d s
      end
  end.

Definition MarshalIndent (v : Value) : bytes := Indent Between false 0 (encode v).

(** ** The report *)

Definition string_map_json (m : gmap string string) : Value := any_map_json (JStr <$> m).

Definition Summary_json (s : Summary) : Value :=
  JObj [("suite_count", JInt (sm_SuiteCount s)); ("case_count", JInt (sm_CaseCount s)); ("passed", JInt (sm_Passed s));
        ("failed", JInt (sm_Failed s)); ("skipped", JInt (sm_Skipped s))].

Definition CaseReport_json (c : CaseReport) : Value :=
  JObj ([("id", JStr (cr_ID c)); ("name", JStr (cr_Name c)); ("status", JStr (cr_Status c)); ("duration_ms", JInt (cr_DurationMS c))]
        ++ omit_empty (bool_decide (cr_Error c = "")) "error" (JStr (cr_Error c))
        ++ omit_empty (bool_decide (cr_SkipReason c = "")) "skip_reason" (JStr (cr_SkipReason c))
        ++ omit_empty (bool_decide (cr_Evidence c = ∅)) "evidence" (string_map_json (cr_Evidence c))).

Definition SuiteReport_json (s : SuiteReport) : Value :=
  JObj [("id", JStr (su_ID s)); ("name", JStr (su_Name s)); ("priority", JStr (su_Priority s)); ("required", JBool (su_Required s));
        ("case_count", JInt (su_CaseCount s)); ("passed", JInt (su_Passed s)); ("failed", JInt (su_Failed s));
        ("skipped", JInt (su_Skipped s)); ("duration_ms", JInt (su_DurationMS s)); ("cases", JArr (map CaseReport_json (su_Cases s)))].

Definition Report_json (r : Report) : result Value :=
  generatedAt ← time_json (rp_GeneratedAt r);
  Ok (JObj ([("type", JStr (rp_Type r)); ("version", JStr (rp_Version r)); ("protocol", JStr (rp_Protocol r));
             ("generated_at", generatedAt); ("duration_ms", JInt (rp_DurationMS r)); ("result", JStr (rp_Result r));
             ("release_decision", JStr (rp_ReleaseDecision r)); ("summary", Summary_json (rp_Summary r))]
            ++ omit_empty (bool_decide (rp_Endpoints r = ∅)) "endpoints" (string_map_json (rp_Endpoints r))
            ++ omit_empty (bool_decide (rp_ResidualRisks r = [])) "residual_risks" (strings_json (rp_ResidualRisks r))
            ++ [("suites", JArr (map SuiteReport_json (rp_Suites r)))])).

Definition MarshalReport (report : Report) : result bytes :=
  v ← Report_json report;
  Ok (MarshalIndent v).

Definition UnmarshalReport `{Decode Report} (data : bytes) : result Report := decode data.

(** ** What the layout keeps *)

(** The text without the white space between its tokens. *)
Fixpoint squeeze (p : place) (s : bytes) : bytes :=
  match s with
  | [] => []
  | c :: s =>
      let p' := next_place p c in
      match p with
      | Between => if is_space c then squeeze p' s else c :: squeeze p' s
      | _ => c :: squeeze p' s
      end
  end.

Lemma squeeze_newline depth s : squeeze Between (newline depth ++ s) = squeeze Between s.
Proof. unfold newline. induction depth as [|n IH]; [done|]. exact IH. Qed.

Lemma squeeze_visible c s :
  is_space c = false -> squeeze Between (c :: s) = c :: squeeze (next_place Between c) s.
Proof. intros E. cbn [squeeze]. by rewrite E. Qed.

Lemma next_place_quiet c : c <> x22 -> next_place Between c = Between.
Proof. intros E. cbn. by rewrite bool_decide_false. Qed.

(** Laying a text out adds and removes white space between its tokens only. *)
Lemma squeeze_Indent s : forall p need depth, squeeze p (Indent p need depth s) = squeeze p s.
Proof.
  induction s as [|c s IH]; intros p need depth; [done|]. cbn [Indent].
  destruct p; [|cbn [squeeze]; by rewrite IH..].
  destruct (is_space c) eqn:Es.
  { cbn [squeeze]. rewrite Es, next_place_quiet by (intros ->; discriminate Es). apply IH. }
  rewrite (squeeze_visible c s Es).
  destruct (closes c) eqn:Ec; [destruct need; [|rewrite squeeze_newline]; by rewrite (squeeze_visible _ _ Es), IH|].
  assert (forall d r, squeeze Between ((if need then newline d else []) ++ r) = squeeze Between r) as Hn
    by (intros d r; destruct need; [apply squeeze_newline|done]).
  rewrite Hn. destruct (opens c); [by rewrite (squeeze_visible _ _ Es), IH|].
  case_bool_decide as Ek; [|case_bool_decide as El; [|by rewrite (squeeze_visible _ _ Es), IH]];
    rewrite (squeeze_visible _ _ Es); rewrite next_place_quiet by (subst c; discriminate); f_equal.
  - by rewrite squeeze_newline, IH.
  - cbn [squeeze is_space]. change (is_space x20) with true. cbn [next_place]. by rewrite IH.
Qed.

(** The text of a report is that of its JSON value with white space between the
    tokens: whatever ignores such space reads the same report. *)
Theorem MarshalReport_layout report v text :
  Report_json report = Ok v -> MarshalReport report = Ok text -> squeeze Between text = squeeze Between (encode v).
Proof.
  intros E. unfold MarshalReport. rewrite E. cbn. intros [= <-]. apply squeeze_Indent.
Qed.

Example Indent_sample :
  MarshalIndent (JObj [("a", JArr [JInt 1; JObj []]); ("b", JStr "x,{")]) =
  go_bytes "{" ++ newline 1 ++ js "'a': [" ++ newline 2 ++ js "1," ++ newline 2 ++ js "{}" ++ newline 1 ++ js "]," ++ newline 1 ++
  js "'b': 'x,{'" ++ newline 0 ++ go_bytes "}".
Proof. vm_compute. reflexivity. Qed.
