(* ===== verification/Cli.v ===== *)
(** * The command line tool: [tools/iscp-cli/cmd/iscp/main.go]

    Every command, over a world that holds the services an HTTP client reaches,
    what was printed, and an operating system; [run] dispatches.  The pipe of
    [captureOutput] delivers what was written to it. *)
From Stdlib Require Import ZArith Lia Strings.Byte.
From stdpp Require Import numbers gmap strings base list.
From S2P Require Import Prelude Errors Utf8 GoJson Canonical GoTime Base64 Sha256 Crypto Signed Identity Trust.
From S2P Require Import Session Control Envelope Provisioning GoStrings Config Recovery Descriptor Payload.
From S2P Require Import Sorting Keyring TrustServer Runner Conformance ConformanceReport.
Open Scope Z_scope.

Definition version : string := "0.1.0-dev".

(** ** The world *)

(** [os.Getenv]. *)
Class Env := { Getenv : string -> string }.

(** The calls to the operating system, each of which may fail. *)
Class Os (F : Type) := {
  os_Pipe : F -> result unit * F;
  os_MkdirAll : string -> F -> result unit * F;
  os_OpenRoot : string -> F -> result unit * F;
  (** directory, file name, contents *)
  root_WriteFile : string -> string -> bytes -> F -> result unit * F;
  root_ReadFile : string -> string -> F -> result bytes * F
}.

Record World (S F : Type) := mkWorld { wo_net : S; wo_stdout : string; wo_stderr : string; wo_os : F }.
Arguments mkWorld {S F} _ _ _ _.
Arguments wo_net {S F} _.
Arguments wo_stdout {S F} _.
Arguments wo_stderr {S F} _.
Arguments wo_os {S F} _.

#[export] Instance world_client {S F} `{HttpClient S} : HttpClient (World S F) := {
  http_do r w := let '(a, net) := http_do r (wo_net w) in (a, mkWorld net (wo_stdout w) (wo_stderr w) (wo_os w))
}.

Definition nl : string := go_string [x0a].

(** ** Paths: [path/filepath] on Unix *)

(** The loop of [filepath.Clean]: the elements kept so far, last first; a ".." that
    has nothing to remove stays in a relative path. *)
Fixpoint clean_elements (rooted : bool) (kept elements : list string) : list string :=
  match elements with
  | [] => rev kept
  | e :: elements =>
      if bool_decide (e = "") || bool_decide (e = ".") then clean_elements rooted kept elements
      else if bool_decide (e = "..") then
        match kept with
        | k :: kept' =>
            if bool_decide (k = "..") then clean_elements rooted (".." :: kept) elements
            else clean_elements rooted kept' elements
        | [] => clean_elements rooted (if rooted then [] else [".."]) elements
        end
      else clean_elements rooted (e :: kept) elements
  end.

Definition IsAbs (path : string) : bool := HasPrefix path "/".

Definition Clean (path : string) : string :=
  let rooted := IsAbs path in
  let elements := clean_elements rooted [] (Split path "/"%byte) in
  match rooted, elements with
  | false, [] => "."
  | false, _ => Join elements "/"
  | true, _ => "/" +:+ Join elements "/"
  end.

(** [filepath.Base]: the last element, without trailing slashes. *)
Definition Base (path : string) : string :=
  if bool_decide (path = "") then "."
  else
    let stripped := TrimRightSlash path in
    if bool_decide (stripped = "") then "/"
    else List.last (Split stripped "/"%byte) "".

(** [filepath.Join] of two elements. *)
Definition PathJoin (a b : string) : string :=
  match List.filter (fun e => negb (bool_decide (e = ""))) [a; b] with
  | [] => ""
  | l => Clean (Join l "/")
  end.

Definition safeReportFileName (path : string) : result string :=
  let path := if bool_decide (path = "") then "conformance/report.json" else path in
  let clean := Clean path in
  _ ← reject_if (IsAbs clean) (PlainError "conformance output must be relative");
  _ ← reject_if (bool_decide (clean = ".") || bool_decide (clean = "..") || HasPrefix clean "../")
        (PlainError "conformance output escapes workspace");
  _ ← reject_if (negb (bool_decide (clean = PathJoin "conformance" (Base clean))))
        (PlainError "conformance output must be directly under conformance");
  Ok (Base clean).

(** ** Credentials *)

Record cliCredential := mkCliCredential {
  cc_DomainID : string; cc_DeviceID : string; cc_Token : string; cc_ExpiresAt : Time; cc_Revoked : bool }.

(** The struct that [bind-self] and [refresh-access] are decoded into. *)
Record cliCredentials := mkCliCredentials { cp_Access : cliCredential; cp_Refresh : cliCredential }.

Section cli.
  Context {C : CryptoOps} {SS : SortSlice} {R : MapRange} {U : Unicode} {E : Env} {S F : Type} `{HttpClient S} `{Os F}.
  Context `{Decode Text} `{Decode serviceCredentials} `{Decode (gmap string Value)} `{Decode serviceGrant} `{Decode Report}.
  Context `{Decode cliCredentials}.
  Context (unmarshal_expires : bytes -> result Time).

(** A command: effects on the world, or an error. *)
Abbreviation IO := (M (World S F)).

Definition print (text : string) : IO unit := fun m =>
  let w := mc_net m in
  (Returned tt, mkMachine (mc_rand m) (mc_clock m) (mc_text m) (mkWorld (wo_net w) (wo_stdout w +:+ text) (wo_stderr w) (wo_os w))).

(** [fmt.Println] of one text. *)
Definition Println (text : string) : IO unit := print (text +:+ nl).

(** [json.NewEncoder(os.Stdout).Encode]. *)
Definition Encode (v : result Value) : IO unit :=
  v ← try v;
  Println (go_string (encode v)).

(** A [map[string]any] literal, in the order of the source. *)
Definition any_map (l : list (string * Value)) : Value := any_map_json (list_to_map l).

Definition os_call {A} (f : F -> result A * F) : IO A := fun m =>
  let w := mc_net m in
  let '(a, os) := f (wo_os w) in
  try a (mkMachine (mc_rand m) (mc_clock m) (mc_text m) (mkWorld (wo_net w) (wo_stdout w) (wo_stderr w) os)).

Definition now_utc : IO Time := now ← time_now; mret (UTC now).

Definition randomShort : IO string :=
  text ← time_now_string;
  mret (go_string (take 8 (go_bytes (Base64URL (SHA256 (go_bytes text)))))).

(** A prefix and [randomShort()]. *)
Definition short (prefix : string) : IO string := text ← randomShort; mret (prefix +:+ text).

(** ** Local commands *)

Definition help_text : string :=
"iscp commands:
  version
  config validate [profile]
  identity generate|show|rotate
  descriptor relay|trust
  proof create|verify
  relay health|bind-self|refresh|revoke-access|send-envelope
  trust health|submit-authorize-verify|revoke-check
  session open|ready|close
  envelope encrypt|decrypt|send
  provisioning create-ticket|simulate-local-channel|create-bundle|apply-bundle
  demo local-e2e
  conformance run|report|vectors verify".

Definition printHelp : IO unit := Println help_text.

Definition runConfig (args : list string) : IO unit :=
  match args with
  | "validate" :: rest =>
      let profile := match rest with p :: _ => p | [] => ProfileLocalLab end in
      _ ← try (ValidateGate (DefaultGate profile));
      Println "config valid"
  | _ => fail "usage: iscp config validate [profile]"
  end.

Definition runIdentity (args : list string) : IO unit :=
  match args with
  | [] => fail "usage: iscp identity generate|show|rotate"
  | command :: _ =>
      now ← now_utc;
      if bool_decide (command ∈ ["generate"; "show"; "rotate"]) then
        id ← short "device-";
        dev ← new_device "local" id now;
        Encode (DeviceIdentity_json (dev_Identity dev))
      else fail "unknown identity command"
  end.

Definition descriptorKey (dev : Device) (use : string) : DescriptorKey :=
  let key := di_PublicKey (dev_Identity dev) in mkDescriptorKey "Ed25519" use (pk_KID key) (pk_Public key) "active".

(** Signs, verifies, pins and prints a descriptor. *)
Definition publish (signer : Device) (descriptorType : string) (desc : result Value) (now : Time) : IO unit :=
  signed ← try (SignDescriptor signer descriptorType desc now);
  _ ← try (VerifyDescriptor unmarshal_expires signed (dev_Identity signer) (DefaultGate ProfileProduction) now);
  pin ← try (Pin signed);
  Encode (sd ← signed_json signed; Ok (any_map [("status", JStr "verified"); ("descriptor", sd); ("pin", JStr pin)])).

Definition runDescriptor (args : list string) : IO unit :=
  match args with
  | [] => fail "usage: iscp descriptor relay|trust"
  | command :: _ =>
      now ← now_utc;
      signer ← new_device "local" (command +:+ "-signer") now;
      if bool_decide (command = "relay") then
        publish signer TypeRelayDescriptor
          (RelayDescriptor_json (mkRelayDescriptor TypeRelayDescriptor "relay-local" "local" "http://localhost:8080"
             "ws://localhost:8080/v2/relay/connect" (Some [descriptorKey signer "descriptor-signature"]) now (Add now Hour) ∅)) now
      else if bool_decide (command = "trust") then
        publish signer TypeTrustRootDescriptor
          (TrustRootDescriptor_json (mkTrustRootDescriptor TypeTrustRootDescriptor "trust-local" "local" "http://localhost:8081"
             (Some [descriptorKey signer "grant-signature"]) now (Add now Hour) ∅)) now
      else fail "unknown descriptor command"
  end.

Definition runProof (args : list string) : IO unit :=
  match args with
  | [] => fail "usage: iscp proof create|verify"
  | command :: _ =>
      now ← now_utc;
      id ← short "device-";
      dev ← new_device "local" id now;
      challenge ← short "challenge-";
      nonce ← short "nonce-";
      proof ← try (CreateProof dev "relay-local" challenge nonce now);
      if bool_decide (command = "create") then Encode (signed_json proof)
      else if bool_decide (command = "verify") then
        _ ← try (VerifyProof (dev_Identity dev) proof (dp_Audience proof) (dp_Challenge proof) now Minute);
        Encode (Ok (any_map [("status", JStr "valid"); ("device_id", JStr (dp_DeviceID proof)); ("audience", JStr (dp_Audience proof))]))
      else fail "unknown proof command"
  end.

(** The ready messages are made without a look at the error. *)
Definition ready_session_at (now : Time) : IO (Device * Device * State * State) :=
  a ← new_device "local" "device-a" now;
  b ← new_device "local" "device-b" now;
  ha ← create_hello a "session-local" (di_DeviceID (dev_Identity b)) "grant-local" now;
  hb ← create_hello b "session-local" (di_DeviceID (dev_Identity a)) "grant-local" now;
  sa ← try (Establish ha (lh_Hello hb) (dev_Identity a) (dev_Identity b));
  sb ← try (Establish hb (lh_Hello ha) (dev_Identity b) (dev_Identity a));
  let ra := ready_or_zero (CreateReady sa a) in
  let rb := ready_or_zero (CreateReady sb b) in
  sa ← try (VerifyReady sa rb (dev_Identity b));
  sb ← try (VerifyReady sb ra (dev_Identity a));
  mret (a, b, sa, sb).

Definition readySession : IO (Device * Device * State * State) := now ← now_utc; ready_session_at now.

Definition runSession (args : list string) : IO unit :=
  match args with
  | [] => fail "usage: iscp session open|ready|close"
  | command :: _ =>
      '(_, _, sa, _) ← readySession;
      let id := ("session_id", JStr (st_SessionID sa)) in
      if bool_decide (command = "open") then
        Encode (Ok (any_map [("status", JStr "open"); id; ("ciphersuite", JStr CiphersuiteV2)]))
      else if bool_decide (command = "ready") then
        Encode (Ok (any_map [("status", JStr "ready"); id; ("key_material_redacted", JBool true)]))
      else if bool_decide (command = "close") then Encode (Ok (any_map [("status", JStr "closed"); id]))
      else fail "unknown session command"
  end.

(** The handshake of [localE2E] is that of [readySession]. *)
Definition localE2E : IO string :=
  '(_, _, sa, sb) ← readySession;
  '(env, _) ← encrypt sa "msg-local" TypeText (mkRoute "relay-local" 60 1) (EncodeText "hello from iscp");
  '(plain, _) ← decrypt (Some sb) env;
  decoded ← try (DecodeText plain);
  mret (tx_Text decoded).

Definition delivered (text : string) : string :=
  "local-e2e ok payload_type=text plaintext_redacted=true delivered_text_len " +:+ Itoa (strlen text).

Definition runDemo (args : list string) : IO unit :=
  match args with
  | "local-e2e" :: _ => text ← localE2E; Println (delivered text)
  | _ => fail "usage: iscp demo local-e2e"
  end.

Definition localProvisioningFixture (now : Time) : IO (Device * Device * LocalChannel * Bundle) :=
  phone ← short "phone-";
  issuer ← new_device "local" phone now;
  id ← short "watch-";
  watch ← new_device "local" id now;
  channel ← establish_channel "oob-secret";
  tp ← try (IdentityThumbprint (dev_Identity watch));
  bundleID ← short "bundle-";
  bundle ← try (SignBundle issuer (fixture_bundle bundleID watch tp "wrapped" now (5 * Minute)));
  mret (issuer, watch, channel, bundle).

Definition localProvisioningBundle (now : Time) : IO Bundle :=
  '(_, _, _, bundle) ← localProvisioningFixture now;
  mret bundle.

(** The error of [identity.NewDevice] is ignored: signing with the empty key it
    leaves panics. *)
Definition new_device_unchecked (domainID deviceID : string) (now : Time) : IO Device :=
  r ← with_rand (fun rand => NewDevice rand domainID deviceID now);
  match r with
  | Ok dev => mret dev
  | Err _ => fun m => (Panicked, m)
  end.

Definition runProvisioning (args : list string) : IO unit :=
  match args with
  | [] => fail "usage: iscp provisioning create-ticket|simulate-local-channel|create-bundle|apply-bundle"
  | command :: _ =>
      now ← now_utc;
      if bool_decide (command = "create-ticket") then
        issuer ← new_device_unchecked "local" "provisioner" now;
        id ← short "ticket-";
        ticket ← try (SignTicket issuer
          (mkPairingTicket "" id "local" "relay-local" "trust-local" 1 now (Add now (5 * Minute)) noSignature));
        Encode (signed_json ticket)
      else if bool_decide (command = "simulate-local-channel") then
        channel ← establish_channel "oob-secret";
        Encode (Ok (any_map [("status", JStr "ready"); ("key_material_redacted", JBool true);
                             ("transcript_mac_len", JInt (Z.of_nat (length (lc_TranscriptMAC channel))))]))
      else if bool_decide (command = "create-bundle") then
        bundle ← localProvisioningBundle now;
        Encode (Ok (any_map [("status", JStr "created"); ("bundle_id", JStr (bu_BundleID bundle));
                             ("refresh_wrapped", JBool (negb (bool_decide (bu_RefreshCredentialWrapped bundle = ""))))]))
      else if bool_decide (command = "apply-bundle") then
        '(issuer, watch, channel, bundle) ← localProvisioningFixture now;
        _ ← try (ApplyBundle channel (dev_Identity watch) bundle (dev_Identity issuer) now);
        Encode (Ok (any_map [("status", JStr "applied"); ("bundle_id", JStr (bu_BundleID bundle));
                             ("device_id", JStr (di_DeviceID (dev_Identity watch)))]))
      else fail "unknown provisioning command"
  end.

(** ** Commands that call the services *)

Definition endpointFromEnv (key fallback : string) : string :=
  let value := TrimRightSlash (TrimSpace (Getenv key)) in
  if bool_decide (value = "") then fallback else value.

Definition getJSON {A} (url : string) (out : bytes -> result A) : IO A :=
  resp ← send_http (mkHttpRequest "GET" url ∅ []);
  if (hp_Status resp <? 200) || (300 <=? hp_Status resp)
  then fail ("GET " +:+ url +:+ " returned " +:+ Itoa (hp_Status resp) +:+ ": " +:+
             TrimSpace (go_string (take 4096 (hp_Body resp))))
  else try (out (hp_Body resp)).

(** The same text as the runner's [postServiceJSONWithHeaders]. *)
Definition postJSONWithHeaders {A} (url : string) (in_ : result Value) (out : bytes -> result A) (want : Z)
    (headers : gmap string string) : IO A := postServiceJSONWithHeaders url in_ out want headers.

Definition postJSONWithBearer {A} (url bearer : string) (in_ : result Value) (out : bytes -> result A) (want : Z) : IO A :=
  postJSONWithHeaders url in_ out want (if bool_decide (bearer = "") then ∅ else {["Authorization" := "Bearer " +:+ bearer]}).

Definition postJSON {A} (url : string) (in_ : result Value) (out : bytes -> result A) (want : Z) : IO A :=
  postJSONWithBearer url "" in_ out want.

Definition postJSONWithAdmin {A} (url : string) (in_ : result Value) (out : bytes -> result A) (want : Z) : IO A :=
  postJSONWithHeaders url in_ out want {["X-Iscp-Admin-Token" := Getenv "ISCP_ADMIN_TOKEN"]}.

(** A value of a [map[string]any], nil when absent. *)
Definition at_key (m : gmap string Value) (key : string) : Value := default JNull (m !! key).

Definition serviceHealth (endpoint name : string) : IO unit :=
  health ← getJSON (endpoint +:+ "/healthz") (decode (A := gmap string Value));
  version ← getJSON (endpoint +:+ "/version") (decode (A := gmap string Value));
  Encode (Ok (any_map [("service", JStr name); ("status", at_key health "status"); ("version", at_key version "version");
                       ("protocol", at_key version "protocol")])).

Definition relayBindDevice (endpoint : string) (dev : Device) : IO cliCredentials :=
  now ← now_utc;
  challenge ← short "challenge-";
  nonce ← short "nonce-";
  proof ← try (CreateProof dev "relay-local" challenge nonce now);
  postJSON (endpoint +:+ "/v2/relay/devices/bind-self") (identity_proof_json dev proof) (decode (A := cliCredentials)) 200.

Definition relayBind (endpoint : string) : IO cliCredentials :=
  now ← now_utc;
  id ← short "cli-relay-";
  dev ← new_device "local" id now;
  relayBindDevice endpoint dev.

Definition relayRefresh (endpoint refresh : string) : IO cliCredentials :=
  postJSON (endpoint +:+ "/v2/relay/devices/refresh-access") (Ok (JObj [("refresh", JStr refresh)])) (decode (A := cliCredentials)) 200.

Definition relayRevoke (endpoint accessToken deviceID : string) : IO unit :=
  postJSONWithBearer (endpoint +:+ "/v2/relay/devices/revoke-access") accessToken (Ok (JObj [("device_id", JStr deviceID)]))
    no_output 200.

Definition trustSubmitAuthorize (endpoint : string) : IO (Grant * Device) :=
  now ← now_utc;
  id ← short "cli-trust-";
  dev ← new_device "local" id now;
  challenge ← short "challenge-";
  nonce ← short "nonce-";
  proof ← try (CreateProof dev "trust-local" challenge nonce now);
  _ ← postJSON (endpoint +:+ "/v2/trust/devices/submit") (identity_proof_json dev proof) no_output 200;
  auth ← postJSONWithAdmin (endpoint +:+ "/v2/trust/devices/authorize")
           (Ok (any_map [("device_id", JStr (di_DeviceID (dev_Identity dev))); ("audience", JStr "peer-local");
                         ("permissions", strings_json ["text"]); ("relay_id", JStr "relay-local"); ("ttl_seconds", JInt 60)]))
           (decode (A := serviceGrant)) 200;
  mret (sg_Grant auth, dev).

Definition trustVerify (endpoint : string) (grant : Grant) (deviceID audience thumbprint permission relayID : string) (want : Z)
    : IO unit :=
  postJSON (endpoint +:+ "/v2/trust/grants/verify")
    (g ← signed_json grant;
     Ok (any_map [("grant", g); ("audience", JStr audience); ("subject_device_id", JStr deviceID);
                  ("confirmation_thumbprint", JStr thumbprint); ("permission", JStr permission); ("relay_id", JStr relayID)]))
    no_output want.

Definition trustRevoke (endpoint deviceID : string) : IO unit :=
  postJSONWithAdmin (endpoint +:+ "/v2/trust/devices/revoke")
    (Ok (any_map [("device_id", JStr deviceID); ("reason", JStr "cli")])) no_output 200.

Definition runEnvelope (args : list string) : IO unit :=
  match args with
  | [] => fail "usage: iscp envelope encrypt|decrypt|send"
  | command :: _ =>
      '(a, _, sa, sb) ← readySession;
      id ← short "msg-";
      '(env, _) ← encrypt sa id TypeText (mkRoute "relay-local" 60 1) (EncodeText "cli payload");
      if bool_decide (command = "encrypt") then
        Encode (Ok (any_map [("status", JStr "encrypted"); ("message_id", JStr (se_MessageID env));
                             ("ciphertext_len", JInt (strlen (se_Ciphertext env))); ("plaintext_redacted", JBool true)]))
      else if bool_decide (command = "decrypt") then
        '(plain, _) ← decrypt (Some sb) env;
        Encode (Ok (any_map [("status", JStr "decrypted"); ("payload_len", JInt (Z.of_nat (length plain)));
                             ("plaintext_redacted", JBool true)]))
      else if bool_decide (command = "send") then
        let endpoint := endpointFromEnv "ISCP_RELAY_ENDPOINT" "http://127.0.0.1:8080" in
        bound ← relayBindDevice endpoint a;
        receipt ← postJSONWithBearer (endpoint +:+ "/v2/relay/envelopes") (cc_Token (cp_Access bound)) (Ok (SecureEnvelope_json env))
                    (decode (A := gmap string Value)) 202;
        Encode (Ok (any_map [("status", JStr "sent"); ("message_id", JStr (se_MessageID env)); ("relay_status", at_key receipt "status")]))
      else fail "unknown envelope command"
  end.

(** The expiry of both credentials, and nothing else of them. *)
Definition expiries (status : string) (c : cliCredentials) : result Value :=
  access ← time_json (cc_ExpiresAt (cp_Access c));
  refresh ← time_json (cc_ExpiresAt (cp_Refresh c));
  Ok (any_map [("status", JStr status); ("access_expires_at", access); ("refresh_expires_at", refresh);
               ("credentials_redacted", JBool true)]).

Definition runRelay (args : list string) : IO unit :=
  match args with
  | [] => fail "usage: iscp relay health|bind-self|refresh|revoke-access|send-envelope"
  | command :: _ =>
      let endpoint := endpointFromEnv "ISCP_RELAY_ENDPOINT" "http://127.0.0.1:8080" in
      if bool_decide (command = "health") then serviceHealth endpoint "relay"
      else if bool_decide (command = "bind-self") then bound ← relayBind endpoint; Encode (expiries "bound" bound)
      else if bool_decide (command = "refresh") then
        bound ← relayBind endpoint;
        refreshed ← relayRefresh endpoint (cc_Token (cp_Refresh bound));
        Encode (expiries "refreshed" refreshed)
      else if bool_decide (command = "revoke-access") then
        bound ← relayBind endpoint;
        let refresh := cp_Refresh bound in
        _ ← relayRevoke endpoint (cc_Token (cp_Access bound)) (cc_DeviceID refresh);
        r ← attempt (relayRefresh endpoint (cc_Token refresh));
        match r with
        | inl _ => fail "revoked refresh credential was accepted"
        | inr _ => Encode (Ok (any_map [("status", JStr "revoked"); ("device_id", JStr (cc_DeviceID refresh))]))
        end
      else if bool_decide (command = "send-envelope") then runEnvelope ["send"]
      else fail "unknown relay command"
  end.

(** [identity.Thumbprint] without a look at the error. *)
Definition thumbprint_or_empty (dev : Device) : string :=
  match IdentityThumbprint (dev_Identity dev) with Ok tp => tp | Err _ => "" end.

Definition runTrust (args : list string) : IO unit :=
  match args with
  | [] => fail "usage: iscp trust health|submit-authorize-verify|revoke-check"
  | command :: _ =>
      let endpoint := endpointFromEnv "ISCP_TRUST_ENDPOINT" "http://127.0.0.1:8081" in
      let verify grant device want :=
        trustVerify endpoint grant (di_DeviceID (dev_Identity device)) "peer-local" (thumbprint_or_empty device) "text"
          "relay-local" want in
      let id device := ("device_id", JStr (di_DeviceID (dev_Identity device))) in
      if bool_decide (command = "health") then serviceHealth endpoint "trust_root"
      else if bool_decide (command = "submit-authorize-verify") then
        '(grant, device) ← trustSubmitAuthorize endpoint;
        _ ← verify grant device 200;
        Encode (Ok (any_map [("status", JStr "valid"); ("grant_id", JStr (gr_GrantID grant)); id device]))
      else if bool_decide (command = "revoke-check") then
        '(grant, device) ← trustSubmitAuthorize endpoint;
        _ ← trustRevoke endpoint (di_DeviceID (dev_Identity device));
        _ ← verify grant device 403;
        Encode (Ok (any_map [("status", JStr "revocation_enforced"); id device]))
      else fail "unknown trust command"
  end.

(** ** Conformance *)

Definition runLocalE2EForConformance : IO string := text ← localE2E; mret (delivered text).

Definition set_stdout (m : Machine (World S F)) (text : string) : Machine (World S F) :=
  let w := mc_net m in mkMachine (mc_rand m) (mc_clock m) (mc_text m) (mkWorld (wo_net w) text (wo_stderr w) (wo_os w)).

(** Standard output goes to the pipe while [fn] runs. *)
Definition redirected (fn : IO unit) : IO string := fun m =>
  let old := wo_stdout (mc_net m) in
  match fn (set_stdout m "") with
  | (Returned _, m) => (Returned (wo_stdout (mc_net m)), set_stdout m old)
  | (Failed e, m) => (Failed e, set_stdout m old)
  | (Skipped reason, m) => (Skipped reason, set_stdout m old)
  | (Panicked, m) => (Panicked, m)
  end.

Definition captureOutput (fn : IO unit) : IO string :=
  _ ← os_call os_Pipe;
  redirected fn.

Definition workflow_commands : list (list string) :=
  [["descriptor"; "relay"]; ["descriptor"; "trust"]; ["proof"; "verify"]; ["session"; "ready"]; ["envelope"; "encrypt"];
   ["envelope"; "decrypt"]; ["provisioning"; "simulate-local-channel"]; ["provisioning"; "create-bundle"];
   ["provisioning"; "apply-bundle"]].

Fixpoint run_workflows (run : list string -> IO unit) (commands : list (list string)) (out : gmap string string)
    : IO (gmap string string) :=
  match commands with
  | [] => mret out
  | command :: commands =>
      text ← captureOutput (run command);
      run_workflows run commands (<[Join command " " := text]> out)
  end.

Definition runLocalCLIWorkflowsForConformance (run : list string -> IO unit) : IO (gmap string string) :=
  run_workflows run workflow_commands ∅.

Definition writeConformanceReport (path : string) (opts : Options (World S F)) : IO unit :=
  fileName ← try (safeReportFileName path);
  report ← Run unmarshal_expires opts;
  b ← try (MarshalReport report);
  _ ← os_call (os_MkdirAll "conformance");
  _ ← os_call (os_OpenRoot "conformance");
  _ ← os_call (root_WriteFile "conformance" fileName b);
  _ ← Println (PathJoin "conformance" fileName);
  try (ValidateP0 report).

Definition validateConformanceReport (path : string) (release : bool) : IO unit :=
  fileName ← try (safeReportFileName path);
  _ ← os_call (os_OpenRoot "conformance");
  b ← os_call (root_ReadFile "conformance" fileName);
  report ← try (UnmarshalReport b);
  if release : bool then
    _ ← try (ValidateRelease report);
    Println "conformance report release-valid"
  else
    _ ← try (ValidateP0 report);
    Println "conformance report p0-valid".

(** The flags of [runConformance]: output, relay and trust endpoint, and the
    arguments that are left. *)
Definition flags : Type := string * string * string * list string.

Fixpoint conformance_flags (f : flags) (args : list string) : flags :=
  let '(output, relay, trust, filtered) := f in
  match args with
  | [] => f
  | a :: rest =>
      match rest with
      | [] => (output, relay, trust, filtered ++ [a])
      | v :: rest' =>
          if bool_decide (a = "--output") then conformance_flags (v, relay, trust, filtered) rest'
          else if bool_decide (a = "--relay-endpoint") then conformance_flags (output, v, trust, filtered) rest'
          else if bool_decide (a = "--trust-endpoint") then conformance_flags (output, relay, v, filtered) rest'
          else conformance_flags (output, relay, trust, filtered ++ [a]) rest
      end
  end.

Definition conformance_options (run : list string -> IO unit) (relayEndpoint trustEndpoint : string) : Options (World S F) :=
  mkOptions version relayEndpoint trustEndpoint (Getenv "ISCP_ADMIN_TOKEN") (Some runLocalE2EForConformance)
    (Some (runLocalCLIWorkflowsForConformance run)) zeroTime.

Definition runConformance (run : list string -> IO unit) (args : list string) : IO unit :=
  match args with
  | [] => fail "usage: iscp conformance run|report|vectors verify"
  | _ =>
      let '(output, relayEndpoint, trustEndpoint, filtered) :=
        conformance_flags ("conformance/report.json", Getenv "ISCP_RELAY_ENDPOINT", Getenv "ISCP_TRUST_ENDPOINT", []) args in
      let opts := conformance_options run relayEndpoint trustEndpoint in
      let command := Join filtered " " in
      if bool_decide (command ∈ ["run"; "report"]) then writeConformanceReport output opts
      else if bool_decide (command = "validate-report") then validateConformanceReport output false
      else if bool_decide (command = "validate-report --release") then validateConformanceReport output true
      else if bool_decide (command = "vectors verify") then Println "vectors ok"
      else fail "unknown conformance command"
  end.

(** ** Dispatch *)

(** [run]; its conformance command calls it again for the workflows, hence the
    fuel (one is enough: no workflow is a conformance command). *)
Fixpoint run (fuel : nat) (args : list string) : IO unit :=
  match args with
  | [] => printHelp
  | command :: rest =>
      if bool_decide (command ∈ ["help"; "--help"]) then printHelp
      else if bool_decide (command = "version") then Println ("iscp " +:+ version +:+ " protocol=v2")
      else if bool_decide (command = "config") then runConfig rest
      else if bool_decide (command = "identity") then runIdentity rest
      else if bool_decide (command = "descriptor") then runDescriptor rest
      else if bool_decide (command = "proof") then runProof rest
      else if bool_decide (command = "relay") then runRelay rest
      else if bool_decide (command = "trust") then runTrust rest
      else if bool_decide (command = "session") then runSession rest
      else if bool_decide (command = "envelope") then runEnvelope rest
      else if bool_decide (command = "provisioning") then runProvisioning rest
      else if bool_decide (command = "demo") then runDemo rest
      else if bool_decide (command = "conformance") then
        match fuel with
        | O => fun m => (Panicked, m)
        | Datatypes.S fuel => runConformance (run fuel) rest
        end
      else fail ("unknown command " +:+ Quote command)
  end.

(** [main]: the exit status. *)
Definition main (args : list string) : IO Z :=
  r ← attempt (run 1 args);
  let report text := fun m =>
    let w := mc_net m in
    (Returned 1, mkMachine (mc_rand m) (mc_clock m) (mc_text m)
       (mkWorld (wo_net w) (wo_stdout w) (wo_stderr w +:+ "error: " +:+ text +:+ nl) (wo_os w))) in
  match r with
  | inl _ => mret 0
  | inr (inl e) => report (Error e)
  | inr (inr reason) => report reason
  end.

End cli.
