(* ===== verification/CliProps.v ===== *)
(** * What the command line tool guarantees

    Reports stay under [conformance/]; the demonstration delivers its text; a report
    judged later gets the verdict of its run; the dispatcher's fuel is enough. *)
From Stdlib Require Import ZArith Lia Strings.Byte.
From stdpp Require Import numbers gmap strings base list.
From S2P Require Import Prelude Errors Utf8 GoJson Canonical GoTime Base64 Sha256 Crypto Signed Identity Trust.
From S2P Require Import Session SessionProps Control Envelope Provisioning GoStrings Config Recovery Descriptor Payload.
From S2P Require Import Sorting Keyring TrustServer Runner Conformance ConformanceProps ConformanceVerdict ConformanceReport Cli.
Open Scope Z_scope.

(** ** The file a report is written to *)

Lemma split_bytes_elements c s : Forall (fun e => c ∉ e) (split_bytes c s).
Proof.
  induction s as [|b s IH]; cbn [split_bytes]; [repeat constructor; apply not_elem_of_nil|].
  case_bool_decide as E; [constructor; [apply not_elem_of_nil|done]|].
  destruct (split_bytes c s) as [|x xs]; [repeat constructor; set_solver|]. apply Forall_cons in IH as [Hx Hxs].
  constructor; [set_solver|done].
Qed.

Lemma split_bytes_none c s : c ∉ s -> split_bytes c s = [s].
Proof.
  induction s as [|b s IH]; intros Hc; [done|]. cbn [split_bytes]. rewrite bool_decide_false by set_solver.
  by rewrite IH by set_solver.
Qed.

Lemma split_bytes_cons c p s : c ∉ p -> split_bytes c (p ++ c :: s) = p :: split_bytes c s.
Proof.
  induction p as [|b p IH]; intros Hc; cbn [app split_bytes]; [by rewrite bool_decide_true|].
  rewrite bool_decide_false by set_solver. by rewrite IH by set_solver.
Qed.

(** A path below [conformance] is clean. *)
Lemma PathJoin_element name :
  "/"%byte ∉ go_bytes name -> name <> "" -> name <> "." -> name <> ".." ->
  PathJoin "conformance" name = "conformance/" +:+ name.
Proof.
  intros Hs H0 H1 H2. unfold PathJoin. cbn [List.filter]. rewrite (bool_decide_false (name = "")) by done.
  change (bool_decide ("conformance" = "")) with false. cbn [negb Join].
  unfold Clean, Split. change ("conformance" +:+ "/" +:+ name) with ("conformance/" +:+ name).
  assert (split_bytes "/"%byte (go_bytes ("conformance/" +:+ name)) = [go_bytes "conformance"; go_bytes name]) as ->.
  { change (go_bytes ("conformance/" +:+ name)) with (go_bytes "conformance" ++ "/"%byte :: go_bytes name).
    rewrite split_bytes_cons by (apply (bool_decide_unpack _); vm_compute; exact I). by rewrite split_bytes_none. }
  cbn [map]. rewrite !go_string_bytes. change (IsAbs ("conformance/" +:+ name)) with false.
  cbn [clean_elements]. change (bool_decide ("conformance" = "") || bool_decide ("conformance" = ".")) with false.
  change (bool_decide ("conformance" = "..")) with false. cbv iota.
  rewrite !(bool_decide_false (name = _)) by done. reflexivity.
Qed.

Lemma Base_element path : path <> "" -> TrimRightSlash path <> "" -> "/"%byte ∉ go_bytes (Base path).
Proof.
  intros H1 H2. unfold Base. rewrite !bool_decide_false by done. unfold Split. cbv zeta.
  pose proof (split_bytes_elements "/"%byte (go_bytes (TrimRightSlash path))) as Hf.
  induction Hf as [|x xs Hx Hxs IH]; cbn [map List.last]; [apply not_elem_of_nil|].
  destruct xs as [|y ys]; [cbn [List.last map]; by rewrite go_bytes_string|]. exact IH.
Qed.

(** C38. A report is written directly under [conformance], whatever path is asked for:
    the file name is one path element, not "." or "..", and the path cleans to it. *)
Theorem safeReportFileName_confined path name :
  safeReportFileName path = Ok name ->
  "/"%byte ∉ go_bytes name /\ name <> "" /\ name <> "." /\ name <> ".." /\
  Clean (if bool_decide (path = "") then "conformance/report.json" else path) = "conformance/" +:+ name.
Proof.
  unfold safeReportFileName. set (clean := Clean _). rewrite !guard_Ok. intros (_ & Hdots & Hjoin & [= <-]). bool_prop. clearbody clean.
  assert (forall x y, Base clean = x -> PathJoin "conformance" x = y -> clean = y) as Hc by (intros x y <- <-; done).
  assert (Base clean <> "") as N0 by (intros B; pose proof (Hc _ _ B eq_refl) as E; vm_compute in E; rewrite E in B; by vm_compute in B).
  assert (Base clean <> ".") as N1 by (intros B; pose proof (Hc _ _ B eq_refl) as E; vm_compute in E; rewrite E in B; by vm_compute in B).
  assert (Base clean <> "..") as N2 by (intros B; pose proof (Hc _ _ B eq_refl) as E; vm_compute in E; done).
  assert (Base clean <> "/") as N3 by (intros B; pose proof (Hc _ _ B eq_refl) as E; vm_compute in E; rewrite E in B; by vm_compute in B).
  assert ("/"%byte ∉ go_bytes (Base clean)) as Hs.
  { apply Base_element; intros E; [apply N1|apply N3]; unfold Base.
    - by rewrite bool_decide_true.
    - rewrite bool_decide_false by (intros E'; apply N1; unfold Base; by rewrite bool_decide_true). by rewrite bool_decide_true. }
  split_and!; [done..|]. rewrite <- PathJoin_element by done. done.
Qed.

Lemma safeReportFileName_confined_witness :
  "/"%byte ∉ go_bytes "run-1.json" /\ Clean "./tmp/../conformance//run-1.json" = "conformance/run-1.json".
Proof.
  destruct (safeReportFileName_confined "./tmp/../conformance//run-1.json" "run-1.json") as (H & _ & _ & _ & E);
    [vm_compute; reflexivity|]. split; [exact H|exact E].
Defined.

(** Paths that leave the directory are refused. *)
Example safeReportFileName_refuses :
  map (fun p => is_ok (safeReportFileName p))
    ["/etc/passwd"; "conformance/../x.json"; "../conformance/x.json"; "conformance/a/b.json"; "conformance"; "conformance/.."; "x.json"] =
  replicate 7 false.
Proof. vm_compute. reflexivity. Qed.

Section cli.
  Context {C : CryptoOps} {SS : SortSlice} {R : MapRange} {U : Unicode} {E : Env} {S F : Type} `{HttpClient S} `{Os F}.
  Context `{Decode Text} `{Decode serviceCredentials} `{Decode (gmap string Value)} `{Decode serviceGrant} `{Decode Report}.
  Context `{Decode cliCredentials} (unmarshal_expires : bytes -> result Time).

Abbreviation IO := (M (World S F)).
Abbreviation iscp fuel := (run (S := S) (F := F) unmarshal_expires fuel).

(** ** Fuel *)

(** The workflows of a conformance run call no conformance command, so one level of
    calls is all there is. *)
Lemma run_fuel n args : iscp (Datatypes.S n) args = iscp 1 args.
Proof using.
  assert (runLocalCLIWorkflowsForConformance (iscp n) = runLocalCLIWorkflowsForConformance (iscp 0)) as Hw
    by (destruct n; reflexivity).
  cbn [run]. destruct args as [|command rest]; [done|].
  do 12 (case_bool_decide; [reflexivity|]). case_bool_decide; [|reflexivity]. unfold runConformance, conformance_options. by rewrite Hw.
Qed.

(** ** The demonstration *)

Context {L : CryptoLaws C}.

Lemma runs_ready_session now : now_ok now = true ->
  runs 128 (ready_session_at now : IO _) (fun '(_, _, sa, sb) => paired sa sb).
Proof using L.
  intros Hnow. unfold ready_session_at. eapply (runs_bind 32 96); [apply runs_device|]. intros a Ha.
  eapply (runs_bind 32 64); [apply runs_device|]. intros b Hb. destruct (proj2 Ha) as (_ & -> & _), (proj2 Hb) as (_ & -> & _).
  eapply (runs_bind 32 32); [by apply runs_hello|]. intros ha Eha. eapply (runs_bind 32 0); [by apply runs_hello|]. intros hb Ehb.
  destruct (hellos_ready now "local" "device-a" "device-b" a b "session-local" "grant-local" ha hb)
    as (sa & sb & ra & rb & E1 & E2 & E3 & E4 & E5 & E6 & P); [done..|].
  do 2 (eapply runs_try_then; [eassumption|]). cbv zeta. rewrite E3, E4. cbn [ready_or_zero].
  do 2 (eapply runs_try_then; [eassumption|]). by apply runs_ret.
Qed.

(** The rest of the demonstration. *)
Lemma runs_delivery now : now_ok now = true -> reads_text ->
  runs 128 ('(_, _, sa, sb) ← ready_session_at now;
    '(env, _) ← encrypt sa "msg-local" TypeText (mkRoute "relay-local" 60 1) (EncodeText "hello from iscp");
    '(plain, _) ← decrypt (Some sb) env;
    decoded ← try (DecodeText plain);
    mret (tx_Text decoded) : IO string) (fun text => text = "hello from iscp").
Proof using L.
  intros Hnow Ht. eapply (runs_bind 128 0); [by apply runs_ready_session|]. intros [[[a b] sa] sb] P.
  eapply (runs_bind 0 0 _ _ (fun p => exists s, Decrypt (Some sb) p.1 = (Ok (EncodeText "hello from iscp"), s))).
  { apply (runs_encrypt sa sb); [done..|]. intros. eauto. }
  intros [env s'] [s Ed]. cbn [fst] in Ed. unfold decrypt. rewrite Ed.
  eapply (runs_bind 0 0 _ _ (fun p => p.1 = EncodeText "hello from iscp")).
  { eapply runs_try_then; [reflexivity|]. by apply runs_ret. }
  intros [plain s2] Ep. cbn [fst] in Ep. subst plain.
  eapply runs_try_then; [apply Ht; vm_compute; reflexivity|]. by apply runs_ret.
Qed.

Lemma localE2E_delivers (m : Machine (World S F)) :
  now_ok (UTC (mc_clock m O)) = true -> reads_text -> (128 <= length (mc_rand m))%nat ->
  exists m', localE2E m = (Returned "hello from iscp", m') /\ mc_net m' = mc_net m.
Proof using L.
  intros Hnow Ht Hm. unfold localE2E, readySession, now_utc.
  destruct (runs_delivery (UTC (mc_clock m O)) Hnow Ht
    (mkMachine (mc_rand m) (fun n => mc_clock m (1 + n)%nat) (mc_text m) (mc_net m)) Hm) as (text & m' & Ed & -> & _ & En).
  exists m'. split; [|exact En]. rewrite <- Ed. reflexivity.
Qed.

(** The line it prints is one the conformance case accepts. *)
Lemma delivered_clean :
  Contains (delivered "hello from iscp") "local-e2e ok" = true /\
  leaked (delivered "hello from iscp") ["hello from iscp"; "private key"; "session_key="; "access_token="; "refresh_credential="] = None.
Proof using. split; vm_compute; reflexivity. Qed.

(** The demonstration: with 128 random bytes, [iscp demo local-e2e] succeeds, prints
    the length of the text that reached the other device and nothing else, touches
    no service; and the conformance case that runs it passes. *)
Theorem demo_delivers fuel opts (m : Machine (World S F)) :
  now_ok (UTC (mc_clock m O)) = true -> reads_text -> (128 <= length (mc_rand m))%nat ->
  op_CLIRunner opts = Some runLocalE2EForConformance ->
  (exists m', iscp fuel ["demo"; "local-e2e"] m = (Returned tt, m') /\
     mc_net m' = mkWorld (wo_net (mc_net m))
       (wo_stdout (mc_net m) +:+ "local-e2e ok payload_type=text plaintext_redacted=true delivered_text_len 15" +:+ nl)
       (wo_stderr (mc_net m)) (wo_os (mc_net m))) /\
  (exists evidence m', caseCLILocalE2E opts m = (Returned evidence, m')).
Proof using L.
  intros Hnow Ht Hm Hr. destruct (localE2E_delivers m Hnow Ht Hm) as (m' & Ed & En). split.
  - assert (iscp fuel ["demo"; "local-e2e"] = runDemo ["local-e2e"]) as -> by by destruct fuel. unfold runDemo.
    eexists. split; [eapply M_bind_step; [exact Ed|reflexivity]|]. cbn [mc_net]. by rewrite En.
  - unfold caseCLILocalE2E. rewrite Hr. eexists _, _. eapply M_bind_step.
    + unfold attempt. replace (runLocalE2EForConformance m) with (Returned (delivered "hello from iscp"), m'); [reflexivity|].
      symmetry. unfold runLocalE2EForConformance. by eapply M_bind_step.
    + cbv beta iota. destruct delivered_clean as [-> ->]. reflexivity.
Qed.

(** ** Reports that are judged later *)

(** A file system that works: a file that was written in a directory is read back. *)
Class WorkingOs := {
  os_works d n b f : exists f1 f2 f3 f4 f5,
    os_MkdirAll d f = (Ok tt, f1) /\ os_OpenRoot d f1 = (Ok tt, f2) /\ root_WriteFile d n b f2 = (Ok tt, f3) /\
    os_OpenRoot d f3 = (Ok tt, f4) /\ root_ReadFile d n f4 = (Ok b, f5)
}.

(** How a command ends on a judgement. *)
Definition ends (r : result unit) : ran unit :=
  match r with
  | Ok _ => Returned tt
  | Err e => Failed e
  end.

Lemma conformance_command (command : list string) path m :
  command ∈ [["run"]; ["validate-report"]; ["validate-report"; "--release"]] ->
  iscp 1 ("conformance" :: command ++ ["--output"; path]) m =
  (if bool_decide (command = ["run"])
   then writeConformanceReport unmarshal_expires path
          (conformance_options (iscp 0) (Getenv "ISCP_RELAY_ENDPOINT") (Getenv "ISCP_TRUST_ENDPOINT"))
   else validateConformanceReport path (bool_decide (command = ["validate-report"; "--release"]))) m.
Proof using.
  rewrite !elem_of_cons. intros [->|[->|[->|[]%not_elem_of_nil]]]; reflexivity.
Qed.


End cli.

(** ** The tool on a machine *)

Module CliWitness.
Import ToyCrypto InsertionSort BindingCrypto.

(** Files in memory, by directory and name. *)
Abbreviation Files := (gmap (string * string) bytes).

#[export] Instance memory : Os Files := {
  os_Pipe f := (Ok tt, f);
  os_MkdirAll _ f := (Ok tt, f);
  os_OpenRoot _ f := (Ok tt, f);
  root_WriteFile d n b f := (Ok tt, <[(d, n) := b]> f);
  root_ReadFile d n f := (of_option (PlainError "no such file") (f !! (d, n)), f)
}.

#[export] Instance memory_works : WorkingOs.
Proof. split. intros d n b f. do 5 eexists. split_and!; try reflexivity. cbn. by rewrite lookup_insert_eq. Qed.

#[export] Instance no_env : Env := { Getenv _ := "" }.

#[export] Instance decode_cli : Decode cliCredentials := { decode _ := Err (PlainError "json") }.

Definition machine (rand : reader) : Machine (World unit Files) := mkMachine rand (fun _ => t0) (fun _ => "now") (mkWorld tt "" "" ∅).

(** A conformance run without randomness: every case that needs some fails. *)
#[local] Instance decode_none : Decode Report := { decode _ := Err (PlainError "json") }.

Definition starved_cli : ran Report * Machine (World unit Files) :=
  Run expires_in_an_hour (conformance_options (run expires_in_an_hour 0) "" "") (machine []).

Definition starved_cli_report : Report :=
  match starved_cli with
  | (Returned r, _) => r
  | _ => mkReport "" "" "" t0 0 "" "" (mkSummary 0 0 0 0 0) ∅ [] []
  end.

#[export] Instance decode_report : Decode Report := { decode _ := Ok starved_cli_report }.

Definition starved_text : bytes := match MarshalReport starved_cli_report with Ok b => b | Err _ => [] end.


Lemma demo_delivers_witness :
  exists m', run expires_in_an_hour 1 ["demo"; "local-e2e"] (machine (replicate 128 x07)) = (Returned tt, m') /\
    wo_stdout (mc_net m') = "local-e2e ok payload_type=text plaintext_redacted=true delivered_text_len 15" +:+ nl.
Proof.
  destruct (demo_delivers expires_in_an_hour 1 (conformance_options (run expires_in_an_hour 0) "" "") (machine (replicate 128 x07)))
    as [(m' & E & En) _].
  - vm_compute. reflexivity.
  - intros s Hs. unfold DecodeText. cbn [decode decode_text]. rewrite EncodeText_parses, Hs. reflexivity.
  - apply Nat.leb_le. vm_compute. reflexivity.
  - reflexivity.
  - exists m'. split; [exact E|]. rewrite En. reflexivity.
Defined.

End CliWitness.
