(* ===== verification/Regexp.v ===== *)
(** * Text tools of the checks: [regexp], and more of [strings] and [time]

    Patterns are matched as the package does: leftmost, and among the matches there
    the one a backtracking search finds first. *)
From Stdlib Require Import ZArith Lia Strings.Byte.
From stdpp Require Import numbers gmap strings base list.
From S2P Require Import Prelude Errors Utf8 GoJson GoTime GoStrings.
Open Scope Z_scope.

(** ** [regexp] *)

Inductive regexp :=
| Empty
| Class (p : byte -> bool)
| LineStart
| LineEnd
| Concat (a b : regexp)
| Alternate (a b : regexp)
| Star (a : regexp)
| Group (n : nat) (a : regexp).

(** A position in a text: the byte before it, what follows, the groups so far. *)
Record position := mkPosition { po_before : option byte; po_rest : bytes; po_groups : gmap nat bytes }.

Definition is_newline (b : byte) : bool := bool_decide (b = x0a).

Definition advance (i : position) : option (byte * position) :=
  match po_rest i with
  | [] => None
  | b :: s => Some (b, mkPosition (Some b) s (po_groups i))
  end.

(** The text between two positions. *)
Definition between (i j : position) : bytes := take (length (po_rest i) - length (po_rest j)) (po_rest i).

(** Matches and goes on with [k]; the first way that succeeds.  A repetition that
    consumes nothing ends. *)
Fixpoint match_at {A} (r : regexp) (i : position) (k : position -> option A) : option A :=
  match r with
  | Empty => k i
  | Class p =>
      match advance i with
      | Some (b, j) => if p b then k j else None
      | None => None
      end
  | LineStart => if match po_before i with None => true | Some b => is_newline b end then k i else None
  | LineEnd => if match po_rest i with [] => true | b :: _ => is_newline b end then k i else None
  | Concat a b => match_at a i (fun j => match_at b j k)
  | Alternate a b =>
      match match_at a i k with
      | Some x => Some x
      | None => match_at b i k
      end
  | Star a =>
      (fix loop (n : nat) (i : position) : option A :=
         match n with
         | O => k i
         | S n =>
             match match_at a i (fun j => if (length (po_rest j) <? length (po_rest i))%nat then loop n j else None) with
             | Some x => Some x
             | None => k i
             end
         end) (S (length (po_rest i))) i
  | Group n a => match_at a i (fun j => k (mkPosition (po_before j) (po_rest j) (<[n := between i j]> (po_groups j))))
  end.

Definition start (s : bytes) : position := mkPosition None s ∅.

(** The first match at or after a position: its end. *)
Fixpoint find_from (n : nat) (r : regexp) (i : position) : option position :=
  match match_at r i Some with
  | Some j => Some j
  | None =>
      match n, advance i with
      | S n, Some (_, j) => find_from n r j
      | _, _ => None
      end
  end.

Definition find (r : regexp) (i : position) : option position := find_from (length (po_rest i)) r i.

(** [MatchString]. *)
Definition MatchString (r : regexp) (s : string) : bool := bool_decide (is_Some (find r (start (go_bytes s)))).

(** [FindAllStringSubmatch(s, -1)] for a pattern that matches no empty text: the
    groups of the successive matches. *)
Fixpoint find_all (n : nat) (r : regexp) (i : position) : list (gmap nat bytes) :=
  match n, find r i with
  | S n, Some j => po_groups j :: find_all n r (mkPosition (po_before j) (po_rest j) ∅)
  | _, _ => []
  end.

Definition FindAllStringSubmatch (r : regexp) (s : string) : list (gmap nat bytes) :=
  find_all (length (go_bytes s)) r (start (go_bytes s)).

(** [match[n]]: empty for a group that took no part. *)
Definition submatch (groups : gmap nat bytes) (n : nat) : string := go_string (default [] (groups !! n)).

(** Notation of the patterns. *)
Definition byte_is (c : byte) : regexp := Class (fun b => bool_decide (b = c)).
Definition byte_not (c : byte) : regexp := Class (fun b => negb (bool_decide (b = c))).
Definition plus (r : regexp) : regexp := Concat r (Star r).
Definition literal (s : string) : regexp := foldr (fun c r => Concat (byte_is c) r) Empty (go_bytes s).
Definition spaces : regexp := Star (Class (fun b => bool_decide (b ∈ [x09; x0a; x0c; x0d; x20]))).
Definition seq_of (l : list regexp) : regexp := foldr Concat Empty l.

(** [(?m)^text\s*$]. *)
Definition line_re (text : string) : regexp := seq_of [LineStart; literal text; spaces; LineEnd].

(** ** [strings] *)

(** [strings.ReplaceAll(s, "\r\n", "\n")]. *)
Fixpoint unix_lines (s : bytes) : bytes :=
  match s with
  | [] => []
  | b :: s' =>
      match s' with
      | c :: s'' => if bool_decide (b = x0d) && bool_decide (c = x0a) then x0a :: unix_lines s'' else b :: unix_lines s'
      | [] => [b]
      end
  end.

Definition Lines (s : string) : list string := Split (go_string (unix_lines (go_bytes s))) x0a.

(** [strings.Fields]; [cur] is the field under way, last byte first. *)
Fixpoint fields_go (cur : bytes) (l : list (Z * bytes)) : list string :=
  let flush := match cur with [] => [] | _ => [go_string (rev cur)] end in
  match l with
  | [] => flush
  | p :: l =>
      if is_unicode_space p.1 && negb (bad_rune p) then flush ++ fields_go [] l
      else fields_go (rev p.2 ++ cur) l
  end.

Definition Fields (s : string) : list string := fields_go [] (runes (go_bytes s)).

(** [strings.HasSuffix]. *)
Definition HasSuffix (s suffix : string) : bool := has_prefix (rev (go_bytes suffix)) (rev (go_bytes s)).

(** ** [time] *)

(** [t.Format(time.RFC3339Nano)] of a UTC time. *)
Definition Format (t : Time) : string :=
  let secs := ns t / Second in
  let '(y, m, d) := civil (secs / 86400) in
  let sod := secs mod 86400 in
  let year := if Z.abs y <? 10000 then pad 4 (Z.abs y) else format_uint (Z.abs y) in
  go_string ((if y <? 0 then ["-"%byte] else []) ++ year ++ "-"%byte :: pad 2 m ++ "-"%byte :: pad 2 d ++ "T"%byte ::
             pad 2 (sod / 3600) ++ ":"%byte :: pad 2 (sod / 60 mod 60) ++ ":"%byte :: pad 2 (sod mod 60) ++
             format_fraction (ns t mod Second) ++ ["Z"%byte]).

Definition UnixNano (t : Time) : Z := wrap_i64 (ns t - unixToInternal * Second).

(** ** Samples *)

(** [(?m)^  (/[^:]+):\s*$] *)
Definition path_re : regexp :=
  seq_of [LineStart; literal "  "; Group 1 (Concat (byte_is "/"%byte) (plus (byte_not ":"%byte))); byte_is ":"%byte; spaces; LineEnd].

Definition text (lines : list string) : string := Join lines (go_string [x0a]).

Example path_re_finds :
  map (fun g => submatch g 1)
    (FindAllStringSubmatch path_re (text ["paths:"; "  /a/b:"; "    get:"; ""; "  /c: "; "  /d: x"; "  /e:"])) = ["/a/b"; "/c"; "/e"].
Proof. vm_compute. reflexivity. Qed.

Example line_re_matches :
  map (fun s => MatchString (line_re "components:") s) ["components:"; text ["a"; "components:  "; "b"]; " components:"; "components: x"] =
  [true; true; false; false].
Proof. vm_compute. reflexivity. Qed.

Example Fields_sample : Fields "  a  bc d " = ["a"; "bc"; "d"].
Proof. vm_compute. reflexivity. Qed.
