(* ===== verification/Ci.v ===== *)
(** * The repository's checks: [tools/iscp-ci/cmd/iscp-ci/main.go]

    Checks of the JSON Schemas, of the OpenAPI document, of the traceability matrix,
    of the Helm chart and of a PostgreSQL database.  Each collects errors, writes a
    summary under [dist/] and fails when there were any.  The repository's files are
    a state behind [os.Root]; the database is that of the repositories. *)
From Stdlib Require Import ZArith Lia Strings.Byte.
From stdpp Require Import numbers gmap strings base list.
From S2P Require Import Prelude Errors Utf8 GoJson Canonical GoTime Crypto Signed GoStrings Sorting Uuid Keyring Sql Repository.
From S2P Require Import Runner Conformance ConformanceReport Cli Regexp.
Open Scope Z_scope.

(** ** Manifests *)

Record schemaManifestEntry := mkSchemaEntry { sme_File : string; sme_ObjectType : string }.

Definition expectedSchemas : list schemaManifestEntry :=
  [mkSchemaEntry "delivery_receipt.v2.json" "iscp.delivery_receipt.v2";
   mkSchemaEntry "device.identity.v2.json" "iscp.device.identity.v2";
   mkSchemaEntry "device.proof.v2.json" "iscp.device.proof.v2";
   mkSchemaEntry "error.v2.json" "iscp.error.v2";
   mkSchemaEntry "pairing_ticket.v2.json" "iscp.pairing_ticket.v2";
   mkSchemaEntry "pairing_ticket.v3.json" "iscp.pairing_ticket.v3";
   mkSchemaEntry "provisioning.bundle.v2.json" "iscp.provisioning.bundle.v2";
   mkSchemaEntry "relay.credential_recovery.wrapped.v2.json" "iscp.relay.credential_recovery.wrapped.v2";
   mkSchemaEntry "relay.descriptor.v2.json" "iscp.relay.descriptor.v2";
   mkSchemaEntry "secure_envelope.v2.json" "iscp.secure_envelope.v2";
   mkSchemaEntry "session.close.v1.json" "iscp.session.close.v1";
   mkSchemaEntry "session.hello.v2.json" "iscp.session.hello.v2";
   mkSchemaEntry "session.ready.v2.json" "iscp.session.ready.v2";
   mkSchemaEntry "session.reopen.v1.json" "iscp.session.reopen.v1";
   mkSchemaEntry "signed_descriptor.v2.json" "iscp.signed_descriptor.v2";
   mkSchemaEntry "trust.device_status.v2.json" "iscp.trust.device_status.v2";
   mkSchemaEntry "trust.grant_status.v2.json" "iscp.trust.grant_status.v2";
   mkSchemaEntry "trust.revocations.v2.json" "iscp.trust.revocations.v2";
   mkSchemaEntry "trust_grant.v2.json" "iscp.trust_grant.v2";
   mkSchemaEntry "trust_root.descriptor.v2.json" "iscp.trust_root.descriptor.v2"].

Definition signedSchemas : gset string :=
  {["device.proof.v2.json"; "pairing_ticket.v2.json"; "pairing_ticket.v3.json"; "provisioning.bundle.v2.json";
    "session.close.v1.json"; "session.hello.v2.json"; "session.ready.v2.json"; "session.reopen.v1.json";
    "signed_descriptor.v2.json"; "trust_grant.v2.json"]}.

Record methodManifestEntry := mkMethodEntry { mme_Path : string; mme_Method : string }.

Definition expectedMethods : list methodManifestEntry :=
  [mkMethodEntry "/.well-known/iscp/relay" "get";
   mkMethodEntry "/v2/relay/devices/bind-self" "post";
   mkMethodEntry "/v2/relay/devices/register-with-ticket" "post";
   mkMethodEntry "/v2/relay/devices/refresh-access" "post";
   mkMethodEntry "/v2/relay/devices/revoke-access" "post";
   mkMethodEntry "/v2/relay/connect" "get";
   mkMethodEntry "/v2/relay/envelopes" "post";
   mkMethodEntry "/v2/relay/admin/devices" "get";
   mkMethodEntry "/v2/relay/admin/connections" "get";
   mkMethodEntry "/v2/relay/admin/messages" "get";
   mkMethodEntry "/.well-known/iscp/trust-root" "get";
   mkMethodEntry "/v2/trust/devices/submit" "post";
   mkMethodEntry "/v2/trust/devices/authorize" "post";
   mkMethodEntry "/v2/trust/devices/revoke" "post";
   mkMethodEntry "/v2/trust/devices/status" "get";
   mkMethodEntry "/v2/trust/grants/verify" "post";
   mkMethodEntry "/v2/trust/grants/status" "get";
   mkMethodEntry "/v2/trust/grants/revoke" "post";
   mkMethodEntry "/v2/trust/revocations" "get";
   mkMethodEntry "/v2/trust/keys/rotate" "post";
   mkMethodEntry "/v2/trust/admin/audit" "get"].

(** ** Lists and properties *)

(** [contains] is that of [Signed]. *)
Definition difference (left right : list string) : list string :=
  List.filter (fun v => negb (bool_decide (v ∈ (list_to_set right : gset string)))) left.

(** The property of a decoded object, when it is a text. *)
Definition stringProperty (object : option (gmap string Value)) (name : string) : option string :=
  match object with
  | None => None
  | Some m => match m !! name with Some (JStr s) => Some s | _ => None end
  end.

Definition objectProperty (object : option (gmap string Value)) (name : string) : option (gmap string Value) :=
  match object with
  | None => None
  | Some m => match m !! name with Some (JObj l) => Some (list_to_map (rev l)) | _ => None end
  end.

Definition stringArrayProperty (object : option (gmap string Value)) (name : string) : list string :=
  match object with
  | None => []
  | Some m =>
      match m !! name with
      | Some (JArr l) => omap (fun v => match v with JStr s => Some s | _ => None end) l
      | _ => []
      end
  end.

Section lists.
  Context {SS : SortSlice} {R : MapRange}.

(** [sort.Strings]. *)
Definition sort_strings (l : list string) : list string := sort_slice string_ltb l.

Definition uniqueSorted (values : list string) : list string :=
  sort_strings (map fst (map_range (list_to_map (map (fun v => (v, true)) values) : gmap string bool))).

Definition publicRoutes (routes : list string) : list string :=
  uniqueSorted (List.filter (fun r => HasPrefix r "/v2/" || HasPrefix r "/.well-known/iscp/") routes).

Definition extractOpenAPIPaths (content : string) : list string :=
  uniqueSorted (map (fun g => submatch g 1) (FindAllStringSubmatch path_re content)).

End lists.

(** The lines of a path's section: after its own line, up to the next path. *)
Fixpoint section_lines (lines : list string) : list string :=
  match lines with
  | [] => []
  | line :: lines => if HasPrefix line "  /" then [] else line :: section_lines lines
  end.

Fixpoint find_section (path : string) (lines : list string) : option (list string) :=
  match lines with
  | [] => None
  | line :: lines =>
      if MatchString (line_re ("  " +:+ path +:+ ":")) line then Some (section_lines lines) else find_section path lines
  end.

Definition openAPIPathSection (content path : string) : option string :=
  (fun lines => String.concat "" (map (fun line => line +:+ nl) lines)) <$> find_section path (Lines content).

Definition normalizeRequirement (value : string) : string := Join (Fields (TrimSpace value)) " ".

(** The loop over the lines: the requirement under way and those found. *)
Definition is_normative (normalized : string) : bool :=
  Contains normalized " MUST " || Contains normalized " MUST NOT ".

Definition flush (current : string) : list string :=
  if bool_decide (current = "") then []
  else let n := normalizeRequirement current in if is_normative n then [n] else [].

Fixpoint requirement_lines (current : string) (lines : list string) : list string :=
  match lines with
  | [] => flush current
  | line :: lines =>
      if HasPrefix line "- " then flush current ++ requirement_lines (TrimSpace (TrimPrefix line "- ")) lines
      else if negb (bool_decide (current = "")) && HasPrefix line "  " && negb (bool_decide (TrimSpace line = ""))
      then requirement_lines (current +:+ " " +:+ TrimSpace line) lines
      else flush current ++ requirement_lines "" lines
  end.

Definition extractNormativeRequirements (content : string) : list string := requirement_lines "" (Lines content).

Record traceabilityRow := mkRow { ro_ID : string; ro_Requirement : string; ro_Evidence : string; ro_Status : string }.

(** A line of the matrix: a row, or the error of a malformed one. *)
Definition matrix_line (line : string) : option (traceabilityRow + string) :=
  if negb (HasPrefix line "| ISCP-SB-") then None
  else
    match Split line "|"%byte with
    | _ :: id :: requirement :: evidence :: status :: _ :: _ =>
        Some (inl (mkRow (TrimSpace id) (normalizeRequirement requirement) (TrimSpace evidence) (TrimSpace status)))
    | _ => Some (inr ("malformed traceability row: " +:+ line))
    end.

(** The rows, and the errors that are appended. *)
Definition extractTraceabilityRows (content : string) : list traceabilityRow * list string :=
  let found := omap matrix_line (Lines content) in
  (omap (fun r => match r with inl row => Some row | inr _ => None end) found,
   omap (fun r => match r with inl _ => None | inr e => Some e end) found).

(** ** JSON Schemas *)

Definition err_if (b : bool) (e : string) : list string := if b then [e] else [].

(** [p == nil || *p != want]. *)
Definition is_not (p : option string) (want : string) : bool :=
  match p with
  | None => true
  | Some s => negb (bool_decide (s = want))
  end.

Record schemaResult := mkSchemaResult {
  sr_File : string; sr_ID : option string; sr_ObjectType : string; sr_RequiredCount : Z; sr_Status : string;
  sr_Errors : list string }.

Definition schemaResult_json (r : schemaResult) : Value :=
  JObj ([("file", JStr (sr_File r))]
        ++ match sr_ID r with Some id => [("id", JStr id)] | None => [] end
        ++ [("object_type", JStr (sr_ObjectType r))]
        ++ omit_empty (sr_RequiredCount r =? 0) "required_count" (JInt (sr_RequiredCount r))
        ++ [("status", JStr (sr_Status r)); ("errors", strings_json (sr_Errors r))]).

(** Identifiers and types seen so far, with the file each is from. *)
Record seen := mkSeen { seen_ids : gmap string string; seen_types : gmap string string }.

(** A value that must not have been seen: the error, and what is seen then. *)
Definition note_once (what : string) (v : option string) (name : string) (m : gmap string string)
    : list string * gmap string string :=
  match v with
  | None => ([], m)
  | Some s =>
      match m !! s with
      | Some previous => ([what +:+ previous], m)
      | None => ([], <[s := name]> m)
      end
  end.

(** The definition of the signature. *)
Definition signature_errors (signatureDef : option (gmap string Value)) : list string :=
  match signatureDef with
  | None => ["signature property must reference a $defs.signature definition"]
  | Some _ =>
      let required := stringArrayProperty signatureDef "required" in
      let properties := objectProperty signatureDef "properties" in
      flat_map (fun field => err_if (negb (contains required field)) ("$defs.signature.required must include " +:+ field))
        ["alg"; "kid"; "value"]
      ++ err_if (is_not (stringProperty (objectProperty properties "alg") "const") "Ed25519")
           "$defs.signature.properties.alg.const must be Ed25519"
      ++ err_if (is_not (stringProperty (objectProperty properties "value") "contentEncoding") "base64url")
           "$defs.signature.properties.value.contentEncoding must be base64url"
  end.

Definition draft : string := "https://json-schema.org/draft/2020-12/schema".

Definition schema_id (name : string) : string := "https://schemas.iscp.dev/json/" +:+ name.

(** The checks of one document. *)
Definition schema_errors (name expectedType : string) (doc : gmap string Value) (s : seen) : list string * seen :=
  let doc := Some doc in
  let id := stringProperty doc "$id" in
  let required := stringArrayProperty doc "required" in
  let properties := objectProperty doc "properties" in
  let typeConst := stringProperty (objectProperty properties "type") "const" in
  let closed := match doc with Some m => match m !! "additionalProperties" with Some (JBool false) => true | _ => false end | None => false end in
  let '(dup_id, ids) := note_once "$id duplicates " id name (seen_ids s) in
  let '(dup_type, types) := note_once "object type duplicates " typeConst name (seen_types s) in
  let signed := bool_decide (name ∈ signedSchemas) in
  let has_signature := match properties with Some m => bool_decide (is_Some (m !! "signature")) | None => false end in
  (err_if (is_not (stringProperty doc "$schema") draft) "must use JSON Schema draft 2020-12"
   ++ err_if (is_not id (schema_id name)) ("$id must be " +:+ schema_id name)
   ++ err_if (match stringProperty doc "title" with None => true | Some t => bool_decide (TrimSpace t = "") end) "title is required"
   ++ err_if (is_not (stringProperty doc "type") "object") "top-level type must be object"
   ++ err_if (negb closed) "top-level additionalProperties must be false"
   ++ err_if (negb (contains required "type")) "required must include type"
   ++ err_if (is_not typeConst expectedType) ("properties.type.const must be " +:+ expectedType)
   ++ dup_id ++ dup_type
   ++ err_if (signed && negb (contains required "signature")) "signed schema must require signature"
   ++ (if signed || has_signature then signature_errors (objectProperty (objectProperty doc "$defs") "signature") else []),
   mkSeen ids types).

Section schemas.
  Context `{Decode (gmap string Value)}.

(** The loop over the manifest; [read] reads a file of [schemas/json]. *)
Fixpoint check_schemas (read : string -> result bytes) (missing : list string) (s : seen) (entries : list schemaManifestEntry)
    : list string * list schemaResult :=
  match entries with
  | [] => ([], [])
  | entry :: entries =>
      let name := sme_File entry in
      if contains missing name then check_schemas read missing s entries
      else
        match (raw ← read name; decode raw : result (gmap string Value)) with
        | Err e =>
            let '(errs, results) := check_schemas read missing s entries in
            ((name +:+ " invalid JSON") :: errs,
             mkSchemaResult name None (sme_ObjectType entry) 0 "fail" ["invalid JSON: " +:+ Error e] :: results)
        | Ok doc =>
            let '(schemaErrors, s') := schema_errors name (sme_ObjectType entry) doc s in
            let '(errs, results) := check_schemas read missing s' entries in
            let failed := negb (bool_decide (schemaErrors = [])) in
            (err_if failed (name +:+ " failed schema validation") ++ errs,
             mkSchemaResult name (stringProperty (Some doc) "$id") (sme_ObjectType entry)
               (Z.of_nat (length (stringArrayProperty (Some doc) "required"))) (if failed then "fail" else "pass") schemaErrors
               :: results)
        end
  end.

End schemas.

(** ** The repository *)

(** The files below the root, behind [os.Root]. *)
Class RepoFiles (F : Type) := {
  (** names and whether each is a directory, by name *)
  repo_ReadDir : string -> F -> result (list (string * bool));
  repo_ReadFile : string -> F -> result bytes;
  repo_Stat : string -> F -> result unit;
  (** [os.IsNotExist] *)
  is_not_exist : error -> bool;
  repo_MkdirAll : string -> F -> result unit * F;
  (** creates a file with contents *)
  repo_Create : string -> bytes -> F -> result unit * F
}.

Section checks.
  Context {SS : SortSlice} {R : MapRange} {S F : Type} `{RepoFiles F} `{Decode (gmap string Value)}.

Abbreviation IO := (M (World S F)).

Definition look {A} (f : F -> A) : IO A := fun m => (Returned (f (wo_os (mc_net m))), m).

(** [writeJSON]: the encoder ends the text with a newline. *)
Definition writeJSON (dir name : string) (v : Value) : IO unit :=
  _ ← os_call (repo_MkdirAll dir);
  os_call (repo_Create (dir +:+ "/" +:+ name) (MarshalIndent v ++ [x0a])).

(** The end of every check: the summary is written, and the errors decide. *)
Definition conclude_check (what file : string) (summary : Time -> string -> Value) (errorsOut : list string) : IO unit :=
  now ← time_now;
  let status := if bool_decide (errorsOut = []) then "pass" else "fail" in
  _ ← writeJSON "dist" file (summary (UTC now) status);
  _ ← ensure (bool_decide (errorsOut = [])) (what +:+ " validation failed; see dist/" +:+ file);
  Println (what +:+ " validation passed; see dist/" +:+ file).

(** The schema files of the directory, or the error that it cannot be read. *)
Definition schema_files (entries : result (list (string * bool))) : list string * list string :=
  match entries with
  | Err e =>
      if is_not_exist e then ([], ["schemas/json directory is missing"])
      else ([], ["schemas/json cannot be read: " +:+ Error e])
  | Ok entries =>
      (sort_strings (map fst (List.filter (fun e : string * bool => negb e.2 && HasSuffix e.1 ".json") entries)), [])
  end.

Definition schema_check (files : list string) (read : string -> result bytes)
    : list string * list string * list string * list schemaResult :=
  let expectedNames := map sme_File expectedSchemas in
  let missing := difference expectedNames files in
  let unexpected := difference files expectedNames in
  let '(errs, results) := check_schemas read missing (mkSeen ∅ ∅) expectedSchemas in
  (err_if (negb (bool_decide (missing = []))) ("required JSON Schemas are missing: " +:+ Join missing ", ")
   ++ err_if (negb (bool_decide (unexpected = [])))
        ("schemas/json contains files not in the schema manifest: " +:+ Join unexpected ", ")
   ++ errs, missing, unexpected, results).

Definition schemaSummary_json (missing unexpected : list string) (results : list schemaResult) (errorsOut : list string)
    (now : Time) (status : string) : Value :=
  JObj [("type", JStr "iscp.schema.validation.v2"); ("generated_at", JStr (Format now)); ("schema_dir", JStr "schemas/json");
        ("status", JStr status); ("expected_schema_count", JInt (Z.of_nat (length expectedSchemas)));
        ("checked_schema_count", JInt (Z.of_nat (length results))); ("missing_schemas", strings_json missing);
        ("unexpected_schemas", strings_json unexpected); ("schemas", JArr (map schemaResult_json results));
        ("errors", strings_json errorsOut)].

Definition generateSchemas : IO unit :=
  entries ← look (repo_ReadDir "schemas/json");
  let '(files, dirErrors) := schema_files entries in
  r ← look (fun f => schema_check files (fun name => repo_ReadFile ("schemas/json/" +:+ name) f));
  let '(errs, missing, unexpected, results) := r in
  conclude_check "JSON Schema" "schema-check.json" (schemaSummary_json missing unexpected results (dirErrors ++ errs))
    (dirErrors ++ errs).

(** ** OpenAPI *)

Definition routeSourceNames : list string :=
  ["services/relay-reference/internal/relay/server.go"; "services/trust-root-reference/internal/trust/server.go"].

(** The pattern of a call to HandleFunc with a quoted path, which it captures. *)
Definition route_re : regexp :=
  seq_of [literal "HandleFunc("; byte_is x22; Group 1 (plus (byte_not x22)); byte_is x22].

Definition routes_of (source : string) : list string := map (fun g => submatch g 1) (FindAllStringSubmatch route_re source).

(** [(?m)^openapi:\s*3\.1\.0\s*$] *)
Definition version_re : regexp := seq_of [LineStart; literal "openapi:"; spaces; literal "3.1.0"; spaces; LineEnd].

(** The document: its text (empty when it cannot be read), its paths, the errors. *)
Definition openapi_document (raw : result bytes) : string * list string * list string :=
  match raw with
  | Err e =>
      ("", [], [if is_not_exist e then "docs/api/openapi.yaml is missing"
                else "docs/api/openapi.yaml cannot be read: " +:+ Error e])
  | Ok raw =>
      let content := go_string raw in
      let paths := extractOpenAPIPaths content in
      (content, paths,
       err_if (negb (MatchString version_re content)) "docs/api/openapi.yaml must declare openapi: 3.1.0"
       ++ err_if (negb (MatchString (line_re "components:") content) || negb (MatchString (line_re "  schemas:") content) ||
                  negb (MatchString (line_re "    Error:") content)) "docs/api/openapi.yaml must include components.schemas.Error"
       ++ err_if (bool_decide (paths = [])) "docs/api/openapi.yaml has no path entries")
  end.

(** The routes of the source files, and the errors of those that cannot be read. *)
Definition service_routes (read : string -> result bytes) : list string * list string :=
  (flat_map (fun name => match read name with Ok raw => routes_of (go_string raw) | Err _ => [] end) routeSourceNames,
   flat_map (fun name => match read name with Ok _ => [] | Err _ => ["route source file is missing: " +:+ name] end)
     routeSourceNames).

Definition methodByPath : gmap string string := list_to_map (map (fun e => (mme_Path e, mme_Method e)) expectedMethods).

Definition expectedPaths : list string := map mme_Path expectedMethods.

(** A manifest path whose section lacks its method or its responses. *)
Definition path_errors (content path : string) : list string :=
  match openAPIPathSection content path with
  | None => []
  | Some section =>
      let method := default "" (methodByPath !! path) in
      err_if (negb (MatchString (line_re ("    " +:+ method +:+ ":")) section))
        ("OpenAPI path " +:+ path +:+ " must document " +:+ ToUpper method)
      ++ err_if (negb (MatchString (line_re "      responses:") section)) ("OpenAPI path " +:+ path +:+ " must document responses")
  end.

Definition specEndpointSources : list (string * list string) :=
  [("spec/relay.md", ["/.well-known/iscp/relay"; "/v2/relay/"]);
   ("spec/trust-root.md", ["/.well-known/iscp/trust-root"; "/v2/trust/"])].

(** An item "- `METHOD /path`", perhaps followed by " (optional)". *)
Definition specEndpointRe : regexp :=
  seq_of [LineStart; literal "- `"; Group 1 (Alternate (literal "GET") (literal "POST")); byte_is x20;
          Group 2 (Concat (byte_is "/"%byte) (plus (byte_not "`"%byte))); byte_is "`"%byte;
          Alternate (Group 3 (literal " (optional)")) Empty].

(** The endpoints a document lists, the last of equal paths: method and whether it
    is optional. *)
Definition spec_listed (content : string) : gmap string (string * bool) :=
  foldl (fun m g => <[submatch g 2 := (ToLower (submatch g 1), negb (bool_decide (submatch g 3 = "")))]> m) ∅
    (FindAllStringSubmatch specEndpointRe content).

(** A listed endpoint that the manifest does not have, or has with another method. *)
Definition listed_errors (specFile : string) (entry : string * (string * bool)) : list string :=
  let '(path, (method, optional)) := entry in
  match methodByPath !! path with
  | None =>
      if optional : bool then []
      else [specFile +:+ " lists endpoint not present in the OpenAPI method manifest: " +:+ ToUpper method +:+ " " +:+ path]
  | Some expected =>
      err_if (negb (bool_decide (expected = method)))
        (specFile +:+ " documents " +:+ ToUpper method +:+ " " +:+ path +:+ " but the OpenAPI method manifest expects " +:+
         ToUpper expected)
  end.

(** A manifest entry that the document has to list and does not. *)
Definition unlisted_errors (specFile : string) (prefixes : list string) (listed : gmap string (string * bool))
    (entry : string * string) : list string :=
  let '(path, method) := entry in
  let covered := existsb (fun prefix => bool_decide (path = prefix) || HasPrefix path prefix) prefixes in
  err_if (covered && negb (bool_decide (is_Some (listed !! path))))
    (specFile +:+ " is missing endpoint documented in the OpenAPI method manifest: " +:+ ToUpper method +:+ " " +:+ path).

Definition spec_errors (read : string -> result bytes) (source : string * list string) : list string :=
  let '(specFile, prefixes) := source in
  match read specFile with
  | Err _ => ["spec endpoint source is missing: " +:+ specFile]
  | Ok raw =>
      let listed := spec_listed (go_string raw) in
      if (size listed =? 0)%nat then [specFile +:+ " lists no endpoints in the expected `- `METHOD /path`` form"]
      else flat_map (listed_errors specFile) (map_range listed)
           ++ flat_map (unlisted_errors specFile prefixes listed) (map_range methodByPath)
  end.

Definition validateSpecEndpoints (read : string -> result bytes) : list string :=
  flat_map (spec_errors read) specEndpointSources.

Record openapi_result := mkOpenapi {
  oa_paths : list string; oa_routes : list string; oa_missing : list string; oa_not_implemented : list string;
  oa_errors : list string }.

Definition openapi_check (read : string -> result bytes) : openapi_result :=
  let '(content, openAPIPaths, errs1) := openapi_document (read "docs/api/openapi.yaml") in
  let '(serviceRoutes, errs2) := service_routes read in
  let publicServiceRoutes := publicRoutes serviceRoutes in
  let openAPIPublicPaths := publicRoutes openAPIPaths in
  let missingFromOpenAPI := difference publicServiceRoutes openAPIPaths in
  let notImplemented := difference openAPIPublicPaths publicServiceRoutes in
  let missingFromManifest := difference publicServiceRoutes expectedPaths in
  let manifestNotImplemented := difference expectedPaths publicServiceRoutes in
  let report l text := err_if (negb (bool_decide (l = []))) (text +:+ Join l ", ") in
  mkOpenapi openAPIPublicPaths publicServiceRoutes missingFromOpenAPI notImplemented
    (errs1 ++ errs2
     ++ report missingFromOpenAPI "OpenAPI is missing service routes: "
     ++ report notImplemented "OpenAPI documents routes not implemented by the reference services: "
     ++ report missingFromManifest "OpenAPI method manifest is missing service routes: "
     ++ report manifestNotImplemented "OpenAPI method manifest contains routes not implemented by the reference services: "
     ++ (if bool_decide (content = "") then [] else flat_map (path_errors content) expectedPaths)
     ++ validateSpecEndpoints read).

Definition methodManifestEntry_json (e : methodManifestEntry) : Value :=
  JObj [("path", JStr (mme_Path e)); ("method", JStr (mme_Method e))].

Definition openAPISummary_json (r : openapi_result) (now : Time) (status : string) : Value :=
  JObj [("type", JStr "iscp.openapi.validation.v2"); ("generated_at", JStr (Format now));
        ("openapi_file", JStr "docs/api/openapi.yaml"); ("route_sources", strings_json routeSourceNames); ("status", JStr status);
        ("openapi_path_count", JInt (Z.of_nat (length (oa_paths r)))); ("service_route_count", JInt (Z.of_nat (length (oa_routes r))));
        ("checked_paths", JArr (map methodManifestEntry_json expectedMethods)); ("missing_from_openapi", strings_json (oa_missing r));
        ("not_implemented_by_services", strings_json (oa_not_implemented r)); ("errors", strings_json (oa_errors r))].

Definition generateOpenAPI : IO unit :=
  r ← look (fun f => openapi_check (fun name => repo_ReadFile name f));
  conclude_check "OpenAPI" "openapi-check.json" (openAPISummary_json r) (oa_errors r).

(** ** Traceability *)

(** Requirements by their normalized text; duplicates are errors. *)
Definition note_requirement (acc : gmap string string * list string) (requirement : string) : gmap string string * list string :=
  let '(m, errs) := acc in
  let n := normalizeRequirement requirement in
  match m !! n with
  | Some previous => (m, errs ++ ["duplicate normative requirement: " +:+ previous])
  | None => (<[n := requirement]> m, errs)
  end.

Record matrix := mkMatrix { mx_rows : gmap string string; mx_ids : gmap string string; mx_duplicates : list string; mx_errors : list string }.

Definition note_row (x : matrix) (row : traceabilityRow) : matrix :=
  let '(ids, dups, dup_errors) :=
    match mx_ids x !! ro_ID row with
    | Some previous => (mx_ids x, mx_duplicates x ++ [ro_ID row], ["traceability id " +:+ ro_ID row +:+ " duplicates " +:+ previous])
    | None => (<[ro_ID row := ro_Requirement row]> (mx_ids x), mx_duplicates x, [])
    end in
  mkMatrix (<[normalizeRequirement (ro_Requirement row) := ro_Requirement row]> (mx_rows x)) ids dups
    (mx_errors x
     ++ err_if (bool_decide (ro_ID row = "")) "traceability row has empty id"
     ++ dup_errors
     ++ err_if (bool_decide (TrimSpace (ro_Evidence row) = "")) (ro_ID row +:+ " has empty evidence")
     ++ err_if (negb (bool_decide (ro_Status row = "Covered"))) (ro_ID row +:+ " status must be Covered")).

(** The values of one map whose keys another lacks. *)
Definition lacking (a b : gmap string string) : list string :=
  map snd (List.filter (fun p : string * string => negb (bool_decide (is_Some (b !! p.1)))) (map_range a)).

Record trace_result := mkTrace {
  tc_requirements : list string; tc_rows : list traceabilityRow; tc_missing : list string; tc_extra : list string;
  tc_duplicates : list string; tc_errors : list string }.

Definition traceability_check (spec table : string) : trace_result :=
  let requirements := extractNormativeRequirements spec in
  let '(rows, errs1) := extractTraceabilityRows table in
  let '(byNormalized, errs2) := foldl note_requirement (∅, []) requirements in
  let x := foldl note_row (mkMatrix ∅ ∅ [] []) rows in
  let missing := sort_strings (lacking byNormalized (mx_rows x)) in
  let extra := sort_strings (lacking (mx_rows x) byNormalized) in
  mkTrace requirements rows missing extra (sort_strings (mx_duplicates x))
    (errs1 ++ errs2 ++ mx_errors x
     ++ err_if (negb (bool_decide (missing = []))) "traceability matrix is missing requirements"
     ++ err_if (negb (bool_decide (extra = []))) "traceability matrix contains requirements not in security baseline").

Definition traceabilityRow_json (r : traceabilityRow) : Value :=
  JObj [("id", JStr (ro_ID r)); ("requirement", JStr (ro_Requirement r)); ("evidence", JStr (ro_Evidence r));
        ("status", JStr (ro_Status r))].

Definition specName : string := "spec/security-baseline.md".
Definition matrixName : string := "docs/security/traceability.md".

Definition traceabilitySummary_json (r : trace_result) (now : Time) (status : string) : Value :=
  JObj [("type", JStr "iscp.traceability.validation.v2"); ("generated_at", JStr (Format now)); ("spec_file", JStr specName);
        ("matrix_file", JStr matrixName); ("status", JStr status);
        ("requirement_count", JInt (Z.of_nat (length (tc_requirements r)))); ("matrix_row_count", JInt (Z.of_nat (length (tc_rows r))));
        ("missing_requirements", strings_json (tc_missing r)); ("extra_requirements", strings_json (tc_extra r));
        ("duplicate_ids", strings_json (tc_duplicates r)); ("rows", JArr (map traceabilityRow_json (tc_rows r)));
        ("errors", strings_json (tc_errors r))].

Definition validateTraceability : IO unit :=
  specRaw ← look (repo_ReadFile specName);
  specRaw ← try specRaw;
  matrixRaw ← look (repo_ReadFile matrixName);
  matrixRaw ← try matrixRaw;
  let r := traceability_check (go_string specRaw) (go_string matrixRaw) in
  conclude_check "traceability" "traceability-check.json" (traceabilitySummary_json r) (tc_errors r).

End checks.

(** ** Helm *)

Definition quoted (s : string) : string := go_string [x22] +:+ s +:+ go_string [x22].

Definition helm_files : list string :=
  ["deploy/helm/iscp/values.yaml"; "deploy/helm/iscp/templates/relay-deployment.yaml";
   "deploy/helm/iscp/templates/trust-deployment.yaml"; "deploy/helm/iscp/templates/relay-service.yaml";
   "deploy/helm/iscp/templates/trust-service.yaml"].

(** Name, file and the texts it must contain. *)
Definition helm_checks : list (string * string * list string) :=
  [("values", "deploy/helm/iscp/values.yaml", ["profile: local-lab"; "existingSecret"; "allowedOrigins"; "externalURL"]);
   ("relay deployment", "deploy/helm/iscp/templates/relay-deployment.yaml",
    ["fail " +:+ quoted "production profile requires admin.existingSecret";
     "fail " +:+ quoted "production profile requires relay.allowedOrigins";
     "fail " +:+ quoted "production profile requires postgres.externalURL or postgres.existingSecret";
     "ISCP_ADMIN_TOKEN"; "ISCP_DATABASE_URL"; "ISCP_ALLOWED_ORIGINS"; "ISCP_RELAY_BASE_URL"; "ISCP_RELAY_WS_URL"]);
   ("trust deployment", "deploy/helm/iscp/templates/trust-deployment.yaml",
    ["fail " +:+ quoted "production profile requires admin.existingSecret";
     "fail " +:+ quoted "production profile requires postgres.externalURL or postgres.existingSecret";
     "ISCP_ADMIN_TOKEN"; "ISCP_DATABASE_URL"; "ISCP_TRUST_BASE_URL"])].

(** The text of a file, empty when it cannot be read, and the error then. *)
Definition readText (read : string -> result bytes) (name : string) : string * list string :=
  match read name with
  | Ok raw => (go_string raw, [])
  | Err e => ("", [name +:+ " cannot be read: " +:+ Error e])
  end.

Definition helm_errors (stat : string -> result unit) (read : string -> result bytes) : list string :=
  flat_map (fun name => err_if (negb (is_ok (stat name))) (name +:+ " is missing")) helm_files
  ++ flat_map (fun c : string * string * list string => (readText read c.1.2).2) helm_checks
  ++ flat_map (fun c : string * string * list string =>
       flat_map (fun want => err_if (negb (Contains (readText read c.1.2).1 want)) (c.1.1 +:+ " must contain " +:+ want)) c.2)
       helm_checks.

Definition helmSummary_json (errorsOut : list string) (now : Time) (status : string) : Value :=
  JObj [("type", JStr "iscp.helm.validation.v2"); ("generated_at", JStr (Format now)); ("chart_dir", JStr "deploy/helm/iscp");
        ("status", JStr status); ("checked_files", strings_json helm_files); ("errors", strings_json errorsOut)].

(** ** PostgreSQL *)

(** The two schemas of the database. *)
Record Databases := mkDatabases { relay_db : DB RelayTables; trust_db : DB TrustTables }.

(** A connection pool: opening one for a DSN, and whether a table exists. *)
Class Pool := {
  pool_New : string -> Databases -> result unit;
  to_regclass : string -> Databases -> result bool
}.

Definition checkedTables : list string :=
  ["iscp_relay.devices"; "iscp_relay.access_tokens"; "iscp_relay.refresh_tokens"; "iscp_relay.pop_replay_cache";
   "iscp_relay.messages"; "iscp_relay.delivery_receipts"; "iscp_trust.devices"; "iscp_trust.grants"; "iscp_trust.revocations";
   "iscp_trust.pop_replay_cache"; "iscp_trust.signing_keys"].

Section postgres.
  Context {P : Postgres} {PL : Pool} {U : Unicode} {E : Env} {F : Type} `{RepoFiles F}.

Abbreviation IO := (M (World Databases F)).

Definition set_net (m : Machine (World Databases F)) (dbs : Databases) : Machine (World Databases F) :=
  let w := mc_net m in
  mkMachine (mc_rand m) (mc_clock m) (mc_text m) (mkWorld dbs (wo_stdout w) (wo_stderr w) (wo_os w)).

(** A repository method, with its error as a value. *)
Definition on_relay {A} (q : Q RelayTables A) : IO (result A) := fun m =>
  let dbs := wo_net (mc_net m) in
  let '(r, db) := q (relay_db dbs) in (Returned r, set_net m (mkDatabases db (trust_db dbs))).

Definition on_trust {A} (q : Q TrustTables A) : IO (result A) := fun m =>
  let dbs := wo_net (mc_net m) in
  let '(r, db) := q (trust_db dbs) in (Returned r, set_net m (mkDatabases (relay_db dbs) db)).

(** [fmt.Errorf("what: %w", err)] of a call that failed. *)
Definition step {A} (what : string) (c : IO (result A)) : IO A :=
  r ← c;
  match r with
  | Ok a => mret a
  | Err e => fail (what +:+ ": " +:+ Error e)
  end.

Definition assertReplayNonce (name : string) (use : IO (result bool)) : IO unit :=
  first ← step (name +:+ " replay nonce first use failed") use;
  _ ← ensure first (name +:+ " replay nonce first use was rejected");
  second ← step (name +:+ " replay nonce second use failed") use;
  ensure (negb second) (name +:+ " replay nonce accepted duplicate").

(** The claims of one message, in the order of the check. *)
Definition queue_message (uuid messageID recipientID : string) (raw : bytes) (now : Time) : RelayMessage :=
  mkRelayMessage uuid "local" messageID "postgres-check-sender" recipientID "postgres-check-session" "text"
    (encode (JObj [("ttl_seconds", JInt 60); ("priority", JInt 1)])) raw raw 1 now (Add now (10 * Minute)).

Definition assertRelayPersistentQueue (now : Time) : IO (list string) :=
  let suffix := Itoa (UnixNano now) in
  let messageID := "postgres-check-msg-" +:+ suffix in
  let recipientID := "postgres-check-recipient-" +:+ suffix in
  uuid ← step "relay queue uuid generation failed" (with_rand (NewUUIDv7Like now));
  let raw := go_bytes ("{" +:+ quoted "type" +:+ ":" +:+ quoted "iscp.secure_envelope.v2" +:+ "," +:+ quoted "message_id" +:+ ":" +:+
                       Quote messageID +:+ "}") in
  let claim at_ := on_relay (ClaimPendingMessagesFor "local" recipientID at_ Minute 1) in
  _ ← step "relay queue store failed" (on_relay (StoreMessage (queue_message (UUIDString uuid) messageID recipientID raw now)));
  first ← step "relay queue first claim failed" (claim now);
  _ ← ensure (match first with
              | [msg] => bool_decide (rm_MessageID msg = messageID) && bool_decide (rm_EnvelopeRaw msg = raw)
              | _ => false
              end) "relay queue first claim returned unexpected messages";
  second ← step "relay queue duplicate claim failed" (claim now);
  _ ← ensure (bool_decide (second = [])) "relay queue duplicate claim returned leased message";
  let retryAt := Add now (2 * Minute) in
  retry ← step "relay queue retry claim failed" (claim retryAt);
  _ ← ensure (match retry with [msg] => bool_decide (rm_MessageID msg = messageID) | _ => false end)
        "relay queue retry claim did not return leased message after expiry";
  _ ← step "relay queue delivery mark failed" (on_relay (MarkMessageDelivered "local" messageID retryAt));
  afterDelivered ← step "relay queue post-delivery claim failed" (claim (Add retryAt Minute));
  _ ← ensure (bool_decide (afterDelivered = [])) "relay queue returned delivered message";
  mret ["relay persistent queue claimed stored message"; "relay persistent queue rejected duplicate active lease";
        "relay persistent queue retried after lease expiry"; "relay persistent queue suppressed delivered message"].

(** A check whose error is collected: what it adds to the checks, or the error. *)
Definition collect (c : IO (list string)) : IO (list string * list string) :=
  r ← attempt c;
  mret match r with
       | inl checks => (checks, [])
       | inr (inl e) => ([], [Error e])
       | inr (inr reason) => ([], [reason])
       end.

Definition table_errors (dbs : Databases) (table : string) : list string :=
  match to_regclass table dbs with
  | Err e => [table +:+ " check failed: " +:+ Error e]
  | Ok exists_ => err_if (negb exists_) (table +:+ " is missing")
  end.

(** The checks of an open pool: replay checks, queue checks, errors. *)
Definition check_pool : IO (list string * list string * list string) :=
  errs ← (fun m => (Returned (flat_map (table_errors (wo_net (mc_net m))) checkedTables), m));
  now ← time_now;
  let now := UTC now in
  let nonce := "postgres-check-" +:+ Itoa (UnixNano now) in
  let soon := Add now Minute in
  '(relay, errs1) ← collect (_ ← assertReplayNonce "relay"
      (on_relay (RelayUseProofNonce "local" "postgres-check-device" "relay-local" nonce soon now));
      mret ["relay proof nonce replay rejected"]);
  '(trust, errs2) ← collect (_ ← assertReplayNonce "trust"
      (on_trust (TrustUseProofNonce "local" "postgres-check-device" "trust-local" nonce soon now));
      mret ["trust proof nonce replay rejected"]);
  '(queue, errs3) ← collect (assertRelayPersistentQueue now);
  mret (relay ++ trust, queue, errs ++ errs1 ++ errs2 ++ errs3).

Definition postgresSummary_json (configured : bool) (replay queue errorsOut : list string) (now : Time) (status : string) : Value :=
  JObj [("type", JStr "iscp.postgres.validation.v2"); ("generated_at", JStr (Format now)); ("status", JStr status);
        ("dsn_configured", JBool configured); ("checked_tables", strings_json checkedTables);
        ("replay_checks", strings_json replay); ("queue_checks", strings_json queue); ("errors", strings_json errorsOut)].

Definition validatePostgres : IO unit :=
  let dsn := TrimSpace (Getenv "ISCP_DATABASE_URL") in
  r ← (if bool_decide (dsn = "") then mret ([], [], ["ISCP_DATABASE_URL is required"])
       else
         opened ← (fun m => (Returned (pool_New dsn (wo_net (mc_net m))), m));
         match opened with
         | Err e => mret ([], [], ["connect failed: " +:+ Error e])
         | Ok _ => check_pool
         end);
  let '(replay, queue, errorsOut) := r in
  conclude_check "PostgreSQL" "postgres-check.json"
    (postgresSummary_json (negb (bool_decide (dsn = ""))) replay queue errorsOut) errorsOut.

Definition validateHelm : IO unit :=
  errorsOut ← look (fun f => helm_errors (fun n => repo_Stat n f) (fun n => repo_ReadFile n f));
  conclude_check "Helm" "helm-check.json" (helmSummary_json errorsOut) errorsOut.

(** ** The bill of materials *)

Definition library_json (kind name version : string) : Value :=
  JObj [("type", JStr kind); ("name", JStr name); ("version", JStr version)].

Definition sbom : Value :=
  JObj [("bomFormat", JStr "CycloneDX"); ("specVersion", JStr "1.5"); ("version", JInt 1);
        ("metadata", JObj [("component", library_json "application" "iscp" "0.1.0")]);
        ("components", JArr [library_json "library" "golang.org/x/crypto" "v0.31.0";
                             library_json "library" "github.com/jackc/pgx/v5" "v5.9.2";
                             library_json "library" "github.com/gorilla/websocket" "v1.5.3"])].

Definition generateSBOM : IO unit :=
  _ ← writeJSON "dist" "sbom.cdx.json" sbom;
  Println "dist/sbom.cdx.json".

(** ** Dispatch: the switch of [main] *)

Context {SS : SortSlice} {R : MapRange} `{Decode (gmap string Value)}.

Definition ci_command (command : string) : IO unit :=
  if bool_decide (command = "generate-schemas") then generateSchemas
  else if bool_decide (command = "generate-openapi") then generateOpenAPI
  else if bool_decide (command = "traceability") then validateTraceability
  else if bool_decide (command = "helm-check") then validateHelm
  else if bool_decide (command = "postgres-check") then validatePostgres
  else if bool_decide (command = "sbom") then generateSBOM
  else fail ("unknown command " +:+ Quote command).

End postgres.
