(* ===== verification/CiProps.v ===== *)
(** * What the repository's checks establish

    A check that passes shows what it is for: schemas and routes agree with their
    manifests, every security requirement has covered rows; and the database check
    passes on the repositories as modelled. *)
From Stdlib Require Import ZArith Lia Strings.Byte.
From stdpp Require Import numbers gmap strings base list.
From S2P Require Import Prelude Errors Utf8 GoJson Canonical GoTime Crypto Signed GoStrings Sorting Uuid Keyring Sql Repository.
From S2P Require Import Runner Conformance ConformanceReport Cli Regexp Ci.
Open Scope Z_scope.

(** ** Errors collected *)

Lemma app_nil_iff {A} (a b : list A) : a ++ b = [] <-> a = [] /\ b = [].
Proof. split; [apply app_eq_nil|by intros [-> ->]]. Qed.

Lemma err_if_nil b e : err_if b e = [] <-> b = false.
Proof. by destruct b. Qed.

Lemma flat_map_nil {A B} (f : A -> list B) l : flat_map f l = [] <-> forall x, x ∈ l -> f x = [].
Proof.
  induction l as [|x l IH]; cbn [flat_map]; [split; [by intros _ ? ?%not_elem_of_nil|done]|].
  rewrite app_nil_iff, IH. setoid_rewrite elem_of_cons. naive_solver.
Qed.

Lemma difference_nil a b : difference a b = [] <-> forall x, x ∈ a -> x ∈ b.
Proof.
  unfold difference. induction a as [|x a IH]; cbn [List.filter]; [split; [by intros _ ? ?%not_elem_of_nil|done]|].
  setoid_rewrite elem_of_cons. case_bool_decide as E; rewrite elem_of_list_to_set in E; cbn [negb].
  - rewrite IH. naive_solver.
  - split; [done|]. intros H. destruct E. auto.
Qed.

Lemma difference_both a b :
  difference a b = [] -> difference b a = [] -> forall x, x ∈ a <-> x ∈ b.
Proof. rewrite !difference_nil. naive_solver. Qed.

(** ** Traceability *)

Section traceability.
  Context {SS : SortSlice} {SL : SortLaws SS} {R : MapRange} {RL : MapRangeLaws R}.

Lemma sort_strings_nil l : sort_strings l = [] <-> l = [].
Proof using SL.
  unfold sort_strings. split; [|intros ->; apply Permutation_nil_r, sort_permutes].
  intros E. pose proof (sort_permutes string_ltb l) as Hp. rewrite E in Hp. by apply Permutation_nil in Hp.
Qed.

Lemma lacking_nil a b : lacking a b = [] <-> forall k, is_Some (a !! k) -> is_Some (b !! k).
Proof using RL.
  unfold lacking. split.
  - intros E%map_eq_nil k [v Hv]. destruct (decide (is_Some (b !! k))) as [|Hn]; [done|].
    assert ((k, v) ∈ List.filter (fun p : string * string => negb (bool_decide (is_Some (b !! p.1)))) (map_range a)) as Hin.
    { apply list_elem_of_In, filter_In. split; [|by rewrite bool_decide_false].
      apply list_elem_of_In. rewrite map_range_perm. by apply elem_of_map_to_list. }
    rewrite E in Hin. by apply not_elem_of_nil in Hin.
  - intros Hab. destruct (List.filter _ _) as [|[k v] l] eqn:E; [done|].
    assert (In (k, v) (List.filter (fun p : string * string => negb (bool_decide (is_Some (b !! p.1)))) (map_range a))) as Hin
      by (rewrite E; by left).
    apply filter_In in Hin as [Hin Hk]. apply list_elem_of_In in Hin. rewrite map_range_perm in Hin.
    apply elem_of_map_to_list in Hin. rewrite bool_decide_true in Hk; [done|]. apply Hab. eauto.
Qed.

(** What the requirements leave behind when there is no error. *)
Lemma note_requirements l : forall m errs m',
  foldl note_requirement (m, errs) l = (m', []) ->
  errs = [] /\ forall k, is_Some (m' !! k) <-> is_Some (m !! k) \/ k ∈ map normalizeRequirement l.
Proof using.
  induction l as [|r l IH]; intros m errs m'; cbn [foldl map].
  { intros [= <- ->]. split; [done|]. intros k. rewrite elem_of_nil. tauto. }
  unfold note_requirement at 2. destruct (m !! normalizeRequirement r) as [prev|] eqn:Em; intros [He Hk]%IH.
  - by apply app_nil in He as [_ ?].
  - split; [done|]. intros k. rewrite Hk, elem_of_cons, lookup_insert_is_Some'. split; intros; intuition (subst; eauto).
Qed.

(** A row without error. *)
Definition row_ok (row : traceabilityRow) : Prop :=
  ro_ID row <> "" /\ TrimSpace (ro_Evidence row) <> "" /\ ro_Status row = "Covered".

Lemma note_row_ok x r : mx_errors (note_row x r) = [] ->
  mx_errors x = [] /\ row_ok r /\ mx_ids x !! ro_ID r = None /\
  mx_ids (note_row x r) = <[ro_ID r := ro_Requirement r]> (mx_ids x) /\
  mx_rows (note_row x r) = <[normalizeRequirement (ro_Requirement r) := ro_Requirement r]> (mx_rows x).
Proof using.
  unfold note_row, row_ok. destruct (mx_ids x !! ro_ID r) as [prev|]; cbn [mx_errors mx_ids mx_rows];
    rewrite !app_nil_iff, !err_if_nil, negb_false_iff, !bool_decide_eq_false, bool_decide_eq_true; [|tauto].
  by intros (_ & _ & ? & _).
Qed.

Lemma note_rows l : forall x, mx_errors (foldl note_row x l) = [] ->
  mx_errors x = [] /\ Forall row_ok l /\ NoDup (map ro_ID l) /\ (forall i, i ∈ map ro_ID l -> mx_ids x !! i = None) /\
  forall k, is_Some (mx_rows (foldl note_row x l) !! k) <->
    is_Some (mx_rows x !! k) \/ k ∈ map (fun r => normalizeRequirement (ro_Requirement r)) l.
Proof using.
  induction l as [|r l IH]; intros x; cbn [foldl map].
  { intros E. split_and!; [done|constructor|constructor|by intros ? ?%not_elem_of_nil|]. intros k. rewrite elem_of_nil. tauto. }
  intros (E & Hl & Hn & Hi & Hk)%IH. apply note_row_ok in E as (Ex & Hr & Hfree & Eids & Erows). rewrite Eids in Hi.
  split_and!; [done|by constructor| | |].
  - constructor; [|done]. intros Hin. specialize (Hi _ Hin). by rewrite lookup_insert_eq in Hi.
  - intros i [->|Hin]%elem_of_cons; [done|]. specialize (Hi _ Hin). by apply lookup_insert_None in Hi as [? _].
  - intros k. rewrite Hk, Erows, elem_of_cons, lookup_insert_is_Some'. split; intros; intuition (subst; eauto).
Qed.

(** A matrix that passes covers the security baseline: every normative requirement
    has a row and every row a requirement (up to white space), identifiers are
    unique, and every row has evidence and is covered. *)
Lemma traceability_sound spec table :
  tc_errors (traceability_check spec table) = [] ->
  (forall k, k ∈ map normalizeRequirement (extractNormativeRequirements spec) <->
             k ∈ map (fun r => normalizeRequirement (ro_Requirement r)) (extractTraceabilityRows table).1) /\
  NoDup (map ro_ID (extractTraceabilityRows table).1) /\ Forall row_ok (extractTraceabilityRows table).1.
Proof using SL RL.
  unfold traceability_check. destruct (extractTraceabilityRows table) as [rows errs1].
  destruct (foldl note_requirement _ _) as [byNormalized errs2] eqn:Er. cbn [tc_errors fst].
  rewrite !app_nil_iff, !err_if_nil, !negb_false_iff, !bool_decide_eq_true, !sort_strings_nil, !lacking_nil.
  intros (_ & -> & (_ & Hl & Hn & _ & Hk)%note_rows & Hm & Hx).
  apply note_requirements in Er as [_ Hr]. split; [|done]. intros k. specialize (Hk k). specialize (Hr k).
  cbn [mx_rows] in Hk. rewrite lookup_empty in Hk, Hr. pose proof (Hm k). pose proof (Hx k).
  assert (~ is_Some (None : option string)) as Hnone by (by intros []). tauto.
Qed.

End traceability.

(** ** Commands that succeed *)

Section commands.
  Context {SS : SortSlice} {SL : SortLaws SS} {R : MapRange} {RL : MapRangeLaws R} {S F : Type} `{RepoFiles F}
    `{Decode (gmap string Value)}.

Abbreviation IO := (M (World S F)).

(** The files of the repository at a machine. *)
Definition files_at (m : Machine (World S F)) : F := wo_os (mc_net m).

(** A check succeeds only without errors. *)
Lemma conclude_check_ok what file summary errs m u m' :
  (conclude_check what file summary errs : IO unit) m = (Returned u, m') -> errs = [].
Proof using.
  unfold conclude_check. intros (now & m1 & _ & (w & m2 & _ & (v & m3 & E & _)%M_bind_Returned)%M_bind_Returned)%M_bind_Returned.
  case_bool_decide; [done|discriminate E].
Qed.

Lemma validateTraceability_ok m u m' : (validateTraceability : IO unit) m = (Returned u, m') ->
  exists spec table, repo_ReadFile specName (files_at m) = Ok spec /\ repo_ReadFile matrixName (files_at m) = Ok table /\
    tc_errors (traceability_check (go_string spec) (go_string table)) = [].
Proof using.
  unfold validateTraceability. intros (r1 & m1 & [= <- <-] & (spec & m2 & E1 & (r2 & m3 & [= <- <-] & (table & m4 & E2 &
    E3%conclude_check_ok)%M_bind_Returned)%M_bind_Returned)%M_bind_Returned)%M_bind_Returned.
  fold (files_at m) in E1. destruct (repo_ReadFile specName (files_at m)) as [a|]; [|discriminate E1]. injection E1 as -> ->.
  fold (files_at m2) in E2. destruct (repo_ReadFile matrixName (files_at m2)) as [b|]; [|discriminate E2]. injection E2 as -> ->. eauto.
Qed.

(** C40. When [iscp-ci traceability] succeeds, the matrix covers the security baseline: every
    normative requirement has a row and every row a requirement (up to white
    space), row identifiers are unique, and every row has evidence and is covered. *)
Theorem requirements_covered m u m' :
  (validateTraceability : IO unit) m = (Returned u, m') ->
  exists spec table, repo_ReadFile specName (files_at m) = Ok spec /\ repo_ReadFile matrixName (files_at m) = Ok table /\
    let rows := (extractTraceabilityRows (go_string table)).1 in
    (forall k, k ∈ map normalizeRequirement (extractNormativeRequirements (go_string spec)) <->
               k ∈ map (fun r => normalizeRequirement (ro_Requirement r)) rows) /\
    NoDup (map ro_ID rows) /\ Forall row_ok rows.
Proof using SL RL.
  intros (spec & table & E1 & E2 & Ht%traceability_sound)%validateTraceability_ok. exists spec, table. done.
Qed.

(** ** Schemas *)

(** What the check asks of one schema. *)
Record schema_ok (e : schemaManifestEntry) (doc : gmap string Value) : Prop := {
  sk_draft : stringProperty (Some doc) "$schema" = Some draft;
  sk_id : stringProperty (Some doc) "$id" = Some (schema_id (sme_File e));
  sk_object : stringProperty (Some doc) "type" = Some "object";
  sk_closed : doc !! "additionalProperties" = Some (JBool false);
  sk_typed : "type" ∈ stringArrayProperty (Some doc) "required";
  sk_type : stringProperty (objectProperty (objectProperty (Some doc) "properties") "type") "const" = Some (sme_ObjectType e);
  sk_signed : sme_File e ∈ signedSchemas ->
    "signature" ∈ stringArrayProperty (Some doc) "required" /\
    signature_errors (objectProperty (objectProperty (Some doc) "$defs") "signature") = []
}.

Lemma is_not_false p want : is_not p want = false <-> p = Some want.
Proof using.
  destruct p as [s|]; cbn [is_not]; [|split; discriminate]. rewrite negb_false_iff, bool_decide_eq_true. split; congruence.
Qed.

Lemma contains_true l s : negb (contains l s) = false <-> s ∈ l.
Proof using. unfold contains. by rewrite negb_false_iff, bool_decide_eq_true. Qed.

Lemma schema_errors_ok e doc s s' : schema_errors (sme_File e) (sme_ObjectType e) doc s = ([], s') -> schema_ok e doc.
Proof using.
  unfold schema_errors. destruct (note_once _ _ _ _) as [d1 ids]. destruct (note_once _ _ _ _) as [d2 types].
  intros [= E _]. rewrite !app_nil_iff, !err_if_nil, !is_not_false, !contains_true in E.
  destruct E as (E1 & E2 & _ & E4 & E5 & E6 & E7 & _ & _ & E8 & E9). split; try assumption.
  - clear -E5. destruct (doc !! "additionalProperties") as [[| [] | | | | |]|]; (reflexivity || discriminate E5).
  - clear -E8 E9. intros Hs. rewrite (bool_decide_true (_ ∈ signedSchemas)) in E8, E9 by done. cbn [andb orb] in E8, E9.
    split; [by apply contains_true|done].
Qed.

Lemma check_schemas_ok read missing entries : forall s results,
  check_schemas read missing s entries = ([], results) ->
  forall e, e ∈ entries -> sme_File e ∉ missing ->
  exists raw doc, read (sme_File e) = Ok raw /\ decode raw = Ok doc /\ schema_ok e doc.
Proof using.
  induction entries as [|x entries IH]; intros s results; cbn [check_schemas]; [by intros _ ? ?%not_elem_of_nil|].
  unfold contains at 1. case_bool_decide as Hm.
  { intros E e [->|Hin]%elem_of_cons Hn; [done|]. by eapply IH. }
  destruct (read (sme_File x)) as [raw|] eqn:Er; cbn [mbind result_bind].
  2: { destruct (check_schemas _ _ _ _) as [? ?]. discriminate. }
  destruct (decode raw) as [doc|] eqn:Ed.
  2: { destruct (check_schemas _ _ _ _) as [? ?]. discriminate. }
  destruct (schema_errors _ _ _ _) as [errs s'] eqn:Es. destruct (check_schemas read missing s' entries) as [errs' rs] eqn:Ec.
  intros [= E _] e He Hn. rewrite app_nil_iff, err_if_nil, negb_false_iff, bool_decide_eq_true in E. destruct E as [-> ->].
  apply elem_of_cons in He as [->|Hin]; [|by eapply IH]. exists raw, doc. split_and!; [done..|by eapply schema_errors_ok].
Qed.

Lemma sort_strings_elem x l : x ∈ sort_strings l <-> x ∈ l.
Proof using SL. unfold sort_strings. by rewrite sort_permutes. Qed.

Lemma look_bind {A B} (f : F -> A) (k : A -> IO B) m : (look f ≫= k) m = k (f (files_at m)) m.
Proof using. reflexivity. Qed.

Lemma schema_check_ok files read missing unexpected results :
  schema_check files read = ([], missing, unexpected, results) ->
  (forall name, name ∈ files <-> name ∈ map sme_File expectedSchemas) /\
  forall e, e ∈ expectedSchemas -> exists raw doc, read (sme_File e) = Ok raw /\ decode raw = Ok doc /\ schema_ok e doc.
Proof using.
  unfold schema_check. generalize expectedSchemas. intros schemas.
  destruct (check_schemas read (difference (map sme_File schemas) files) (mkSeen ∅ ∅) schemas) as [errs rs] eqn:Ec.
  intros [= E _ _ _]. rewrite !app_nil_iff, !err_if_nil, !negb_false_iff, !bool_decide_eq_true in E. destruct E as (Hm & Hu & ->).
  rewrite Hm in Ec. split; [by apply difference_both|]. intros e He. eapply check_schemas_ok; [exact Ec|done|apply not_elem_of_nil].
Qed.

(** When [iscp-ci generate-schemas] succeeds, the directory holds exactly the schemas
    of the manifest, and each of them declares its own identifier and object type,
    admits no additional properties, and requires a well-defined Ed25519 signature
    if its objects are signed. *)
Theorem schemas_checked m u m' :
  (generateSchemas : IO unit) m = (Returned u, m') ->
  exists entries, repo_ReadDir "schemas/json" (files_at m) = Ok entries /\
  (forall name, (name, false) ∈ entries /\ HasSuffix name ".json" = true <-> name ∈ map sme_File expectedSchemas) /\
  (forall e, e ∈ expectedSchemas ->
     exists raw doc, repo_ReadFile ("schemas/json/" +:+ sme_File e) (files_at m) = Ok raw /\ decode raw = Ok doc /\ schema_ok e doc).
Proof using SL.
  unfold generateSchemas. rewrite look_bind. destruct (repo_ReadDir "schemas/json" (files_at m)) as [entries|e]; cbn [schema_files].
  2: { destruct (is_not_exist e); rewrite look_bind; destruct (schema_check _ _) as [[[? ?] ?] ?];
       by intros [? _]%conclude_check_ok%app_nil. }
  rewrite look_bind. destruct (schema_check _ _) as [[[errs ?] ?] ?] eqn:Es. intros E%conclude_check_ok. cbn [app] in E. subst errs.
  apply schema_check_ok in Es as [Hf Hs]. exists entries. split_and!; [done| |exact Hs].
  intros name. rewrite <- Hf, sort_strings_elem. split.
  - intros [Hin%list_elem_of_In Hs']. apply list_elem_of_In, in_map_iff. exists (name, false). split; [done|].
    apply filter_In. split; [done|]. cbn [fst snd negb andb]. exact Hs'.
  - intros ([n d] & <- & [Hin Hd]%filter_In)%list_elem_of_In%in_map_iff. apply list_elem_of_In in Hin.
    destruct d; [discriminate Hd|]. done.
Qed.

(** ** Routes *)

Lemma uniqueSorted_elem x l : x ∈ uniqueSorted l <-> x ∈ l.
Proof using SL RL.
  unfold uniqueSorted. rewrite sort_strings_elem, map_range_perm, list_elem_of_In, in_map_iff. split.
  - intros ([k b] & <- & Hin%list_elem_of_In%elem_of_map_to_list). apply elem_of_list_to_map_2 in Hin.
    apply list_elem_of_In, in_map_iff in Hin as (v & [= -> _] & Hv). by apply list_elem_of_In.
  - intros Hx. destruct ((list_to_map (map (fun v => (v, true)) l) : gmap string bool) !! x) as [b|] eqn:E.
    + exists (x, b). split; [done|]. by apply list_elem_of_In, elem_of_map_to_list.
    + apply not_elem_of_list_to_map in E. destruct E. rewrite <- list_fmap_compose. apply list_elem_of_fmap. eauto.
Qed.

Definition is_public (path : string) : bool := HasPrefix path "/v2/" || HasPrefix path "/.well-known/iscp/".

Lemma publicRoutes_elem x l : x ∈ publicRoutes l <-> x ∈ l /\ is_public x = true.
Proof using SL RL. unfold publicRoutes. by rewrite uniqueSorted_elem, list_elem_of_In, filter_In, <- list_elem_of_In. Qed.

Lemma map_range_nil {A B} (f : string * A -> list B) (t : gmap string A) :
  flat_map f (map_range t) = [] <-> forall k v, t !! k = Some v -> f (k, v) = [].
Proof using RL.
  rewrite flat_map_nil. setoid_rewrite map_range_perm. split.
  - intros Hf k v Hk. apply Hf. by apply elem_of_map_to_list.
  - intros Hf [k v] Hk%elem_of_map_to_list. auto.
Qed.

(** What a document of the specification says of the endpoints. *)
Definition spec_agrees (prefixes : list string) (listed : gmap string (string * bool)) : Prop :=
  (forall path method optional, listed !! path = Some (method, optional) ->
     methodByPath !! path = Some method \/ methodByPath !! path = None /\ optional = true) /\
  (forall path method, methodByPath !! path = Some method ->
     existsb (fun prefix => bool_decide (path = prefix) || HasPrefix path prefix) prefixes = true -> is_Some (listed !! path)).

Lemma spec_errors_ok read specFile prefixes :
  spec_errors read (specFile, prefixes) = [] ->
  exists raw, read specFile = Ok raw /\ spec_agrees prefixes (spec_listed (go_string raw)).
Proof using RL.
  unfold spec_errors. destruct (read specFile) as [raw|]; [|discriminate]. destruct (_ =? 0)%nat; [discriminate|].
  rewrite app_nil_iff, !map_range_nil. intros [Hl Hu]. exists raw. split; [done|]. split.
  - intros path method optional Hp. specialize (Hl _ _ Hp). cbn [listed_errors] in Hl.
    destruct (methodByPath !! path) as [expected|].
    + rewrite err_if_nil, negb_false_iff, bool_decide_eq_true in Hl. left. congruence.
    + destruct optional; [by right|discriminate].
  - intros path method Hp Hc. specialize (Hu _ _ Hp). cbn [unlisted_errors] in Hu. rewrite Hc, err_if_nil in Hu. cbn [andb] in Hu.
    by rewrite negb_false_iff, bool_decide_eq_true in Hu.
Qed.

(** C39. When [iscp-ci generate-openapi] succeeds, the services register exactly the public
    routes of the manifest; the OpenAPI document has an entry for each, and none
    for any other public path; and the two documents of the specification list
    every endpoint of their service, with its method, and only optional ones
    besides. *)
Theorem routes_checked m u m' :
  (generateOpenAPI : IO unit) m = (Returned u, m') ->
  exists document, repo_ReadFile "docs/api/openapi.yaml" (files_at m) = Ok document /\
  (forall path, path ∈ (service_routes (fun n => repo_ReadFile n (files_at m))).1 /\ is_public path = true <-> path ∈ expectedPaths) /\
  (forall path, path ∈ extractOpenAPIPaths (go_string document) /\ is_public path = true <-> path ∈ expectedPaths) /\
  Forall (fun source => exists raw, repo_ReadFile source.1 (files_at m) = Ok raw /\
            spec_agrees source.2 (spec_listed (go_string raw))) specEndpointSources.
Proof using SL RL.
  unfold generateOpenAPI. rewrite look_bind. intros E%conclude_check_ok. unfold openapi_check in E.
  destruct (openapi_document _) as [[content paths] errs1] eqn:Ed. destruct (service_routes _) as [routes errs2] eqn:Es.
  cbn [oa_errors fst] in *. rewrite !app_nil_iff, !err_if_nil, !negb_false_iff, !bool_decide_eq_true in E.
  destruct E as (-> & _ & Hm1 & Hm2 & Hm3 & Hm4 & _ & Hspec). unfold openapi_document in Ed.
  destruct (repo_ReadFile "docs/api/openapi.yaml" (files_at m)) as [document|]; [|discriminate Ed]. injection Ed as <- <- _.
  exists document. split_and!; [done| | |].
  - intros path. rewrite <- (difference_both _ _ Hm3 Hm4 path). by rewrite publicRoutes_elem.
  - intros path. rewrite <- (difference_both _ _ Hm3 Hm4 path). rewrite difference_nil in Hm1, Hm2. split.
    + intros Hp. apply Hm2. by apply publicRoutes_elem.
    + intros Hp. split; [by apply Hm1|]. by apply publicRoutes_elem in Hp as [_ ?].
  - apply Forall_forall. intros [f prefixes] Hin. unfold validateSpecEndpoints in Hspec. rewrite flat_map_nil in Hspec.
    exact (spec_errors_ok _ f prefixes (Hspec _ Hin)).
Qed.

End commands.

(** ** The database check *)

(** Tables in which one row stands out. *)
Lemma filter_last {A} (p : A -> bool) l x :
  (forall y, y ∈ l -> p y = false) -> List.filter p (l ++ [x]) = if p x then [x] else [].
Proof.
  intros Hl. induction l as [|y l IH]; cbn [app List.filter]; [done|]. rewrite (Hl y) by set_solver. apply IH. set_solver.
Qed.

Lemma update_last {A} (p : A -> bool) f l x :
  (forall y, y ∈ l -> p y = false) -> update_where p f (l ++ [x]) = l ++ [if p x then f x else x].
Proof.
  intros Hl. unfold update_where. rewrite map_app. cbn [map]. f_equal. induction l as [|y l IH]; [done|]. cbn [map].
  rewrite (Hl y) by set_solver. f_equal. apply IH. set_solver.
Qed.

Lemma singleton_perm {A} (l : list A) x : Permutation l [x] -> l = [x].
Proof. intros Hp. by apply Permutation_singleton_r in Hp. Qed.

Section database.
  Context {P : Postgres} {PW : PostgresLaws P}.

(** A database that answers every statement. *)
Definition answering {T} (t : T) : DB T := mkDB t (fun _ => None).

Lemma statement_answers {T A} (f : T -> result (A * T)) t a t' :
  f t = Ok (a, t') -> statement f (answering t) = (Ok a, answering t').
Proof using. intros E. unfold statement, answering. cbn. by rewrite E. Qed.

Lemma statement_refuses {T A} (f : T -> result (A * T)) t e :
  f t = Err e -> statement f (answering t) = (Err e, answering t).
Proof using. intros E. unfold statement, answering. cbn. by rewrite E. Qed.

Lemma Q_bind_step {T A B} (q : Q T A) (f : A -> Q T B) db a db1 r : q db = (Ok a, db1) -> f a db1 = r -> (q ≫= f) db = r.
Proof using. intros E <-. unfold mbind, Q_bind. by rewrite E. Qed.

Lemma Add_Add t a b c : a + b = c -> Add (Add t a) b = Add t c.
Proof using. intros <-. unfold Add. cbn [ns offset]. f_equal. lia. Qed.

Lemma minute_later t d : Minute <= d -> ns (timestamptz t) < ns (timestamptz (Add t d)).
Proof using PW.
  intros Hd. pose proof (timestamptz_micros t). pose proof (timestamptz_micros (Add t d)). cbn [Add ns] in *.
  unfold Minute, Second in *. lia.
Qed.

(** *** Nonces *)

Section nonces.
  Context {T : Type} (table : T -> list NonceRow) (set_table : list NonceRow -> T -> T).
  Hypothesis table_set : forall l t, table (set_table l t) = l.

(** A nonce that is not on record is accepted, and refused at once afterwards. *)
Lemma nonce_once_then_never t dom dev aud nonce now :
  RequireDomain dom = Ok tt -> blank dev = false -> blank aud = false -> blank nonce = false ->
  (forall r, r ∈ table t ->
     ~ (nr_DomainID r = dom /\ nr_DeviceID r = dev /\ nr_Nonce r = proofNonceStorageKey aud nonce)) ->
  exists l0 l1 l2, let use := useProofNonce table set_table dom dev aud nonce (Add now Minute) now in
    use (answering t) = (Ok true, answering (set_table l1 (set_table l0 t))) /\
    use (answering (set_table l1 (set_table l0 t))) = (Ok false, answering (set_table l2 (set_table l1 (set_table l0 t)))).
Proof using PW table_set.
  intros Hd B1 B2 B3 Hfree.
  set (expired := fun r => bool_decide (nr_DomainID r = dom) && negb (After (nr_ExpiresAt r) (timestamptz now))).
  set (row := mkNonceRow dom dev (proofNonceStorageKey aud nonce) (timestamptz (Add now Minute))).
  set (l0 := delete_where expired (table t)). exists l0, (l0 ++ [row]), (delete_where expired (l0 ++ [row])).
  assert (row ∈ delete_where expired (l0 ++ [row])) as Hkept.
  { apply delete_where_elem. split; [|set_solver]. unfold expired, After. cbn [row nr_ExpiresAt nr_DomainID].
    pose proof (minute_later now Minute ltac:(done)). rewrite andb_false_iff, negb_false_iff, Z.ltb_lt. by right. }
  unfold useProofNonce. split.
  - eapply Q_bind_step; [unfold check; rewrite Hd; reflexivity|].
    eapply Q_bind_step; [unfold check; rewrite B1, B2, B3; reflexivity|].
    eapply Q_bind_step; [by apply statement_answers|]. fold expired row. unfold insert_nonce.
    rewrite (statement_answers _ _ tt (set_table (l0 ++ [row]) (set_table l0 t))); [done|].
    rewrite table_set. fold l0. assert (insert_row nonce_clashes (fun _ => true) row l0 = Ok (l0 ++ [row])) as ->; [|done].
    apply insert_row_Ok. split_and!; [done| |done]. intros r [_ Hr]%delete_where_elem. specialize (Hfree r Hr).
    unfold nonce_clashes. cbn [row nr_DomainID nr_DeviceID nr_Nonce]. rewrite !andb_false_iff, !bool_decide_eq_false.
    destruct (decide (dom = nr_DomainID r)), (decide (dev = nr_DeviceID r)), (decide (proofNonceStorageKey aud nonce = nr_Nonce r));
      try tauto. destruct Hfree. done.
  - eapply Q_bind_step; [unfold check; rewrite Hd; reflexivity|].
    eapply Q_bind_step; [unfold check; rewrite B1, B2, B3; reflexivity|].
    eapply Q_bind_step; [by apply statement_answers|]. rewrite table_set. fold expired row. unfold insert_nonce.
    rewrite (statement_refuses _ _ (PgError uniqueViolation)); [done|].
    rewrite table_set. unfold insert_row. cbn [negb].
    assert (existsb (nonce_clashes row) (delete_where expired (l0 ++ [row])) = true) as ->; [|done].
    apply existsb_exists. exists row. split; [by apply list_elem_of_In|]. unfold nonce_clashes. by rewrite !bool_decide_true.
Qed.

End nonces.

(** *** The queue *)

(** The other messages have another id, key and recipient than this row. *)
Definition apart (rows : list MessageRow) (r : MessageRow) : Prop :=
  forall r', r' ∈ rows -> mr_ID r' <> mr_ID r /\
    ~ (rm_DomainID (mr_msg r') = rm_DomainID (mr_msg r) /\ rm_MessageID (mr_msg r') = rm_MessageID (mr_msg r)) /\
    ~ (rm_DomainID (mr_msg r') = rm_DomainID (mr_msg r) /\ rm_RecipientDeviceID (mr_msg r') = rm_RecipientDeviceID (mr_msg r)).

(** A claim for the recipient of a row that is apart from the others. *)
Lemma claim_last t rows r now :
  rt_messages t = rows ++ [r] -> apart rows r -> RequireDomain (rm_DomainID (mr_msg r)) = Ok tt ->
  blank (rm_RecipientDeviceID (mr_msg r)) = false -> mr_attempts r < maxInteger ->
  let claimed := claimable (rm_DomainID (mr_msg r)) (rm_RecipientDeviceID (mr_msg r)) now r in
  exists t', ClaimPendingMessagesFor (rm_DomainID (mr_msg r)) (rm_RecipientDeviceID (mr_msg r)) now Minute 1 (answering t)
    = (Ok (if claimed then [mr_msg r] else []), answering t') /\
    rt_messages t' = rows ++ [if claimed then claim_row (Add now Minute) r else r].
Proof using PW.
  intros Ht Ha Hd Hb Hat claimed.
  assert (select_where (claimable (rm_DomainID (mr_msg r)) (rm_RecipientDeviceID (mr_msg r)) now) (rt_messages t)
    = if claimed then [r] else []) as Hsel.
  { rewrite Ht. apply filter_last. intros r' (_ & _ & Hr')%Ha. unfold claimable.
    destruct (decide (rm_DomainID (mr_msg r') = rm_DomainID (mr_msg r))) as [E1|]; [|by rewrite bool_decide_false].
    rewrite (bool_decide_false (rm_RecipientDeviceID _ = _)) by tauto. by rewrite andb_false_r. }
  assert (claim_rows (rm_DomainID (mr_msg r)) (rm_RecipientDeviceID (mr_msg r)) now 1 (rt_messages t) = if claimed then [r] else []) as Hcl.
  { unfold claim_rows, order_rows. rewrite Hsel. pose proof (order_by_laws (PostgresLaws := PW)) as HL.
    destruct claimed.
    - by rewrite (singleton_perm (sort_slice delivery_before [r]) r) by apply sort_permutes.
    - by rewrite (proj1 (Permutation_nil_r _) (sort_permutes delivery_before [])). }
  assert (forall r', r' ∈ rows -> bool_decide (mr_ID r' ∈ map mr_ID (if claimed then [r] else [])) = false) as Hids.
  { intros r' [Hne _]%Ha. apply bool_decide_eq_false. destruct claimed; cbn; set_solver. }
  assert (bool_decide (mr_ID r ∈ map mr_ID (if claimed then [r] else [])) = claimed) as Hcid.
  { destruct claimed; [apply bool_decide_eq_true; left|apply bool_decide_eq_false, not_elem_of_nil]. }
  unfold ClaimPendingMessagesFor. eexists. split.
  - eapply Q_bind_step; [unfold check; rewrite Hd; reflexivity|]. eapply Q_bind_step; [unfold check; rewrite Hb; reflexivity|].
    cbn [Z.leb Z.compare]. eapply Q_bind_step; [reflexivity|]. apply statement_answers. cbv zeta. rewrite Hcl.
    assert (existsb (fun r => maxInteger <=? mr_attempts r) (if claimed then [r] else []) = false) as ->.
    { destruct claimed; cbn [existsb]; [|done]. rewrite orb_false_r. lia. }
    cbn [reject_if mbind result_bind]. rewrite Ht, (update_last _ _ _ _ Hids). f_equal. f_equal. f_equal.
    unfold select_where. rewrite filter_last by exact Hids. rewrite Hcid.
    destruct claimed; cbn [map].
    + rewrite bool_decide_true by left. cbn [map].
      by rewrite (singleton_perm (row_order [claim_row (Add now Minute) r]) (claim_row (Add now Minute) r)) by apply row_order_perm.
    + rewrite bool_decide_false by apply not_elem_of_nil. by rewrite (proj1 (Permutation_nil_r _) (row_order_perm [])).
  - cbn [set_messages rt_messages]. by rewrite Hcid.
Qed.

Lemma StoreMessage_new t msg route :
  RequireDomain (rm_DomainID msg) = Ok tt -> jsonb_text (rm_RouteMetadata msg) = Some route -> 0 <= rm_Priority msg <= 9 ->
  let row := mkMessageRow (mkRelayMessage (rm_ID msg) (rm_DomainID msg) (rm_MessageID msg) (rm_SenderDeviceID msg)
    (rm_RecipientDeviceID msg) (rm_SessionID msg) (rm_PayloadType msg) route (rm_EnvelopeRaw msg) (rm_EnvelopeCanonical msg)
    (rm_Priority msg) (timestamptz (rm_QueuedAt msg)) (timestamptz (rm_ExpiresAt msg))) None None 0 in
  apart (rt_messages t) row ->
  StoreMessage msg (answering t) = (Ok tt, answering (set_messages (rt_messages t ++ [row]) t)).
Proof using.
  intros Hd Hj Hp row Ha. unfold StoreMessage. eapply Q_bind_step; [unfold check; rewrite Hd; reflexivity|].
  apply statement_answers. rewrite Hj. cbn [of_option mbind result_bind]. fold row. unfold upsert_row.
  assert (message_valid row = true) as -> by (unfold message_valid; cbn; lia). cbn [negb].
  assert (existsb (same message_key row) (rt_messages t) = false) as ->.
  { apply not_true_iff_false. intros (r' & Hin%list_elem_of_In & E)%existsb_exists. apply bool_decide_eq_true in E.
    destruct (Ha r' Hin) as (_ & Hk & _). apply Hk. injection E as E1 E2. split; symmetry; [exact E1|exact E2]. }
  assert (insert_row (clash mr_ID message_key) message_valid row (rt_messages t) = Ok (rt_messages t ++ [row])) as ->; [|done].
  apply insert_row_Ok. split_and!; [unfold message_valid; cbn; lia| |done]. intros r' Hin. destruct (Ha r' Hin) as (Hi & Hk & _).
  unfold clash, same. rewrite !bool_decide_false; [done| |congruence]. intros E. apply Hk. injection E as E1 E2. split; symmetry; [exact E1|exact E2].
Qed.

Lemma MarkMessageDelivered_last t rows r now :
  rt_messages t = rows ++ [r] -> apart rows r -> RequireDomain (rm_DomainID (mr_msg r)) = Ok tt ->
  exists t', MarkMessageDelivered (rm_DomainID (mr_msg r)) (rm_MessageID (mr_msg r)) now (answering t) = (Ok tt, answering t') /\
    rt_messages t' = rows ++ [mkMessageRow (mr_msg r) (Some (timestamptz now)) None (mr_attempts r)].
Proof using.
  intros Ht Ha Hd. unfold MarkMessageDelivered. eexists. split.
  - eapply Q_bind_step; [unfold check; rewrite Hd; reflexivity|]. eapply Q_bind_step; [by apply statement_answers|].
    by apply statement_answers.
  - cbn [set_receipts set_messages rt_messages]. rewrite Ht, update_last.
    + by rewrite !bool_decide_true.
    + intros r' (_ & Hk & _)%Ha. rewrite andb_false_iff, !bool_decide_eq_false.
      destruct (decide (rm_DomainID (mr_msg r') = rm_DomainID (mr_msg r))); tauto.
Qed.

(** A claim of a known outcome, with the row it leaves. *)
Lemma claim_outcome (b : bool) t rows r now :
  rt_messages t = rows ++ [r] -> apart rows r -> RequireDomain (rm_DomainID (mr_msg r)) = Ok tt ->
  blank (rm_RecipientDeviceID (mr_msg r)) = false -> mr_attempts r < maxInteger ->
  claimable (rm_DomainID (mr_msg r)) (rm_RecipientDeviceID (mr_msg r)) now r = b ->
  exists t', ClaimPendingMessagesFor (rm_DomainID (mr_msg r)) (rm_RecipientDeviceID (mr_msg r)) now Minute 1 (answering t)
    = (Ok (if b then [mr_msg r] else []), answering t') /\
    rt_messages t' = rows ++ [if b then claim_row (Add now Minute) r else r].
Proof using PW. intros Ht Ha Hd Hb Hat <-. by apply claim_last. Qed.

(** The life of a stored message: claimed once, not while the lease lasts, again
    after it, and never once delivered. *)
Lemma message_life t msg route now :
  RequireDomain (rm_DomainID msg) = Ok tt -> blank (rm_RecipientDeviceID msg) = false ->
  jsonb_text (rm_RouteMetadata msg) = Some route -> 0 <= rm_Priority msg <= 9 -> rm_ExpiresAt msg = Add now (10 * Minute) ->
  apart (rt_messages t) (mkMessageRow msg None None 0) ->
  exists t1 t2 t3 t4 t5 t6 msg',
    let claim at_ := ClaimPendingMessagesFor (rm_DomainID msg) (rm_RecipientDeviceID msg) at_ Minute 1 in
    rm_MessageID msg' = rm_MessageID msg /\ rm_EnvelopeRaw msg' = rm_EnvelopeRaw msg /\
    StoreMessage msg (answering t) = (Ok tt, answering t1) /\
    claim now (answering t1) = (Ok [msg'], answering t2) /\ claim now (answering t2) = (Ok [], answering t3) /\
    claim (Add now (2 * Minute)) (answering t3) = (Ok [msg'], answering t4) /\
    MarkMessageDelivered (rm_DomainID msg) (rm_MessageID msg) (Add now (2 * Minute)) (answering t4) = (Ok tt, answering t5) /\
    claim (Add (Add now (2 * Minute)) Minute) (answering t5) = (Ok [], answering t6).
Proof using PW.
  intros Hd Hb Hj Hp He Ha. set (rows := rt_messages t) in *.
  pose proof (StoreMessage_new t msg route Hd Hj Hp Ha) as Hst. cbv zeta in Hst. fold rows in Hst.
  match type of Hst with context [set_messages (rows ++ [?x]) t] => set (r0 := x) in * end. set (t1 := set_messages (rows ++ [r0]) t) in *.
  assert (ns (timestamptz now) < ns (timestamptz (Add now Minute))) as L1 by (by apply minute_later).
  assert (ns (timestamptz (Add now Minute)) < ns (timestamptz (Add now (2 * Minute)))) as L2
    by (replace (Add now (2 * Minute)) with (Add (Add now Minute) Minute) by (by apply Add_Add); by apply minute_later).
  assert (ns (timestamptz (Add now (2 * Minute))) < ns (timestamptz (Add now (10 * Minute)))) as L3
    by (replace (Add now (10 * Minute)) with (Add (Add now (2 * Minute)) (8 * Minute)) by (by apply Add_Add); by apply minute_later).
  assert (ns (timestamptz now) < ns (timestamptz (Add now (10 * Minute)))) as L4 by (by apply minute_later).
  assert (forall d c n, apart rows (mkMessageRow (mr_msg r0) d c n)) as Hap by (intros d c n; exact Ha).
  destruct (claim_outcome true t1 rows r0 now) as (t2 & C1 & T2); [done|apply Hap|done|done|done| |].
  { unfold claimable. rewrite !bool_decide_true by done. cbn. unfold After. rewrite He. lia. }
  destruct (claim_outcome false t2 rows (claim_row (Add now Minute) r0) now) as (t3 & C2 & T3); [done|apply Hap|done|done|done| |].
  { unfold claimable. rewrite !bool_decide_true by done. cbn. unfold After. rewrite He. lia. }
  destruct (claim_outcome true t3 rows (claim_row (Add now Minute) r0) (Add now (2 * Minute))) as (t4 & C3 & T4);
    [done|apply Hap|done|done|done| |].
  { unfold claimable. rewrite !bool_decide_true by done. cbn [mr_msg claim_row mr_claimed_until]. unfold After. cbn [rm_ExpiresAt r0 mr_msg].
    rewrite He. apply andb_true_iff. split; [cbn [andb]; lia|]. apply negb_true_iff. lia. }
  destruct (MarkMessageDelivered_last t4 rows (claim_row (Add (Add now (2 * Minute)) Minute) (claim_row (Add now Minute) r0)) (Add now (2 * Minute)))
    as (t5 & C4 & T5); [done|apply Hap|done|].
  destruct (claim_outcome false t5 rows _ (Add (Add now (2 * Minute)) Minute) T5) as (t6 & C5 & _); [apply Hap|done|done|done| |].
  { unfold claimable. cbn [mr_delivered_at]. rewrite (bool_decide_false (Some _ = None)) by done. by rewrite andb_false_r. }
  exists t1, t2, t3, t4, t5, t6, (mr_msg r0). split_and!; [done|done|exact Hst|exact C1|exact C2|exact C3|exact C4|exact C5].
Qed.

End database.

Section postgres_check.
  Context {P : Postgres} {PW : PostgresLaws P} {PL : Pool} {U : Unicode} {E : Env} {F : Type} `{RepoFiles F}.

Abbreviation IO := (M (World Databases F)).

(** The machine with two databases that answer. *)
Definition with_tables (m : Machine (World Databases F)) (r : RelayTables) (t : TrustTables) : Machine (World Databases F) :=
  set_net m (mkDatabases (answering r) (answering t)).

Lemma step_relay {A} what (q : Q RelayTables A) m r t a r' :
  q (answering r) = (Ok a, answering r') -> (step what (on_relay q) : IO A) (with_tables m r t) = (Returned a, with_tables m r' t).
Proof using. intros Eq. unfold step. eapply M_bind_step; [unfold on_relay, with_tables; cbn; rewrite Eq; reflexivity|]. reflexivity. Qed.

Lemma step_trust {A} what (q : Q TrustTables A) m r t a t' :
  q (answering t) = (Ok a, answering t') -> (step what (on_trust q) : IO A) (with_tables m r t) = (Returned a, with_tables m r t').
Proof using. intros Eq. unfold step. eapply M_bind_step; [unfold on_trust, with_tables; cbn; rewrite Eq; reflexivity|]. reflexivity. Qed.

Lemma collect_ok (c : IO (list string)) m checks m' : c m = (Returned checks, m') -> collect c m = (Returned (checks, []), m').
Proof using. intros Ec. unfold collect. eapply M_bind_step; [unfold attempt; rewrite Ec; reflexivity|]. reflexivity. Qed.

Lemma assert_relay_nonce m r t aud nonce now :
  blank aud = false -> blank nonce = false ->
  (forall x, x ∈ rt_nonces r -> ~ (nr_DomainID x = "local" /\ nr_DeviceID x = "postgres-check-device" /\
     nr_Nonce x = proofNonceStorageKey aud nonce)) ->
  exists r', assertReplayNonce "relay"
    (on_relay (RelayUseProofNonce "local" "postgres-check-device" aud nonce (Add now Minute) now) : IO _) (with_tables m r t)
    = (Returned tt, with_tables m r' t) /\ rt_messages r' = rt_messages r.
Proof using PW.
  intros B2 B3 Hfree. destruct (nonce_once_then_never rt_nonces set_nonces (fun _ _ => eq_refl) r "local" "postgres-check-device" aud nonce now)
    as (l0 & l1 & l2 & E1 & E2); [done|by vm_compute|done..|].
  exists (set_nonces l2 (set_nonces l1 (set_nonces l0 r))). split; [|reflexivity]. unfold assertReplayNonce, RelayUseProofNonce.
  eapply M_bind_step; [apply step_relay, E1|]. eapply M_bind_step; [reflexivity|]. eapply M_bind_step; [apply step_relay, E2|]. reflexivity.
Qed.

Lemma assert_trust_nonce m r t aud nonce now :
  blank aud = false -> blank nonce = false ->
  (forall x, x ∈ tt_nonces t -> ~ (nr_DomainID x = "local" /\ nr_DeviceID x = "postgres-check-device" /\
     nr_Nonce x = proofNonceStorageKey aud nonce)) ->
  exists t', assertReplayNonce "trust"
    (on_trust (TrustUseProofNonce "local" "postgres-check-device" aud nonce (Add now Minute) now) : IO _) (with_tables m r t)
    = (Returned tt, with_tables m r t').
Proof using PW.
  intros B2 B3 Hfree. destruct (nonce_once_then_never tt_nonces set_trust_nonces (fun _ _ => eq_refl) t "local" "postgres-check-device" aud nonce now)
    as (l0 & l1 & l2 & E1 & E2); [done|by vm_compute|done..|].
  eexists. unfold assertReplayNonce, TrustUseProofNonce.
  eapply M_bind_step; [apply step_trust, E1|]. eapply M_bind_step; [reflexivity|]. eapply M_bind_step; [apply step_trust, E2|]. reflexivity.
Qed.

(** Names the check makes up are not blank. *)
Lemma not_blank c s : (33 <=? b2z (Ascii.byte_of_ascii c)) && (b2z (Ascii.byte_of_ascii c) <? 128) = true -> blank (String c s) = false.
Proof using.
  intros Hc. apply bool_decide_eq_false. rewrite <- (go_string_bytes (String c s)).
  change (go_bytes (String c s)) with (Ascii.byte_of_ascii c :: go_bytes s). apply TrimSpace_visible. lia.
Qed.

Definition queue_route : bytes := encode (JObj [("ttl_seconds", JInt 60); ("priority", JInt 1)]).

Lemma assert_queue m r t uuid rand' route now :
  NewUUIDv7Like now (mc_rand m) = (Ok uuid, rand') -> jsonb_text queue_route = Some route ->
  (forall msg, msg = queue_message (UUIDString uuid) ("postgres-check-msg-" +:+ Itoa (UnixNano now))
     ("postgres-check-recipient-" +:+ Itoa (UnixNano now)) (rm_EnvelopeRaw msg) now ->
     apart (rt_messages r) (mkMessageRow msg None None 0)) ->
  exists checks m', (assertRelayPersistentQueue now : IO _) (with_tables m r t) = (Returned checks, m') /\
    mc_clock m' = mc_clock m /\ wo_os (mc_net m') = wo_os (mc_net m).
Proof using PW.
  intros Eu Hj Hap. unfold assertRelayPersistentQueue.
  assert (blank ("postgres-check-recipient-" +:+ Itoa (UnixNano now)) = false) as Hb by by apply not_blank.
  set (raw := go_bytes _). set (recipient := "postgres-check-recipient-" +:+ _) in *. set (id := "postgres-check-msg-" +:+ _) in *.
  clearbody raw recipient id.
  destruct (message_life r (queue_message (UUIDString uuid) id recipient raw now) route now)
    as (t1 & t2 & t3 & t4 & t5 & t6 & msg' & Hid & Hraw & S1 & C1 & C2 & C3 & C4 & C5);
    [done|done|done|by vm_compute|done|by apply Hap|].
  cbn [queue_message rm_DomainID rm_RecipientDeviceID rm_MessageID rm_EnvelopeRaw] in *.
  set (m1 := mkMachine rand' (mc_clock m) (mc_text m) (mc_net m)). eexists _, (with_tables m1 t6 t). split; [|done].
  eapply M_bind_step. { unfold step. eapply M_bind_step; [unfold with_rand; cbn [mc_rand with_tables set_net]; rewrite Eu; reflexivity|]. reflexivity. }
  change (mkMachine rand' _ _ _) with (with_tables m1 r t). cbv zeta.
  eapply M_bind_step; [apply step_relay, S1|]. eapply M_bind_step; [apply step_relay, C1|].
  eapply M_bind_step; [rewrite Hid, Hraw, !bool_decide_true by done; reflexivity|].
  eapply M_bind_step; [apply step_relay, C2|]. eapply M_bind_step; [reflexivity|].
  eapply M_bind_step; [apply step_relay, C3|]. eapply M_bind_step; [rewrite Hid, bool_decide_true by done; reflexivity|].
  eapply M_bind_step; [apply step_relay, C4|]. eapply M_bind_step; [apply step_relay, C5|].
  eapply M_bind_step; [reflexivity|]. reflexivity.
Qed.

(** The file system takes the summary. *)
Definition writable (f : F) : Prop := exists f1 f2, repo_MkdirAll "dist" f = (Ok tt, f1) /\
  forall text, repo_Create "dist/postgres-check.json" text f1 = (Ok tt, f2 text).

(** The check's names are new to the database: the nonce to both replay caches, the
    message's id, key and recipient to the queue. *)
Definition new_names (now : Time) (uuid : bytes) (r : RelayTables) (t : TrustTables) : Prop :=
  let suffix := Itoa (UnixNano now) in
  let nonce := "postgres-check-" +:+ suffix in
  (forall x, x ∈ rt_nonces r -> ~ (nr_DomainID x = "local" /\ nr_DeviceID x = "postgres-check-device" /\
     nr_Nonce x = proofNonceStorageKey "relay-local" nonce)) /\
  (forall x, x ∈ tt_nonces t -> ~ (nr_DomainID x = "local" /\ nr_DeviceID x = "postgres-check-device" /\
     nr_Nonce x = proofNonceStorageKey "trust-local" nonce)) /\
  (forall x, x ∈ rt_messages r -> mr_ID x <> UUIDString uuid /\
     ~ (rm_DomainID (mr_msg x) = "local" /\ rm_MessageID (mr_msg x) = "postgres-check-msg-" +:+ suffix) /\
     ~ (rm_DomainID (mr_msg x) = "local" /\ rm_RecipientDeviceID (mr_msg x) = "postgres-check-recipient-" +:+ suffix)).

Lemma check_pool_ok m r t uuid rand' route :
  let now := UTC (mc_clock m O) in
  wo_net (mc_net m) = mkDatabases (answering r) (answering t) ->
  (forall table, table ∈ checkedTables -> to_regclass table (wo_net (mc_net m)) = Ok true) ->
  NewUUIDv7Like now (mc_rand m) = (Ok uuid, rand') -> jsonb_text queue_route = Some route -> new_names now uuid r t ->
  exists replay queue m', (check_pool : IO _) m = (Returned (replay, queue, []), m') /\ wo_os (mc_net m') = wo_os (mc_net m).
Proof using PW.
  intros now Hnet Ht Eu Hj (Hn1 & Hn2 & Hq).
  set (m1 := mkMachine (mc_rand m) (fun n => mc_clock m (1 + n)%nat) (mc_text m) (mc_net m)).
  assert (blank ("postgres-check-" +:+ Itoa (UnixNano now)) = false) as Hb by by apply not_blank.
  assert (m1 = with_tables m1 r t) as Em by (unfold with_tables, set_net; rewrite <- Hnet; by destruct m as [? ? ? []]).
  destruct (assert_relay_nonce m1 r t "relay-local" ("postgres-check-" +:+ Itoa (UnixNano now)) now) as (r1 & N1 & M1);
    [by vm_compute|done|done|].
  destruct (assert_trust_nonce m1 r1 t "trust-local" ("postgres-check-" +:+ Itoa (UnixNano now)) now) as (t1 & N2);
    [by vm_compute|done|done|].
  destruct (assert_queue m1 r1 t1 uuid rand' route now Eu Hj) as (checks & m' & N3 & _ & Eos).
  { intros msg -> x Hin. rewrite M1 in Hin. exact (Hq x Hin). }
  assert (flat_map (table_errors (wo_net (mc_net m))) checkedTables = []) as He.
  { apply flat_map_nil. intros table Hin. unfold table_errors. by rewrite Ht. }
  eexists _, _, m'. split; [|exact Eos]. unfold check_pool.
  eapply M_bind_step; [rewrite He; reflexivity|]. eapply M_bind_step; [reflexivity|]. fold m1 now. cbv zeta.
  eapply M_bind_step; [apply collect_ok; rewrite Em; eapply M_bind_step; [exact N1|reflexivity]|].
  eapply M_bind_step; [apply collect_ok; eapply M_bind_step; [exact N2|reflexivity]|].
  eapply M_bind_step; [apply collect_ok, N3|]. reflexivity.
Qed.

(** C12. [iscp-ci postgres-check] passes on the repositories: with a database that has the
    tables and answers, in which the names of the check are new, the replay caches
    accept its nonces once, and the queue delivers its message once per lease and
    not after delivery; so the command succeeds. *)
Theorem postgres_check_passes m r t uuid rand' route :
  blank (Getenv "ISCP_DATABASE_URL") = false ->
  wo_net (mc_net m) = mkDatabases (answering r) (answering t) ->
  pool_New (TrimSpace (Getenv "ISCP_DATABASE_URL")) (wo_net (mc_net m)) = Ok tt ->
  (forall table, table ∈ checkedTables -> to_regclass table (wo_net (mc_net m)) = Ok true) ->
  NewUUIDv7Like (UTC (mc_clock m O)) (mc_rand m) = (Ok uuid, rand') -> jsonb_text queue_route = Some route ->
  new_names (UTC (mc_clock m O)) uuid r t -> writable (wo_os (mc_net m)) ->
  exists m', (validatePostgres : IO unit) m = (Returned tt, m').
Proof using PW.
  intros Hdsn Hnet Hpool Ht Eu Hj Hn (f1 & f2 & Ef1 & Ef2).
  destruct (check_pool_ok m r t uuid rand' route Hnet Ht Eu Hj Hn) as (replay & queue & m' & Ec & Eos). rewrite <- Eos in Ef1.
  apply bool_decide_eq_false in Hdsn. eexists. unfold validatePostgres. eapply M_bind_step.
  { rewrite bool_decide_false by done. eapply M_bind_step; [reflexivity|]. rewrite Hpool. exact Ec. }
  cbv beta iota zeta. unfold conclude_check. eapply M_bind_step; [reflexivity|]. eapply M_bind_step.
  { unfold writeJSON. eapply M_bind_step; [unfold os_call; cbn [mc_net wo_os]; rewrite Ef1; reflexivity|].
    unfold os_call. cbn [mc_net wo_os]. change ("dist" +:+ "/" +:+ "postgres-check.json") with "dist/postgres-check.json".
    rewrite Ef2. reflexivity. }
  eapply M_bind_step; [reflexivity|]. reflexivity.
Qed.

End postgres_check.

(** ** A repository that passes *)

Module CiWitness.
Import TruncatingServer InsertionSort.

(** Files in memory; the entries of a directory are those below its name. *)
Abbreviation Repo := (list (string * string)).

Definition read_repo (name : string) (f : Repo) : result bytes :=
  match List.find (fun e => bool_decide (e.1 = name)) f with
  | Some e => Ok (go_bytes e.2)
  | None => Err (PlainError "file does not exist")
  end.

#[export] Instance repo : RepoFiles Repo := {
  repo_ReadDir d f := Ok (omap (fun e => if HasPrefix e.1 (d +:+ "/") then Some (TrimPrefix e.1 (d +:+ "/"), false) else None) f);
  repo_ReadFile := read_repo;
  repo_Stat name f := (fun _ => tt) <$> read_repo name f;
  is_not_exist _ := true;
  repo_MkdirAll _ f := (Ok tt, f);
  repo_Create name text f := (Ok tt, (name, go_string text) :: f)
}.

Definition checkout {S} (net : S) (files : Repo) : Machine (World S Repo) :=
  mkMachine (replicate 64 x07) (fun _ => mkTime ((unixToInternal + 1700000000) * Second) 0) (fun _ => "now") (mkWorld net "" "" files).

(** *** Traceability *)

Definition lines (l : list string) : string := String.concat nl l.

Definition baseline : string := lines
  ["# Security baseline"; "";
   "- Implementations MUST verify every signature.";
   "- Relays MUST NOT store";
   "  plaintext payloads.";
   "- Operators may rotate keys."].

Definition traceability_table : string := lines
  ["| ID | Requirement | Evidence | Status |"; "| --- | --- | --- | --- |";
   "| ISCP-SB-001 | Implementations MUST verify every signature. | trust_test.go | Covered |";
   "| ISCP-SB-002 | Relays MUST NOT store plaintext payloads. | relay_test.go | Covered |"].

Definition documented : Repo := [(specName, baseline); (matrixName, traceability_table)].

Definition rows_of (table : string) : list traceabilityRow := (extractTraceabilityRows table).1.

Lemma requirements_covered_witness :
  ((validateTraceability : M (World unit Repo) unit) (checkout tt documented)).1 = Returned tt /\
  extractNormativeRequirements baseline =
    ["Implementations MUST verify every signature."; "Relays MUST NOT store plaintext payloads."] /\
  Forall row_ok (rows_of traceability_table).
Proof.
  assert (((validateTraceability : M (World unit Repo) unit) (checkout tt documented)).1 = Returned tt) as E by (vm_compute; reflexivity).
  split_and!; [exact E|vm_compute; reflexivity|].
  destruct (requirements_covered (checkout tt documented) tt ((validateTraceability : M (World unit Repo) unit) (checkout tt documented)).2)
    as (spec & table & _ & [= <-] & _ & _ & H); [rewrite <- E; apply surjective_pairing|].
  rewrite go_string_bytes in H. exact H.
Defined.

(** *** Schemas: each as the manifest wants it *)

Definition strings (l : list string) : Value := JArr (map JStr l).

Definition schema_text (e : schemaManifestEntry) : string :=
  go_string (encode (JObj [
    ("$schema", JStr draft); ("$id", JStr (schema_id (sme_File e))); ("title", JStr (sme_ObjectType e)); ("type", JStr "object");
    ("additionalProperties", JBool false); ("required", strings ["type"; "signature"]);
    ("properties", JObj [("type", JObj [("const", JStr (sme_ObjectType e))])]);
    ("$defs", JObj [("signature", JObj [
      ("required", strings ["alg"; "kid"; "value"]);
      ("properties", JObj [("alg", JObj [("const", JStr "Ed25519")]); ("value", JObj [("contentEncoding", JStr "base64url")])])])])])).

Definition schemas : Repo := map (fun e => ("schemas/json/" +:+ sme_File e, schema_text e)) expectedSchemas.

#[export] Instance decode_object : Decode (gmap string Value) := {
  decode b := match ParseStrict b with Ok (JObj l) => Ok (list_to_map (rev l)) | _ => Err (PlainError "json") end
}.

Lemma schemas_checked_witness :
  ((generateSchemas : M (World unit Repo) unit) (checkout tt schemas)).1 = Returned tt /\
  exists doc, (read_repo "schemas/json/trust_grant.v2.json" schemas ≫= decode : result (gmap string Value)) = Ok doc /\
    "signature" ∈ stringArrayProperty (Some doc) "required".
Proof.
  assert (((generateSchemas : M (World unit Repo) unit) (checkout tt schemas)).1 = Returned tt) as E by (vm_compute; reflexivity).
  split; [exact E|].
  destruct (schemas_checked (checkout tt schemas) tt ((generateSchemas : M (World unit Repo) unit) (checkout tt schemas)).2)
    as (entries & _ & _ & H); [rewrite <- E; apply surjective_pairing|].
  destruct (H (mkSchemaEntry "trust_grant.v2.json" "iscp.trust_grant.v2")) as (raw & doc & E1 & E2 & Hok).
  { apply list_elem_of_In. vm_compute. tauto. }
  exists doc. split; [|by apply (sk_signed _ _ Hok)]. cbn [repo_ReadFile repo] in E1.
  change ("schemas/json/" +:+ sme_File (mkSchemaEntry "trust_grant.v2.json" "iscp.trust_grant.v2")) with "schemas/json/trust_grant.v2.json" in E1.
  change (files_at (checkout tt schemas)) with schemas in E1. rewrite E1. exact E2.
Defined.

(** *** Routes: documents and sources written from the manifest *)

Definition served_by (prefixes : list string) : list methodManifestEntry :=
  List.filter (fun e => existsb (fun p => HasPrefix (mme_Path e) p) prefixes) expectedMethods.
Definition quote : string := go_string [x22].
Definition server_text (prefixes : list string) : string :=
  lines (map (fun e => "	mux.HandleFunc(" +:+ quote +:+ mme_Path e +:+ quote +:+ ", s.handler)") (served_by prefixes)).
Definition spec_text (prefixes : list string) : string :=
  lines (map (fun e => "- `" +:+ ToUpper (mme_Method e) +:+ " " +:+ mme_Path e +:+ "`") (served_by prefixes)).
Definition openapi_text : string :=
  lines (["openapi: 3.1.0"; "paths:"] ++
         flat_map (fun e => ["  " +:+ mme_Path e +:+ ":"; "    " +:+ mme_Method e +:+ ":"; "      responses:"]) expectedMethods ++
         ["components:"; "  schemas:"; "    Error:"]).
Definition services : Repo :=
  [("docs/api/openapi.yaml", openapi_text)]
  ++ zip routeSourceNames (map (fun s => server_text s.2) specEndpointSources)
  ++ map (fun s => (s.1, spec_text s.2)) specEndpointSources.

Lemma routes_checked_witness :
  ((generateOpenAPI : M (World unit Repo) unit) (checkout tt services)).1 = Returned tt /\
  (forall path, path ∈ extractOpenAPIPaths openapi_text /\ is_public path = true <-> path ∈ expectedPaths).
Proof.
  assert (((generateOpenAPI : M (World unit Repo) unit) (checkout tt services)).1 = Returned tt) as E by (vm_compute; reflexivity).
  split; [exact E|].
  destruct (routes_checked (checkout tt services) tt ((generateOpenAPI : M (World unit Repo) unit) (checkout tt services)).2)
    as (document & [= <-] & _ & H & _); [rewrite <- E; apply surjective_pairing|].
  rewrite go_string_bytes in H. exact H.
Defined.

(** *** A database *)

#[export] Instance connected : Pool := { pool_New _ _ := Ok tt; to_regclass _ _ := Ok true }.
#[export] Instance database_env : Env := { Getenv _ := "postgres://localhost/iscp" }.
#[export] Instance plain_text : Unicode := { is_print _ := false }.

Definition fresh_database : Machine (World Databases Repo) := checkout (mkDatabases (answering empty_relay) (answering empty_trust)) [].

Lemma postgres_check_passes_witness :
  exists m', (validatePostgres : M (World Databases Repo) unit) fresh_database = (Returned tt, m').
Proof.
  eapply (postgres_check_passes fresh_database empty_relay empty_trust); try (vm_compute; reflexivity); try done.
  - split_and!; by intros x ?%not_elem_of_nil.
  - do 2 eexists. split; reflexivity.
Defined.

End CiWitness.
