(* ===== verification/CiMain.v ===== *)
(** * [main] of [iscp-ci], and how it finds the repository

    The search for [go.mod] upwards from the working directory is a loop; it is
    bounded by the length of the path, which [repoRoot_answers] shows is enough. *)
From Stdlib Require Import ZArith Lia Strings.Byte.
From stdpp Require Import numbers gmap strings base list.
From S2P Require Import Prelude Errors GoJson GoTime GoStrings Sorting Keyring Sql Repository Runner Conformance Cli CliProps Ci.
Open Scope Z_scope.

(** ** Paths *)

(** The path backwards, from its last slash. *)
Fixpoint from_slash (s : bytes) : bytes :=
  match s with
  | [] => []
  | c :: r => if bool_decide (c = "/"%byte) then s else from_slash r
  end.

(** [filepath.Dir] on Unix. *)
Definition Dir (path : string) : string := Clean (go_string (rev (from_slash (rev (go_bytes path))))).

Example Dir_examples : map Dir ["/a/b"; "/a"; "/"; "a"; ""; "/a/b/"; "../.."] = ["/a"; "/"; "/"; "."; "."; "/a/b"; ".."].
Proof. vm_compute. reflexivity. Qed.

(** The process: its working directory, the files of the machine, opening a root. *)
Class Process (F : Type) := {
  proc_Getwd : F -> result string;
  proc_Stat : string -> F -> result unit;
  proc_OpenRoot : string -> F -> result unit
}.

Section root.
  Context {F : Type} `{Process F}.

(** The loop of [repoRoot]; [None] when the bound is not enough. *)
Fixpoint find_root (n : nat) (f : F) (wd : string) : option (result string) :=
  match n with
  | O => None
  | S n =>
      if is_ok (proc_Stat (PathJoin wd "go.mod") f) then Some (Ok wd)
      else
        let parent := Dir wd in
        if bool_decide (parent = wd) then Some (Err (PlainError "could not locate repository root containing go.mod"))
        else find_root n f parent
  end.

Definition repoRoot (f : F) : result string :=
  wd ← proc_Getwd f;
  default (Err (PlainError "out of bounds")) (find_root (2 + length (go_bytes wd)) f wd).

End root.

(** ** main *)

Section main.
  Context {P : Postgres} {PL : Pool} {U : Unicode} {E : Env} {F : Type} `{RepoFiles F} `{Process F}.
  Context {SS : SortSlice} {R : MapRange} `{Decode (gmap string Value)}.

Abbreviation IO := (M (World Databases F)).

Definition warn (text : string) : IO unit := fun m =>
  let w := mc_net m in
  (Returned tt, mkMachine (mc_rand m) (mc_clock m) (mc_text m) (mkWorld (wo_net w) (wo_stdout w) (wo_stderr w +:+ text +:+ nl) (wo_os w))).

Definition usage : string := "usage: iscp-ci <generate-schemas|generate-openapi|traceability|helm-check|postgres-check|sbom>".

(** A computation whose error is printed: the exit code. *)
Definition exit_code (c : IO unit) : IO Z :=
  r ← attempt c;
  match r with
  | inl _ => mret 0
  | inr (inl e) => _ ← warn (Error e); mret 1
  | inr (inr reason) => _ ← warn reason; mret 1
  end.

Definition ci_main (args : list string) : IO Z :=
  match args with
  | [command] =>
      exit_code (
        root ← look repoRoot;
        rootPath ← try root;
        opened ← look (proc_OpenRoot rootPath);
        _ ← try opened;
        ci_command command)
  | _ => _ ← warn usage; mret 2
  end.

End main.

(** ** The search ends *)

(** The bytes of some elements, each with a slash. *)
Definition weight (l : list string) : nat := foldr (fun e n => 1 + length (go_bytes e) + n)%nat 0%nat l.

Lemma weight_cons e l : weight (e :: l) = (1 + length (go_bytes e) + weight l)%nat.
Proof. reflexivity. Qed.

Lemma weight_nil : weight [] = 0%nat.
Proof. reflexivity. Qed.

Lemma weight_app a b : weight (a ++ b) = (weight a + weight b)%nat.
Proof. induction a as [|e a IH]; [done|]. cbn [app]. rewrite !weight_cons, IH. lia. Qed.

Lemma weight_rev l : weight (rev l) = weight l.
Proof. induction l as [|e l IH]; [done|]. cbn [rev]. rewrite weight_app, !weight_cons, weight_nil, IH. lia. Qed.

Lemma weight_Join l : l <> [] -> length (go_bytes (Join l "/")) = (weight l - 1)%nat.
Proof.
  induction l as [|e [|e' l] IH]; intros Hl; [done|rewrite weight_cons, weight_nil; cbn [Join]; lia|].
  change (Join (e :: e' :: l) "/") with (e +:+ "/" +:+ Join (e' :: l) "/"). rewrite !go_bytes_app, !length_app, IH by done.
  change (length (go_bytes "/")) with 1%nat. rewrite !weight_cons. lia.
Qed.

Lemma weight_split s : weight (map go_string (split_bytes "/"%byte s)) = (1 + length s)%nat.
Proof.
  induction s as [|b s IH]; [done|]. cbn [split_bytes length]. case_bool_decide.
  { cbn [map]. rewrite weight_cons, IH. change (length (go_bytes (go_string []))) with 0%nat. lia. }
  destruct (split_bytes "/"%byte s) as [|x xs]; [discriminate IH|]. cbn [map] in *. rewrite weight_cons in *.
  rewrite !go_bytes_string in *. cbn [length]. lia.
Qed.

(** Empty elements are not kept. *)
Lemma clean_elements_weight rooted els : forall kept,
  (weight (clean_elements rooted kept els) + length (List.filter (fun e => bool_decide (e = "")) els) <= weight kept + weight els)%nat.
Proof.
  induction els as [|e els IH]; intros kept; cbn [clean_elements List.filter length]; [rewrite weight_rev, weight_nil; lia|].
  rewrite weight_cons. destruct (bool_decide_reflect (e = "")) as [->|Hne]; cbn [orb length]; [specialize (IH kept); lia|].
  destruct (bool_decide_reflect (e = ".")); [specialize (IH kept); lia|].
  destruct (bool_decide_reflect (e = "..")) as [->|]; [|specialize (IH (e :: kept)); rewrite weight_cons in IH; lia].
  change (length (go_bytes "..")) with 2%nat. destruct kept as [|k kept].
  - destruct rooted; [specialize (IH [])|specialize (IH [".."])]; rewrite ?weight_cons, ?weight_nil in *; [lia|].
    change (length (go_bytes "..")) with 2%nat in IH. lia.
  - case_bool_decide; [specialize (IH (".." :: k :: kept))|specialize (IH kept)]; rewrite !weight_cons in *; [|lia].
    change (length (go_bytes "..")) with 2%nat in IH. lia.
Qed.

Lemma split_bytes_nonempty c s : split_bytes c s <> [].
Proof. destruct s as [|b s]; cbn [split_bytes]; [done|]. case_bool_decide; [done|]. by destruct (split_bytes c s). Qed.

Lemma split_bytes_snoc c q : split_bytes c (q ++ [c]) = split_bytes c q ++ [[]].
Proof.
  induction q as [|b q IH]; cbn [app split_bytes]; [by rewrite bool_decide_true|]. rewrite IH. case_bool_decide; [done|].
  pose proof (split_bytes_nonempty c q). by destruct (split_bytes c q).
Qed.

(** The empty elements of a path that ends in a slash: one, and two if it is rooted. *)
Definition empties (l : list string) : nat := length (List.filter (fun e => bool_decide (e = "")) l).

Lemma empties_snoc l : empties (l ++ [""]) = (1 + empties l)%nat.
Proof. unfold empties. rewrite List.filter_app, length_app. cbn [List.filter]. rewrite bool_decide_true by done. cbn [length]. lia. Qed.

Lemma IsAbs_slash s : IsAbs (go_string s) = true <-> exists r, s = "/"%byte :: r.
Proof.
  unfold IsAbs, HasPrefix. rewrite go_bytes_string. destruct s as [|b s]; cbn; [split; [done|by intros []]|].
  split; [intros Hb|intros [r [= -> ->]]; done]. bool_prop. subst. eauto.
Qed.

(** What ends in a slash gets shorter. *)
Lemma Clean_shorter q : (length (go_bytes (Clean (go_string (q ++ ["/"%byte])))) <= 1 `max` length q)%nat.
Proof.
  unfold Clean, Split. rewrite go_bytes_string. set (els := map go_string _). set (rooted := IsAbs _).
  assert (weight els = 2 + length q)%nat as Hw by (unfold els; rewrite weight_split, length_app; cbn; lia).
  assert (els = map go_string (split_bytes "/"%byte q) ++ [""]) as Ee by (unfold els; by rewrite split_bytes_snoc, map_app).
  assert (1 + (if rooted then 1 else 0) <= empties els)%nat as He.
  { rewrite Ee, empties_snoc. destruct rooted eqn:Er; [|lia]. apply IsAbs_slash in Er as [r Er].
    destruct q as [|b q]; [vm_compute; lia|]. injection Er as -> _. cbn [split_bytes]. rewrite bool_decide_true by done. cbn [map].
    unfold empties. cbn [List.filter]. rewrite bool_decide_true by done. cbn [length]. lia. }
  pose proof (clean_elements_weight rooted els []) as Hc. fold (empties els) in Hc. rewrite weight_nil, Hw in Hc.
  destruct (clean_elements rooted [] els) as [|e l] eqn:El; [transitivity 1%nat; [destruct rooted; vm_compute; lia|lia]|]. rewrite <- El in *.
  pose proof (weight_Join (clean_elements rooted [] els)) as Hj. rewrite El in *. specialize (Hj ltac:(done)).
  destruct rooted; [rewrite go_bytes_app, length_app; change (length (go_bytes "/")) with 1%nat|]; lia.
Qed.

Lemma from_slash_spec s : from_slash s = [] \/ exists p r, s = p ++ "/"%byte :: r /\ from_slash s = "/"%byte :: r.
Proof.
  induction s as [|b s IH]; cbn [from_slash]; [by left|]. case_bool_decide as Hb; [subst; right; by exists [], s|].
  destruct IH as [IH|(p & r & -> & E)]; [by left|]. right. exists (b :: p), r. done.
Qed.

Lemma Dir_shorter wd : (2 <= length (go_bytes wd))%nat -> (length (go_bytes (Dir wd)) < length (go_bytes wd))%nat.
Proof.
  intros Hl. unfold Dir. destruct (from_slash_spec (rev (go_bytes wd))) as [->|(p & r & E & ->)].
  - change (length (go_bytes (Clean (go_string (rev []))))) with 1%nat. lia.
  - cbn [rev]. pose proof (Clean_shorter (rev r)) as Hc. apply (f_equal length) in E. rewrite length_app in E.
    rewrite !length_rev in *. cbn [length] in E. lia.
Qed.

Lemma Dir_single wd : (length (go_bytes wd) <= 1)%nat -> Dir wd = wd \/ Dir wd = ".".
Proof.
  intros Hl. rewrite <- (go_string_bytes wd). destruct (go_bytes wd) as [|b [|? ?]]; [by right| |cbn in Hl; lia].
  unfold Dir. rewrite go_bytes_string. cbn [rev app from_slash]. case_bool_decide; [subst; by left|by right].
Qed.

Section search.
  Context {F : Type} `{Process F} (f : F).

Lemma find_root_dot n : find_root (S n) f "." <> None.
Proof using. cbn [find_root]. destruct (is_ok _); [done|]. by rewrite bool_decide_true by (vm_compute; reflexivity). Qed.

Lemma find_root_bound n : forall wd, (length (go_bytes wd) <= n)%nat -> find_root (2 + n) f wd <> None.
Proof using.
  induction n as [n IH] using lt_wf_ind. intros wd Hn.
  destruct (decide (2 <= length (go_bytes wd))%nat) as [H2|H2].
  - destruct n as [|n]; [lia|]. change (2 + S n)%nat with (S (2 + n)). cbn [find_root]. destruct (is_ok _); [done|].
    case_bool_decide; [done|]. apply (IH n); [lia|]. pose proof (Dir_shorter wd H2). lia.
  - change (2 + n)%nat with (S (S n)). cbn [find_root]. destruct (is_ok _); [done|]. case_bool_decide as Hd; [done|].
    destruct (Dir_single wd) as [|E]; [lia|done|]. rewrite E in *. apply find_root_dot.
Qed.

Lemma find_root_result n : forall wd r, find_root n f wd = Some r ->
  (exists root, r = Ok root /\ is_ok (proc_Stat (PathJoin root "go.mod") f) = true) \/
  r = Err (PlainError "could not locate repository root containing go.mod").
Proof using.
  induction n as [|n IH]; intros wd r; cbn [find_root]; [done|].
  destruct (is_ok _) eqn:E; [intros [= <-]; left; eauto|]. case_bool_decide; [intros [= <-]; by right|]. apply IH.
Qed.

(** [repoRoot] answers in every working directory: the search upwards ends within the
    bound, with a directory that has a [go.mod] or the error that there is none. *)
Theorem repoRoot_answers wd : proc_Getwd f = Ok wd ->
  (exists root, repoRoot f = Ok root /\ is_ok (proc_Stat (PathJoin root "go.mod") f) = true) \/
  repoRoot f = Err (PlainError "could not locate repository root containing go.mod").
Proof using.
  intros Hwd. unfold repoRoot. rewrite Hwd. cbn [mbind result_bind].
  pose proof (find_root_bound (length (go_bytes wd)) wd ltac:(lia)) as Hb.
  destruct (find_root _ f wd) as [r|] eqn:E; [|done]. by apply find_root_result in E.
Qed.

End search.
