(* ===== verification/Startup.v ===== *)
(** * Starting a service: [pkg/server/postgres/migrate.go] and the two mains

    [services/relay-reference/cmd/relayd/main.go] and
    [services/trust-root-reference/cmd/trustd/main.go]: reading the environment,
    opening and migrating the database, building the server, listening.  The
    embedded files, the connection pool and what a migration's text does to the
    tables are parameters; transactions can fail at their begin, their statement and
    their commit. *)
From Stdlib Require Import ZArith Lia Strings.Byte.
From stdpp Require Import sorting numbers gmap strings base list.
From S2P Require Import Prelude Errors GoJson GoTime Crypto Signed Identity Trust GoStrings Config Logging Sorting Uuid Keyring Sql.
From S2P Require Import Repository Http TrustServer RelayServer Runner Cli Regexp.
Open Scope Z_scope.

(** ** Migrations *)

Record Migration := mkMigration { mg_Name : string; mg_SQL : string }.

(** The embedded file system: entries (name and whether a directory), contents. *)
Class EmbedFS := {
  fs_ReadDir : string -> result (list (string * bool));
  fs_ReadFile : string -> result bytes
}.

(** What the text of a migration does to the tables, or why it is refused. *)
Class Migrates (T : Type) := { exec_sql : string -> T -> result T }.

(** [pgxpool.New]. *)
Class Connects (T : Type) := { pgx_New : string -> result (DB T) }.

Section migrations.
  Context {SS : SortSlice} {FS : EmbedFS} {T : Type} `{Migrates T}.

Fixpoint read_migrations (entries : list (string * bool)) : result (list Migration) :=
  match entries with
  | [] => Ok []
  | (name, dir) :: entries =>
      if dir || negb (HasSuffix name ".sql") then read_migrations entries
      else
        b ← fs_ReadFile ("migrations/" +:+ name);
        rest ← read_migrations entries;
        Ok (mkMigration name (go_string b) :: rest)
  end.

Definition migration_less (a b : Migration) : bool := string_ltb (mg_Name a) (mg_Name b).

Definition EmbeddedMigrations : result (list Migration) :=
  entries ← fs_ReadDir "migrations";
  out ← read_migrations entries;
  Ok (sort_slice migration_less out).

(** [applyOne]: begin, the statement inside the transaction, commit.  Until the
    commit the tables are the old ones; the deferred rollback leaves them so. *)
Definition applyOne (migration : Migration) : Q T unit :=
  _ ← statement (fun t => Ok (tt, t));
  inside ← statement (fun t => t' ← exec_sql (mg_SQL migration) t; Ok (t', t));
  statement (fun _ => Ok (tt, inside)).

Fixpoint ApplyMigrations (migrations : list Migration) : Q T unit :=
  match migrations with
  | [] => mret tt
  | migration :: migrations => _ ← applyOne migration; ApplyMigrations migrations
  end.

End migrations.

(** ** Processes *)

(** A line of the log: level, message, attributes after redaction (an error is not a
    string attribute). *)
Record log_line := mkLogLine { ll_level : string; ll_message : string; ll_attrs : list (string * attr_value) }.

Definition log (level message : string) (attrs : list (string * attr_value)) : log_line :=
  mkLogLine level message (map ReplaceAttr attrs).

(** [http.Server] as the mains fill it. *)
Record http_server := mkHttpServer {
  hs_Addr : string; hs_ReadHeaderTimeout : Z; hs_ReadTimeout : Z; hs_WriteTimeout : Z; hs_IdleTimeout : Z }.

(** What a main comes to: it returns, exits with a code, or listens. *)
Inductive process (W : Type) :=
| Returns
| Exits (code : Z)
| Listens (server : http_server) (handler : W).
Arguments Returns {W}.
Arguments Exits {W} _.
Arguments Listens {W} _ _.

Definition listening (addr : string) : http_server := mkHttpServer addr (5 * Second) (15 * Second) (15 * Second) (60 * Second).

Section startup.
  Context {E : Env} {FS : EmbedFS} {SS : SortSlice}.

Definition env (key fallback : string) : string :=
  let v := Getenv key in if bool_decide (v <> "") then v else fallback.

Definition splitCSV (value : string) : list string :=
  if bool_decide (TrimSpace value = "") then []
  else List.filter (fun item => negb (bool_decide (item = ""))) (map TrimSpace (Split value ","%byte)).

(** The database to use, if one is configured, and the lines logged. *)
Definition openDatabase {T} `{Migrates T} `{Connects T} (service : string) : result (option (DB T)) * list log_line :=
  let dsn := Getenv "ISCP_DATABASE_URL" in
  if bool_decide (dsn = "") then (Ok None, [log "INFO" (service +:+ " database disabled; using in-memory state") []])
  else
    match pgx_New dsn with
    | Err e => (Err e, [])
    | Ok pool =>
        match EmbeddedMigrations with
        | Err e => (Err e, [])
        | Ok migrations =>
            match ApplyMigrations migrations pool with
            | (Err e, _) => (Err e, [])
            | (Ok _, pool) => (Ok (Some pool), [log "INFO" (service +:+ " database ready") []])
            end
        end
    end.

(** The part of both mains that is the same: [build] makes the server from the
    database, [addr] is where it listens. *)
Definition start_service {T W} (service addr : string) (db : result (option (DB T)) * list log_line)
    (build : option (DB T) -> result W) : list log_line * process W :=
  let '(opened, lines) := db in
  match opened with
  | Err e => (lines ++ [log "ERROR" (service +:+ " database init failed") [("error", AOther)]], Exits 1)
  | Ok db =>
      match build db with
      | Err e => (lines ++ [log "ERROR" (service +:+ " init failed") [("error", AOther)]], Exits 1)
      | Ok srv => (lines ++ [log "INFO" (service +:+ " starting") [("addr", AString addr)]], Listens (listening addr) srv)
      end
  end.

(** [args] are those after the program's name. *)
Definition healthcheck (args : list string) : bool := bool_decide (head args = Some "healthcheck").

(** When the listener returns, which it does with an error only. *)
Definition stopped {W} (service : string) (e : error) : log_line * process W :=
  (log "ERROR" (service +:+ " stopped") [("error", AOther)], Exits 1).

End startup.

(** ** The relay: [relayd] *)

Section relayd.
  Context {E : Env} {FS : EmbedFS} {SS : SortSlice} {C : CryptoOps} `{Migrates RelayTables} `{Connects RelayTables}.

Definition openRelayDatabase : result (option (DB RelayTables)) * list log_line := openDatabase "relay".

Definition relay_config : RelayConfig :=
  mkRelayConfig (env "ISCP_DOMAIN_ID" "local") (env "ISCP_RELAY_ID" "relay-local")
    (env "ISCP_RELAY_BASE_URL" "http://localhost:8080") (env "ISCP_RELAY_WS_URL" "ws://localhost:8080/v2/relay/connect")
    (DefaultGate (LoadProfileFromEnv (Getenv "ISCP_PROFILE") ProfileLocalLab)) (Getenv "ISCP_ADMIN_TOKEN")
    (splitCSV (Getenv "ISCP_ALLOWED_ORIGINS")) None.

Definition relayd (args : list string) (rand : reader) (clock : nat -> Time)
    : list log_line * process (Http.World RelayServer RelayTables) :=
  if healthcheck args then ([], Returns)
  else
    start_service "relay" (env "ISCP_RELAY_ADDR" ":8080") openRelayDatabase
      (fun db => NewRelayServer relay_config db rand clock).


End relayd.

(** ** The trust root: [trustd] *)

Section trustd.
  Context {E : Env} {FS : EmbedFS} {SS : SortSlice} {C : CryptoOps} `{Migrates TrustTables} `{Connects TrustTables}.

Definition openTrustDatabase : result (option (DB TrustTables)) * list log_line := openDatabase "trust".

Definition trust_config : TrustConfig :=
  mkTrustConfig (env "ISCP_DOMAIN_ID" "local") (env "ISCP_TRUST_ROOT_ID" "trust-local")
    (env "ISCP_TRUST_BASE_URL" "http://localhost:8081")
    (DefaultGate (LoadProfileFromEnv (Getenv "ISCP_PROFILE") ProfileLocalLab)) (Getenv "ISCP_ADMIN_TOKEN").

Definition trustd (args : list string) (rand : reader) (clock : nat -> Time)
    : list log_line * process (Http.World TrustServer TrustTables) :=
  if healthcheck args then ([], Returns)
  else
    start_service "trust" (env "ISCP_TRUST_ADDR" ":8081") openTrustDatabase
      (fun db => NewTrustServer trust_config db rand clock).


End trustd.

(** ** What a start establishes *)

Section migrated.
  Context {SS : SortSlice} {FS : EmbedFS} {T : Type} `{Migrates T}.

(** The tables after some migrations. *)
Fixpoint migrated (migrations : list Migration) (t : T) : result T :=
  match migrations with
  | [] => Ok t
  | m :: migrations => exec_sql (mg_SQL m) t ≫= migrated migrations
  end.

(** One migration: either everything or nothing. *)
Lemma applyOne_atomic m db r db' :
  applyOne m db = (r, db') ->
  match r with
  | Ok _ => exec_sql (mg_SQL m) (db_tables db) = Ok (db_tables db')
  | Err _ => db_tables db' = db_tables db
  end.
Proof using.
  unfold applyOne, mbind, Q_bind, statement. cbn [db_tables db_faults].
  repeat case_match; intros; simplify_eq/=; try done; destruct (exec_sql _ _) eqn:Ex; by simplify_eq/=.
Qed.

(** Migrations run in order, each as a whole: whatever fails, the tables are those
    after a prefix of them, and after all of them on success. *)
Lemma ApplyMigrations_prefix ms : forall db r db',
  ApplyMigrations ms db = (r, db') ->
  exists k, (k <= length ms)%nat /\ migrated (take k ms) (db_tables db) = Ok (db_tables db') /\
    (is_ok r = true <-> k = length ms).
Proof using.
  induction ms as [|m ms IH]; intros db r db'; cbn [ApplyMigrations].
  { intros [= <- <-]. exists 0%nat. by split_and!. }
  unfold mbind, Q_bind. destruct (applyOne m db) as [[u|e] db1] eqn:E1; apply applyOne_atomic in E1.
  - intros (k & Hk & Hm & Hr)%IH. exists (S k). cbn [take migrated length]. rewrite E1. split_and!; [lia|done|rewrite Hr; lia].
  - intros [= <- <-]. exists 0%nat. cbn [take migrated length is_ok]. rewrite E1. split_and!; [lia|done|split; [done|lia]].
Qed.

Lemma read_migrations_elem entries : forall ms m,
  read_migrations entries = Ok ms ->
  m ∈ ms <-> exists raw, (mg_Name m, false) ∈ entries /\ HasSuffix (mg_Name m) ".sql" = true /\
    fs_ReadFile ("migrations/" +:+ mg_Name m) = Ok raw /\ mg_SQL m = go_string raw.
Proof using.
  induction entries as [|[name dir] entries IH]; intros ms m; cbn [read_migrations].
  { intros [= <-]. split; [by intros ?%not_elem_of_nil|]. by intros (raw & ?%not_elem_of_nil & _). }
  destruct (dir || negb (HasSuffix name ".sql")) eqn:Es.
  - intros Hr. rewrite (IH ms m Hr). setoid_rewrite elem_of_cons. split.
    + intros (raw & Hin & Hrest). exists raw. tauto.
    + intros (raw & [[= -> <-]|Hin] & Hs & Hrest); [by rewrite Hs in Es|]. exists raw. tauto.
  - destruct (fs_ReadFile _) as [b|] eqn:Ef; [|done]. destruct (read_migrations entries) as [rest|] eqn:Er; [|done].
    intros [= <-]. apply orb_false_iff in Es as [-> Es%negb_false_iff]. setoid_rewrite elem_of_cons. rewrite (IH rest m eq_refl). split.
    + intros [->|(raw & Hin & Hrest)]; [exists b; cbn; tauto|]. exists raw. tauto.
    + intros (raw & [[= <-]|Hin] & Hs & Hf & Hq); [left|right; exists raw; tauto].
      rewrite Ef in Hf. injection Hf as ->. destruct m as [n q]. cbn in *. by subst.
Qed.

End migrated.

(** C36. A service migrates its database in the order of the file names, each file as a
    whole: whatever statement fails, the tables are those after a prefix of the
    embedded migrations, and after all of them exactly when the start goes on. *)
Theorem migrations_in_order {SS : SortSlice} {SL : SortLaws SS} {FS : EmbedFS} {T : Type} `{Migrates T} ms pool r db :
  EmbeddedMigrations = Ok ms -> ApplyMigrations ms pool = (r, db) ->
  StronglySorted (not_after migration_less) ms /\
  (exists entries, fs_ReadDir "migrations" = Ok entries /\
     forall m, m ∈ ms <-> exists raw, (mg_Name m, false) ∈ entries /\ HasSuffix (mg_Name m) ".sql" = true /\
       fs_ReadFile ("migrations/" +:+ mg_Name m) = Ok raw /\ mg_SQL m = go_string raw) /\
  exists k, (k <= length ms)%nat /\ migrated (take k ms) (db_tables pool) = Ok (db_tables db) /\
    (is_ok r = true <-> k = length ms).
Proof.
  unfold EmbeddedMigrations. intros (entries & Ee & (out & Eo & [= <-])%bind_Ok)%bind_Ok Ha. split_and!.
  - apply sort_orders. exact (string_weak_order mg_Name).
  - exists entries. split; [done|]. intros m. rewrite sort_permutes. by apply read_migrations_elem.
  - by apply ApplyMigrations_prefix in Ha.
Qed.

Section listening.
  Context {E : Env} {FS : EmbedFS} {SS : SortSlice} {C : CryptoOps}.

(** The database a listening service uses. *)
Definition uses_database {T} `{Migrates T} `{Connects T} (repo : option (DB T)) : Prop :=
  if bool_decide (Getenv "ISCP_DATABASE_URL" = "") then repo = None
  else exists pool ms db, pgx_New (Getenv "ISCP_DATABASE_URL") = Ok pool /\ EmbeddedMigrations = Ok ms /\
    migrated ms (db_tables pool) = Ok (db_tables db) /\ repo = Some db.

Lemma openDatabase_Ok {T} `{Migrates T} `{Connects T} service db lines :
  openDatabase service = (Ok db, lines) -> uses_database db.
Proof using.
  unfold openDatabase, uses_database. case_bool_decide; [by intros [= <- _]|].
  destruct (pgx_New _) as [pool|] eqn:Ep; [|done]. destruct EmbeddedMigrations as [ms|] eqn:Em; [|done].
  destruct (ApplyMigrations ms pool) as [[u|e] db1] eqn:Ea; [|done]. intros [= <- _].
  apply ApplyMigrations_prefix in Ea as (k & _ & Hm & [Hk _]). rewrite (Hk eq_refl), firstn_all in Hm.
  exists pool, ms, db1. by split_and!.
Qed.

Lemma start_listens {T W} service addr (db : result (option (DB T)) * list log_line) (build : option (DB T) -> result W) lines hs w :
  start_service service addr db build = (lines, Listens hs w) ->
  exists d, db.1 = Ok d /\ build d = Ok w /\ hs = listening addr.
Proof using.
  unfold start_service. destruct db as [[d|e] l]; [|done]. destruct (build d) as [srv|] eqn:Eb; [|done].
  intros [= _ <- <-]. by exists d.
Qed.

Lemma splitCSV_items value : Forall (fun o => o <> "" /\ exists item, item ∈ Split value ","%byte /\ o = TrimSpace item) (splitCSV value).
Proof using.
  unfold splitCSV. case_bool_decide; [constructor|]. apply Forall_forall. intros o Ho.
  apply list_elem_of_In, filter_In in Ho as [(item & <- & Hin)%in_map_iff Hn]. bool_prop.
  split; [done|]. exists item. by split; [apply list_elem_of_In|].
Qed.

(** The profile the environment asks for. *)
Definition profile : Profile := LoadProfileFromEnv (Getenv "ISCP_PROFILE") ProfileLocalLab.

End listening.

Section services.
  Context {E : Env} {FS : EmbedFS} {SS : SortSlice} {C : CryptoOps} `{Migrates RelayTables} `{Connects RelayTables}
    `{Migrates TrustTables} `{Connects TrustTables}.

Lemma profile_nonempty : profile <> "".
Proof using. unfold profile, LoadProfileFromEnv. by case_bool_decide. Qed.

Lemma NewRelayServer_relayd db rand clock w :
  NewRelayServer relay_config db rand clock = Ok w ->
  w_repo w = db /\ sv_cfg (w_srv w) = relay_config /\ ValidateGate (DefaultGate profile) = Ok tt /\
  (profile = ProfileProduction -> blank (Getenv "ISCP_ADMIN_TOKEN") = false /\ splitCSV (Getenv "ISCP_ALLOWED_ORIGINS") <> []).
Proof using.
  unfold NewRelayServer. destruct (NewDevice _ _ _ _) as [dev r]. cbn [relay_config rcf_ProfileGate DefaultGate gt_Profile].
  fold profile. rewrite (bool_decide_false (profile = "")) by apply profile_nonempty.
  intros (signer & _ & (? & Hg & (? & Ha & (? & Ho & [= <-])%bind_Ok)%bind_Ok)%bind_Ok)%bind_Ok.
  cbn [w_repo w_srv sv_cfg]. split_and!; [done|done|by destruct (ValidateGate _) as [[]|]|].
  intros Hp. apply reject_if_Ok in Ha, Ho. cbn in Ha, Ho. rewrite bool_decide_true in Ha, Ho by done. cbn [andb] in Ha, Ho.
  split; [done|]. by destruct (splitCSV _).
Qed.

Lemma relayd_start args rand clock lines hs w :
  relayd args rand clock = (lines, Listens hs w) ->
  exists db, openRelayDatabase.1 = Ok db /\ NewRelayServer relay_config db rand clock = Ok w /\
    hs = listening (env "ISCP_RELAY_ADDR" ":8080").
Proof using. unfold relayd. destruct (healthcheck args); [done|]. apply start_listens. Qed.

(** C37. A relay listens only when its configuration is fit for its profile: the profile
    is one of the known ones; in production there is an admin token and an allowed
    origin, and no origin is blank; a configured database is reached and completely
    migrated, never replaced by memory; and without one it keeps its state in memory. *)
Theorem relayd_listens args rand clock lines hs w :
  relayd args rand clock = (lines, Listens hs w) ->
  uses_database (w_repo w) /\ hs = listening (env "ISCP_RELAY_ADDR" ":8080") /\
  profile ∈ [ProfileProduction; ProfileStaging; ProfileLocalLab] /\ rcf_ProfileGate (sv_cfg (w_srv w)) = DefaultGate profile /\
  rcf_AllowedOrigins (sv_cfg (w_srv w)) = splitCSV (Getenv "ISCP_ALLOWED_ORIGINS") /\
  "" ∉ rcf_AllowedOrigins (sv_cfg (w_srv w)) /\
  (profile = ProfileProduction -> blank (rcf_AdminToken (sv_cfg (w_srv w))) = false /\ rcf_AllowedOrigins (sv_cfg (w_srv w)) <> []).
Proof using.
  intros (db & Ed & Eb & ->)%relayd_start.
  destruct openRelayDatabase as [r l] eqn:Eo. cbn [fst] in Ed. subst r. apply openDatabase_Ok in Eo.
  apply NewRelayServer_relayd in Eb as (-> & -> & Hg & Hp). split_and!; [done|done|by apply ValidateGate_profiles|done|done| |exact Hp].
  intros Hin. pose proof (splitCSV_items (Getenv "ISCP_ALLOWED_ORIGINS")) as Hf. rewrite Forall_forall in Hf. by destruct (Hf _ Hin).
Qed.

(** The trust root likewise. *)
Theorem trustd_listens args rand clock lines hs w :
  trustd args rand clock = (lines, Listens hs w) ->
  uses_database (w_repo w) /\ hs = listening (env "ISCP_TRUST_ADDR" ":8081") /\
  profile ∈ [ProfileProduction; ProfileStaging; ProfileLocalLab] /\
  (profile = ProfileProduction -> blank (Getenv "ISCP_ADMIN_TOKEN") = false).
Proof using.
  unfold trustd. destruct (healthcheck args); [done|]. intros (db & Ed & Eb & ->)%start_listens.
  destruct openTrustDatabase as [r l] eqn:Eo. cbn [fst] in Ed. subst r. apply openDatabase_Ok in Eo.
  unfold NewTrustServer in Eb. destruct (NewDevice _ _ _ _) as [dev r]. cbn [trust_config tc_ProfileGate DefaultGate gt_Profile] in Eb.
  fold profile in Eb. rewrite (bool_decide_false (profile = "")) in Eb by apply profile_nonempty.
  apply bind_Ok in Eb as (signer & _ & (? & Hg & (? & Ha & [= <-])%bind_Ok)%bind_Ok).
  cbn [w_repo]. split_and!; [done|done|apply ValidateGate_profiles; by destruct (ValidateGate _) as [[]|]|].
  intros Hp. apply reject_if_Ok in Ha. cbn in Ha. by rewrite bool_decide_true in Ha by done.
Qed.

(** [relayd] cannot be told who signs pairing tickets: a relay it starts answers every
    registration with a signed ticket that the service is unavailable. *)
Lemma relayd_refuses_signed_tickets `{Postgres} `{MapRange} `{Decode registerTicketRequest} args rand clock lines hs w r req ticket :
  relayd args rand clock = (lines, Listens hs w) -> rq_Method r = "POST" -> decode (rq_Body r) = Ok req -> rt_Ticket req = Some ticket ->
  handle (registerWithTicket r) w =
    (WriteError StatusServiceUnavailable (New CodeConfigInvalid "relay has no configured ticket issuer"), w).
Proof using.
  intros Hm Hr Hd Ht. assert (rcf_TicketIssuer (sv_cfg (w_srv w)) = None) as Hi.
  { apply relayd_start in Hm as (db & _ & Eb & _).
    by apply NewRelayServer_relayd in Eb as (_ & -> & _). }
  unfold handle, registerWithTicket, require_method. rewrite bool_decide_true by done.
  unfold DecodeJSON, or_reply, mbind, H_bind. cbn. rewrite Hd. cbn. rewrite Ht.
  unfold registerWithSignedTicket, mbind, H_bind, gets. by rewrite Hi.
Qed.

End services.

(** ** Starts that go well, and one that does not *)

Module StartupWitness.
Import ToyCrypto InsertionSort.

#[export] Instance files : EmbedFS := {
  fs_ReadDir _ := Ok [("0002_receipts.sql", false); ("README.md", false); ("0001_init.sql", false); ("old.sql", true)];
  fs_ReadFile name := Ok (go_bytes ("text of " +:+ name))
}.

(** Tables that remember the texts that made them. *)
#[export] Instance remembers : Migrates (list string) := { exec_sql text t := Ok (t ++ [text]) }.

Definition the_migrations : list Migration := match EmbeddedMigrations with Ok ms => ms | Err _ => [] end.

(** The fifth statement, inside the second transaction, fails. *)
Definition flaky : DB (list string) := mkDB [] (fun n => if (n =? 4)%nat then Some (PgError "57P01") else None).

Lemma migrations_in_order_witness :
  map mg_Name the_migrations = ["0001_init.sql"; "0002_receipts.sql"] /\
  db_tables (ApplyMigrations the_migrations flaky).2 = ["text of migrations/0001_init.sql"] /\
  exists k, (k <= 2)%nat /\ migrated (take k the_migrations) [] = Ok ["text of migrations/0001_init.sql"].
Proof.
  assert (EmbeddedMigrations = Ok the_migrations) as E by (vm_compute; reflexivity).
  destruct (migrations_in_order the_migrations flaky _ _ E (surjective_pairing (ApplyMigrations the_migrations flaky)))
    as (_ & _ & k & Hk & Hm & _).
  split_and!; [vm_compute; reflexivity..|]. exists k. split; [exact Hk|exact Hm].
Defined.

#[export] Instance production_env : Env := {
  Getenv key :=
    if bool_decide (key = "ISCP_PROFILE") then "production"
    else if bool_decide (key = "ISCP_ADMIN_TOKEN") then "token"
    else if bool_decide (key = "ISCP_ALLOWED_ORIGINS") then " https://a.example, ,https://b.example "
    else if bool_decide (key = "ISCP_DATABASE_URL") then "postgres://db/iscp"
    else ""
}.

#[export] Instance relay_schema : Migrates RelayTables := { exec_sql _ t := Ok t }.
#[export] Instance relay_pool : Connects RelayTables := { pgx_New _ := Ok (mkDB empty_relay (fun _ => None)) }.

Definition listens {W} (p : process W) : bool := match p with Listens _ _ => true | _ => false end.

Lemma relayd_listens_witness :
  exists lines hs w, relayd [] (replicate 64 x07) (fun _ => t0) = (lines, Listens hs w) /\ hs_Addr hs = ":8080" /\
    rcf_AllowedOrigins (sv_cfg (w_srv w)) = ["https://a.example"; "https://b.example"] /\ w_repo w <> None.
Proof.
  assert (listens (relayd [] (replicate 64 x07) (fun _ => t0)).2 = true) as Hl by (vm_compute; reflexivity).
  destruct (relayd [] (replicate 64 x07) (fun _ => t0)) as [lines [| |hs w]] eqn:Es; try discriminate Hl. clear Hl.
  exists lines, hs, w. split; [reflexivity|].
  destruct (relayd_listens _ _ _ _ _ _ Es) as (Hdb & -> & _ & _ & Ho & _).
  split; [vm_compute; reflexivity|]. split; [rewrite Ho; vm_compute; reflexivity|].
  unfold uses_database in Hdb. rewrite bool_decide_false in Hdb by discriminate. destruct Hdb as (pool & ms & db & _ & _ & _ & ->). discriminate.
Defined.

End StartupWitness.
