(* ===== verification/Simulator.v ===== *)
(** * The phone and watch simulator: [examples/phone-watch-simulator/main.go]

    A phone provisions a watch over the local channel, the two establish a session,
    and the watch sends an audio frame to the phone.  The program ignores the errors
    of the handshake: a session that was not established is a nil pointer, on which
    the next method panics. *)
From Stdlib Require Import ZArith Lia Strings.Byte.
From stdpp Require Import numbers gmap strings base list.
From S2P Require Import Prelude Errors GoJson Canonical GoTime Crypto Signed Identity Trust Session SessionProps Envelope.
From S2P Require Import Provisioning Payload Runner Conformance ConformanceProps ConformanceVerdict Cli.
Open Scope Z_scope.

Section simulator.
  Context {C : CryptoOps} {S F : Type}.

Abbreviation IO := (M (World S F)).

Definition typed (t : string) : option bytes := Some (encode (JObj [("type", JStr t)])).

Definition watch_bundle (watch : Device) (tp : string) (now : Time) : Bundle :=
  mkBundle "" "bundle-watch" (di_DeviceID (dev_Identity watch)) tp (typed "relay") (typed "trust") (typed "access")
    (Base64URL (go_bytes "wrapped-refresh")) (typed "grant") now (Add now Hour) noSignature.

(** [hp, _ := session.CreateHello(...)]. *)
Definition hello_unchecked (dev : Device) (peer : string) (now : Time) : IO (option LocalHello) :=
  r ← with_rand (fun rand => CreateHello rand dev "hot-audio-session" peer "grant-audio" now);
  mret (match r with Ok h => Some h | Err _ => None end).

(** [sp, _ := session.Establish(...)]: nil on error.  With an empty hello on either side
    the session identifiers differ, or the remote hello has no type. *)
Definition establish_unchecked (local remote : option LocalHello) (localID remoteID : DeviceIdentity) : option State :=
  match local, remote with
  | Some local, Some remote =>
      match Establish local (lh_Hello remote) localID remoteID with Ok s => Some s | Err _ => None end
  | _, _ => None
  end.

(** A method of a session that may be nil. *)
Definition deref {A} (p : option A) : IO A := fun m =>
  match p with
  | Some a => (Returned a, m)
  | None => (Panicked, m)
  end.

(** [_ = sp.VerifyReady(...)]. *)
Definition verify_unchecked (s : State) (ready : ReadyMsg) (remoteID : DeviceIdentity) : State :=
  match VerifyReady s ready remoteID with Ok s => s | Err _ => s end.

Definition frame : bytes := encode (JObj [("codec", JStr "pcm16"); ("duration_ms", JInt 20); ("data", JStr "redacted")]).

(** [run] up to the frame that arrives. *)
Definition audio_frame (now : Time) : IO bytes :=
  phone ← new_device "local" "phone" now;
  watch ← new_device "local" "watch" now;
  channel ← establish_channel "oob-123456";
  let tp := thumbprint_or_empty watch in
  bundle ← try (SignBundle phone (watch_bundle watch tp now));
  _ ← try (ApplyBundle channel (dev_Identity watch) bundle (dev_Identity phone) now);
  hp ← hello_unchecked phone (di_DeviceID (dev_Identity watch)) now;
  hw ← hello_unchecked watch (di_DeviceID (dev_Identity phone)) now;
  let sp := establish_unchecked hp hw (dev_Identity phone) (dev_Identity watch) in
  let sw := establish_unchecked hw hp (dev_Identity watch) (dev_Identity phone) in
  sp ← deref sp;
  let rp := ready_or_zero (CreateReady sp phone) in
  sw ← deref sw;
  let rw := ready_or_zero (CreateReady sw watch) in
  let sp := verify_unchecked sp rw (dev_Identity watch) in
  let sw := verify_unchecked sw rp (dev_Identity phone) in
  '(env, _) ← encrypt sw "audio-1" TypeAudioFrame (mkRoute "relay-local" 10 5) frame;
  '(plain, _) ← decrypt (Some sp) env;
  mret plain.

Definition simulate : IO unit :=
  now ← now_utc;
  plain ← audio_frame now;
  Println ("phone-watch-simulator ok audio.frame bytes " +:+ Itoa (Z.of_nat (length plain))).

(** [main]: an error of [run] is a panic. *)
Definition simulator_main : IO unit := fun m =>
  match simulate m with
  | (Failed _, m) => (Panicked, m)
  | r => r
  end.

(** ** It works *)

Context {L : CryptoLaws C}.

Lemma runs_hello_unchecked now dev peer : now_ok now = true ->
  runs 32 (hello_unchecked dev peer now)
    (fun h => exists h', h = Some h' /\ exists r r', CreateHello r dev "hot-audio-session" peer "grant-audio" now = (Ok h', r')).
Proof using L.
  intros Hnow m Hm. destruct (runs_hello now Hnow dev "hot-audio-session" peer "grant-audio" m Hm) as (h & m' & E & Hh & Hr).
  exists (Some h), m'. split; [|eauto]. revert E. unfold create_hello, try_rand, hello_unchecked, mbind, M_bind.
  destruct (with_rand _ m) as [[[h'|e]| | |] m1]; cbn; intros E; by simplify_eq.
Qed.

Lemma watch_bundle_signed now issuer watch tp : now_ok now = true ->
  exists b, SignBundle issuer (watch_bundle watch tp now) = Ok b.
Proof using.
  intros Hnow. eapply SignBundle_total; try reflexivity; [|eapply (now_representable now Hnow); cbn; rewrite !elem_of_cons; tauto..].
  repeat (constructor; [split; [reflexivity|vm_compute; discriminate]|]). constructor.
Qed.

Lemma runs_audio_frame now : now_ok now = true -> runs 192 (audio_frame now) (fun plain => plain = frame).
Proof using L.
  intros Hnow. unfold audio_frame. eapply (runs_bind 32 160); [by apply runs_device|]. intros phone Hp.
  eapply (runs_bind 32 128); [by apply runs_device|]. intros watch Hw. eapply (runs_bind 64 64); [apply runs_channel|]. intros ch Hc.
  cbv zeta. destruct (watch_bundle_signed now phone watch (thumbprint_or_empty watch) Hnow) as [b Eb].
  eapply runs_try_then; [exact Eb|]. destruct (provisioning_objects_verify phone now (proj1 Hp)) as (_ & _ & Hb).
  pose proof Hw as (_ & _ & Iw & Htp & _). pose proof Hp as (_ & _ & Ip & _).
  eapply runs_try_then; [apply (Hb _ _ _ _ Eb); unfold thumbprint_or_empty; rewrite Htp; split_and!; try done; cbn; unfold Hour, Minute, Second; lia|].
  rewrite Iw, Ip. eapply (runs_bind 32 32); [by apply runs_hello_unchecked|]. intros ? (hp & -> & Ehp).
  eapply (runs_bind 32 0); [by apply runs_hello_unchecked|]. intros ? (hw & -> & Ehw).
  destruct (hellos_ready now "local" "watch" "phone" watch phone "hot-audio-session" "grant-audio" hw hp)
    as (sw & sp & rw & rp & E2 & E1 & E4 & E3 & E6 & E5 & P); [done..|].
  cbn [establish_unchecked]. rewrite E1, E2. eapply (runs_bind 0 0 (deref (Some sp)) _ (fun s => s = sp)); [by apply runs_ret|].
  intros ? ->. eapply (runs_bind 0 0 (deref (Some sw)) _ (fun s => s = sw)); [by apply runs_ret|]. intros ? ->.
  unfold verify_unchecked. rewrite E3, E4. cbn [ready_or_zero]. rewrite E5, E6.
  eapply (runs_bind 0 0 _ _ (fun p => exists s, Decrypt (Some (with_ready sp)) p.1 = (Ok frame, s))).
  { apply (runs_encrypt (with_ready sw) (with_ready sp)); [done..|]. intros. eauto. }
  intros [env s'] [s Ed]. cbn [fst] in Ed. unfold decrypt. rewrite Ed.
  eapply (runs_bind 0 0 _ _ (fun p => p.1 = frame)); [eapply runs_try_then; [reflexivity|]; by apply runs_ret|].
  intros [plain s2] Ep. by apply runs_ret.
Qed.

(** With 192 random bytes the simulator reports the frame that reached the phone, and
    does not panic. *)
Theorem simulator_delivers (m : Machine (World S F)) :
  now_ok (UTC (mc_clock m O)) = true -> (192 <= length (mc_rand m))%nat ->
  exists m', simulator_main m = (Returned tt, m') /\
    mc_net m' = mkWorld (wo_net (mc_net m)) (wo_stdout (mc_net m) +:+ "phone-watch-simulator ok audio.frame bytes 52" +:+ nl)
      (wo_stderr (mc_net m)) (wo_os (mc_net m)).
Proof using L.
  intros Hnow Hm.
  destruct (runs_audio_frame (UTC (mc_clock m O)) Hnow
    (mkMachine (mc_rand m) (fun n => mc_clock m (1 + n)%nat) (mc_text m) (mc_net m)) Hm) as (plain & m' & Ea & -> & _ & En).
  assert (simulate m = Println ("phone-watch-simulator ok audio.frame bytes " +:+ Itoa (Z.of_nat (length frame))) m') as E.
  { unfold simulate. eapply M_bind_step; [reflexivity|]. eapply M_bind_step; [exact Ea|]. reflexivity. }
  unfold simulator_main. rewrite E. eexists. split; [reflexivity|]. cbn [mc_net]. by rewrite En.
Qed.

End simulator.
